(** * MongoDBParser: a verification development

    A shallow embedding of the Go package [mongoparser] (files [utils.go],
    [parser.go], [types.go], [executor.go]) together with theorems about its
    scanners, its loose-literal normaliser, its operation builder, its
    metadata reader and its executor.

    Conventions of the embedding.

    - A Go [string] is a [String.string]; its characters are the bytes of the
      Go string, which need not be valid UTF-8.
    - A [range] loop over a string walks its runes ([rangeString]): a byte
      that is part of no valid encoding is read as the rune U+FFFD, one byte
      wide.  The loops of [splitArguments] and [removeTrailingCommas] copy
      their runes with [WriteRune], which writes the encoding of the rune,
      and are modelled rune by rune.  The two [range] loops of parser.go
      (the counting loop of [splitIntoStatements] and the search for the
      closing parenthesis in [parseMongoStatement]) write nothing and test
      for ASCII characters only, which no byte from 128 on and no rune from
      128 on is; they are modelled byte by byte, with the byte offset of the
      rune as the index.  The loop of [addQuotesToKeys] walks bytes and
      appends [string(char)], which is modelled as such ([stringOfByte]).
      [strings.TrimSpace] is modelled for the ASCII white space.
    - Loops that build a result with [strings.Builder] or [result += ...] are
      functions with the builder as an accumulator.
    - A Go map is a [gmap]; the order in which [range] walks a map is not
      part of the map and is supplied by the runtime (see [mapRange]).
    - [log.Printf] appends a [log_entry] to an output that no function reads.
    - The Go standard library ([strings], [strconv], [encoding/json],
      [unicode/utf8]) is not part of the package; the modules [GoStrings],
      [GoFloat], [GoStrconv], [GoJSON] and [GoUTF8] model the parts of it
      that the package calls.
    - The MongoDB driver is not part of the package either; the executor
      calls it through the class [MongoDriver], with the database as a state
      that every call may change. *)
From Stdlib Require Import ZArith Ascii String List Bool Lia.
From Stdlib Require Import Floats.SpecFloat.
From stdpp Require Import base gmap strings list.

Local Open Scope string_scope.
Local Open Scope list_scope.

(** ** Characters *)

Definition DQ : ascii := "034"%char.  (* the double quote *)
Definition SQ : ascii := "'"%char.    (* the single quote *)
Definition TAB : ascii := "009"%char.
Definition LF : ascii := "010"%char.
Definition VT : ascii := "011"%char.
Definition FF : ascii := "012"%char.
Definition CR : ascii := "013"%char.
Definition NUL : ascii := "000"%char. (* zero value of a rune variable *)

Definition chr (c : ascii) : string := String c "".

(** The characters of a string. *)
Definition chars (s : string) : list ascii := list_ascii_of_string s.

(** [ascii_between lo c hi] is [lo <= c && c <= hi]. *)
Definition ascii_between (lo c hi : ascii) : bool :=
  (nat_of_ascii lo <=? nat_of_ascii c)%nat && (nat_of_ascii c <=? nat_of_ascii hi)%nat.

(** ** UTF-8 *)

Module GoUTF8.

Definition byte (n : Z) : ascii := ascii_of_nat (Z.to_nat n).

(** The number of a byte; for an ASCII character it is the rune of the
    character literal, as in [char == ',']. *)
Definition code (c : ascii) : Z := Z.of_nat (nat_of_ascii c).

(** [utf8.EncodeRune]: the UTF-8 encoding of a code point. *)
Definition encodeRune (r : Z) : string :=
  if (r <? 128)%Z then chr (byte r)
  else if (r <? 2048)%Z then
    String (byte (192 + r / 64)) (chr (byte (128 + r mod 64)))
  else if (r <? 65536)%Z then
    String (byte (224 + r / 4096))
      (String (byte (128 + (r / 64) mod 64)) (chr (byte (128 + r mod 64))))
  else
    String (byte (240 + r / 262144))
      (String (byte (128 + (r / 4096) mod 64))
         (String (byte (128 + (r / 64) mod 64)) (chr (byte (128 + r mod 64))))).

(** The conversion [string(char)] of a byte [char]: as for every integer,
    the UTF-8 encoding of the code point of that number, which is the byte
    itself below 128 and two bytes from 128 on. *)
Definition stringOfByte (char : ascii) : string :=
  encodeRune (Z.of_nat (nat_of_ascii char)).

(** [utf8.RuneError], the replacement character U+FFFD, and [utf8.MaxRune]. *)
Definition RuneError : Z := 65533.

Definition MaxRune : Z := 1114111.

(** The runes that have an encoding: the code points up to [MaxRune] that
    are no surrogates. *)
Definition isScalar (r : Z) : bool :=
  (0 <=? r)%Z && (r <=? MaxRune)%Z && negb ((55296 <=? r)%Z && (r <=? 57343)%Z).

(** The bytes that may follow the first byte [s0] of an encoding of more
    than one byte lie between [acceptLo s0] and [acceptHi s0]; the bytes
    after them lie between 128 and 191. *)
Definition acceptLo (s0 : Z) : Z :=
  if (s0 =? 224)%Z then 160%Z else if (s0 =? 240)%Z then 144%Z else 128%Z.

Definition acceptHi (s0 : Z) : Z :=
  if (s0 =? 237)%Z then 159%Z else if (s0 =? 244)%Z then 143%Z else 191%Z.

Definition inRange (lo : Z) (b : ascii) (hi : Z) : bool :=
  (lo <=? code b)%Z && (code b <=? hi)%Z.

(** [utf8.DecodeRuneInString]: the first rune of [s] and its width in bytes.
    A first byte that begins no encoding, or an encoding that is cut short
    or goes on with a byte out of range, is [RuneError] of width 1.  The
    bits that the bytes give to the rune ([s0 & 0x1F], [s1 & 0x3F], ...) are
    written as differences, which they are for the bytes in range. *)
Definition DecodeRuneInString (s : string) : Z * nat :=
  match s with
  | "" => (RuneError, 0%nat)
  | String b0 s1 =>
      let s0 := code b0 in
      if (s0 <? 128)%Z then (s0, 1%nat)
      else if (s0 <? 194)%Z || (244 <? s0)%Z then (RuneError, 1%nat)
      else
        match s1 with
        | String b1 s2 =>
            if negb (inRange (acceptLo s0) b1 (acceptHi s0)) then (RuneError, 1%nat)
            else if (s0 <? 224)%Z then
              (((s0 - 192) * 64 + (code b1 - 128))%Z, 2%nat)
            else
              match s2 with
              | String b2 s3 =>
                  if negb (inRange 128 b2 191) then (RuneError, 1%nat)
                  else if (s0 <? 240)%Z then
                    (((s0 - 224) * 4096 + (code b1 - 128) * 64 + (code b2 - 128))%Z, 3%nat)
                  else
                    match s3 with
                    | String b3 _ =>
                        if negb (inRange 128 b3 191) then (RuneError, 1%nat)
                        else
                          (((s0 - 240) * 262144 + (code b1 - 128) * 4096
                            + (code b2 - 128) * 64 + (code b3 - 128))%Z, 4%nat)
                    | "" => (RuneError, 1%nat)
                    end
              | "" => (RuneError, 1%nat)
              end
        | "" => (RuneError, 1%nat)
        end
  end.

(** [s[n:]] for [n] up to the length of [s]. *)
Fixpoint dropBytes (n : nat) (s : string) : string :=
  match n, s with
  | S n', String _ s' => dropBytes n' s'
  | _, _ => s
  end.

(** [for i, char := range s]: the runes of [s] in order, each with the text
    that follows it, [s[i+width:]], where [width] is the width of the rune
    at [i].  Every rune is at least one byte wide, so the length of [s] is
    fuel enough. *)
Fixpoint rangeString_from (fuel : nat) (s : string) : list (Z * string) :=
  match fuel with
  | O => []
  | S fuel' =>
      match s with
      | "" => []
      | String _ _ =>
          let '(char, width) := DecodeRuneInString s in
          let rest := dropBytes width s in
          (char, rest) :: rangeString_from fuel' rest
      end
  end.

Definition rangeString (s : string) : list (Z * string) :=
  rangeString_from (String.length s) s.

End GoUTF8.

Import GoUTF8.

(** [WriteRune] on a [strings.Builder]: the encoding of the rune is
    appended, and that of [RuneError] for a rune that has none. *)
Definition WriteRune (b : string) (r : Z) : string :=
  b +:+ encodeRune (if isScalar r then r else RuneError).

(** ** The parts of Go's [strings] package that the parser calls *)

Module GoStrings.

(** White space of [strings.TrimSpace] (the ASCII part of [unicode.IsSpace]). *)
Definition isSpace (c : ascii) : bool :=
  (c =? TAB)%char || (c =? LF)%char || (c =? VT)%char || (c =? FF)%char
  || (c =? CR)%char || (c =? " ")%char.

Fixpoint dropWhile (p : ascii -> bool) (s : string) : string :=
  match s with
  | "" => ""
  | String c s' => if p c then dropWhile p s' else s
  end.

Fixpoint takeWhile (p : ascii -> bool) (s : string) : string :=
  match s with
  | "" => ""
  | String c s' => if p c then String c (takeWhile p s') else ""
  end.

Fixpoint dropWhileEnd (p : ascii -> bool) (s : string) : string :=
  match s with
  | "" => ""
  | String c s' =>
      let t := dropWhileEnd p s' in
      if p c && (t =? "") then "" else String c t
  end.

Definition TrimFunc (s : string) (p : ascii -> bool) : string :=
  dropWhileEnd p (dropWhile p s).

Definition TrimSpace (s : string) : string := TrimFunc s isSpace.

Fixpoint memChar (c : ascii) (cutset : string) : bool :=
  match cutset with
  | "" => false
  | String d cutset' => (c =? d)%char || memChar c cutset'
  end.

Definition Trim (s cutset : string) : string :=
  TrimFunc s (fun c => memChar c cutset).

Definition HasPrefix (s prefix : string) : bool := String.prefix prefix s.

Fixpoint HasSuffix (s suffix : string) : bool :=
  (s =? suffix)
  || match s with
     | "" => false
     | String _ s' => HasSuffix s' suffix
     end.

Fixpoint Contains (s substr : string) : bool :=
  String.prefix substr s
  || match s with
     | "" => false
     | String _ s' => Contains s' substr
     end.

(** [strings.Index]: the byte offset of the first occurrence, or -1. *)
Fixpoint Index (s substr : string) : Z :=
  if String.prefix substr s then 0%Z
  else match s with
       | "" => (-1)%Z
       | String _ s' =>
           let r := Index s' substr in
           if (r =? -1)%Z then (-1)%Z else (r + 1)%Z
       end.

(** [strings.LastIndex]: the byte offset of the last occurrence, or -1. *)
Fixpoint LastIndex (s substr : string) : Z :=
  match s with
  | "" => if String.prefix substr "" then 0%Z else (-1)%Z
  | String _ s' =>
      let r := LastIndex s' substr in
      if (0 <=? r)%Z then (r + 1)%Z
      else if String.prefix substr s then 0%Z else (-1)%Z
  end.

Definition TrimPrefix (s prefix : string) : string :=
  if HasPrefix s prefix
  then String.substring (String.length prefix) (String.length s - String.length prefix) s
  else s.

Definition TrimSuffix (s suffix : string) : string :=
  if HasSuffix s suffix
  then String.substring 0 (String.length s - String.length suffix) s
  else s.

(** [strings.Split(s, sep)] for a one-character separator. *)
Fixpoint Split (s : string) (sep : ascii) : list string :=
  match s with
  | "" => [""]
  | String c s' =>
      if (c =? sep)%char then "" :: Split s' sep
      else match Split s' sep with
           | l :: ls => String c l :: ls
           | [] => [chr c]
           end
  end.

(** [strings.ReplaceAll(s, old, new)] for one-character [old] and [new]. *)
Fixpoint ReplaceAll (s : string) (old new : ascii) : string :=
  match s with
  | "" => ""
  | String c s' => String (if (c =? old)%char then new else c) (ReplaceAll s' old new)
  end.

(** [strings.Join(elems, "")]. *)
Fixpoint Join (elems : list string) : string :=
  match elems with
  | [] => ""
  | e :: elems' => e +:+ Join elems'
  end.

(** The slice expressions [s[lo:hi]] and [s[lo:]], for indices in range. *)
Definition slice (s : string) (lo hi : Z) : string :=
  String.substring (Z.to_nat lo) (Z.to_nat (hi - lo)) s.

Definition sliceFrom (s : string) (lo : Z) : string :=
  String.substring (Z.to_nat lo) (String.length s - Z.to_nat lo) s.

End GoStrings.

Import GoStrings.

(** A literal with double quotes is written with single quotes and passed
    through [jtext]: [jtext "{'a':1}"] is the text [{"a":1}]. *)
Definition jtext (s : string) : string := ReplaceAll s SQ DQ.

(** ** utils.go: the scanners and the loose-literal normaliser *)

(** *** [splitArguments] *)

Record splitState := {
  sp_args : list string;
  sp_current : string;
  sp_braceLevel : Z;
  sp_inQuotes : bool;
  sp_quoteChar : Z
}.

(** The body of [for _, char := range argsString]. *)
Definition splitArguments_step (st : splitState) (char : Z) : splitState :=
  if (char =? code DQ)%Z || (char =? code SQ)%Z then
    let '(inQuotes, quoteChar) :=
      if negb (sp_inQuotes st) then (true, char)
      else if (char =? sp_quoteChar st)%Z then (false, sp_quoteChar st)
      else (sp_inQuotes st, sp_quoteChar st) in
    {| sp_args := sp_args st; sp_current := WriteRune (sp_current st) char;
       sp_braceLevel := sp_braceLevel st;
       sp_inQuotes := inQuotes; sp_quoteChar := quoteChar |}
  else if (char =? code "{")%Z then
    {| sp_args := sp_args st; sp_current := WriteRune (sp_current st) char;
       sp_braceLevel := if negb (sp_inQuotes st) then (sp_braceLevel st + 1)%Z
                        else sp_braceLevel st;
       sp_inQuotes := sp_inQuotes st; sp_quoteChar := sp_quoteChar st |}
  else if (char =? code "}")%Z then
    {| sp_args := sp_args st; sp_current := WriteRune (sp_current st) char;
       sp_braceLevel := if negb (sp_inQuotes st) then (sp_braceLevel st - 1)%Z
                        else sp_braceLevel st;
       sp_inQuotes := sp_inQuotes st; sp_quoteChar := sp_quoteChar st |}
  else if (char =? code ",")%Z then
    if negb (sp_inQuotes st) && (sp_braceLevel st =? 0)%Z then
      {| sp_args := sp_args st ++ [TrimSpace (sp_current st)]; sp_current := "";
         sp_braceLevel := sp_braceLevel st;
         sp_inQuotes := sp_inQuotes st; sp_quoteChar := sp_quoteChar st |}
    else
      {| sp_args := sp_args st; sp_current := WriteRune (sp_current st) char;
         sp_braceLevel := sp_braceLevel st;
         sp_inQuotes := sp_inQuotes st; sp_quoteChar := sp_quoteChar st |}
  else
    {| sp_args := sp_args st; sp_current := WriteRune (sp_current st) char;
       sp_braceLevel := sp_braceLevel st;
       sp_inQuotes := sp_inQuotes st; sp_quoteChar := sp_quoteChar st |}.

(** The loop over the runes of [argsString]. *)
Fixpoint splitArguments_loop (argsString : list (Z * string)) (st : splitState) :
    splitState :=
  match argsString with
  | [] => st
  | (char, _) :: rest => splitArguments_loop rest (splitArguments_step st char)
  end.

Definition splitArguments (argsString : string) : list string :=
  let st := splitArguments_loop (rangeString argsString)
              {| sp_args := []; sp_current := ""; sp_braceLevel := 0;
                 sp_inQuotes := false; sp_quoteChar := 0 |} in
  if (0 <? String.length (sp_current st))%nat
  then sp_args st ++ [TrimSpace (sp_current st)]
  else sp_args st.

(** *** [removeTrailingCommas] *)

(** The white space skipped by the look-ahead [input[j] == ' ' || ...]. *)
Definition isLookaheadSpace (c : ascii) : bool :=
  (c =? " ")%char || (c =? TAB)%char || (c =? LF)%char || (c =? CR)%char.

(** [for i, char := range input], over the runes of [input]; each rune comes
    with the text [rest] that follows it.  A comma is one byte wide, so the
    look-ahead from [j := i + 1] reads the bytes of [rest]. *)
Fixpoint removeTrailingCommas_loop (input : list (Z * string)) (inQuotes : bool)
    (quoteChar : Z) (result : string) : string :=
  match input with
  | [] => result
  | (char, rest) :: input' =>
      if (char =? code DQ)%Z || (char =? code SQ)%Z then
        let '(inQuotes', quoteChar') :=
          if negb inQuotes then (true, char)
          else if (char =? quoteChar)%Z then (false, quoteChar)
          else (inQuotes, quoteChar) in
        removeTrailingCommas_loop input' inQuotes' quoteChar' (WriteRune result char)
      else if (char =? code ",")%Z then
        if inQuotes then
          removeTrailingCommas_loop input' inQuotes quoteChar (WriteRune result char)
        else
          match dropWhile isLookaheadSpace rest with
          | String next _ =>
              if (next =? "}")%char || (next =? "]")%char
              then removeTrailingCommas_loop input' inQuotes quoteChar result
              else removeTrailingCommas_loop input' inQuotes quoteChar (WriteRune result char)
          | "" => removeTrailingCommas_loop input' inQuotes quoteChar (WriteRune result char)
          end
      else removeTrailingCommas_loop input' inQuotes quoteChar (WriteRune result char)
  end.

Definition removeTrailingCommas (input : string) : string :=
  removeTrailingCommas_loop (rangeString input) false 0 "".

(** *** [addQuotesToKeys] *)

Definition isAlphaStart (char : ascii) : bool :=
  ascii_between "a" char "z" || ascii_between "A" char "Z"
  || (char =? "_")%char || (char =? "$")%char.

Definition isAlphaNum (char : ascii) : bool :=
  isAlphaStart char || ascii_between "0" char "9".

(** The condition of the inner loop that finds the end of the identifier. *)
Definition isKeyChar (c : ascii) : bool := isAlphaNum c || (c =? "_")%char.

(** The condition of the inner loop that skips white space after it. *)
Definition isBlank (c : ascii) : bool := (c =? " ")%char || (c =? TAB)%char.

(** [for i < len(input)]; the argument [input] is [input[i:]] and [char] is
    the byte [input[i]], appended as [string(char)].  Every iteration consumes
    at least one byte, so [fuel = len(input)] is enough
    ([addQuotesToKeys_loop_fuel] below). *)
Fixpoint addQuotesToKeys_loop (fuel : nat) (input : string) (inQuotes : bool)
    (result : string) : string :=
  match fuel with
  | O => result
  | S fuel' =>
      match input with
      | "" => result
      | String char rest =>
          if (char =? DQ)%char then
            addQuotesToKeys_loop fuel' rest (negb inQuotes) (result +:+ stringOfByte char)
          else if inQuotes then
            addQuotesToKeys_loop fuel' rest inQuotes (result +:+ stringOfByte char)
          else if isAlphaStart char then
            let key := takeWhile isKeyChar input in
            let afterSpace := dropWhile isBlank (dropWhile isKeyChar input) in
            match afterSpace with
            | String ":" _ =>
                addQuotesToKeys_loop fuel' afterSpace inQuotes
                  (result +:+ (chr DQ +:+ key +:+ chr DQ))
            | _ =>
                addQuotesToKeys_loop fuel' afterSpace inQuotes (result +:+ key)
            end
          else
            addQuotesToKeys_loop fuel' rest inQuotes (result +:+ stringOfByte char)
      end
  end.

Definition addQuotesToKeys (input : string) : string :=
  addQuotesToKeys_loop (String.length input) input false "".

(** *** [normalizeJavaScriptObject] *)

Definition normalizeJavaScriptObject (input : string) : string :=
  let input := ReplaceAll input SQ DQ in
  let input := removeTrailingCommas input in
  if Contains input "{" && Contains input ":"
  then addQuotesToKeys input
  else input.

(** ** Go values

    [float64] is IEEE 754 binary64 as [spec_float] with [prec = 53] and
    [emax = 1024]; [int] is a 64-bit integer carried as a [Z]. *)

Module GoFloat.

Definition float64 : Type := spec_float.

Definition prec : Z := 53.
Definition emax : Z := 1024.

Definition minInt64 : Z := - 2 ^ 63.
Definition maxInt64 : Z := 2 ^ 63 - 1.

(** The conversion [float64(i)] of an integer: round to nearest, ties to even. *)
Definition ofInt (i : Z) : float64 := binary_normalize prec emax i 0 false.

(** The integer part of a finite float, rounded toward zero. *)
Definition truncate (f : float64) : option Z :=
  match f with
  | S754_zero _ => Some 0%Z
  | S754_finite s m e =>
      let a := if (0 <=? e)%Z then (Z.pos m * 2 ^ e)%Z else (Z.pos m / 2 ^ (- e))%Z in
      Some (if s then (- a)%Z else a)
  | _ => None
  end.

(** The comparison [x == y] of floats. *)
Definition eqb (x y : float64) : bool := SFeqb x y.

(** The nearest float to [m * 10 ^ e] for integers [m] and [e]. *)
Definition ofDecimal (neg : bool) (m : Z) (e : Z) : float64 :=
  match m with
  | Z.pos p =>
      if (0 <=? e)%Z then binary_normalize prec emax (if neg then - (m * 10 ^ e) else m * 10 ^ e)%Z 0 false
      else SFdiv prec emax (S754_finite neg p 0) (S754_finite false (Z.to_pos (10 ^ (- e))) 0)
  | _ => S754_zero neg
  end.

End GoFloat.

Import GoFloat.

(** A dynamic value held by an [interface{}]. *)
#[warnings="-register-all"]
Inductive value : Type :=
| VNil
| VBool (b : bool)
| VFloat64 (f : float64)
| VInt (i : Z)
| VInt32 (i : Z)
| VInt64 (i : Z)
| VString (s : string)
| VSlice (l : list value)
| VMap (m : gmap string value).

(** [bson.M] and [map[string]interface{}]: [None] is the nil map. *)
Definition bsonM : Type := option (gmap string value).

(** [bson.D]: a slice of [bson.E{Key, Value}]. *)
Definition bsonD : Type := list (string * value).

(** ** The parts of [strconv] that the parser calls *)

Module GoStrconv.

Definition isDigit (c : ascii) : bool := ascii_between "0" c "9".

Definition digitValue (c : ascii) : Z := Z.of_nat (nat_of_ascii c - 48).

Definition allDigits (s : string) : bool := forallb isDigit (chars s).

(** The value of a string of decimal digits. *)
Definition digitsValue (s : string) : Z :=
  fold_left (fun acc c => (10 * acc + digitValue c)%Z) (chars s) 0%Z.

(** [strconv.Atoi]: an optional sign and decimal digits, within [int];
    [None] stands for a non-nil error. *)
Definition Atoi (s : string) : option Z :=
  let '(neg, body) :=
    match s with
    | String "-" r => (true, r)
    | String "+" r => (false, r)
    | _ => (false, s)
    end in
  if (body =? "") || negb (allDigits body) then None
  else
    let n := if neg then (- digitsValue body)%Z else digitsValue body in
    if (minInt64 <=? n)%Z && (n <=? maxInt64)%Z then Some n else None.

(** A decimal floating-point literal
    [[+-] digits [. digits] [(e|E) [+-] digits]] with at least one mantissa
    digit, read to the nearest [float64]; [None] when the text has another
    shape or the value overflows.  [strconv.ParseFloat] agrees with it on
    these texts. *)
Definition parseDecimalFloat (s : string) : option float64 :=
  let '(neg, body) :=
    match s with
    | String "-" r => (true, r)
    | String "+" r => (false, r)
    | _ => (false, s)
    end in
  let intPart := takeWhile isDigit body in
  let afterInt := dropWhile isDigit body in
  let '(fracPart, afterFrac) :=
    match afterInt with
    | String "." r => (takeWhile isDigit r, dropWhile isDigit r)
    | _ => ("", afterInt)
    end in
  let exponent :=
    match afterFrac with
    | "" => Some 0%Z
    | String c r =>
        if (c =? "e")%char || (c =? "E")%char then
          let '(eneg, edigits) :=
            match r with
            | String "-" r' => (true, r')
            | String "+" r' => (false, r')
            | _ => (false, r)
            end in
          if (edigits =? "") || negb (allDigits edigits) then None
          else Some (if eneg then (- digitsValue edigits)%Z else digitsValue edigits)
        else None
    end in
  match exponent with
  | None => None
  | Some e =>
      if (intPart +:+ fracPart =? "") then None
      else
        let f := ofDecimal neg (digitsValue (intPart +:+ fracPart))
                   (e - Z.of_nat (String.length fracPart)) in
        match f with
        | S754_infinity _ | S754_nan => None
        | _ => Some f
        end
  end.

End GoStrconv.

Import GoStrconv.

(** ** The syntax of JSON, as [encoding/json] checks it *)

Module GoJSON.

#[warnings="-register-all"]
Inductive json : Type :=
| JNull
| JBool (b : bool)
| JNumber (literal : string)
| JString (s : string)
| JArray (elements : list json)
| JObject (members : list (string * json)).

Definition isJSONSpace (c : ascii) : bool :=
  (c =? " ")%char || (c =? TAB)%char || (c =? LF)%char || (c =? CR)%char.

Definition skipSpace (s : string) : string := dropWhile isJSONSpace s.

Definition maxNestingDepth : Z := 10000.

Definition hexValue (c : ascii) : option Z :=
  if ascii_between "0" c "9" then Some (Z.of_nat (nat_of_ascii c - 48))
  else if ascii_between "a" c "f" then Some (Z.of_nat (nat_of_ascii c - 87))
  else if ascii_between "A" c "F" then Some (Z.of_nat (nat_of_ascii c - 55))
  else None.

Definition hex4 (a b c d : ascii) : option Z :=
  match hexValue a, hexValue b, hexValue c, hexValue d with
  | Some x, Some y, Some z, Some w => Some (((x * 16 + y) * 16 + z) * 16 + w)%Z
  | _, _, _, _ => None
  end.

(** [eat c s] is the text after [c] when [s] begins with [c]. *)
Definition eat (c : ascii) (s : string) : option string :=
  match s with
  | String d r => if (d =? c)%char then Some r else None
  | "" => None
  end.

(** A unit of a string literal: a character, or a [\uXXXX] escape. *)
Inductive strUnit : Type :=
| UChar (c : ascii)
| UEscape (r : Z).

(** The character that a one-letter escape stands for. *)
Definition unescape (e : ascii) : option ascii :=
  if (e =? DQ)%char then Some DQ
  else if (e =? "\")%char then Some "\"%char
  else if (e =? "/")%char then Some "/"%char
  else if (e =? "b")%char then Some "008"%char
  else if (e =? "f")%char then Some FF
  else if (e =? "n")%char then Some LF
  else if (e =? "r")%char then Some CR
  else if (e =? "t")%char then Some TAB
  else None.

(** The units of a string literal up to its closing quote, and the text
    after it; [None] for an unterminated literal, a control character or a
    malformed escape. *)
Fixpoint readString (s : string) : option (list strUnit * string) :=
  match s with
  | "" => None
  | String c r =>
      if (c =? DQ)%char then Some ([], r)
      else if (c =? "\")%char then
        match r with
        | String e r' =>
            if (e =? "u")%char then
              match r' with
              | String h1 (String h2 (String h3 (String h4 r''))) =>
                  match hex4 h1 h2 h3 h4, readString r'' with
                  | Some x, Some (us, rest) => Some (UEscape x :: us, rest)
                  | _, _ => None
                  end
              | _ => None
              end
            else
              match unescape e, readString r' with
              | Some x, Some (us, rest) => Some (UChar x :: us, rest)
              | _, _ => None
              end
        | "" => None
        end
      else if (nat_of_ascii c <? 32)%nat then None
      else
        match readString r with
        | Some (us, rest) => Some (UChar c :: us, rest)
        | None => None
        end
  end.

Definition replacementChar : Z := 65533.

(** The text of a string literal: a surrogate pair of escapes is one rune,
    a lone surrogate is the replacement character. *)
Fixpoint decodeUnits (us : list strUnit) : string :=
  match us with
  | [] => ""
  | UChar c :: us' => String c (decodeUnits us')
  | UEscape r :: us' =>
      if (55296 <=? r)%Z && (r <? 57344)%Z then
        match us' with
        | UEscape r2 :: us'' =>
            if (r <? 56320)%Z && (56320 <=? r2)%Z && (r2 <? 57344)%Z
            then encodeRune (65536 + (r - 55296) * 1024 + (r2 - 56320)) +:+ decodeUnits us''
            else encodeRune replacementChar +:+ decodeUnits us'
        | _ => encodeRune replacementChar +:+ decodeUnits us'
        end
      else encodeRune r +:+ decodeUnits us'
  end.

(** The longest prefix of [s] that is a number (an optional minus; 0, or a
    non-zero digit and digits; an optional fraction of a dot and digits; an
    optional exponent of e or E, an optional sign and digits), and the rest. *)
Definition readNumber (s : string) : option (string * string) :=
  let '(sign, s1) :=
    match eat "-" s with
    | Some r => ("-", r)
    | None => ("", s)
    end in
  let '(intPart, s2) :=
    match eat "0" s1 with
    | Some r => ("0", r)
    | None => (takeWhile isDigit s1, dropWhile isDigit s1)
    end in
  if intPart =? "" then None
  else
    let '(frac, s3) :=
      match eat "." s2 with
      | Some r => (Some (takeWhile isDigit r), dropWhile isDigit r)
      | None => (None, s2)
      end in
    match frac with
    | Some "" => None
    | _ =>
        let fracText := match frac with Some f => "." +:+ f | None => "" end in
        match s3 with
        | String c r =>
            if (c =? "e")%char || (c =? "E")%char then
              let '(esign, r1) :=
                match eat "-" r, eat "+" r with
                | Some r', _ => ("-", r')
                | None, Some r' => ("+", r')
                | None, None => ("", r)
                end in
              let edigits := takeWhile isDigit r1 in
              if edigits =? "" then None
              else Some (sign +:+ intPart +:+ fracText +:+ chr c +:+ esign +:+ edigits,
                         dropWhile isDigit r1)
            else Some (sign +:+ intPart +:+ fracText, s3)
        | "" => Some (sign +:+ intPart +:+ fracText, s3)
        end
    end.

(** A value at the head of [s] (after white space) and the text after it.
    Every call consumes a character or follows a call that does, so
    [2 * len(s) + 2] is enough fuel for [s] ([readValue_fuel] below). *)
Fixpoint readValue (fuel : nat) (depth : Z) (s : string) {struct fuel} :
    option (json * string) :=
  match fuel with
  | O => None
  | S fuel' =>
      match skipSpace s with
      | "" => None
      | String c r =>
          if (c =? "{")%char then
            if (maxNestingDepth <? depth + 1)%Z then None
            else
              match eat "}" (skipSpace r) with
              | Some r' => Some (JObject [], r')
              | None =>
                  match readMembers fuel' (depth + 1)%Z r with
                  | Some (ms, rest) => Some (JObject ms, rest)
                  | None => None
                  end
              end
          else if (c =? "[")%char then
            if (maxNestingDepth <? depth + 1)%Z then None
            else
              match eat "]" (skipSpace r) with
              | Some r' => Some (JArray [], r')
              | None =>
                  match readElements fuel' (depth + 1)%Z r with
                  | Some (vs, rest) => Some (JArray vs, rest)
                  | None => None
                  end
              end
          else if (c =? DQ)%char then
            match readString r with
            | Some (us, rest) => Some (JString (decodeUnits us), rest)
            | None => None
            end
          else if String.prefix "true" (String c r) then
            Some (JBool true, sliceFrom (String c r) 4)
          else if String.prefix "false" (String c r) then
            Some (JBool false, sliceFrom (String c r) 5)
          else if String.prefix "null" (String c r) then
            Some (JNull, sliceFrom (String c r) 4)
          else
            match readNumber (String c r) with
            | Some (literal, rest) => Some (JNumber literal, rest)
            | None => None
            end
      end
  end
with readElements (fuel : nat) (depth : Z) (s : string) {struct fuel} :
    option (list json * string) :=
  match fuel with
  | O => None
  | S fuel' =>
      match readValue fuel' depth s with
      | Some (v, rest) =>
          match eat "," (skipSpace rest) with
          | Some r =>
              match readElements fuel' depth r with
              | Some (vs, rest') => Some (v :: vs, rest')
              | None => None
              end
          | None =>
              match eat "]" (skipSpace rest) with
              | Some r => Some ([v], r)
              | None => None
              end
          end
      | None => None
      end
  end
with readMembers (fuel : nat) (depth : Z) (s : string) {struct fuel} :
    option (list (string * json) * string) :=
  match fuel with
  | O => None
  | S fuel' =>
      match eat DQ (skipSpace s) with
      | Some r =>
          match readString r with
          | Some (us, afterKey) =>
              match eat ":" (skipSpace afterKey) with
              | Some afterColon =>
                  match readValue fuel' depth afterColon with
                  | Some (v, rest) =>
                      match eat "," (skipSpace rest) with
                      | Some r' =>
                          match readMembers fuel' depth r' with
                          | Some (ms, rest') => Some ((decodeUnits us, v) :: ms, rest')
                          | None => None
                          end
                      | None =>
                          match eat "}" (skipSpace rest) with
                          | Some r' => Some ([(decodeUnits us, v)], r')
                          | None => None
                          end
                      end
                  | None => None
                  end
              | None => None
              end
          | None => None
          end
      | None => None
      end
  end.

(** A whole text that is one JSON value between optional white space;
    [None] is a [*json.SyntaxError]. *)
Definition parse (data : string) : option json :=
  match readValue (2 * String.length data + 2) 0 data with
  | Some (v, rest) => if skipSpace rest =? "" then Some v else None
  | None => None
  end.

End GoJSON.

Import GoJSON.

(** ** types.go *)

(** [time.Time], as an instant counted from the zero time. *)
Definition Time : Type := Z.

Record ScriptMetadata := {
  md_Name : string;
  md_Description : string;
  md_Version : string;
  md_Author : string;
  md_Dependencies : list string;
  md_ExecutedAt : Time;
  md_Status : string;
  md_Error : string
}.

(** The fields of [options.IndexOptions] that the parser sets. *)
Record IndexOptions := {
  io_Unique : option bool;
  io_Name : option string
}.

(** [MongoOperation]; [CollOptions] is never set by the parser and is
    left out.  [op_IndexSpec] is the [interface{}] field: [None] is nil,
    [Some d] holds the [bson.D] [d]. *)
Record MongoOperation := {
  op_Type : string;
  op_Collection : string;
  op_Operation : string;
  op_Arguments : list bsonM;
  op_IndexSpec : option bsonD;
  op_IndexOptions : option IndexOptions;
  op_Validator : option (gmap string value)
}.

(** ** Errors and the log *)

Inductive error : Type :=
| Errorf (msg : string)                 (* fmt.Errorf("msg") *)
| Errorf_w (msg : string) (err : error) (* fmt.Errorf("msg: %w", err) *)
| SyntaxError                           (* the text is not JSON *)
| UnmarshalTypeError.                   (* a JSON value that does not fit the Go target *)

(** A line written by [log.Printf], by its format and arguments. *)
Inductive log_entry : Type :=
| Warning_statement (statement : string) (err : error)
| Warning_unsupported (operation collection : string)
| Warning_indexOptions (err : error)
| Warning_collOptions (err : error)
| Warning_metadata (err : error).

(** ** What the Go runtime and library decide

    The package relies on four things that its own text does not fix; the
    definitions below take them from an instance of this class, and the
    theorems hold for every instance. *)

Class GoRuntime := {
  (** [strconv.ParseFloat(s, 64)]; [None] stands for a non-nil error. *)
  ParseFloat : string -> option float64;
  (** The result of [int(v)] when [v] is NaN, infinite or beyond [int]. *)
  intOverflow : float64 -> Z;
  (** The order in which the [n]-th [range] loop of a run walks a map. *)
  mapRange : nat -> gmap string value -> list (string * value);
  mapRange_perm : forall n m, Permutation (mapRange n m) (map_to_list m);
  (** [encoding/json] storing a JSON value into a [ScriptMetadata]. *)
  decodeScriptMetadata : json -> option ScriptMetadata
}.

(** The parser runs in [M]: it reads the count of [range] loops over maps
    executed so far, and writes log lines. *)
Definition M (A : Type) : Type := nat -> A * list log_entry * nat.

Definition ret {A : Type} (a : A) : M A := fun n => (a, [], n).

Definition bind {A B : Type} (m : M A) (k : A -> M B) : M B :=
  fun n =>
    let '(a, l1, n1) := m n in
    let '(b, l2, n2) := k a n1 in
    (b, l1 ++ l2, n2).

Notation "'do' x <- m ; k" := (bind m (fun x => k))
  (at level 10, x name, m at level 100, k at level 200).
Notation "'run' m ; k" := (bind m (fun _ => k))
  (at level 10, m at level 100, k at level 200).

Definition logPrintf (e : log_entry) : M unit := fun n => (tt, [e], n).

Definition result_of {A : Type} (r : A * list log_entry * nat) : A := fst (fst r).
Definition log_of {A : Type} (r : A * list log_entry * nat) : list log_entry := snd (fst r).

Section Parser.

Context `{RT : GoRuntime}.

(** [for key, value := range m]: the pairs in the order of this loop. *)
Definition rangeMap (m : bsonM) : M (list (string * value)) :=
  fun n => (match m with Some m' => mapRange n m' | None => [] end, [], S n).

(** *** Decoding JSON into Go values *)

(** A JSON value stored into an [interface{}]; [None] when a number does
    not fit a [float64]. *)
Fixpoint toValue (j : json) : option value :=
  match j with
  | JNull => Some VNil
  | JBool b => Some (VBool b)
  | JNumber literal =>
      match ParseFloat literal with
      | Some f => Some (VFloat64 f)
      | None => None
      end
  | JString s => Some (VString s)
  | JArray elements =>
      match (fix each (l : list json) : option (list value) :=
               match l with
               | [] => Some []
               | x :: l' =>
                   match toValue x, each l' with
                   | Some v, Some vs => Some (v :: vs)
                   | _, _ => None
                   end
               end) elements with
      | Some vs => Some (VSlice vs)
      | None => None
      end
  | JObject members =>
      match (fix each (l : list (string * json)) (acc : gmap string value) :
                 option (gmap string value) :=
               match l with
               | [] => Some acc
               | (k, x) :: l' =>
                   match toValue x with
                   | Some v => each l' (<[k := v]> acc)
                   | None => None
                   end
               end) members ∅ with
      | Some m => Some (VMap m)
      | None => None
      end
  end.

(** [json.Unmarshal(data, &target)] for a nil [target] of type [bson.M] or
    [map[string]interface{}]: the target afterwards, and the error. *)
Definition Unmarshal_map (data : string) : bsonM * option error :=
  match parse data with
  | None => (None, Some SyntaxError)
  | Some JNull => (None, None)
  | Some (JObject members) =>
      match toValue (JObject members) with
      | Some (VMap m) => (Some m, None)
      | _ => (None, Some UnmarshalTypeError)
      end
  | Some _ => (None, Some UnmarshalTypeError)
  end.

(** [json.Unmarshal(data, &metadata)] for a zero [ScriptMetadata]. *)
Definition Unmarshal_metadata (data : string) : option ScriptMetadata * option error :=
  match parse data with
  | None => (None, Some SyntaxError)
  | Some j =>
      match decodeScriptMetadata j with
      | Some md => (Some md, None)
      | None => (None, Some UnmarshalTypeError)
      end
  end.

(** *** utils.go: [parseJSONLikeString] *)

Definition parseJSONLikeString (input : string) : bsonM * option error :=
  let input := TrimSpace input in
  if input =? "" then (None, Some (Errorf "empty input"))
  else
    let input := normalizeJavaScriptObject input in
    Unmarshal_map input.

(** *** parser.go: [convertToNumber] *)

(** The conversion [int(v)] of a float. *)
Definition toInt (f : float64) : Z :=
  match truncate f with
  | Some t => if (minInt64 <=? t)%Z && (t <=? maxInt64)%Z then t else intOverflow f
  | None => intOverflow f
  end.

Definition convertToNumber (v : value) : value * option error :=
  match v with
  | VString s =>
      if Contains s "." then
        match ParseFloat s with
        | Some f => (VFloat64 f, None)
        | None => (VNil, Some (Errorf "not a number"))
        end
      else
        match Atoi s with
        | Some i => (VInt i, None)
        | None => (VNil, Some (Errorf "not a number"))
        end
  | VFloat64 f =>
      if GoFloat.eqb f (ofInt (toInt f)) then (VInt (toInt f), None)
      else (VFloat64 f, None)
  | VInt _ | VInt32 _ | VInt64 _ => (v, None)
  | _ => (VNil, Some (Errorf "not a number"))
  end.

(** *** parser.go: [parseCreateIndex] *)

(** The body of [for key, value := range indexSpecMap]. *)
Definition indexSpec_step (indexSpec : bsonD) (kv : string * value) : bsonD :=
  let '(key, value) := kv in
  match convertToNumber value with
  | (numValue, None) => indexSpec ++ [(key, numValue)]
  | (_, Some _) => indexSpec ++ [(key, value)]
  end.

(** [options.Index()] with [SetUnique] and [SetName] applied as the code does. *)
Definition indexOptions_of (indexOptions : bsonM) : IndexOptions :=
  let lookup k := match indexOptions with Some m => m !! k | None => None end in
  {| io_Unique := match lookup "unique" with
                  | Some (VBool uniqueBool) => Some uniqueBool
                  | _ => None
                  end;
     io_Name := match lookup "name" with
                | Some (VString nameStr) => Some nameStr
                | _ => None
                end |}.

Definition parseCreateIndex (collection argsString : string) :
    M (option MongoOperation * option error) :=
  let op := {| op_Type := "createIndex"; op_Collection := collection;
               op_Operation := "createIndex"; op_Arguments := [];
               op_IndexSpec := None; op_IndexOptions := None;
               op_Validator := None |} in
  let args := splitArguments argsString in
  match args with
  | [] => ret (Some op, None)
  | arg0 :: moreArgs =>
      let indexSpecStr := TrimSpace arg0 in
      match parseJSONLikeString indexSpecStr with
      | (_, Some err) =>
          ret (None, Some (Errorf_w "failed to parse index specification" err))
      | (indexSpecMap, None) =>
          do entries <- rangeMap indexSpecMap;
          let indexSpec := fold_left indexSpec_step entries [] in
          let op := {| op_Type := op_Type op; op_Collection := op_Collection op;
                       op_Operation := op_Operation op; op_Arguments := op_Arguments op;
                       op_IndexSpec := Some indexSpec;
                       op_IndexOptions := op_IndexOptions op;
                       op_Validator := op_Validator op |} in
          match moreArgs with
          | [] => ret (Some op, None)
          | arg1 :: _ =>
              match parseJSONLikeString (TrimSpace arg1) with
              | (_, Some err) =>
                  run logPrintf (Warning_indexOptions err);
                  ret (Some op, None)
              | (indexOptions, None) =>
                  ret (Some {| op_Type := op_Type op; op_Collection := op_Collection op;
                               op_Operation := op_Operation op;
                               op_Arguments := op_Arguments op;
                               op_IndexSpec := op_IndexSpec op;
                               op_IndexOptions := Some (indexOptions_of indexOptions);
                               op_Validator := op_Validator op |}, None)
              end
          end
      end
  end.

(** *** parser.go: [parseInsert], [parseUpdate], [parseDelete] *)

Definition parseInsert (collection operation argsString : string) :
    option MongoOperation * option error :=
  match parseJSONLikeString argsString with
  | (_, Some err) => (None, Some (Errorf_w "failed to parse insert document" err))
  | (document, None) =>
      (Some {| op_Type := "insert"; op_Collection := collection;
               op_Operation := operation; op_Arguments := [document];
               op_IndexSpec := None; op_IndexOptions := None;
               op_Validator := None |}, None)
  end.

Definition parseUpdate (collection operation argsString : string) :
    option MongoOperation * option error :=
  let args := splitArguments argsString in
  if (length args <? 2)%nat then
    (None, Some (Errorf "update operation requires at least 2 arguments"))
  else
    match parseJSONLikeString (nth 0 args "") with
    | (_, Some err) => (None, Some (Errorf_w "failed to parse update filter" err))
    | (filter, None) =>
        match parseJSONLikeString (nth 1 args "") with
        | (_, Some err) => (None, Some (Errorf_w "failed to parse update document" err))
        | (update, None) =>
            (Some {| op_Type := "update"; op_Collection := collection;
                     op_Operation := operation; op_Arguments := [filter; update];
                     op_IndexSpec := None; op_IndexOptions := None;
                     op_Validator := None |}, None)
        end
    end.

Definition parseDelete (collection operation argsString : string) :
    option MongoOperation * option error :=
  match parseJSONLikeString argsString with
  | (_, Some err) => (None, Some (Errorf_w "failed to parse delete filter" err))
  | (filter, None) =>
      (Some {| op_Type := "delete"; op_Collection := collection;
               op_Operation := operation; op_Arguments := [filter];
               op_IndexSpec := None; op_IndexOptions := None;
               op_Validator := None |}, None)
  end.

(** *** parser.go: [splitIntoStatements] *)

Record stmtState := {
  ss_statements : list string;
  ss_current : string;
  ss_braceLevel : Z;
  ss_inQuotes : bool;
  ss_quoteChar : ascii
}.

(** The body of [for _, char := range line]. *)
Definition countLine_step (st : Z * bool * ascii) (char : ascii) : Z * bool * ascii :=
  let '(braceLevel, inQuotes, quoteChar) := st in
  if (char =? DQ)%char || (char =? SQ)%char then
    if negb inQuotes then (braceLevel, true, char)
    else if (char =? quoteChar)%char then (braceLevel, false, quoteChar)
    else st
  else if (char =? "{")%char then
    if negb inQuotes then ((braceLevel + 1)%Z, inQuotes, quoteChar) else st
  else if (char =? "}")%char then
    if negb inQuotes then ((braceLevel - 1)%Z, inQuotes, quoteChar) else st
  else st.

(** The body of [for _, line := range lines]. *)
Definition splitIntoStatements_step (st : stmtState) (line : string) : stmtState :=
  let line := TrimSpace line in
  if (line =? "") || HasPrefix line "//" then st
  else
    let current :=
      if (0 <? String.length (ss_current st))%nat
      then WriteRune (ss_current st) (code " ") else ss_current st in
    let current := current +:+ line in
    let '(braceLevel, inQuotes, quoteChar) :=
      fold_left countLine_step (chars line)
        (ss_braceLevel st, ss_inQuotes st, ss_quoteChar st) in
    if HasSuffix line ";" && (braceLevel =? 0)%Z && negb inQuotes then
      {| ss_statements := ss_statements st ++ [current]; ss_current := "";
         ss_braceLevel := braceLevel; ss_inQuotes := inQuotes;
         ss_quoteChar := quoteChar |}
    else
      {| ss_statements := ss_statements st; ss_current := current;
         ss_braceLevel := braceLevel; ss_inQuotes := inQuotes;
         ss_quoteChar := quoteChar |}.

Definition splitIntoStatements (jsContent : string) : list string :=
  let lines := Split jsContent LF in
  let st := fold_left splitIntoStatements_step lines
              {| ss_statements := []; ss_current := ""; ss_braceLevel := 0;
                 ss_inQuotes := false; ss_quoteChar := NUL |} in
  if (0 <? String.length (ss_current st))%nat
  then ss_statements st ++ [ss_current st]
  else ss_statements st.

(** *** parser.go: [parseDbCreateCollection] *)

Definition parseDbCreateCollection (statement : string) :
    M (option MongoOperation * option error) :=
  let parenStart := Index statement "(" in
  let parenEnd := LastIndex statement ")" in
  if (parenStart =? -1)%Z || (parenEnd =? -1)%Z then
    ret (None, Some (Errorf "invalid createCollection syntax"))
  else
    let argsString := slice statement (parenStart + 1) parenEnd in
    let args := splitArguments argsString in
    match args with
    | [] => ret (None, Some (Errorf "createCollection requires collection name"))
    | arg0 :: moreArgs =>
        let collectionName := Trim arg0 (String DQ "'") in
        let op := {| op_Type := "createCollection"; op_Collection := collectionName;
                     op_Operation := "createCollection"; op_Arguments := [];
                     op_IndexSpec := None; op_IndexOptions := None;
                     op_Validator := None |} in
        match moreArgs with
        | [] => ret (Some op, None)
        | arg1 :: _ =>
            match parseJSONLikeString arg1 with
            | (_, Some err) =>
                run logPrintf (Warning_collOptions err);
                ret (Some op, None)
            | (options, None) =>
                match (match options with Some m => m !! "validator" | None => None end) with
                | Some (VMap validatorMap) =>
                    ret (Some {| op_Type := op_Type op; op_Collection := op_Collection op;
                                 op_Operation := op_Operation op;
                                 op_Arguments := op_Arguments op;
                                 op_IndexSpec := op_IndexSpec op;
                                 op_IndexOptions := op_IndexOptions op;
                                 op_Validator := Some validatorMap |}, None)
                | _ => ret (Some op, None)
                end
            end
        end
    end.

(** *** parser.go: [parseMongoStatement] *)

(** [for i, char := range operationPart[parenIndex:]]: the value of
    [closeIndex] after the loop. *)
Fixpoint closeIndex_loop (s : string) (i : Z) (openCount : Z) (parenIndex : Z) : Z :=
  match s with
  | "" => (-1)%Z
  | String char rest =>
      if (char =? "(")%char then closeIndex_loop rest (i + 1)%Z (openCount + 1)%Z parenIndex
      else if (char =? ")")%char then
        let openCount := (openCount - 1)%Z in
        if (openCount =? 0)%Z then (parenIndex + i)%Z
        else closeIndex_loop rest (i + 1)%Z openCount parenIndex
      else closeIndex_loop rest (i + 1)%Z openCount parenIndex
  end.

(** The part of [parseMongoStatement] between the [db.createCollection(]
    test and the [switch]: collection, operation and argument text of a
    statement already trimmed, or the error returned. *)
Definition extractCall (statement : string) : (string * string * string) + error :=
  if negb (HasPrefix statement "db.") then
    inr (Errorf "invalid MongoDB operation format")
  else
    let firstDot := Index statement "." in
    if (firstDot =? -1)%Z || negb (firstDot =? 2)%Z then
      inr (Errorf "invalid MongoDB operation format")
    else
      let secondDot := Index (sliceFrom statement (firstDot + 1)) "." in
      if (secondDot =? -1)%Z then inr (Errorf "invalid MongoDB operation format")
      else
        let secondDot := (secondDot + (firstDot + 1))%Z in
        let collection := slice statement (firstDot + 1) secondDot in
        let operationPart := sliceFrom statement (secondDot + 1) in
        let parenIndex := Index operationPart "(" in
        if (parenIndex =? -1)%Z then inr (Errorf "no opening parenthesis found")
        else
          let operation := slice operationPart 0 parenIndex in
          let closeIndex :=
            closeIndex_loop (sliceFrom operationPart parenIndex) 0 0 parenIndex in
          if (closeIndex =? -1)%Z then
            inr (Errorf "no matching closing parenthesis found")
          else
            inl (collection, operation,
                 slice operationPart (parenIndex + 1) closeIndex).

(** The methods of the [switch]. *)
Definition supportedOperations : list string :=
  ["createIndex"; "insertOne"; "insertMany"; "updateOne"; "updateMany";
   "deleteOne"; "deleteMany"].

Definition parseMongoStatement (statement : string) :
    M (option MongoOperation * option error) :=
  let statement := TrimSuffix (TrimSpace statement) ";" in
  if HasPrefix statement "db.createCollection(" then parseDbCreateCollection statement
  else
    match extractCall statement with
    | inr err => ret (None, Some err)
    | inl (collection, operation, argsString) =>
        if operation =? "createIndex" then parseCreateIndex collection argsString
        else if (operation =? "insertOne") || (operation =? "insertMany") then
          ret (parseInsert collection operation argsString)
        else if (operation =? "updateOne") || (operation =? "updateMany") then
          ret (parseUpdate collection operation argsString)
        else if (operation =? "deleteOne") || (operation =? "deleteMany") then
          ret (parseDelete collection operation argsString)
        else
          run logPrintf (Warning_unsupported operation collection);
          ret (None, None)
    end.

(** *** parser.go: [parseJavaScriptOperations] *)

(** The body of [for _, statement := range statements]. *)
Definition parseJavaScriptOperations_step (operations : list MongoOperation)
    (statement : string) : M (list MongoOperation) :=
  let statement := TrimSpace statement in
  if (statement =? "") || HasPrefix statement "//" then ret operations
  else if HasPrefix statement "db." && Contains statement "(" then
    do r <- parseMongoStatement statement;
    match r with
    | (_, Some err) =>
        run logPrintf (Warning_statement statement err);
        ret operations
    | (Some op, None) => ret (operations ++ [op])
    | (None, None) => ret operations
    end
  else ret operations.

Fixpoint parseJavaScriptOperations_loop (statements : list string)
    (operations : list MongoOperation) : M (list MongoOperation) :=
  match statements with
  | [] => ret operations
  | statement :: rest =>
      do operations <- parseJavaScriptOperations_step operations statement;
      parseJavaScriptOperations_loop rest operations
  end.

Definition parseJavaScriptOperations (jsContent : string) :
    M (list MongoOperation * option error) :=
  let statements := splitIntoStatements jsContent in
  do operations <- parseJavaScriptOperations_loop statements [];
  ret (operations, None).

(** *** parser.go: [ParseMetadata] *)

(** [for _, line := range lines], with its [continue] and [break]: the
    value of [metadataLines] after the loop. *)
Fixpoint ParseMetadata_loop (lines : list string) (inMetadata : bool)
    (metadataLines : list string) : list string :=
  match lines with
  | [] => metadataLines
  | line :: rest =>
      let line := TrimSpace line in
      if HasPrefix line "// METADATA:" then ParseMetadata_loop rest true metadataLines
      else if inMetadata then
        if HasPrefix line "//" then
          let metadataLine := TrimSpace (TrimPrefix line "//") in
          if negb (metadataLine =? "")
          then ParseMetadata_loop rest inMetadata (metadataLines ++ [metadataLine])
          else ParseMetadata_loop rest inMetadata metadataLines
        else metadataLines
      else ParseMetadata_loop rest inMetadata metadataLines
  end.

Definition ParseMetadata (content : string) : M (option ScriptMetadata) :=
  let lines := Split content LF in
  let metadataLines := ParseMetadata_loop lines false [] in
  if (length metadataLines =? 0)%nat then ret None
  else
    let jsonStr := Join metadataLines in
    match Unmarshal_metadata jsonStr with
    | (_, Some err) =>
        run logPrintf (Warning_metadata err);
        ret None
    | (metadata, None) => ret metadata
    end.

End Parser.

(** ** executor.go

    The package reaches the database through the MongoDB driver only.  What
    the driver does is not part of the package: the definitions below take it
    from an instance of this class, with the database behind [db] as a state
    that every call may change, and the theorems hold for every instance. *)

Class MongoDriver := {
  (** [context.Context]. *)
  Ctx : Type;
  (** The database that [db] stands for. *)
  Database : Type;
  (** The errors of the driver, with [err.Error()] and
      [mongo.IsDuplicateKeyError(err)]. *)
  DriverError : Type;
  ErrorText : DriverError -> string;
  IsDuplicateKeyError : DriverError -> bool;
  (** The [InsertedID] of a result. *)
  InsertedID : Type;
  (** [db.CreateCollection(ctx, name, opts)], for [opts] with the validator
      given or none. *)
  CreateCollection :
    Ctx -> string -> option (gmap string value) -> Database ->
    option DriverError * Database;
  (** [db.Collection(name).Indexes().CreateOne(ctx, model)], for a model of
      these keys and options. *)
  CreateOne :
    Ctx -> string -> option bsonD -> option IndexOptions -> Database ->
    (string + DriverError) * Database;
  (** The calls on [db.Collection(name)], with the field of the result that
      the executor returns. *)
  InsertOne : Ctx -> string -> bsonM -> Database -> (InsertedID + DriverError) * Database;
  InsertMany :
    Ctx -> string -> list bsonM -> Database -> (list InsertedID + DriverError) * Database;
  UpdateOne : Ctx -> string -> bsonM -> bsonM -> Database -> (Z + DriverError) * Database;
  UpdateMany : Ctx -> string -> bsonM -> bsonM -> Database -> (Z + DriverError) * Database;
  DeleteOne : Ctx -> string -> bsonM -> Database -> (Z + DriverError) * Database;
  DeleteMany : Ctx -> string -> bsonM -> Database -> (Z + DriverError) * Database
}.

Section Executor.

Context `{RT : GoRuntime} `{DRV : MongoDriver}.

(** The errors of the executor and of [ExecuteScript]. *)
Inductive execError : Type :=
| OfDriver (err : DriverError)                 (* an error of the driver, as it is *)
| ExecErrorf (msg : string)                    (* fmt.Errorf with its arguments printed *)
| ExecErrorf_w (msg : string) (err : execError) (* fmt.Errorf("msg: %w", err) *)
| OfParser (err : error).

(** A value held by the [interface{}] that the executor returns. *)
#[warnings="-register-all"]
Inductive output : Type :=
| OutNil
| OutString (s : string)
| OutInsertedID (id : InsertedID)
| OutInsertedIDs (ids : list InsertedID)
| OutCount (count : Z)
| OutResults (results : list output).

(** A line that the executor writes with [log.Printf]. *)
Inductive exec_log : Type :=
| Log_collectionExists (collection : string)
| Log_indexExists (collection : string).

(** [ScriptResult] of types.go. *)
Record ScriptResult := {
  sr_Success : bool;
  sr_Output : output;
  sr_Error : option execError
}.

(** What an executor returns: the value and the error, the lines logged,
    and the database afterwards. *)
Definition executed : Type := (output * option execError) * list exec_log * Database.

Definition executeCreateCollection (ctx : Ctx) (op : MongoOperation) (db : Database) :
    executed :=
  let opts := op_Validator op in
  match CreateCollection ctx (op_Collection op) opts db with
  | (Some err, db') =>
      if IsDuplicateKeyError err || Contains (ErrorText err) "already exists" then
        ((OutString "Collection already exists", None),
         [Log_collectionExists (op_Collection op)], db')
      else ((OutNil, Some (OfDriver err)), [], db')
  | (None, db') =>
      ((OutString ("Collection " +:+ op_Collection op +:+ " created successfully"), None),
       [], db')
  end.

Definition executeCreateIndex (ctx : Ctx) (op : MongoOperation) (db : Database) :
    executed :=
  match CreateOne ctx (op_Collection op) (op_IndexSpec op) (op_IndexOptions op) db with
  | (inr err, db') =>
      if Contains (ErrorText err) "already exists" then
        ((OutString "Index already exists", None),
         [Log_indexExists (op_Collection op)], db')
      else ((OutNil, Some (OfDriver err)), [], db')
  | (inl result, db') =>
      ((OutString ("Index created on " +:+ op_Collection op +:+ ": " +:+ result), None),
       [], db')
  end.

Definition executeInsert (ctx : Ctx) (op : MongoOperation) (db : Database) : executed :=
  if (length (op_Arguments op) =? 0)%nat then
    ((OutNil, Some (ExecErrorf "no document to insert")), [], db)
  else if op_Operation op =? "insertOne" then
    match InsertOne ctx (op_Collection op) (nth 0 (op_Arguments op) None) db with
    | (inr err, db') => ((OutNil, Some (OfDriver err)), [], db')
    | (inl id, db') => ((OutInsertedID id, None), [], db')
    end
  else if op_Operation op =? "insertMany" then
    let docs := op_Arguments op in
    match InsertMany ctx (op_Collection op) docs db with
    | (inr err, db') => ((OutNil, Some (OfDriver err)), [], db')
    | (inl ids, db') => ((OutInsertedIDs ids, None), [], db')
    end
  else
    ((OutNil, Some (ExecErrorf ("unsupported insert operation: " +:+ op_Operation op))),
     [], db).

Definition executeUpdate (ctx : Ctx) (op : MongoOperation) (db : Database) : executed :=
  if (length (op_Arguments op) <? 2)%nat then
    ((OutNil, Some (ExecErrorf "update operation requires filter and update documents")),
     [], db)
  else
    let filter := nth 0 (op_Arguments op) None in
    let update := nth 1 (op_Arguments op) None in
    if op_Operation op =? "updateOne" then
      match UpdateOne ctx (op_Collection op) filter update db with
      | (inr err, db') => ((OutNil, Some (OfDriver err)), [], db')
      | (inl count, db') => ((OutCount count, None), [], db')
      end
    else if op_Operation op =? "updateMany" then
      match UpdateMany ctx (op_Collection op) filter update db with
      | (inr err, db') => ((OutNil, Some (OfDriver err)), [], db')
      | (inl count, db') => ((OutCount count, None), [], db')
      end
    else
      ((OutNil, Some (ExecErrorf ("unsupported update operation: " +:+ op_Operation op))),
       [], db).

Definition executeDelete (ctx : Ctx) (op : MongoOperation) (db : Database) : executed :=
  if (length (op_Arguments op) =? 0)%nat then
    ((OutNil, Some (ExecErrorf "delete operation requires filter document")), [], db)
  else
    let filter := nth 0 (op_Arguments op) None in
    if op_Operation op =? "deleteOne" then
      match DeleteOne ctx (op_Collection op) filter db with
      | (inr err, db') => ((OutNil, Some (OfDriver err)), [], db')
      | (inl count, db') => ((OutCount count, None), [], db')
      end
    else if op_Operation op =? "deleteMany" then
      match DeleteMany ctx (op_Collection op) filter db with
      | (inr err, db') => ((OutNil, Some (OfDriver err)), [], db')
      | (inl count, db') => ((OutCount count, None), [], db')
      end
    else
      ((OutNil, Some (ExecErrorf ("unsupported delete operation: " +:+ op_Operation op))),
       [], db).

Definition executeMongoOperation (ctx : Ctx) (op : MongoOperation) (db : Database) :
    executed :=
  if op_Type op =? "createCollection" then executeCreateCollection ctx op db
  else if op_Type op =? "createIndex" then executeCreateIndex ctx op db
  else if op_Type op =? "insert" then executeInsert ctx op db
  else if op_Type op =? "update" then executeUpdate ctx op db
  else if op_Type op =? "delete" then executeDelete ctx op db
  else ((OutNil, Some (ExecErrorf ("unsupported operation type: " +:+ op_Type op))), [], db).

(** *** parser.go: [ExecuteScript] *)

(** [for _, op := range operations], with its [return] on the first error. *)
Fixpoint executeOperations (ctx : Ctx) (operations : list MongoOperation)
    (results : list output) (db : Database) :
    ScriptResult * list exec_log * Database :=
  match operations with
  | [] =>
      ({| sr_Success := true; sr_Output := OutResults results; sr_Error := None |},
       [], db)
  | op :: rest =>
      let '((result, err), log, db') := executeMongoOperation ctx op db in
      match err with
      | Some err =>
          ({| sr_Success := false; sr_Output := OutNil;
              sr_Error :=
                Some (ExecErrorf_w
                        ("failed to execute operation " +:+ op_Operation op
                         +:+ " on " +:+ op_Collection op) err) |},
           log, db')
      | None =>
          let '(r, log', db'') := executeOperations ctx rest (results ++ [result]) db' in
          (r, log ++ log', db'')
      end
  end.

(** A line of the log of [ExecuteScript]. *)
Inductive script_log : Type :=
| ParserLine (e : log_entry)
| ExecutorLine (e : exec_log).

(** [ExecuteScript]: the result, the lines logged, the count of map loops
    and the database afterwards. *)
Definition ExecuteScript (ctx : Ctx) (jsContent : string) (n : nat) (db : Database) :
    ScriptResult * list script_log * nat * Database :=
  if (String.length (TrimSpace jsContent) =? 0)%nat then
    ({| sr_Success := true; sr_Output := OutString "Script is empty, skipped";
        sr_Error := None |}, [], n, db)
  else
    let '((operations, err), parserLog, n') := parseJavaScriptOperations jsContent n in
    match err with
    | Some err =>
        ({| sr_Success := false; sr_Output := OutNil;
            sr_Error :=
              Some (ExecErrorf_w "failed to parse JavaScript operations" (OfParser err)) |},
         map ParserLine parserLog, n', db)
    | None =>
        let '(r, log, db') := executeOperations ctx operations [] db in
        (r, map ParserLine parserLog ++ map ExecutorLine log, n', db')
    end.

End Executor.

(** ** A reference runtime

    One instance of [GoRuntime], on which the definitions are evaluated:
    decimal literals for [ParseFloat], the result of amd64 for an [int(v)]
    out of range, maps walked in the order of [map_to_list] (by key, for the
    keys used below), and metadata whose [executed_at] is absent or null. *)

Definition lowerChar (c : ascii) : ascii :=
  if ascii_between "A" c "Z" then ascii_of_nat (nat_of_ascii c + 32) else c.

Fixpoint lower (s : string) : string :=
  match s with
  | "" => ""
  | String c s' => String (lowerChar c) (lower s')
  end.

Definition zeroMetadata : ScriptMetadata :=
  {| md_Name := ""; md_Description := ""; md_Version := ""; md_Author := "";
     md_Dependencies := []; md_ExecutedAt := 0%Z; md_Status := ""; md_Error := "" |}.

Definition stringField (v : json) (old : string) : option string :=
  match v with
  | JString s => Some s
  | JNull => Some old
  | _ => None
  end.

Fixpoint stringElements (l : list json) : option (list string) :=
  match l with
  | [] => Some []
  | x :: l' =>
      match stringField x "", stringElements l' with
      | Some s, Some ss => Some (s :: ss)
      | _, _ => None
      end
  end.

(** One member of the JSON object stored into the struct; the field is
    found by its tag, ignoring case. *)
Definition setMetadataField (md : ScriptMetadata) (kv : string * json) :
    option ScriptMetadata :=
  let '(k, v) := kv in
  let k := lower k in
  let withString (set : string -> ScriptMetadata) (old : string) :=
    match stringField v old with
    | Some s => Some (set s)
    | None => None
    end in
  if k =? "name" then
    withString (fun s => {| md_Name := s; md_Description := md_Description md;
      md_Version := md_Version md; md_Author := md_Author md;
      md_Dependencies := md_Dependencies md; md_ExecutedAt := md_ExecutedAt md;
      md_Status := md_Status md; md_Error := md_Error md |}) (md_Name md)
  else if k =? "description" then
    withString (fun s => {| md_Name := md_Name md; md_Description := s;
      md_Version := md_Version md; md_Author := md_Author md;
      md_Dependencies := md_Dependencies md; md_ExecutedAt := md_ExecutedAt md;
      md_Status := md_Status md; md_Error := md_Error md |}) (md_Description md)
  else if k =? "version" then
    withString (fun s => {| md_Name := md_Name md; md_Description := md_Description md;
      md_Version := s; md_Author := md_Author md;
      md_Dependencies := md_Dependencies md; md_ExecutedAt := md_ExecutedAt md;
      md_Status := md_Status md; md_Error := md_Error md |}) (md_Version md)
  else if k =? "author" then
    withString (fun s => {| md_Name := md_Name md; md_Description := md_Description md;
      md_Version := md_Version md; md_Author := s;
      md_Dependencies := md_Dependencies md; md_ExecutedAt := md_ExecutedAt md;
      md_Status := md_Status md; md_Error := md_Error md |}) (md_Author md)
  else if k =? "status" then
    withString (fun s => {| md_Name := md_Name md; md_Description := md_Description md;
      md_Version := md_Version md; md_Author := md_Author md;
      md_Dependencies := md_Dependencies md; md_ExecutedAt := md_ExecutedAt md;
      md_Status := s; md_Error := md_Error md |}) (md_Status md)
  else if k =? "error" then
    withString (fun s => {| md_Name := md_Name md; md_Description := md_Description md;
      md_Version := md_Version md; md_Author := md_Author md;
      md_Dependencies := md_Dependencies md; md_ExecutedAt := md_ExecutedAt md;
      md_Status := md_Status md; md_Error := s |}) (md_Error md)
  else if k =? "dependencies" then
    match v with
    | JNull => Some md
    | JArray l =>
        match stringElements l with
        | Some deps =>
            Some {| md_Name := md_Name md; md_Description := md_Description md;
                    md_Version := md_Version md; md_Author := md_Author md;
                    md_Dependencies := deps; md_ExecutedAt := md_ExecutedAt md;
                    md_Status := md_Status md; md_Error := md_Error md |}
        | None => None
        end
    | _ => None
    end
  else if k =? "executed_at" then
    match v with
    | JNull => Some md
    | _ => None
    end
  else Some md.

Fixpoint setMetadataFields (md : ScriptMetadata) (members : list (string * json)) :
    option ScriptMetadata :=
  match members with
  | [] => Some md
  | kv :: members' =>
      match setMetadataField md kv with
      | Some md' => setMetadataFields md' members'
      | None => None
      end
  end.

Definition refDecodeScriptMetadata (j : json) : option ScriptMetadata :=
  match j with
  | JNull => Some zeroMetadata
  | JObject members => setMetadataFields zeroMetadata members
  | _ => None
  end.

#[refine]
Instance refRuntime : GoRuntime := {|
  ParseFloat := parseDecimalFloat;
  intOverflow := fun _ => minInt64;
  mapRange := fun _ m => map_to_list m;
  decodeScriptMetadata := refDecodeScriptMetadata
|}.
Proof. intros n m. apply Permutation_refl. Defined.

(** A runtime that walks every map in the opposite order. *)
#[refine]
Instance reverseRuntime : GoRuntime := {|
  ParseFloat := parseDecimalFloat;
  intOverflow := fun _ => minInt64;
  mapRange := fun _ m => rev (map_to_list m);
  decodeScriptMetadata := refDecodeScriptMetadata
|}.
Proof. intros n m. symmetry. apply Permutation_rev. Defined.

(** ** The scanner of the specification

    The specification describes every pass over a text by positions: the
    quote state and the nesting depth reached after a prefix of the text. *)

Definition isQuote (c : ascii) : bool := (c =? DQ)%char || (c =? SQ)%char.

(** [in_quote: none | char]: a quote opens on either quote character and
    closes only on the character that opened it. *)
Definition quote_step (q : option ascii) (c : ascii) : option ascii :=
  if isQuote c then
    match q with
    | None => Some c
    | Some d => if (c =? d)%char then None else q
    end
  else q.

Definition quote_state (prefix : list ascii) : option ascii :=
  fold_left quote_step prefix None.

(** Position [i] of [l] lies outside every quoted literal. *)
Definition outside_quotes (l : list ascii) (i : nat) : bool :=
  match quote_state (take i l) with
  | None => true
  | Some _ => false
  end.

(** The characters of [l] from position [k] on whose position satisfies
    [keep], in order. *)
Fixpoint select_from (keep : nat -> bool) (k : nat) (l : list ascii) : list ascii :=
  match l with
  | [] => []
  | c :: l' => (if keep k then [c] else []) ++ select_from keep (S k) l'
  end.

(** *** Trailing commas *)

Definition first_non_space (l : list ascii) : option ascii :=
  find (fun c => negb (isLookaheadSpace c)) l.

(** Position [i] holds a comma outside quoted literals whose next
    non-white-space character is a closing brace or bracket. *)
Definition trailing_comma_at (l : list ascii) (i : nat) : bool :=
  match l !! i with
  | Some c =>
      (c =? ",")%char && outside_quotes l i
      && match first_non_space (drop (S i) l) with
         | Some d => (d =? "}")%char || (d =? "]")%char
         | None => false
         end
  | None => false
  end.

Definition removeTrailingCommas_spec (l : list ascii) : list ascii :=
  select_from (fun i => negb (trailing_comma_at l i)) 0 l.

(** *** Top-level commas

    [brackets] says whether square brackets count for the nesting depth
    besides curly braces. *)

Definition depth_step (brackets : bool) (q : option ascii) (d : Z) (c : ascii) : Z :=
  match q with
  | Some _ => d
  | None =>
      if (c =? "{")%char || (brackets && (c =? "[")%char) then (d + 1)%Z
      else if (c =? "}")%char || (brackets && (c =? "]")%char) then (d - 1)%Z
      else d
  end.

Definition scan_step (brackets : bool) (st : option ascii * Z) (c : ascii) :
    option ascii * Z :=
  (quote_step (fst st) c, depth_step brackets (fst st) (snd st) c).

(** Quote state and depth after a prefix. *)
Definition scan_state (brackets : bool) (prefix : list ascii) : option ascii * Z :=
  fold_left (scan_step brackets) prefix (None, 0%Z).

(** Position [i] holds a comma outside quoted literals at depth 0. *)
Definition top_level_comma_at (brackets : bool) (l : list ascii) (i : nat) : bool :=
  match l !! i with
  | Some c =>
      (c =? ",")%char
      && match scan_state brackets (take i l) with
         | (None, 0%Z) => true
         | _ => false
         end
  | None => false
  end.

(** [cut_at is_cut k l] cuts [l] (whose first position is [k]) at the
    positions satisfying [is_cut], dropping the characters at these
    positions: the first piece, then the others. *)
Fixpoint cut_at (is_cut : nat -> bool) (k : nat) (l : list ascii) :
    list ascii * list (list ascii) :=
  match l with
  | [] => ([], [])
  | c :: l' =>
      let '(p, ps) := cut_at is_cut (S k) l' in
      if is_cut k then ([], p :: ps) else (c :: p, ps)
  end.

Definition pieces_at (is_cut : nat -> bool) (l : list ascii) : list (list ascii) :=
  let '(p, ps) := cut_at is_cut 0 l in p :: ps.

(** The pieces between the top-level commas, each trimmed; the last piece
    is dropped when it is empty. *)
Definition splitArguments_spec (brackets : bool) (argsString : string) : list string :=
  let l := chars argsString in
  let pieces := pieces_at (top_level_comma_at brackets l) l in
  map (fun p => TrimSpace (string_of_list_ascii p))
      (match last pieces with
       | Some [] => removelast pieces
       | _ => pieces
       end).

(** *** Literals that the normaliser leaves alone *)

Definition no_single_quote (l : list ascii) : bool :=
  forallb (fun c => negb (c =? SQ)%char) l.

Definition no_trailing_comma (l : list ascii) : bool :=
  forallb (fun i => negb (trailing_comma_at l i)) (seq 0 (length l)).

(** A word that begins at position [i] outside quoted literals (a letter,
    underscore or dollar, then letters, digits, underscores and dollars) is
    followed by neither a blank, a tab nor a colon. *)
Definition bare_word_ok (l : list ascii) (i : nat) : bool :=
  match l !! i with
  | Some c =>
      if outside_quotes l i && isAlphaStart c then
        match find (fun d => negb (isKeyChar d)) (drop i l) with
        | Some d => negb (isBlank d || (d =? ":")%char)
        | None => true
        end
      else true
  | None => true
  end.

Definition bare_words_ok (l : list ascii) : bool :=
  forallb (bare_word_ok l) (seq 0 (length l)).

Definition is_ascii (l : list ascii) : bool :=
  forallb (fun c => (nat_of_ascii c <? 128)%nat) l.

(** ASCII text with no single quote, no trailing comma, every key quoted and
    no bare word followed by a blank; quoted literals are those of the
    scanner, for which a backslash does not escape a quote. *)
Definition already_normal (s : string) : bool :=
  is_ascii (chars s) && no_single_quote (chars s) && no_trailing_comma (chars s)
  && bare_words_ok (chars s).

(** *** The statements of a script, one by one *)

Section Contributions.

Context `{RT : GoRuntime}.

(** What the statements contribute when each is processed on its own, from
    an empty list of operations: the operations in order, the log lines in
    order, and the count of map loops afterwards. *)
Fixpoint contributions (statements : list string) (n : nat) :
    list MongoOperation * list log_entry * nat :=
  match statements with
  | [] => ([], [], n)
  | statement :: rest =>
      let '(ops, log, n1) := parseJavaScriptOperations_step [] statement n in
      let '(ops', log', n2) := contributions rest n1 in
      (ops ++ ops', log ++ log', n2)
  end.

(** The statement, trimmed as [parseJavaScriptOperations] trims it, reaches
    [parseMongoStatement]. *)
Definition reaches_parser (statement : string) : bool :=
  let statement := TrimSpace statement in
  negb ((statement =? "") || HasPrefix statement "//")
  && (HasPrefix statement "db." && Contains statement "(").

(** The statement is of the general form [db.<collection>.<method>(args)]
    with these parts. *)
Definition call_of (statement : string) (collection operation argsString : string) : Prop :=
  let s := TrimSuffix (TrimSpace statement) ";" in
  HasPrefix s "db.createCollection(" = false
  /\ extractCall s = inl (collection, operation, argsString).

(** The literal that a builder parses first and that is not JSON after
    normalisation, with the error of [parseJSONLikeString]: the document of
    an insert, the filter of a delete, the filter or else the update document
    of an update, the index specification of [createIndex]. *)
Definition literal_fails (operation argsString : string) (err : error) : Prop :=
  if (operation =? "insertOne") || (operation =? "insertMany")
     || (operation =? "deleteOne") || (operation =? "deleteMany") then
    snd (parseJSONLikeString argsString) = Some err
  else if (operation =? "updateOne") || (operation =? "updateMany") then
    match splitArguments argsString with
    | filterStr :: updateStr :: _ =>
        snd (parseJSONLikeString filterStr) = Some err
        \/ (snd (parseJSONLikeString filterStr) = None
            /\ snd (parseJSONLikeString updateStr) = Some err)
    | _ => False
    end
  else if operation =? "createIndex" then
    match splitArguments argsString with
    | indexSpecStr :: _ => snd (parseJSONLikeString (TrimSpace indexSpecStr)) = Some err
    | [] => False
    end
  else False.

End Contributions.

(** *** The scanners on the bytes of a text

    The two [range] loops of utils.go test their runes against ASCII
    characters only.  [splitBytes] and [removeBytes] are these loops run on
    the bytes of a text, one byte at a time; [rangeText] is the text that a
    [range] loop reads and [WriteRune] writes again: the text itself where
    it is valid UTF-8, with the encoding of U+FFFD for every byte that is
    part of no valid encoding. *)

Definition WriteByte (b : string) (c : ascii) : string := b +:+ chr c.

Record splitBytesState := {
  sb_args : list string;
  sb_current : string;
  sb_braceLevel : Z;
  sb_inQuotes : bool;
  sb_quoteChar : ascii
}.

Definition splitBytes_step (st : splitBytesState) (char : ascii) : splitBytesState :=
  if (char =? DQ)%char || (char =? SQ)%char then
    let '(inQuotes, quoteChar) :=
      if negb (sb_inQuotes st) then (true, char)
      else if (char =? sb_quoteChar st)%char then (false, sb_quoteChar st)
      else (sb_inQuotes st, sb_quoteChar st) in
    {| sb_args := sb_args st; sb_current := WriteByte (sb_current st) char;
       sb_braceLevel := sb_braceLevel st;
       sb_inQuotes := inQuotes; sb_quoteChar := quoteChar |}
  else if (char =? "{")%char then
    {| sb_args := sb_args st; sb_current := WriteByte (sb_current st) char;
       sb_braceLevel := if negb (sb_inQuotes st) then (sb_braceLevel st + 1)%Z
                        else sb_braceLevel st;
       sb_inQuotes := sb_inQuotes st; sb_quoteChar := sb_quoteChar st |}
  else if (char =? "}")%char then
    {| sb_args := sb_args st; sb_current := WriteByte (sb_current st) char;
       sb_braceLevel := if negb (sb_inQuotes st) then (sb_braceLevel st - 1)%Z
                        else sb_braceLevel st;
       sb_inQuotes := sb_inQuotes st; sb_quoteChar := sb_quoteChar st |}
  else if (char =? ",")%char then
    if negb (sb_inQuotes st) && (sb_braceLevel st =? 0)%Z then
      {| sb_args := sb_args st ++ [TrimSpace (sb_current st)]; sb_current := "";
         sb_braceLevel := sb_braceLevel st;
         sb_inQuotes := sb_inQuotes st; sb_quoteChar := sb_quoteChar st |}
    else
      {| sb_args := sb_args st; sb_current := WriteByte (sb_current st) char;
         sb_braceLevel := sb_braceLevel st;
         sb_inQuotes := sb_inQuotes st; sb_quoteChar := sb_quoteChar st |}
  else
    {| sb_args := sb_args st; sb_current := WriteByte (sb_current st) char;
       sb_braceLevel := sb_braceLevel st;
       sb_inQuotes := sb_inQuotes st; sb_quoteChar := sb_quoteChar st |}.

Fixpoint splitBytes_loop (argsString : string) (st : splitBytesState) : splitBytesState :=
  match argsString with
  | "" => st
  | String char rest => splitBytes_loop rest (splitBytes_step st char)
  end.

Definition splitBytes (argsString : string) : list string :=
  let st := splitBytes_loop argsString
              {| sb_args := []; sb_current := ""; sb_braceLevel := 0;
                 sb_inQuotes := false; sb_quoteChar := NUL |} in
  if (0 <? String.length (sb_current st))%nat
  then sb_args st ++ [TrimSpace (sb_current st)]
  else sb_args st.

Fixpoint removeBytes_loop (input : string) (inQuotes : bool)
    (quoteChar : ascii) (result : string) : string :=
  match input with
  | "" => result
  | String char rest =>
      if (char =? DQ)%char || (char =? SQ)%char then
        let '(inQuotes', quoteChar') :=
          if negb inQuotes then (true, char)
          else if (char =? quoteChar)%char then (false, quoteChar)
          else (inQuotes, quoteChar) in
        removeBytes_loop rest inQuotes' quoteChar' (WriteByte result char)
      else if (char =? ",")%char then
        if inQuotes then
          removeBytes_loop rest inQuotes quoteChar (WriteByte result char)
        else
          match dropWhile isLookaheadSpace rest with
          | String next _ =>
              if (next =? "}")%char || (next =? "]")%char
              then removeBytes_loop rest inQuotes quoteChar result
              else removeBytes_loop rest inQuotes quoteChar (WriteByte result char)
          | "" => removeBytes_loop rest inQuotes quoteChar (WriteByte result char)
          end
      else removeBytes_loop rest inQuotes quoteChar (WriteByte result char)
  end.

Definition removeBytes (input : string) : string :=
  removeBytes_loop input false NUL "".

(** The text that a [range] loop reads. *)
Definition rangeText (s : string) : string :=
  Join (map (fun x => WriteRune "" (fst x)) (rangeString s)).

(** Well-formed UTF-8: every byte below 128 stands for itself, and the
    others come in the sequences of two, three and four bytes that encode
    the code points from U+0080 to U+10FFFF without the surrogates, each in
    its shortest form. *)
Fixpoint ValidString (s : string) : bool :=
  match s with
  | "" => true
  | String b0 s1 =>
      if (code b0 <? 128)%Z then ValidString s1
      else
        match s1 with
        | String b1 s2 =>
            if inRange 194 b0 223 then inRange 128 b1 191 && ValidString s2
            else
              match s2 with
              | String b2 s3 =>
                  if inRange 224 b0 239 then
                    inRange (acceptLo (code b0)) b1 (acceptHi (code b0))
                    && inRange 128 b2 191 && ValidString s3
                  else
                    match s3 with
                    | String b3 s4 =>
                        inRange 240 b0 244
                        && inRange (acceptLo (code b0)) b1 (acceptHi (code b0))
                        && inRange 128 b2 191 && inRange 128 b3 191 && ValidString s4
                    | "" => false
                    end
              | "" => false
              end
        | "" => false
        end
  end.

(** A byte from 128 on: a byte of an encoding of more than one byte, or a
    byte of no encoding. *)
Definition high (c : ascii) : bool := (128 <=? code c)%Z.

(** What [DecodeRuneInString] returns: an ASCII byte as it is, [RuneError]
    of width 1 where no encoding begins, or a rune whose encoding the text
    begins with. *)
Inductive decoded (s : string) : Z -> nat -> string -> Prop :=
| decoded_ascii c t :
    s = String c t -> (code c < 128)%Z -> decoded s (code c) 1 t
| decoded_invalid c t :
    s = String c t -> high c = true -> decoded s RuneError 1 t
| decoded_rune r t :
    (128 <= r)%Z -> isScalar r = true -> s = encodeRune r +:+ t ->
    decoded s r (String.length (encodeRune r)) t.

(** The states of [splitArguments] and of [splitBytes] agree. *)
Definition split_same (st : splitState) (sb : splitBytesState) : Prop :=
  sp_args st = sb_args sb /\ sp_current st = sb_current sb
  /\ sp_braceLevel st = sb_braceLevel sb /\ sp_inQuotes st = sb_inQuotes sb
  /\ sp_quoteChar st = code (sb_quoteChar sb).

(** The look-ahead of [removeTrailingCommas]: the next character that is no
    white space closes a brace or a bracket. *)
Definition closes_next (rest : string) : bool :=
  match dropWhile isLookaheadSpace rest with
  | String next _ => (next =? "}")%char || (next =? "]")%char
  | "" => false
  end.

(** *** Texts outside ASCII *)

(** The letter U+00E9 in UTF-8; the same letter in Latin-1, one byte that is
    no valid UTF-8; and the encoding of U+FFFD. *)
Definition e_acute : string := String "195" (String "169" "").

Definition e_acute_latin1 : string := String "233" "".

Definition replacement : string := String "239" (String "191" (String "189" "")).

(** *** Relations used in the proofs *)

(** The pair [(inQuotes, quoteChar)] of a scanner loop represents [q]. *)
Definition quote_rel (inQuotes : bool) (quoteChar : ascii) (q : option ascii) : Prop :=
  match q with
  | None => inQuotes = false
  | Some d => inQuotes = true /\ quoteChar = d
  end.

(** The loop state of [splitBytes] after the prefix [pre]. *)
Definition split_consistent (st : splitBytesState) (pre : list ascii) : Prop :=
  quote_rel (sb_inQuotes st) (sb_quoteChar st) (fst (scan_state false pre))
  /\ sb_braceLevel st = snd (scan_state false pre).

(** The lines that [ParseMetadata] tells apart. *)
Definition is_marker (line : string) : bool := HasPrefix (TrimSpace line) "// METADATA:".

Definition is_comment (line : string) : bool := HasPrefix (TrimSpace line) "//".

(** The loop of [splitBytes] holds an argument or unfinished text. *)
Definition split_some (st : splitBytesState) : Prop :=
  sb_args st <> [] \/ sb_current st <> "".

(** *** The tokens that [addQuotesToKeys] reads *)

(** A word: a letter, underscore or dollar, then letters, digits,
    underscores and dollars. *)
Definition is_word (w : string) : bool :=
  match w with
  | String c k => isAlphaStart c && forallb isKeyChar (chars k)
  | "" => false
  end.

Definition all_blank (b : string) : bool := forallb isBlank (chars b).

(** The word ends where [blanks] begins, and the blanks end where [rest]
    begins: [rest] begins with no blank, and with no character of a word
    when there is no blank. *)
Definition word_ends (blanks rest : string) : bool :=
  match rest with
  | String d _ => negb (isBlank d) && (negb (isKeyChar d) || negb (blanks =? ""))
  | "" => true
  end.

Definition starts_with_colon (rest : string) : bool :=
  match rest with
  | String d _ => (d =? ":")%char
  | "" => false
  end.

(** What appending [string(char)] for every byte [char] of [s] gives. *)
Fixpoint bytesAsRunes (s : string) : string :=
  match s with
  | "" => ""
  | String c r => stringOfByte c +:+ bytesAsRunes r
  end.

(** The loop of [addQuotesToKeys] entered at the head of [input] with the
    quote state [inQuotes] and an empty result. *)
Definition addQuotesToKeys_from (inQuotes : bool) (input : string) : string :=
  addQuotesToKeys_loop (String.length input) input inQuotes "".

(** *** Calls and their parts *)

(** [s] holds no character [c]. *)
Definition lacks (c : ascii) (s : string) : bool :=
  forallb (fun d => negb (d =? c)%char) (chars s).

(** The parentheses of an argument text as the loop of
    [parseMongoStatement] counts them, [depth] of them open: every closing
    parenthesis closes one opened in the text, and none is left open. *)
Fixpoint parens_closed (l : list ascii) (depth : Z) : bool :=
  match l with
  | [] => (depth =? 0)%Z
  | c :: l' =>
      if (c =? "(")%char then parens_closed l' (depth + 1)%Z
      else if (c =? ")")%char then (0 <? depth)%Z && parens_closed l' (depth - 1)%Z
      else parens_closed l' depth
  end.

Definition balanced_parens (argsString : string) : bool :=
  parens_closed (chars argsString) 0.

(** The text [db.<collection>.<operation>(<argsString>)<tail>]. *)
Definition call_text (collection operation argsString tail : string) : string :=
  "db." +:+ collection +:+ "." +:+ operation +:+ "(" +:+ argsString +:+ ")" +:+ tail.

(** The text [db.createCollection(<argsString>)<tail>]. *)
Definition createCollection_text (argsString tail : string) : string :=
  "db.createCollection(" +:+ argsString +:+ ")" +:+ tail.

(** *** The operations that the builders make *)

(** An operation as a builder fills it: the type and the method belong
    together, an insert and a delete carry one document, an update two, and
    the other fields are those of the kind of the operation. *)
Definition well_formed (op : MongoOperation) : bool :=
  if op_Type op =? "createCollection" then
    (op_Operation op =? "createCollection")
    && (length (op_Arguments op) =? 0)%nat
    && bool_decide (op_IndexSpec op = None) && bool_decide (op_IndexOptions op = None)
  else if op_Type op =? "createIndex" then
    (op_Operation op =? "createIndex")
    && (length (op_Arguments op) =? 0)%nat && bool_decide (op_Validator op = None)
  else
    bool_decide (op_IndexSpec op = None) && bool_decide (op_IndexOptions op = None)
    && bool_decide (op_Validator op = None)
    && (if op_Type op =? "insert" then
          ((op_Operation op =? "insertOne") || (op_Operation op =? "insertMany"))
          && (length (op_Arguments op) =? 1)%nat
        else if op_Type op =? "update" then
          ((op_Operation op =? "updateOne") || (op_Operation op =? "updateMany"))
          && (length (op_Arguments op) =? 2)%nat
        else if op_Type op =? "delete" then
          ((op_Operation op =? "deleteOne") || (op_Operation op =? "deleteMany"))
          && (length (op_Arguments op) =? 1)%nat
        else false).

(** *** The checks of the executor *)

(** The checks that the executor makes before it calls the driver: a type
    it knows, and for an insert, an update and a delete the documents and a
    method it knows. *)
Definition passes_checks (op : MongoOperation) : bool :=
  if op_Type op =? "createCollection" then true
  else if op_Type op =? "createIndex" then true
  else if op_Type op =? "insert" then
    negb (length (op_Arguments op) =? 0)%nat
    && ((op_Operation op =? "insertOne") || (op_Operation op =? "insertMany"))
  else if op_Type op =? "update" then
    negb (length (op_Arguments op) <? 2)%nat
    && ((op_Operation op =? "updateOne") || (op_Operation op =? "updateMany"))
  else if op_Type op =? "delete" then
    negb (length (op_Arguments op) =? 0)%nat
    && ((op_Operation op =? "deleteOne") || (op_Operation op =? "deleteMany"))
  else false.

(** The answer of the driver to a call, with the result as the executor
    returns it. *)
Definition answered `{DRV : MongoDriver} {A : Type} (wrap : A -> output)
    (answer : (A + DriverError) * Database) : (output + DriverError) * Database :=
  match answer with
  | (inl result, db') => (inl (wrap result), db')
  | (inr err, db') => (inr err, db')
  end.

(** The one call of the driver that an operation stands for: a collection
    is created with the validator, an index with the keys and the options;
    for the other operations the method tells the call: one document or all
    of them are inserted, and an update and a delete take the first document
    as the filter.  The answer is the value that the executor returns for
    the call, or the error of the driver, and the database after the
    call. *)
Definition driverCall `{DRV : MongoDriver} (ctx : Ctx) (op : MongoOperation)
    (db : Database) : (output + DriverError) * Database :=
  let collection := op_Collection op in
  let document i := nth i (op_Arguments op) None in
  if op_Type op =? "createCollection" then
    match CreateCollection ctx collection (op_Validator op) db with
    | (None, db') =>
        (inl (OutString ("Collection " +:+ collection +:+ " created successfully")), db')
    | (Some err, db') => (inr err, db')
    end
  else if op_Type op =? "createIndex" then
    answered (fun result => OutString ("Index created on " +:+ collection +:+ ": " +:+ result))
      (CreateOne ctx collection (op_IndexSpec op) (op_IndexOptions op) db)
  else if op_Operation op =? "insertOne" then
    answered OutInsertedID (InsertOne ctx collection (document 0%nat) db)
  else if op_Operation op =? "insertMany" then
    answered OutInsertedIDs (InsertMany ctx collection (op_Arguments op) db)
  else if op_Operation op =? "updateOne" then
    answered OutCount (UpdateOne ctx collection (document 0%nat) (document 1%nat) db)
  else if op_Operation op =? "updateMany" then
    answered OutCount (UpdateMany ctx collection (document 0%nat) (document 1%nat) db)
  else if op_Operation op =? "deleteOne" then
    answered OutCount (DeleteOne ctx collection (document 0%nat) db)
  else
    answered OutCount (DeleteMany ctx collection (document 0%nat) db).

(** The errors of the driver that the executor takes for a success, with
    the text it returns and the line it writes: a collection or an index
    that is there already. *)
Definition alreadyThere `{DRV : MongoDriver} (op : MongoOperation) (err : DriverError) :
    option (string * exec_log) :=
  if op_Type op =? "createCollection" then
    if IsDuplicateKeyError err || Contains (ErrorText err) "already exists"
    then Some ("Collection already exists", Log_collectionExists (op_Collection op))
    else None
  else if op_Type op =? "createIndex" then
    if Contains (ErrorText err) "already exists"
    then Some ("Index already exists", Log_indexExists (op_Collection op))
    else None
  else None.

(** *** The lines of a script *)

(** A line that [splitIntoStatements] passes over: blank, or a comment. *)
Definition is_skipped (line : string) : bool :=
  (TrimSpace line =? "") || HasPrefix (TrimSpace line) "//".

(** The other lines, trimmed, in order. *)
Definition keptLines (jsContent : string) : list string :=
  map TrimSpace (List.filter (fun line => negb (is_skipped line)) (Split jsContent LF)).

(** Texts joined by single blanks. *)
Fixpoint unwords (l : list string) : string :=
  match l with
  | [] => ""
  | a :: l' =>
      match l' with
      | [] => a
      | _ :: _ => a +:+ " " +:+ unwords l'
      end
  end.

(** A line that is a statement of its own: it ends with a semicolon and
    closes every brace and every quote that it opens. *)
Definition line_complete (line : string) : bool :=
  HasSuffix line ";"
  && match fold_left countLine_step (chars line) (0%Z, false, NUL) with
     | (braceLevel, inQuotes, _) => (braceLevel =? 0)%Z && negb inQuotes
     end.

(** The statements that the loop of [splitIntoStatements] holds: those it
    has closed and the text of the one it is reading. *)
Definition flushed (st : stmtState) : list string :=
  if (0 <? String.length (ss_current st))%nat
  then ss_statements st ++ [ss_current st]
  else ss_statements st.

(** Two states of the counting loop of [splitIntoStatements] that differ
    at most in a quote character that is not in use. *)
Definition same_count (st1 st2 : Z * bool * ascii) : Prop :=
  fst (fst st1) = fst (fst st2) /\ snd (fst st1) = snd (fst st2)
  /\ (snd (fst st1) = true -> snd st1 = snd st2).

(** *** The lines of a metadata block *)

(** The text that [ParseMetadata] takes from a comment line. *)
Definition metadataLine (line : string) : string :=
  TrimSpace (TrimPrefix (TrimSpace line) "//").

(** The texts taken from the lines of a block: those of the lines that are
    no markers, without the empty ones. *)
Definition metadataText (block : list string) : list string :=
  List.filter (fun text => negb (text =? ""))
    (map metadataLine (List.filter (fun line => negb (is_marker line)) block)).

(** *** An index specification of one field *)

(** The literal [{ <key> : <direction> }], with blanks and tabs where a
    script may have them. *)
Definition single_field (b1 key b2 b3 direction b4 : string) : string :=
  "{" +:+ b1 +:+ key +:+ b2 +:+ ":" +:+ b3 +:+ direction +:+ b4 +:+ "}".

(** The direction of an index, as a script writes it. *)
Definition direction_text (direction : Z) : string :=
  if (direction =? 1)%Z then "1" else "-1".

(** *** Slices with their bounds

    A slice expression of Go panics when its bounds are out of range.
    [sliceChecked] and [sliceFromChecked] are [s[lo:hi]] and [s[lo:]] with
    this check, [None] being the panic, and [extractCallChecked] is the part
    of [parseMongoStatement] that [extractCall] embeds, with every slice
    checked. *)

Definition sliceChecked (s : string) (lo hi : Z) : option string :=
  if (0 <=? lo)%Z && (lo <=? hi)%Z && (hi <=? Z.of_nat (String.length s))%Z
  then Some (slice s lo hi) else None.

Definition sliceFromChecked (s : string) (lo : Z) : option string :=
  if (0 <=? lo)%Z && (lo <=? Z.of_nat (String.length s))%Z
  then Some (sliceFrom s lo) else None.

Definition extractCallChecked (statement : string) :
    option ((string * string * string) + error) :=
  if negb (HasPrefix statement "db.") then
    Some (inr (Errorf "invalid MongoDB operation format"))
  else
    let firstDot := Index statement "." in
    if (firstDot =? -1)%Z || negb (firstDot =? 2)%Z then
      Some (inr (Errorf "invalid MongoDB operation format"))
    else
      match sliceFromChecked statement (firstDot + 1) with
      | None => None
      | Some afterFirstDot =>
          let secondDot := Index afterFirstDot "." in
          if (secondDot =? -1)%Z then
            Some (inr (Errorf "invalid MongoDB operation format"))
          else
            let secondDot := (secondDot + (firstDot + 1))%Z in
            match sliceChecked statement (firstDot + 1) secondDot,
                  sliceFromChecked statement (secondDot + 1) with
            | Some collection, Some operationPart =>
                let parenIndex := Index operationPart "(" in
                if (parenIndex =? -1)%Z then
                  Some (inr (Errorf "no opening parenthesis found"))
                else
                  match sliceChecked operationPart 0 parenIndex,
                        sliceFromChecked operationPart parenIndex with
                  | Some operation, Some fromParen =>
                      let closeIndex := closeIndex_loop fromParen 0 0 parenIndex in
                      if (closeIndex =? -1)%Z then
                        Some (inr (Errorf "no matching closing parenthesis found"))
                      else
                        match sliceChecked operationPart (parenIndex + 1) closeIndex with
                        | Some argsString => Some (inl (collection, operation, argsString))
                        | None => None
                        end
                  | _, _ => None
                  end
            | _, _ => None
            end
      end.

(** *** A driver in memory *)

(** A driver to evaluate the executor on: the database is the list of its
    collections; creating one that is there is refused as a duplicate, and
    every call on a collection that is not there is refused. *)
Definition memoryHas (db : list string) (name : string) : bool :=
  existsb (String.eqb name) db.

Definition memoryCall {A : Type} (result : A) (name : string) (db : list string) :
    (A + string) * list string :=
  if memoryHas db name then (inl result, db) else (inr "ns not found", db).

Instance memoryDriver : MongoDriver := {|
  Ctx := unit;
  Database := list string;
  DriverError := string;
  ErrorText := fun err => err;
  IsDuplicateKeyError := fun _ => false;
  InsertedID := nat;
  CreateCollection := fun _ name _ db =>
    if memoryHas db name then (Some "collection already exists", db)
    else (None, db ++ [name]);
  CreateOne := fun _ name _ _ db => memoryCall "index_1" name db;
  InsertOne := fun _ name _ db => memoryCall 1%nat name db;
  InsertMany := fun _ name docs db => memoryCall (seq 1 (length docs)) name db;
  UpdateOne := fun _ name _ _ db => memoryCall 1%Z name db;
  UpdateMany := fun _ name _ _ db => memoryCall 1%Z name db;
  DeleteOne := fun _ name _ db => memoryCall 1%Z name db;
  DeleteMany := fun _ name _ db => memoryCall 1%Z name db
|}.

(** * Theorems *)

(** ** Evaluation of the scanners on small inputs *)

Example splitArguments_ex1 :
  splitArguments "{a:1},{b:{c:2}}" = ["{a:1}"; "{b:{c:2}}"].
Proof. reflexivity. Qed.

Example splitArguments_ex2 : splitArguments "[1,2]" = ["[1"; "2]"].
Proof. reflexivity. Qed.

Example removeTrailingCommas_ex1 :
  removeTrailingCommas "{a:1, b:2,}" = "{a:1, b:2}".
Proof. reflexivity. Qed.

Example normalize_ex1 :
  normalizeJavaScriptObject "{a:1, b:2,}" = jtext "{'a':1, 'b':2}".
Proof. reflexivity. Qed.

Example normalize_ex2 :
  normalizeJavaScriptObject "{a:[1,2,],b:3}" = jtext "{'a':[1,2],'b':3}".
Proof. reflexivity. Qed.

Example normalize_ex3 :
  normalizeJavaScriptObject (jtext "{'a':true }") = jtext "{'a':true}".
Proof. reflexivity. Qed.

(** ** Strings and their characters *)

Lemma append_cons (c : ascii) (s t : string) : String c s +:+ t = String c (s +:+ t).
Proof. reflexivity. Qed.

Lemma append_nil_l (t : string) : "" +:+ t = t.
Proof. reflexivity. Qed.

Lemma chars_app (s t : string) : chars (s +:+ t) = chars s ++ chars t.
Proof.
  induction s as [|c s IH]; [done|].
  rewrite append_cons. unfold chars in *. simpl. by rewrite IH.
Qed.

Lemma chars_WriteByte (s : string) (c : ascii) : chars (WriteByte s c) = chars s ++ [c].
Proof. unfold WriteByte. by rewrite chars_app. Qed.

Lemma chars_inj (s t : string) : chars s = chars t -> s = t.
Proof.
  intros H. rewrite <- (string_of_list_ascii_of_string s), <- (string_of_list_ascii_of_string t).
  unfold chars in H. by rewrite H.
Qed.

(** ** UTF-8: runes and their encodings *)

Lemma code_range (c : ascii) : (0 <= code c < 256)%Z.
Proof. unfold code. pose proof (nat_ascii_bounded c). lia. Qed.

Lemma byte_code (c : ascii) : byte (code c) = c.
Proof. unfold byte, code. by rewrite Nat2Z.id, ascii_nat_embedding. Qed.

Lemma code_byte (n : Z) : (0 <= n < 256)%Z -> code (byte n) = n.
Proof. intros H. unfold byte, code. rewrite nat_ascii_embedding by lia. lia. Qed.

Lemma code_inj (c d : ascii) : code c = code d -> c = d.
Proof. intros H. by rewrite <- (byte_code c), <- (byte_code d), H. Qed.

Lemma code_eqb (c d : ascii) : (code c =? code d)%Z = (c =? d)%char.
Proof.
  destruct (c =? d)%char eqn:E.
  - apply Ascii.eqb_eq in E. subst. apply Z.eqb_refl.
  - apply Z.eqb_neq. intros H. apply code_inj in H. subst. by rewrite Ascii.eqb_refl in E.
Qed.

Lemma encodeRune_ascii (c : ascii) : (code c < 128)%Z -> encodeRune (code c) = chr c.
Proof.
  intros H. unfold encodeRune. apply Z.ltb_lt in H. by rewrite H, byte_code.
Qed.

Lemma isScalar_ascii (c : ascii) : (code c < 128)%Z -> isScalar (code c) = true.
Proof.
  intros H. pose proof (code_range c). unfold isScalar, MaxRune.
  repeat (apply andb_true_intro; split); try apply negb_true_iff; try apply andb_false_iff; lia.
Qed.

Lemma WriteRune_ascii (b : string) (c : ascii) :
  (code c < 128)%Z -> WriteRune b (code c) = WriteByte b c.
Proof.
  intros H. unfold WriteRune, WriteByte. by rewrite (isScalar_ascii c H), encodeRune_ascii.
Qed.

Lemma high_byte (n : Z) : (128 <= n < 256)%Z -> high (byte n) = true.
Proof. intros H. unfold high. rewrite code_byte by lia. lia. Qed.

(** The encoding of a rune from 128 on holds no byte below 128. *)
Lemma encodeRune_high (r : Z) :
  (128 <= r <= MaxRune)%Z ->
  exists c e, encodeRune r = String c e /\ forallb high (chars (String c e)) = true.
Proof.
  unfold MaxRune. intros H. unfold encodeRune.
  destruct (r <? 128)%Z eqn:E1; [lia|].
  destruct (r <? 2048)%Z eqn:E2; [|destruct (r <? 65536)%Z eqn:E3].
  - eexists _, _. split; [done|]. cbn [chars list_ascii_of_string chr forallb].
    rewrite !high_byte; [done| |]; Z.to_euclidean_division_equations; lia.
  - eexists _, _. split; [done|]. cbn [chars list_ascii_of_string chr forallb].
    rewrite !high_byte; [done| | |]; Z.to_euclidean_division_equations; lia.
  - eexists _, _. split; [done|]. cbn [chars list_ascii_of_string chr forallb].
    rewrite !high_byte; [done| | | |]; Z.to_euclidean_division_equations; lia.
Qed.

Lemma WriteRune_high (b : string) (r : Z) :
  (r < 0 \/ 128 <= r)%Z ->
  exists c e, WriteRune b r = b +:+ String c e /\ forallb high (chars (String c e)) = true.
Proof.
  intros H. unfold WriteRune.
  destruct (isScalar r) eqn:E.
  - unfold isScalar in E. apply andb_true_iff in E as [E _].
    apply andb_true_iff in E as [E1 E2].
    destruct (encodeRune_high r) as (c & e & -> & Hh); [lia|]. by exists c, e.
  - destruct (encodeRune_high RuneError) as (c & e & -> & Hh); [done|]. by exists c, e.
Qed.

Lemma DecodeRuneInString_decoded (c : ascii) (t : string) :
  exists r w rest,
    DecodeRuneInString (String c t) = (r, w)
    /\ dropBytes w (String c t) = rest
    /\ decoded (String c t) r w rest.
Proof.
  pose proof (code_range c) as Hc.
  unfold DecodeRuneInString.
  destruct (code c <? 128)%Z eqn:E0.
  { eexists _, _, _. split; [done|]. split; [done|]. apply decoded_ascii with (c := c); [done|lia]. }
  assert (Hhigh : high c = true) by (unfold high; lia).
  assert (Hinv : exists r w rest, (RuneError, 1%nat) = (r, w)
            /\ dropBytes w (String c t) = rest /\ decoded (String c t) r w rest).
  { eexists _, _, _. split; [done|]. split; [done|]. by apply decoded_invalid with (c := c). }
  destruct ((code c <? 194)%Z || (244 <? code c)%Z) eqn:E1; [done|].
  apply orb_false_iff in E1 as [E1 E1'].
  destruct t as [|b1 t]; [done|].
  pose proof (code_range b1) as Hb1.
  destruct (inRange (acceptLo (code c)) b1 (acceptHi (code c))) eqn:R1; [|done].
  cbn [negb].
  assert (B1 : (128 <= code b1 <= 191)%Z /\ (code c = 224 -> 160 <= code b1)%Z
               /\ (code c = 240 -> 144 <= code b1)%Z /\ (code c = 237 -> code b1 <= 159)%Z
               /\ (code c = 244 -> code b1 <= 143)%Z).
  { unfold inRange, acceptLo, acceptHi in R1. apply andb_true_iff in R1 as [R1 R1'].
    destruct (code c =? 224)%Z eqn:G1, (code c =? 240)%Z eqn:G2,
      (code c =? 237)%Z eqn:G3, (code c =? 244)%Z eqn:G4; lia. }
  clear R1.
  destruct (code c <? 224)%Z eqn:E2.
  { eexists _, _, t. split; [done|].
    set (r := ((code c - 192) * 64 + (code b1 - 128))%Z).
    assert (Hr : (128 <= r < 2048)%Z).
    { unfold r. lia. }
    assert (Henc : encodeRune r = String c (String b1 "")).
    { unfold encodeRune.
      destruct (r <? 128)%Z eqn:F1; [lia|]. destruct (r <? 2048)%Z eqn:F2; [|lia].
      replace (192 + r / 64)%Z with (code c).
      2:{ unfold r. Z.to_euclidean_division_equations; lia. }
      replace (128 + r mod 64)%Z with (code b1).
      2:{ unfold r. Z.to_euclidean_division_equations; lia. }
      by rewrite !byte_code. }
    split; [done|].
    replace 2%nat with (String.length (encodeRune r)) by (by rewrite Henc).
    apply decoded_rune; [lia| |by rewrite Henc].
    unfold isScalar, MaxRune.
    repeat (apply andb_true_intro; split); try apply negb_true_iff; try apply andb_false_iff; lia. }
  destruct t as [|b2 t]; [done|].
  pose proof (code_range b2) as Hb2.
  destruct (inRange 128 b2 191) eqn:R2; [|done].
  cbn [negb]. unfold inRange in R2. apply andb_true_iff in R2 as [R2 R2'].
  destruct (code c <? 240)%Z eqn:E3.
  { eexists _, _, t. split; [done|].
    set (r := ((code c - 224) * 4096 + (code b1 - 128) * 64 + (code b2 - 128))%Z).
    assert (Hr : (2048 <= r < 65536 /\ ~ (55296 <= r <= 57343))%Z).
    { unfold r. lia. }
    assert (Henc : encodeRune r = String c (String b1 (String b2 ""))).
    { unfold encodeRune.
      destruct (r <? 128)%Z eqn:F1; [lia|]. destruct (r <? 2048)%Z eqn:F2; [lia|].
      destruct (r <? 65536)%Z eqn:F3; [|lia].
      replace (224 + r / 4096)%Z with (code c)
        by (unfold r; Z.to_euclidean_division_equations; lia).
      replace (128 + (r / 64) mod 64)%Z with (code b1)
        by (unfold r; Z.to_euclidean_division_equations; lia).
      replace (128 + r mod 64)%Z with (code b2)
        by (unfold r; Z.to_euclidean_division_equations; lia).
      by rewrite !byte_code. }
    split; [done|].
    replace 3%nat with (String.length (encodeRune r)) by (by rewrite Henc).
    apply decoded_rune; [lia| |by rewrite Henc].
    unfold isScalar, MaxRune.
    repeat (apply andb_true_intro; split); try apply negb_true_iff; try apply andb_false_iff; lia. }
  destruct t as [|b3 t]; [done|].
  pose proof (code_range b3) as Hb3.
  destruct (inRange 128 b3 191) eqn:R3; [|done].
  cbn [negb]. unfold inRange in R3. apply andb_true_iff in R3 as [R3 R3'].
  eexists _, _, t. split; [done|].
  set (r := ((code c - 240) * 262144 + (code b1 - 128) * 4096
             + (code b2 - 128) * 64 + (code b3 - 128))%Z).
  assert (Hr : (65536 <= r <= 1114111)%Z).
  { unfold r. lia. }
  assert (Henc : encodeRune r = String c (String b1 (String b2 (String b3 "")))).
  { unfold encodeRune.
    destruct (r <? 128)%Z eqn:F1; [lia|]. destruct (r <? 2048)%Z eqn:F2; [lia|].
    destruct (r <? 65536)%Z eqn:F3; [lia|].
    replace (240 + r / 262144)%Z with (code c)
      by (unfold r; Z.to_euclidean_division_equations; lia).
    replace (128 + (r / 4096) mod 64)%Z with (code b1)
      by (unfold r; Z.to_euclidean_division_equations; lia).
    replace (128 + (r / 64) mod 64)%Z with (code b2)
      by (unfold r; Z.to_euclidean_division_equations; lia).
    replace (128 + r mod 64)%Z with (code b3)
      by (unfold r; Z.to_euclidean_division_equations; lia).
    by rewrite !byte_code. }
  split; [done|].
  replace 4%nat with (String.length (encodeRune r)) by (by rewrite Henc).
  apply decoded_rune; [lia| |by rewrite Henc].
  unfold isScalar, MaxRune.
  repeat (apply andb_true_intro; split); try apply negb_true_iff; try apply andb_false_iff; lia.
Qed.

Lemma length_append (s t : string) :
  String.length (s +:+ t) = (String.length s + String.length t)%nat.
Proof. induction s as [|c s IH]; [done|]. rewrite append_cons. simpl. by rewrite IH. Qed.

Lemma dropBytes_length (n : nat) (s : string) :
  (String.length (dropBytes n s) <= String.length s)%nat.
Proof.
  revert s. induction n as [|n IH]; intros [|c s]; simpl; try lia.
  specialize (IH s). lia.
Qed.

Lemma decoded_shorter (s : string) (r : Z) (w : nat) (rest : string) :
  decoded s r w rest -> (String.length rest < String.length s)%nat.
Proof.
  intros [c t -> _|c t -> _|r' t Hr Hs ->]; simpl; try lia.
  destruct (encodeRune_high r') as (c & e & -> & _).
  { unfold isScalar in Hs. apply andb_true_iff in Hs as [Hs _].
    apply andb_true_iff in Hs as [_ Hs]. lia. }
  rewrite append_cons. simpl. rewrite length_append. lia.
Qed.

Lemma rangeString_from_fuel (f1 : nat) :
  forall (f2 : nat) (s : string),
    (String.length s <= f1)%nat -> (String.length s <= f2)%nat ->
    rangeString_from f1 s = rangeString_from f2 s.
Proof.
  induction f1 as [|f1 IH]; intros f2 s H1 H2.
  - destruct s; [|simpl in H1; lia]. by destruct f2.
  - destruct s as [|c t]; [by destruct f2|].
    destruct f2 as [|f2]; [simpl in H2; lia|].
    cbn [rangeString_from].
    destruct (DecodeRuneInString_decoded c t) as (r & w & rest & -> & Hrest & Hd).
    rewrite Hrest. f_equal.
    apply decoded_shorter in Hd. simpl in *. apply IH; lia.
Qed.

(** The first turn of a [range] loop. *)
Lemma rangeString_cons (c : ascii) (t : string) :
  exists r w rest,
    rangeString (String c t) = (r, rest) :: rangeString rest
    /\ decoded (String c t) r w rest.
Proof.
  destruct (DecodeRuneInString_decoded c t) as (r & w & rest & Hdec & Hrest & Hd).
  exists r, w, rest. split; [|done].
  unfold rangeString. cbn [String.length rangeString_from].
  rewrite Hdec, Hrest. f_equal.
  apply decoded_shorter in Hd. simpl in Hd. apply rangeString_from_fuel; lia.
Qed.

Lemma rangeString_ascii (c : ascii) (t : string) :
  (code c < 128)%Z -> rangeString (String c t) = (code c, t) :: rangeString t.
Proof.
  intros H. unfold rangeString. cbn [String.length rangeString_from DecodeRuneInString].
  apply Z.ltb_lt in H. rewrite H. done.
Qed.

Lemma high_not_ascii (c : ascii) : high c = true <-> ~ (code c < 128)%Z.
Proof. unfold high. lia. Qed.

Lemma encodeRune_cons (r : Z) : exists c e, encodeRune r = String c e.
Proof.
  unfold encodeRune.
  destruct (r <? 128)%Z; [by eexists _, _|]. destruct (r <? 2048)%Z; [by eexists _, _|].
  destruct (r <? 65536)%Z; by eexists _, _.
Qed.

Lemma rangeString_high (c : ascii) (t : string) :
  high c = true ->
  exists r rest,
    rangeString (String c t) = (r, rest) :: rangeString rest
    /\ (128 <= r)%Z
    /\ (String.length rest < String.length (String c t))%nat
    /\ exists p, t = p +:+ rest.
Proof.
  intros Hc. destruct (rangeString_cons c t) as (r & w & rest & Hr & Hd).
  exists r, rest. split; [done|].
  pose proof (decoded_shorter _ _ _ _ Hd) as Hlen.
  inversion Hd as [c' t' E Hlt|c' t' E _|r' t' Hge Hs E]; subst.
  - injection E as <- <-. apply high_not_ascii in Hc. lia.
  - injection E as <- <-. repeat split; [done|done|by exists ""].
  - repeat split; [done|done|].
    destruct (encodeRune_cons r) as (d & e & He). rewrite He, append_cons in E.
    injection E as <- ->. by exists e.
Qed.

(** Induction over the turns of a [range] loop. *)
Lemma rangeString_ind (P : string -> Prop) :
  P "" ->
  (forall c t, (code c < 128)%Z -> P t -> P (String c t)) ->
  (forall c t r rest,
     high c = true -> (128 <= r)%Z ->
     rangeString (String c t) = (r, rest) :: rangeString rest ->
     (exists p, t = p +:+ rest) ->
     P rest -> P (String c t)) ->
  forall s, P s.
Proof.
  intros H0 Ha Hh s.
  remember (String.length s) as n eqn:Hn.
  revert s Hn. induction n as [n IH] using lt_wf_ind. intros [|c t] Hn; [done|].
  destruct (high c) eqn:Hc.
  - destruct (rangeString_high c t Hc) as (r & rest & Hr & Hge & Hlen & Hsuf).
    apply (Hh c t r rest Hc Hge Hr Hsuf). apply (IH (String.length rest)); [lia|done].
  - apply Ha; [unfold high in Hc; lia|]. apply (IH (String.length t)); [simpl in Hn; lia|done].
Qed.

(** ** The text that a [range] loop reads *)

Lemma rangeText_nil : rangeText "" = "".
Proof. reflexivity. Qed.

Lemma rangeText_ascii (c : ascii) (t : string) :
  (code c < 128)%Z -> rangeText (String c t) = String c (rangeText t).
Proof.
  intros H. unfold rangeText. rewrite (rangeString_ascii c t H). cbn [map Join fst].
  by rewrite (WriteRune_ascii "" c H).
Qed.

Lemma rangeText_cons (s : string) (r : Z) (rest : string) :
  rangeString s = (r, rest) :: rangeString rest ->
  rangeText s = WriteRune "" r +:+ rangeText rest.
Proof. intros H. unfold rangeText. by rewrite H. Qed.

Lemma rangeText_nonempty (s : string) : s <> "" -> rangeText s <> "".
Proof.
  destruct s as [|c t]; [done|]. intros _.
  destruct (rangeString_cons c t) as (r & w & rest & Hr & _).
  rewrite (rangeText_cons _ _ _ Hr). unfold WriteRune.
  destruct (encodeRune_cons (if isScalar r then r else RuneError)) as (d & e & ->).
  by rewrite append_nil_l, append_cons.
Qed.

Lemma is_ascii_forallb (p : ascii -> bool) (s : string) :
  (forall c, p c = true -> (nat_of_ascii c <? 128)%nat = true) ->
  forallb p (chars s) = true -> is_ascii (chars s) = true.
Proof.
  intros Hp. unfold is_ascii. induction s as [|c s IH]; [done|].
  cbn [chars list_ascii_of_string forallb]. intros H. apply andb_true_iff in H as [Hc Hs].
  rewrite (Hp c Hc). by apply IH.
Qed.

Lemma is_ascii_rangeText (s : string) :
  is_ascii (chars s) = true -> rangeText s = s.
Proof.
  unfold is_ascii. induction s as [|c s IH]; [done|].
  cbn [chars list_ascii_of_string forallb]. intros H. apply andb_true_iff in H as [Hc Hs].
  apply Nat.ltb_lt in Hc.
  rewrite rangeText_ascii by (unfold code; lia). f_equal. by apply IH.
Qed.

(** ** Well-formed UTF-8 is read as it is *)

Lemma inRange_bounds (lo hi : Z) (b : ascii) :
  inRange lo b hi = true <-> (lo <= code b <= hi)%Z.
Proof. unfold inRange. rewrite andb_true_iff. lia. Qed.

Lemma ValidString_rangeString (c : ascii) (t : string) :
  ValidString (String c t) = true ->
  exists r rest,
    rangeString (String c t) = (r, rest) :: rangeString rest
    /\ String c t = WriteRune "" r +:+ rest
    /\ ValidString rest = true.
Proof.
  intros Hv.
  destruct (code c <? 128)%Z eqn:E0.
  { exists (code c), t. rewrite rangeString_ascii by lia. split; [done|].
    rewrite WriteRune_ascii by lia. split; [done|]. cbn [ValidString] in Hv. by rewrite E0 in Hv. }
  destruct (rangeString_cons c t) as (r & w & rest & Hr & Hd).
  exists r, rest. split; [done|].
  unfold rangeString in Hr. cbn [String.length rangeString_from] in Hr.
  destruct (DecodeRuneInString (String c t)) as [r0 w0] eqn:Hdec.
  injection Hr as -> Hrest _. clear Hd.
  pose proof (code_range c) as Hc.
  cbn [ValidString] in Hv. rewrite E0 in Hv.
  unfold DecodeRuneInString in Hdec. rewrite E0 in Hdec.
  destruct t as [|b1 t]; [done|].
  pose proof (code_range b1) as Hb1.
  destruct (inRange 194 c 223) eqn:V2.
  { apply inRange_bounds in V2. apply andb_true_iff in Hv as [V1 Hv].
    apply inRange_bounds in V1.
    replace ((code c <? 194)%Z || (244 <? code c)%Z) with false in Hdec by lia.
    replace (inRange (acceptLo (code c)) b1 (acceptHi (code c))) with true in Hdec.
    2:{ symmetry. apply inRange_bounds. unfold acceptLo, acceptHi.
        destruct (code c =? 224)%Z eqn:G1, (code c =? 240)%Z eqn:G2,
          (code c =? 237)%Z eqn:G3, (code c =? 244)%Z eqn:G4; lia. }
    cbn [negb] in Hdec. replace (code c <? 224)%Z with true in Hdec by lia.
    injection Hdec as <- <-. cbn [dropBytes] in Hrest. subst rest. split; [|done].
    set (r := ((code c - 192) * 64 + (code b1 - 128))%Z).
    assert (Hr : (128 <= r < 2048)%Z) by (unfold r; lia).
    unfold WriteRune, isScalar, MaxRune.
    replace ((0 <=? r)%Z && (r <=? 1114111)%Z && negb ((55296 <=? r)%Z && (r <=? 57343)%Z))
      with true by lia.
    unfold encodeRune.
    destruct (r <? 128)%Z eqn:F1; [lia|]. destruct (r <? 2048)%Z eqn:F2; [|lia].
    replace (192 + r / 64)%Z with (code c)
      by (unfold r; Z.to_euclidean_division_equations; lia).
    replace (128 + r mod 64)%Z with (code b1)
      by (unfold r; Z.to_euclidean_division_equations; lia).
    by rewrite !byte_code. }
  destruct t as [|b2 t]; [done|].
  pose proof (code_range b2) as Hb2.
  assert (V2' : ~ (194 <= code c <= 223)%Z).
  { intros H. apply inRange_bounds in H. congruence. }
  destruct (inRange 224 c 239) eqn:V3.
  { apply inRange_bounds in V3. apply andb_true_iff in Hv as [Hv Hv3].
    apply andb_true_iff in Hv as [V1 V2b].
    apply inRange_bounds in V2b.
    replace ((code c <? 194)%Z || (244 <? code c)%Z) with false in Hdec by lia.
    rewrite V1 in Hdec. cbn [negb] in Hdec.
    assert (B1 : (128 <= code b1 <= 191)%Z /\ (code c = 224 -> 160 <= code b1)%Z
                 /\ (code c = 237 -> code b1 <= 159)%Z).
    { apply inRange_bounds in V1. unfold acceptLo, acceptHi in V1.
      destruct (code c =? 224)%Z eqn:G1, (code c =? 240)%Z eqn:G2,
        (code c =? 237)%Z eqn:G3, (code c =? 244)%Z eqn:G4; lia. }
    clear V1.
    replace (code c <? 224)%Z with false in Hdec by lia.
    replace (inRange 128 b2 191) with true in Hdec by (symmetry; by apply inRange_bounds).
    cbn [negb] in Hdec. replace (code c <? 240)%Z with true in Hdec by lia.
    injection Hdec as <- <-. cbn [dropBytes] in Hrest. subst rest. split; [|done].
    set (r := ((code c - 224) * 4096 + (code b1 - 128) * 64 + (code b2 - 128))%Z).
    assert (Hr : (2048 <= r < 65536 /\ ~ (55296 <= r <= 57343))%Z) by (unfold r; lia).
    unfold WriteRune, isScalar, MaxRune.
    replace ((0 <=? r)%Z && (r <=? 1114111)%Z && negb ((55296 <=? r)%Z && (r <=? 57343)%Z))
      with true.
    2:{ symmetry. repeat (apply andb_true_intro; split); try apply negb_true_iff;
          try apply andb_false_iff; lia. }
    unfold encodeRune.
    destruct (r <? 128)%Z eqn:F1; [lia|]. destruct (r <? 2048)%Z eqn:F2; [lia|].
    destruct (r <? 65536)%Z eqn:F3; [|lia].
    replace (224 + r / 4096)%Z with (code c)
      by (unfold r; Z.to_euclidean_division_equations; lia).
    replace (128 + (r / 64) mod 64)%Z with (code b1)
      by (unfold r; Z.to_euclidean_division_equations; lia).
    replace (128 + r mod 64)%Z with (code b2)
      by (unfold r; Z.to_euclidean_division_equations; lia).
    by rewrite !byte_code. }
  destruct t as [|b3 t]; [done|].
  pose proof (code_range b3) as Hb3.
  apply andb_true_iff in Hv as [Hv Hv4]. apply andb_true_iff in Hv as [Hv V3b].
  apply andb_true_iff in Hv as [Hv V2b]. apply andb_true_iff in Hv as [V0 V1].
  apply inRange_bounds in V0, V2b, V3b.
  replace ((code c <? 194)%Z || (244 <? code c)%Z) with false in Hdec by lia.
  rewrite V1 in Hdec. cbn [negb] in Hdec.
  assert (B1 : (128 <= code b1 <= 191)%Z /\ (code c = 240 -> 144 <= code b1)%Z
               /\ (code c = 244 -> code b1 <= 143)%Z).
  { apply inRange_bounds in V1. unfold acceptLo, acceptHi in V1.
    destruct (code c =? 224)%Z eqn:G1, (code c =? 240)%Z eqn:G2,
      (code c =? 237)%Z eqn:G3, (code c =? 244)%Z eqn:G4; lia. }
  clear V1.
  replace (code c <? 224)%Z with false in Hdec by lia.
  replace (inRange 128 b2 191) with true in Hdec by (symmetry; by apply inRange_bounds).
  cbn [negb] in Hdec. replace (code c <? 240)%Z with false in Hdec by lia.
  replace (inRange 128 b3 191) with true in Hdec by (symmetry; by apply inRange_bounds).
  cbn [negb] in Hdec.
  injection Hdec as <- <-. cbn [dropBytes] in Hrest. subst rest. split; [|done].
  set (r := ((code c - 240) * 262144 + (code b1 - 128) * 4096
             + (code b2 - 128) * 64 + (code b3 - 128))%Z).
  assert (Hr : (65536 <= r <= 1114111)%Z) by (unfold r; lia).
  unfold WriteRune, isScalar, MaxRune.
  replace ((0 <=? r)%Z && (r <=? 1114111)%Z && negb ((55296 <=? r)%Z && (r <=? 57343)%Z))
    with true by lia.
  unfold encodeRune.
  destruct (r <? 128)%Z eqn:F1; [lia|]. destruct (r <? 2048)%Z eqn:F2; [lia|].
  destruct (r <? 65536)%Z eqn:F3; [lia|].
  replace (240 + r / 262144)%Z with (code c)
    by (unfold r; Z.to_euclidean_division_equations; lia).
  replace (128 + (r / 4096) mod 64)%Z with (code b1)
    by (unfold r; Z.to_euclidean_division_equations; lia).
  replace (128 + (r / 64) mod 64)%Z with (code b2)
    by (unfold r; Z.to_euclidean_division_equations; lia).
  replace (128 + r mod 64)%Z with (code b3)
    by (unfold r; Z.to_euclidean_division_equations; lia).
  by rewrite !byte_code.
Qed.

Lemma ValidString_rangeText (s : string) : ValidString s = true -> rangeText s = s.
Proof.
  remember (String.length s) as n eqn:Hn.
  revert s Hn. induction n as [n IH] using lt_wf_ind. intros [|c t] Hn Hv; [done|].
  destruct (ValidString_rangeString c t Hv) as (r & rest & Hr & Hs & Hrest).
  rewrite (rangeText_cons _ _ _ Hr), (IH (String.length rest)); [by rewrite <- Hs| |done|done].
  destruct (rangeString_cons c t) as (r' & w & rest' & Hr' & Hd).
  rewrite Hr in Hr'. injection Hr' as -> -> _. apply decoded_shorter in Hd. lia.
Qed.

Lemma is_ascii_ValidString (s : string) :
  is_ascii (chars s) = true -> ValidString s = true.
Proof.
  unfold is_ascii. induction s as [|c s IH]; [done|].
  cbn [chars list_ascii_of_string forallb ValidString]. intros H.
  apply andb_true_iff in H as [Hc Hs]. apply Nat.ltb_lt in Hc.
  replace (code c <? 128)%Z with true by (unfold code; lia). by apply IH.
Qed.

Lemma ValidString_ascii (c : ascii) (t : string) :
  (code c < 128)%Z -> ValidString (String c t) = ValidString t.
Proof. intros H. cbn [ValidString]. apply Z.ltb_lt in H. by rewrite H. Qed.

Lemma ValidString_app (s t : string) :
  ValidString s = true -> ValidString t = true -> ValidString (s +:+ t) = true.
Proof.
  intros Hs Ht.
  remember (String.length s) as n eqn:Hn.
  revert s Hn Hs. induction n as [n IH] using lt_wf_ind. intros s Hn Hs.
  destruct s as [|b0 s]; [done|].
  rewrite append_cons. cbn [ValidString] in *.
  destruct (code b0 <? 128)%Z.
  { apply (IH (String.length s)); [simpl in Hn; lia|done|done]. }
  destruct s as [|b1 s]; [done|]. rewrite append_cons.
  destruct (inRange 194 b0 223).
  { apply andb_true_iff in Hs as [-> Hs]. cbn [andb].
    apply (IH (String.length s)); [simpl in Hn; lia|done|done]. }
  destruct s as [|b2 s]; [done|]. rewrite append_cons.
  destruct (inRange 224 b0 239).
  { apply andb_true_iff in Hs as [-> Hs]. cbn [andb].
    apply (IH (String.length s)); [simpl in Hn; lia|done|done]. }
  destruct s as [|b3 s]; [done|]. rewrite append_cons.
  apply andb_true_iff in Hs as [-> Hs]. cbn [andb].
  apply (IH (String.length s)); [simpl in Hn; lia|done|done].
Qed.

(** ** The [range] loops and the loops on bytes *)

Lemma high_neq (c d : ascii) : high c = true -> (code d < 128)%Z -> (c =? d)%char = false.
Proof. intros Hc Hd. rewrite <- code_eqb. unfold high in Hc. lia. Qed.

Lemma high_neq_rune (r : Z) (d : ascii) :
  (128 <= r)%Z -> (code d < 128)%Z -> (r =? code d)%Z = false.
Proof. lia. Qed.

Lemma split_same_ascii st sb (c : ascii) :
  split_same st sb -> (code c < 128)%Z ->
  split_same (splitArguments_step st (code c)) (splitBytes_step sb c).
Proof.
  intros (Ha & Hc & Hb & Hq & Hqc) Hlt.
  unfold splitArguments_step, splitBytes_step.
  rewrite !code_eqb, !WriteRune_ascii, Ha, Hc, Hb, Hq, Hqc, code_eqb by done.
  destruct ((c =? DQ)%char || (c =? SQ)%char).
  { destruct (negb (sb_inQuotes sb)); [by repeat split|].
    destruct (c =? sb_quoteChar sb)%char; by repeat split. }
  destruct (c =? "{")%char; [by repeat split|].
  destruct (c =? "}")%char; [by repeat split|].
  destruct (c =? ",")%char; [|by repeat split].
  destruct (negb (sb_inQuotes sb) && (sb_braceLevel sb =? 0)%Z); by repeat split.
Qed.

Lemma splitBytes_step_high sb (c : ascii) :
  high c = true ->
  splitBytes_step sb c =
  {| sb_args := sb_args sb; sb_current := sb_current sb +:+ chr c;
     sb_braceLevel := sb_braceLevel sb;
     sb_inQuotes := sb_inQuotes sb; sb_quoteChar := sb_quoteChar sb |}.
Proof.
  intros H. unfold splitBytes_step.
  by rewrite (high_neq c DQ), (high_neq c SQ), (high_neq c "{"), (high_neq c "}"),
    (high_neq c ",").
Qed.

Lemma string_app_assoc (s t u : string) : (s +:+ t) +:+ u = s +:+ (t +:+ u).
Proof. induction s as [|c s IH]; [done|]. by rewrite !append_cons, IH. Qed.

Lemma splitBytes_loop_high (e : string) :
  forall (u : string) sb,
    forallb high (chars e) = true ->
    splitBytes_loop (e +:+ u) sb =
    splitBytes_loop u
      {| sb_args := sb_args sb; sb_current := sb_current sb +:+ e;
         sb_braceLevel := sb_braceLevel sb;
         sb_inQuotes := sb_inQuotes sb; sb_quoteChar := sb_quoteChar sb |}.
Proof.
  induction e as [|c e IH]; intros u sb H.
  - rewrite append_nil_l. f_equal. destruct sb; cbn. f_equal.
    induction sb_current0 as [|d cur IHc]; [done|]. by rewrite append_cons, <- IHc.
  - cbn [chars list_ascii_of_string forallb] in H. apply andb_true_iff in H as [Hc He].
    rewrite append_cons. cbn [splitBytes_loop].
    rewrite (splitBytes_step_high sb c Hc), IH by done.
    cbn [sb_args sb_current sb_braceLevel sb_inQuotes sb_quoteChar].
    unfold chr. by rewrite string_app_assoc.
Qed.

Lemma splitArguments_step_high st (r : Z) :
  (128 <= r)%Z ->
  splitArguments_step st r =
  {| sp_args := sp_args st; sp_current := WriteRune (sp_current st) r;
     sp_braceLevel := sp_braceLevel st;
     sp_inQuotes := sp_inQuotes st; sp_quoteChar := sp_quoteChar st |}.
Proof.
  intros H. unfold splitArguments_step.
  by rewrite (high_neq_rune r DQ), (high_neq_rune r SQ), (high_neq_rune r "{"),
    (high_neq_rune r "}"), (high_neq_rune r ",").
Qed.

Lemma WriteRune_app (b : string) (r : Z) : WriteRune b r = b +:+ WriteRune "" r.
Proof. reflexivity. Qed.

Lemma splitArguments_loop_bytes (s : string) :
  forall st sb,
    split_same st sb ->
    split_same (splitArguments_loop (rangeString s) st) (splitBytes_loop (rangeText s) sb).
Proof.
  induction s as [|c t Hc IH|c t r rest Hc Hr Hrange Hsuf IH] using rangeString_ind;
    intros st sb Hsame.
  - done.
  - rewrite rangeString_ascii, rangeText_ascii by done.
    cbn [splitArguments_loop splitBytes_loop]. apply IH. by apply split_same_ascii.
  - rewrite (rangeText_cons _ _ _ Hrange), Hrange. cbn [splitArguments_loop].
    destruct (WriteRune_high "" r) as (d & e & He & Hhigh); [lia|].
    rewrite append_nil_l in He.
    rewrite He, (splitBytes_loop_high _ _ _ Hhigh), splitArguments_step_high by done.
    apply IH. destruct Hsame as (Ha & Hcur & Hb & Hq & Hqc).
    repeat split; cbn; try done.
    by rewrite WriteRune_app, He, Hcur.
Qed.

(** [splitArguments] is the loop on bytes, on the text that is read. *)
Lemma splitArguments_bytes (argsString : string) :
  splitArguments argsString = splitBytes (rangeText argsString).
Proof.
  unfold splitArguments, splitBytes.
  pose proof (splitArguments_loop_bytes argsString
    {| sp_args := []; sp_current := ""; sp_braceLevel := 0;
       sp_inQuotes := false; sp_quoteChar := 0 |}
    {| sb_args := []; sb_current := ""; sb_braceLevel := 0;
       sb_inQuotes := false; sb_quoteChar := NUL |}) as H.
  destruct H as (Ha & Hc & _); [by repeat split|].
  by rewrite Ha, Hc.
Qed.

Lemma closes_next_high (c : ascii) (t : string) :
  high c = true -> closes_next (String c t) = false.
Proof.
  intros H. unfold closes_next, isLookaheadSpace. cbn [dropWhile].
  rewrite (high_neq c " "), (high_neq c TAB), (high_neq c LF), (high_neq c CR) by done.
  cbn [orb]. by rewrite (high_neq c "}"), (high_neq c "]").
Qed.

Lemma closes_next_rangeText (s : string) : closes_next (rangeText s) = closes_next s.
Proof.
  induction s as [|c t Hc IH|c t r rest Hc Hr Hrange Hsuf IH] using rangeString_ind.
  - done.
  - rewrite rangeText_ascii by done. unfold closes_next in *. cbn [dropWhile].
    by destruct (isLookaheadSpace c).
  - rewrite (rangeText_cons _ _ _ Hrange).
    destruct (WriteRune_high "" r) as (d & e & He & Hhigh); [lia|].
    rewrite append_nil_l in He. rewrite He, append_cons.
    cbn [chars list_ascii_of_string forallb] in Hhigh. apply andb_true_iff in Hhigh as [Hd _].
    by rewrite !closes_next_high.
Qed.

Lemma removeBytes_loop_high (e : string) :
  forall (u : string) inQ qc result,
    forallb high (chars e) = true ->
    removeBytes_loop (e +:+ u) inQ qc result = removeBytes_loop u inQ qc (result +:+ e).
Proof.
  induction e as [|c e IH]; intros u inQ qc result H.
  - rewrite append_nil_l. f_equal.
    induction result as [|d cur IHc]; [done|]. by rewrite append_cons, <- IHc.
  - cbn [chars list_ascii_of_string forallb] in H. apply andb_true_iff in H as [Hc He].
    rewrite append_cons. cbn [removeBytes_loop].
    rewrite (high_neq c DQ), (high_neq c SQ), (high_neq c ",") by done. cbn [orb].
    rewrite IH by done. unfold WriteByte, chr. by rewrite string_app_assoc.
Qed.

Lemma removeBytes_loop_comma (rest : string) (inQ : bool) (qc : ascii) (result : string) :
  removeBytes_loop (String "," rest) inQ qc result =
  removeBytes_loop rest inQ qc
    (if negb inQ && closes_next rest then result else WriteByte result ",").
Proof.
  cbn [removeBytes_loop]. change (("," =? DQ)%char || ("," =? SQ)%char) with false.
  change ("," =? ",")%char with true. cbv iota. unfold closes_next.
  destruct inQ; [done|]. cbn [negb andb].
  destruct (dropWhile isLookaheadSpace rest) as [|next ?]; [done|].
  by destruct ((next =? "}")%char || (next =? "]")%char).
Qed.

Lemma removeTrailingCommas_loop_bytes (s : string) :
  forall inQ (qc : ascii) result,
    removeTrailingCommas_loop (rangeString s) inQ (code qc) result =
    removeBytes_loop (rangeText s) inQ qc result.
Proof.
  induction s as [|c t Hc IH|c t r rest Hc Hr Hrange Hsuf IH] using rangeString_ind;
    intros inQ qc result.
  - done.
  - rewrite rangeString_ascii, rangeText_ascii by done.
    destruct (c =? ",")%char eqn:Ecomma.
    + apply Ascii.eqb_eq in Ecomma. subst c.
      rewrite removeBytes_loop_comma, closes_next_rangeText, <- IH.
      cbn [removeTrailingCommas_loop].
      change ((code "," =? code DQ)%Z || (code "," =? code SQ)%Z) with false.
      change (code "," =? code ",")%Z with true. cbv iota.
      rewrite WriteRune_ascii by done. unfold closes_next.
      destruct inQ; [done|]. cbn [negb andb].
      destruct (dropWhile isLookaheadSpace t) as [|next ?]; [done|].
      by destruct ((next =? "}")%char || (next =? "]")%char).
    + cbn [removeTrailingCommas_loop removeBytes_loop].
      rewrite !code_eqb, Ecomma, WriteRune_ascii by done.
      destruct ((c =? DQ)%char || (c =? SQ)%char); [|apply IH].
      destruct (negb inQ); [apply IH|].
      destruct (c =? qc)%char; apply IH.
  - rewrite (rangeText_cons _ _ _ Hrange), Hrange. cbn [removeTrailingCommas_loop].
    destruct (WriteRune_high "" r) as (d & e & He & Hhigh); [lia|].
    rewrite append_nil_l in He.
    rewrite He, (removeBytes_loop_high _ _ _ _ _ Hhigh), (high_neq_rune r DQ),
      (high_neq_rune r SQ), (high_neq_rune r ",") by done.
    cbn [orb]. by rewrite WriteRune_app, He, IH.
Qed.

(** [removeTrailingCommas] is the loop on bytes, on the text that is read. *)
Lemma removeTrailingCommas_bytes (input : string) :
  removeTrailingCommas input = removeBytes (rangeText input).
Proof. apply (removeTrailingCommas_loop_bytes input false NUL ""). Qed.

(** ** The quote tracker of the code and the quote state of the specification *)

Lemma quote_state_snoc (pre : list ascii) (c : ascii) :
  quote_state (pre ++ [c]) = quote_step (quote_state pre) c.
Proof. unfold quote_state. by rewrite fold_left_app. Qed.

Lemma quote_rel_step inQ qc q c :
  quote_rel inQ qc q -> isQuote c = true ->
  quote_rel
    (fst (if negb inQ then (true, c) else if (c =? qc)%char then (false, qc) else (inQ, qc)))
    (snd (if negb inQ then (true, c) else if (c =? qc)%char then (false, qc) else (inQ, qc)))
    (quote_step q c).
Proof.
  intros Hrel Hq. unfold quote_step. rewrite Hq.
  destruct q as [d|]; simpl in Hrel.
  - destruct Hrel as [-> ->]. simpl. destruct (c =? d)%char; simpl; auto.
  - subst inQ. simpl. auto.
Qed.

Lemma quote_rel_skip inQ qc q c :
  quote_rel inQ qc q -> isQuote c = false -> quote_rel inQ qc (quote_step q c).
Proof. intros Hrel Hq. unfold quote_step. by rewrite Hq. Qed.

Lemma quote_rel_outside inQ qc q :
  quote_rel inQ qc q -> negb inQ = match q with None => true | Some _ => false end.
Proof. destruct q; simpl; [intros [-> _]|intros ->]; done. Qed.

(** ** [removeTrailingCommas] against its positional specification *)

Lemma first_non_space_dropWhile (s : string) :
  first_non_space (chars s) =
  match dropWhile isLookaheadSpace s with
  | String d _ => Some d
  | "" => None
  end.
Proof.
  induction s as [|c s IH]; simpl; [done|].
  unfold first_non_space in *. simpl.
  destruct (isLookaheadSpace c); simpl; [apply IH|done].
Qed.

Lemma trailing_comma_at_here (pre : list ascii) (c : ascii) (rest : list ascii) :
  trailing_comma_at (pre ++ c :: rest) (length pre) =
  (c =? ",")%char
  && match quote_state pre with None => true | Some _ => false end
  && match first_non_space rest with
     | Some d => (d =? "}")%char || (d =? "]")%char
     | None => false
     end.
Proof.
  unfold trailing_comma_at, outside_quotes.
  rewrite list_lookup_middle by done.
  rewrite take_app_length.
  replace (S (length pre)) with (length (pre ++ [c])) by (rewrite length_app; simpl; lia).
  rewrite (cons_middle c pre rest), app_assoc, drop_app_length. done.
Qed.

Lemma removeBytes_loop_spec (suf : string) :
  forall (pre : list ascii) inQ qc result,
    quote_rel inQ qc (quote_state pre) ->
    chars (removeBytes_loop suf inQ qc result) =
    chars result ++
    select_from (fun i => negb (trailing_comma_at (pre ++ chars suf) i))
                (length pre) (chars suf).
Proof.
  induction suf as [|c rest IH]; intros pre inQ qc result Hrel.
  - simpl. by rewrite app_nil_r.
  - assert (Hshift : forall r, chars r ++
        select_from (fun i => negb (trailing_comma_at ((pre ++ [c]) ++ chars rest) i))
          (length (pre ++ [c])) (chars rest) =
        chars r ++
        select_from (fun i => negb (trailing_comma_at (pre ++ c :: chars rest) i))
          (S (length pre)) (chars rest)).
    { intros r. rewrite <- app_assoc. simpl. rewrite length_app. simpl.
      by rewrite Nat.add_1_r. }
    cbn [removeBytes_loop chars list_ascii_of_string select_from].
    fold (chars rest).
    rewrite trailing_comma_at_here, first_non_space_dropWhile.
    rewrite <- (quote_rel_outside _ _ _ Hrel).
    destruct (isQuote c) eqn:Hq.
    + unfold isQuote in Hq. rewrite Hq.
      assert (Hc : (c =? ",")%char = false).
      { apply orb_true_iff in Hq as [Hq|Hq]; apply Ascii.eqb_eq in Hq; by subst c. }
      rewrite Hc. simpl.
      pose proof (quote_rel_step _ _ _ c Hrel) as Hstep.
      unfold isQuote in Hstep. rewrite Hq in Hstep. specialize (Hstep eq_refl).
      rewrite <- quote_state_snoc in Hstep.
      destruct (if negb inQ then (true, c) else if (c =? qc)%char then (false, qc) else (inQ, qc))
        as [inQ' qc'] eqn:Hnext.
      rewrite (IH (pre ++ [c]) inQ' qc' _ Hstep), Hshift, chars_WriteByte.
      by rewrite <- app_assoc.
    + assert (Hrel' : quote_rel inQ qc (quote_state (pre ++ [c]))).
      { rewrite quote_state_snoc. by apply quote_rel_skip. }
      unfold isQuote in Hq. rewrite Hq.
      destruct (c =? ",")%char eqn:Hc; simpl.
      * destruct inQ; simpl.
        { rewrite (IH (pre ++ [c]) _ _ _ Hrel'), Hshift, chars_WriteByte.
          by rewrite <- app_assoc. }
        destruct (dropWhile isLookaheadSpace rest) as [|d rest'] eqn:Hdrop.
        { rewrite (IH (pre ++ [c]) _ _ _ Hrel'), Hshift, chars_WriteByte.
          by rewrite <- app_assoc. }
        destruct ((d =? "}")%char || (d =? "]")%char); simpl.
        { by rewrite (IH (pre ++ [c]) _ _ _ Hrel'), Hshift. }
        rewrite (IH (pre ++ [c]) _ _ _ Hrel'), Hshift, chars_WriteByte.
        by rewrite <- app_assoc.
      * rewrite (IH (pre ++ [c]) _ _ _ Hrel'), Hshift, chars_WriteByte.
        by rewrite <- app_assoc.
Qed.

Lemma removeBytes_refines (input : string) :
  chars (removeBytes input) = removeTrailingCommas_spec (chars input).
Proof.
  unfold removeBytes, removeTrailingCommas_spec.
  by rewrite (removeBytes_loop_spec input [] false NUL "").
Qed.

(** C7 (as amended). On a text that is valid UTF-8 the trailing-comma pass
    keeps, in order, exactly the characters that are not a comma outside
    quoted literals whose next non-white-space character is a closing brace
    or bracket; so the first literal of the specification normalises to the
    stated JSON value in a text that keeps the blank after its inner comma,
    and the second to the stated text. *)
Theorem removeTrailingCommas_drops_exactly_trailing_commas :
  (forall input : string,
     ValidString input = true ->
     chars (removeTrailingCommas input) = removeTrailingCommas_spec (chars input))
  /\ removeTrailingCommas "{a:1, b:2,}" = "{a:1, b:2}"
  /\ normalizeJavaScriptObject "{a:1, b:2,}" = jtext "{'a':1, 'b':2}"
  /\ parse (normalizeJavaScriptObject "{a:1, b:2,}") = parse (jtext "{'a':1,'b':2}")
  /\ normalizeJavaScriptObject "{a:[1,2,],b:3}" = jtext "{'a':[1,2],'b':3}".
Proof.
  split; [|by repeat split].
  intros input Hvalid.
  rewrite removeTrailingCommas_bytes, (ValidString_rangeText input Hvalid).
  apply removeBytes_refines.
Qed.

Lemma removeTrailingCommas_drops_exactly_trailing_commas_witness :
  let input := "{name:'Jos" +:+ e_acute +:+ "', tags:['a',],}" in
  ValidString input = true
  /\ removeTrailingCommas input = "{name:'Jos" +:+ e_acute +:+ "', tags:['a']}"
  /\ chars (removeTrailingCommas input) = removeTrailingCommas_spec (chars input).
Proof.
  intros input. split; [reflexivity|]. split; [reflexivity|].
  apply (proj1 removeTrailingCommas_drops_exactly_trailing_commas). reflexivity.
Defined.

(** C7 as stated fails in its first example: the pass keeps the blank after
    the inner comma, so the normalised text is not the stated one.  It fails
    for every input string as well: a byte that is no valid UTF-8 is not
    preserved, it is read as U+FFFD and written as that rune. *)
Lemma normalize_trailing_comma_counterexample :
  normalizeJavaScriptObject "{a:1, b:2,}" = jtext "{'a':1, 'b':2}"
  /\ normalizeJavaScriptObject "{a:1, b:2,}" <> jtext "{'a':1,'b':2}"
  /\ ValidString e_acute_latin1 = false
  /\ removeTrailingCommas e_acute_latin1 = replacement
  /\ removeTrailingCommas_spec (chars e_acute_latin1) = chars e_acute_latin1.
Proof. repeat split; (reflexivity || discriminate). Qed.

(** ** [splitArguments] against its positional specification *)

Lemma scan_state_snoc b (pre : list ascii) (c : ascii) :
  scan_state b (pre ++ [c]) = scan_step b (scan_state b pre) c.
Proof. unfold scan_state. by rewrite fold_left_app. Qed.

Lemma scan_state_quote b (pre : list ascii) : fst (scan_state b pre) = quote_state pre.
Proof.
  induction pre as [|c pre IH] using rev_ind; [done|].
  by rewrite scan_state_snoc, quote_state_snoc, <- IH.
Qed.

Lemma top_level_comma_at_here b (pre : list ascii) (c : ascii) (rest : list ascii) :
  top_level_comma_at b (pre ++ c :: rest) (length pre) =
  (c =? ",")%char
  && match scan_state b pre with (None, 0%Z) => true | _ => false end.
Proof.
  unfold top_level_comma_at.
  rewrite list_lookup_middle by done. by rewrite take_app_length.
Qed.

Lemma split_consistent_step st pre c :
  split_consistent st pre -> split_consistent (splitBytes_step st c) (pre ++ [c]).
Proof.
  intros [Hq Hd]. unfold split_consistent. rewrite scan_state_snoc.
  destruct (scan_state false pre) as [q d]. simpl in *.
  unfold splitBytes_step.
  destruct (isQuote c) eqn:HQ.
  - pose proof (quote_rel_step _ _ _ c Hq HQ) as Hstep.
    unfold isQuote in HQ. rewrite HQ.
    destruct (if negb (sb_inQuotes st) then (true, c)
              else if (c =? sb_quoteChar st)%char then (false, sb_quoteChar st)
              else (sb_inQuotes st, sb_quoteChar st)) as [i' q'] eqn:E.
    simpl in *. split; [done|].
    unfold depth_step.
    apply orb_true_iff in HQ as [HQ|HQ]; apply Ascii.eqb_eq in HQ; subst c;
      by destruct q.
  - pose proof (quote_rel_skip _ _ _ c Hq HQ) as Hstep.
    pose proof (quote_rel_outside _ _ _ Hq) as Hout.
    unfold isQuote in HQ. rewrite HQ.
    unfold depth_step. simpl.
    rewrite !orb_false_r.
    destruct (c =? "{")%char eqn:E1; simpl.
    { split; [done|]. rewrite Hout. destruct q; simpl; lia. }
    destruct (c =? "}")%char eqn:E2; simpl.
    { split; [done|]. rewrite Hout. destruct q; simpl; lia. }
    destruct (c =? ",")%char eqn:E3; simpl.
    { destruct (negb (sb_inQuotes st) && (sb_braceLevel st =? 0)%Z); simpl;
        (split; [done|]); by destruct q. }
    split; [done|]. by destruct q.
Qed.

Lemma split_step_cut st pre c :
  split_consistent st pre ->
  (c =? ",")%char
  && match scan_state false pre with (None, 0%Z) => true | _ => false end = true ->
  splitBytes_step st c =
  {| sb_args := sb_args st ++ [TrimSpace (sb_current st)]; sb_current := "";
     sb_braceLevel := sb_braceLevel st;
     sb_inQuotes := sb_inQuotes st; sb_quoteChar := sb_quoteChar st |}.
Proof.
  intros [Hq Hd] H. apply andb_true_iff in H as [Hc Hs].
  apply Ascii.eqb_eq in Hc. subst c.
  destruct (scan_state false pre) as [[q|] d]; [done|].
  destruct d; try done. simpl in *. subst.
  unfold splitBytes_step. simpl. rewrite Hq, Hd. done.
Qed.

Lemma split_step_keep st pre c :
  split_consistent st pre ->
  (c =? ",")%char
  && match scan_state false pre with (None, 0%Z) => true | _ => false end = false ->
  sb_args (splitBytes_step st c) = sb_args st
  /\ sb_current (splitBytes_step st c) = WriteByte (sb_current st) c.
Proof.
  intros [Hq Hd] H. unfold splitBytes_step.
  destruct ((c =? DQ)%char || (c =? SQ)%char).
  { by destruct (if negb (sb_inQuotes st) then (true, c)
                 else if (c =? sb_quoteChar st)%char then (false, sb_quoteChar st)
                 else (sb_inQuotes st, sb_quoteChar st)). }
  destruct (c =? "{")%char; [done|].
  destruct (c =? "}")%char; [done|].
  destruct (c =? ",")%char; [|done].
  simpl in H.
  pose proof (quote_rel_outside _ _ _ Hq) as Hout.
  destruct (scan_state false pre) as [[q|] d]; simpl in *.
  - rewrite Hout. done.
  - rewrite Hout, Hd. simpl. destruct d; done.
Qed.

Lemma splitBytes_loop_spec (suf : string) :
  forall (pre : list ascii) (st : splitBytesState),
    split_consistent st pre ->
    let '(p, ps) := cut_at (top_level_comma_at false (pre ++ chars suf))
                      (length pre) (chars suf) in
    let all := (chars (sb_current st) ++ p) :: ps in
    sb_args (splitBytes_loop suf st) =
      sb_args st ++ map (fun p => TrimSpace (string_of_list_ascii p)) (removelast all)
    /\ chars (sb_current (splitBytes_loop suf st)) = List.last all [].
Proof.
  induction suf as [|c rest IH]; intros pre st Hst.
  - simpl. by rewrite !app_nil_r.
  - cbn [splitBytes_loop chars list_ascii_of_string cut_at]. fold (chars rest).
    specialize (IH (pre ++ [c]) _ (split_consistent_step st pre c Hst)).
    rewrite <- app_assoc, length_app, Nat.add_1_r in IH. simpl in IH.
    destruct (cut_at (top_level_comma_at false (pre ++ c :: chars rest))
                (S (length pre)) (chars rest)) as [p ps].
    rewrite top_level_comma_at_here.
    destruct ((c =? ",")%char
              && match scan_state false pre with (None, 0%Z) => true | _ => false end)
      eqn:Hcut.
    + rewrite (split_step_cut st pre c Hst Hcut) in IH |- *. simpl in IH.
      destruct IH as [IHa IHc]. rewrite app_nil_r. split.
      * rewrite IHa, <- app_assoc. simpl.
        unfold chars. by rewrite string_of_list_ascii_of_string.
      * exact IHc.
    + destruct (split_step_keep st pre c Hst Hcut) as [Ha Hc].
      rewrite Ha, Hc, chars_WriteByte, <- app_assoc in IH. exact IH.
Qed.

Lemma last_Some_default {A} (l : list A) (x d : A) :
  last l = Some x -> List.last l d = x.
Proof.
  induction l as [|a l IH]; [done|].
  destruct l as [|b l]; [by intros [= ->]|].
  intros H. apply IH. exact H.
Qed.

Lemma splitBytes_refines (argsString : string) :
  splitBytes argsString = splitArguments_spec false argsString.
Proof.
  unfold splitBytes, splitArguments_spec, pieces_at.
  pose proof (splitBytes_loop_spec argsString []
    {| sb_args := []; sb_current := ""; sb_braceLevel := 0;
       sb_inQuotes := false; sb_quoteChar := NUL |}) as H.
  specialize (H (conj eq_refl eq_refl)).
  cbn [app length sb_current sb_args chars list_ascii_of_string] in H.
  fold (chars argsString) in H.
  destruct (cut_at (top_level_comma_at false (chars argsString)) 0 (chars argsString))
    as [p ps].
  cbv zeta in H. destruct H as [Ha Hc].
  set (st := splitBytes_loop argsString _) in *.
  rewrite Ha.
  destruct (last (p :: ps)) as [x|] eqn:Hlast; [|by apply last_None in Hlast].
  rewrite (last_Some_default _ _ [] Hlast) in Hc.
  assert (Hall : p :: ps = removelast (p :: ps) ++ [x]).
  { rewrite (app_removelast_last (A:=list ascii) []) at 1 by done.
    by rewrite (last_Some_default _ _ [] Hlast). }
  destruct x as [|a x].
  - destruct (sb_current st); [done|discriminate].
  - destruct (sb_current st) as [|a' cur] eqn:Hcur; [discriminate|].
    cbn [String.length Nat.ltb Nat.leb].
    rewrite Hall at 2. rewrite map_app. cbn [map].
    rewrite <- Hc. unfold chars. by rewrite string_of_list_ascii_of_string.
Qed.

(** The pieces of [cut_at], put back together with the characters at the
    cut positions, are the text that was cut. *)
Lemma cut_at_rejoin (is_cut : nat -> bool) (l : list ascii) :
  forall k,
    let '(p, ps) := cut_at is_cut k l in
    exists seps,
      length seps = length ps
      /\ l = p ++ concat (zip_with (fun c q => c :: q) seps ps).
Proof.
  induction l as [|c l IH]; intros k; simpl.
  - by exists [].
  - specialize (IH (S k)). destruct (cut_at is_cut (S k) l) as [p ps].
    destruct IH as (seps & Hlen & Hl).
    destruct (is_cut k).
    + exists (c :: seps). simpl. split; [by rewrite Hlen|by rewrite Hl at 1].
    + exists seps. split; [done|]. simpl. by rewrite Hl at 1.
Qed.

(** C4 (as amended). On an argument text that is valid UTF-8,
    [splitArguments] cuts exactly at the commas that lie outside quoted
    literals at nesting depth 0, where the depth counts curly braces only: a
    comma between square brackets that is not also between braces is a split
    point.  Every piece is trimmed, and an empty last piece is dropped. *)
Theorem splitArguments_splits_at_top_level_commas :
  (forall argsString : string,
     ValidString argsString = true ->
     splitArguments argsString = splitArguments_spec false argsString)
  /\ splitArguments "{a:1},{b:{c:2}}" = ["{a:1}"; "{b:{c:2}}"]
  /\ splitArguments "{a:[1,2]},{b:3}" = ["{a:[1,2]}"; "{b:3}"]
  /\ splitArguments "[1,2]" = ["[1"; "2]"].
Proof.
  split; [|by repeat split].
  intros argsString Hvalid.
  rewrite splitArguments_bytes, (ValidString_rangeText argsString Hvalid).
  apply splitBytes_refines.
Qed.

Lemma splitArguments_splits_at_top_level_commas_witness :
  let argsString := "{name:'Jos" +:+ e_acute +:+ ", A.'}, {tags:[1,2]}, 'x,y'" in
  ValidString argsString = true
  /\ splitArguments argsString =
       ["{name:'Jos" +:+ e_acute +:+ ", A.'}"; "{tags:[1,2]}"; "'x,y'"]
  /\ splitArguments argsString = splitArguments_spec false argsString.
Proof.
  intros argsString. split; [reflexivity|]. split; [reflexivity|].
  apply (proj1 splitArguments_splits_at_top_level_commas). reflexivity.
Defined.

(** C4 as stated fails: with square brackets counted for the depth, the
    comma of [[1,2]] is no split point, but the code splits there.  It fails
    for every argument string as well: a byte that is no valid UTF-8 is no
    literal content of an argument, it is read as U+FFFD and written as that
    rune. *)
Lemma splitArguments_brackets_counterexample :
  splitArguments_spec true "[1,2]" = ["[1,2]"]
  /\ splitArguments "[1,2]" <> splitArguments_spec true "[1,2]"
  /\ ValidString e_acute_latin1 = false
  /\ splitArguments e_acute_latin1 = [replacement]
  /\ splitArguments_spec true e_acute_latin1 = [e_acute_latin1].
Proof. repeat split; (reflexivity || discriminate). Qed.

(** X25. What the two scanners do with bytes that are no valid UTF-8.  On
    every text, [splitArguments] and [removeTrailingCommas] act as on the
    text that their [range] loops read, in which the encoding of U+FFFD
    stands for every byte that is part of no valid encoding: the arguments
    are the trimmed pieces of that text between its top-level commas, and
    the trailing-comma pass returns that text without its trailing commas.
    A text that is valid UTF-8 is read as it is. *)
Theorem scanners_replace_invalid_bytes :
  (forall argsString : string,
     splitArguments argsString = splitArguments_spec false (rangeText argsString))
  /\ (forall input : string,
        chars (removeTrailingCommas input) =
        removeTrailingCommas_spec (chars (rangeText input)))
  /\ (forall s : string, ValidString s = true -> rangeText s = s)
  /\ rangeText ("{a:'" +:+ e_acute_latin1 +:+ "',}") = "{a:'" +:+ replacement +:+ "',}"
  /\ removeTrailingCommas ("{a:'" +:+ e_acute_latin1 +:+ "',}")
     = "{a:'" +:+ replacement +:+ "'}"
  /\ splitArguments ("'" +:+ e_acute_latin1 +:+ "', 1") = ["'" +:+ replacement +:+ "'"; "1"].
Proof.
  split; [|split; [|split; [|by repeat split]]].
  - intros argsString. rewrite splitArguments_bytes. apply splitBytes_refines.
  - intros input. rewrite removeTrailingCommas_bytes. apply removeBytes_refines.
  - apply ValidString_rangeText.
Qed.

(** ** Fixed points of the normaliser *)

Lemma ReplaceAll_absent (s : string) (old new : ascii) :
  forallb (fun c => negb (c =? old)%char) (chars s) = true -> ReplaceAll s old new = s.
Proof.
  induction s as [|c s IH]; simpl; [done|].
  intros H. apply andb_true_iff in H as [Hc Hs].
  apply negb_true_iff in Hc. rewrite Hc. f_equal. by apply IH.
Qed.

Lemma forallb_seq_lt (f : nat -> bool) (n i : nat) :
  forallb f (seq 0 n) = true -> (i < n)%nat -> f i = true.
Proof.
  intros H Hi. rewrite forallb_forall in H. apply H, in_seq. lia.
Qed.

Lemma select_from_all (keep : nat -> bool) (l : list ascii) :
  forall k, (forall i, (k <= i < k + length l)%nat -> keep i = true) ->
            select_from keep k l = l.
Proof.
  induction l as [|c l IH]; intros k H; simpl; [done|].
  rewrite (H k) by (simpl; lia). simpl. f_equal.
  apply IH. intros i Hi. apply H. simpl. lia.
Qed.

Lemma removeTrailingCommas_absent (s : string) :
  rangeText s = s -> no_trailing_comma (chars s) = true -> removeTrailingCommas s = s.
Proof.
  intros Hs H. rewrite removeTrailingCommas_bytes, Hs.
  apply chars_inj. unfold removeBytes.
  rewrite (removeBytes_loop_spec s [] false NUL "") by done.
  simpl. apply select_from_all. intros i Hi.
  apply (forallb_seq_lt _ _ i H). lia.
Qed.

Lemma isAlphaStart_isKeyChar (c : ascii) : isAlphaStart c = true -> isKeyChar c = true.
Proof. intros H. unfold isKeyChar, isAlphaNum. by rewrite H. Qed.

Lemma isKeyChar_not_quote (c : ascii) : isKeyChar c = true -> isQuote c = false.
Proof. destruct c as [[] [] [] [] [] [] [] []]; vm_compute; congruence. Qed.

Lemma isBlank_not_quote (c : ascii) : isBlank c = true -> isQuote c = false.
Proof. destruct c as [[] [] [] [] [] [] [] []]; vm_compute; congruence. Qed.

Lemma takeWhile_dropWhile (p : ascii -> bool) (s : string) :
  takeWhile p s +:+ dropWhile p s = s.
Proof.
  induction s as [|c s IH]; simpl; [done|].
  destruct (p c); [by rewrite append_cons, IH|done].
Qed.

Lemma dropWhile_length (p : ascii -> bool) (s : string) :
  (String.length (dropWhile p s) <= String.length s)%nat.
Proof. induction s as [|c s IH]; simpl; [done|]. destruct (p c); simpl; lia. Qed.

Lemma find_dropWhile (p : ascii -> bool) (s : string) :
  find (fun d => negb (p d)) (chars s) =
  match dropWhile p s with
  | String d _ => Some d
  | "" => None
  end.
Proof.
  induction s as [|c s IH]; simpl; [done|].
  destruct (p c); simpl; [apply IH|done].
Qed.

Lemma quote_state_app_unquoted (pre w : list ascii) :
  Forall (fun c => isQuote c = false) w -> quote_state (pre ++ w) = quote_state pre.
Proof.
  induction w as [|c w IH] using rev_ind; intros H; [by rewrite app_nil_r|].
  apply Forall_app in H as [Hw Hc]. inversion Hc as [|? ? Hq _]; subst.
  rewrite app_assoc, quote_state_snoc, IH by done.
  unfold quote_step. by rewrite Hq.
Qed.

Lemma takeWhile_Forall (p : ascii -> bool) (s : string) :
  Forall (fun c => p c = true) (chars (takeWhile p s)).
Proof.
  induction s as [|c s IH]; simpl; [constructor|].
  destruct (p c) eqn:E; simpl; [by constructor|constructor].
Qed.

Lemma string_app_nil_r (a : string) : a +:+ "" = a.
Proof. induction a as [|x a IH]; [done|]. by rewrite append_cons, IH. Qed.

Lemma chars_length (s : string) : length (chars s) = String.length s.
Proof. induction s as [|c s IH]; [done|]. unfold chars in *. simpl. by rewrite IH. Qed.

Lemma stringOfByte_ascii (c : ascii) :
  (nat_of_ascii c <? 128)%nat = true -> stringOfByte c = chr c.
Proof. destruct c as [[] [] [] [] [] [] [] []]; vm_compute; congruence. Qed.

Lemma addQuotesToKeys_loop_unchanged (fuel : nat) :
  forall (suf : string) (pre : list ascii) (inQuotes : bool) (result : string),
    (String.length suf <= fuel)%nat ->
    quote_rel inQuotes DQ (quote_state pre) ->
    is_ascii (pre ++ chars suf) = true ->
    no_single_quote (pre ++ chars suf) = true ->
    bare_words_ok (pre ++ chars suf) = true ->
    addQuotesToKeys_loop fuel suf inQuotes result = result +:+ suf.
Proof.
  induction fuel as [|fuel IH]; intros suf pre inQ result Hfuel Hrel Hascii Hsq Hok.
  - destruct suf; [by rewrite string_app_nil_r|simpl in Hfuel; lia].
  - destruct suf as [|c rest]; [by rewrite string_app_nil_r|].
    simpl in Hfuel.
    assert (Hcsq : (c =? SQ)%char = false).
    { unfold no_single_quote in Hsq. rewrite forallb_app in Hsq.
      apply andb_true_iff in Hsq as [_ Hsq]. simpl in Hsq.
      apply andb_true_iff in Hsq as [Hsq _]. by apply negb_true_iff in Hsq. }
    assert (Hc7 : stringOfByte c = chr c).
    { apply stringOfByte_ascii. unfold is_ascii in Hascii. rewrite forallb_app in Hascii.
      apply andb_true_iff in Hascii as [_ Hascii]. simpl in Hascii.
      by apply andb_true_iff in Hascii as [Hascii _]. }
    assert (Hlist : pre ++ chars (String c rest) = (pre ++ [c]) ++ chars rest).
    { by rewrite <- app_assoc. }
    assert (Hone : forall inQ' r, quote_rel inQ' DQ (quote_state (pre ++ [c])) ->
               addQuotesToKeys_loop fuel rest inQ' (r +:+ stringOfByte c) =
               r +:+ String c rest).
    { intros inQ' r Hrel'. rewrite Hc7, (IH rest (pre ++ [c]) inQ' _); try done.
      - by rewrite string_app_assoc.
      - lia.
      - by rewrite <- Hlist.
      - by rewrite <- Hlist.
      - by rewrite <- Hlist. }
    cbn [addQuotesToKeys_loop].
    destruct (c =? DQ)%char eqn:Hdq.
    { apply Hone. rewrite quote_state_snoc. apply Ascii.eqb_eq in Hdq. subst c.
      unfold quote_step. simpl.
      destruct (quote_state pre) as [d|]; simpl in *.
      - destruct Hrel as [-> <-]. by simpl.
      - by subst inQ. }
    assert (Hnq : isQuote c = false) by (unfold isQuote; by rewrite Hdq, Hcsq).
    assert (Hrel' : quote_rel inQ DQ (quote_state (pre ++ [c]))).
    { rewrite quote_state_snoc. by apply quote_rel_skip. }
    destruct inQ; [by apply Hone|].
    destruct (isAlphaStart c) eqn:Halpha; [|by apply Hone].
    (* a bare word starts here *)
    set (suf := String c rest) in *.
    assert (Hword : bare_word_ok (pre ++ chars suf) (length pre) = true).
    { apply (forallb_seq_lt _ _ _ Hok). rewrite length_app. simpl. lia. }
    unfold bare_word_ok, outside_quotes in Hword.
    rewrite take_app_length, drop_app_length in Hword.
    unfold suf in Hword at 1. cbn [chars list_ascii_of_string] in Hword.
    rewrite list_lookup_middle in Hword by done.
    destruct (quote_state pre) eqn:Hqs; [by destruct Hrel|].
    rewrite Halpha in Hword. cbn [andb] in Hword.
    fold (chars suf) in Hword. rewrite find_dropWhile in Hword.
    pose proof (takeWhile_dropWhile isKeyChar suf) as Hsplit.
    assert (Hklen : (String.length (dropWhile isKeyChar suf) <= fuel)%nat).
    { unfold suf. simpl. rewrite (isAlphaStart_isKeyChar c Halpha).
      pose proof (dropWhile_length isKeyChar rest). lia. }
    destruct (dropWhile isKeyChar suf) as [|d after] eqn:Hafter.
    + rewrite string_app_nil_r in Hsplit. rewrite Hsplit.
      cbn [dropWhile]. by destruct fuel.
    + apply negb_true_iff, orb_false_iff in Hword as [Hblank Hcolon].
      cbn [dropWhile]. rewrite Hblank.
      assert (Hgo : addQuotesToKeys_loop fuel (String d after) false
                      (result +:+ takeWhile isKeyChar suf) = result +:+ suf).
      { rewrite (IH _ (pre ++ chars (takeWhile isKeyChar suf)) false _); try done.
        - by rewrite string_app_assoc, Hsplit.
        - rewrite quote_state_app_unquoted, Hqs; [done|].
          eapply Forall_impl; [apply takeWhile_Forall|].
          intros x Hx. by apply isKeyChar_not_quote.
        - rewrite <- app_assoc, <- chars_app, Hsplit. done.
        - rewrite <- app_assoc, <- chars_app, Hsplit. done.
        - rewrite <- app_assoc, <- chars_app, Hsplit. done. }
      destruct d as [[] [] [] [] [] [] [] []]; try exact Hgo; discriminate.
Qed.

Lemma addQuotesToKeys_unchanged (s : string) :
  is_ascii (chars s) = true ->
  no_single_quote (chars s) = true -> bare_words_ok (chars s) = true ->
  addQuotesToKeys s = s.
Proof.
  intros Hascii Hsq Hok. unfold addQuotesToKeys.
  by rewrite (addQuotesToKeys_loop_unchanged _ s [] false "").
Qed.

(** C5 (as amended). An ASCII literal without single quotes and without
    trailing commas, in which no bare word outside a quoted literal is
    followed by a blank, a tab or a colon (so every key is quoted), is
    returned by the normaliser byte for byte; quoted literals are delimited
    as the scanner delimits them, a backslash not escaping a quote. *)
Theorem normalizeJavaScriptObject_fixed_point (input : string) :
  already_normal input = true -> normalizeJavaScriptObject input = input.
Proof.
  unfold already_normal. intros H.
  apply andb_true_iff in H as [H Hwords]. apply andb_true_iff in H as [H Hcomma].
  apply andb_true_iff in H as [Hascii Hsq].
  unfold normalizeJavaScriptObject.
  rewrite (ReplaceAll_absent input SQ DQ Hsq), (removeTrailingCommas_absent input (is_ascii_rangeText input Hascii) Hcomma).
  destruct (Contains input "{" && Contains input ":"); [|done].
  by apply addQuotesToKeys_unchanged.
Qed.

Lemma normalizeJavaScriptObject_fixed_point_witness :
  already_normal (jtext "{'a':1,'b':[true,null],'c':'x, y:z'}") = true
  /\ normalizeJavaScriptObject (jtext "{'a':1,'b':[true,null],'c':'x, y:z'}")
     = jtext "{'a':1,'b':[true,null],'c':'x, y:z'}".
Proof.
  split; [reflexivity|].
  apply (normalizeJavaScriptObject_fixed_point
           (jtext "{'a':1,'b':[true,null],'c':'x, y:z'}")).
  reflexivity.
Defined.

(** ** Facts about [strings] *)

Lemma prefix_app (p s x : string) :
  String.prefix p s = true -> String.prefix p (s +:+ x) = true.
Proof.
  revert s. induction p as [|c p IH]; intros s H; [by destruct (s +:+ x)|].
  destruct s as [|d s]; [done|]. rewrite append_cons. simpl in *.
  destruct (ascii_dec c d); [by apply IH|done].
Qed.

Lemma Contains_app_l (m b x : string) :
  Contains m x = true -> Contains (m +:+ b) x = true.
Proof.
  induction m as [|c m IH]; intros H.
  - simpl in H. rewrite orb_false_r in H. destruct x; [|done].
    rewrite append_nil_l. by destruct b.
  - rewrite append_cons.
    change (String.prefix x (String c (m +:+ b)) || Contains (m +:+ b) x = true).
    change (String.prefix x (String c m) || Contains m x = true) in H.
    apply orb_true_iff in H as [H|H]; apply orb_true_iff; [left|right; by apply IH].
    rewrite <- append_cons. by apply prefix_app.
Qed.

Lemma Contains_app_r (a m x : string) :
  Contains m x = true -> Contains (a +:+ m) x = true.
Proof.
  induction a as [|c a IH]; intros H; [done|].
  rewrite append_cons.
  change (String.prefix x (String c (a +:+ m)) || Contains (a +:+ m) x = true).
  rewrite (IH H). by rewrite orb_true_r.
Qed.

Lemma substring_0_prefix (s : string) (m : nat) :
  exists b, s = String.substring 0 m s +:+ b.
Proof.
  revert m. induction s as [|c s IH]; intros m.
  - exists "". by destruct m.
  - destruct m as [|m]; simpl; [by exists (String c s)|].
    destruct (IH m) as [b Hb]. exists b. by rewrite append_cons, <- Hb.
Qed.

Lemma substring_factor (s : string) (n m : nat) :
  exists a b, s = a +:+ (String.substring n m s +:+ b).
Proof.
  revert n m. induction s as [|c s IH]; intros n m.
  - exists "", "". by destruct n, m.
  - destruct n as [|n].
    + destruct (substring_0_prefix (String c s) m) as [b Hb]. by exists "", b.
    + simpl. destruct (IH n m) as (a & b & Hab). exists (String c a), b.
      by rewrite append_cons, <- Hab.
Qed.

Lemma Contains_substring (s x : string) (n m : nat) :
  Contains (String.substring n m s) x = true -> Contains s x = true.
Proof.
  intros H. destruct (substring_factor s n m) as (a & b & Hab).
  rewrite Hab. by apply Contains_app_r, Contains_app_l.
Qed.

Lemma Index_Contains (s x : string) : Index s x <> (-1)%Z -> Contains s x = true.
Proof.
  induction s as [|c s IH].
  - destruct x; simpl; [done|congruence].
  - change (Index (String c s) x) with
      (if String.prefix x (String c s) then 0%Z
       else if (Index s x =? -1)%Z then (-1)%Z else (Index s x + 1)%Z).
    change (Contains (String c s) x) with
      (String.prefix x (String c s) || Contains s x).
    destruct (String.prefix x (String c s)); [done|].
    destruct (Index s x =? -1)%Z eqn:E; [congruence|].
    intros _. apply IH. by apply Z.eqb_neq.
Qed.

Lemma Index_lower_bound (s x : string) : (-1 <= Index s x)%Z.
Proof.
  induction s as [|c s IH].
  - destruct x; simpl; lia.
  - change (Index (String c s) x) with
      (if String.prefix x (String c s) then 0%Z
       else if (Index s x =? -1)%Z then (-1)%Z else (Index s x + 1)%Z).
    destruct (String.prefix x (String c s)); [lia|].
    destruct (Index s x =? -1)%Z; lia.
Qed.

Lemma Contains_Index (s x : string) : Contains s x = true -> Index s x <> (-1)%Z.
Proof.
  induction s as [|c s IH].
  - destruct x; simpl; [lia|done].
  - change (Index (String c s) x) with
      (if String.prefix x (String c s) then 0%Z
       else if (Index s x =? -1)%Z then (-1)%Z else (Index s x + 1)%Z).
    change (Contains (String c s) x) with
      (String.prefix x (String c s) || Contains s x).
    destruct (String.prefix x (String c s)); [lia|]. simpl. intros H.
    specialize (IH H). pose proof (Index_lower_bound s x).
    destruct (Index s x =? -1)%Z eqn:E; [by apply Z.eqb_eq in E|lia].
Qed.

Lemma TrimSuffix_prefix (t suffix : string) : exists b, t = TrimSuffix t suffix +:+ b.
Proof.
  unfold TrimSuffix. destruct (HasSuffix t suffix).
  - apply substring_0_prefix.
  - exists "". by rewrite string_app_nil_r.
Qed.

(** ** The monad of the parser *)

Lemma bind_ret_l {A B : Type} (a : A) (k : A -> M B) (n : nat) :
  bind (ret a) k n = k a n.
Proof. unfold bind, ret. by destruct (k a n) as [[b l] n']. Qed.

Section ParserFacts.

Context `{RT : GoRuntime}.

(** A statement of the general form reaches [parseMongoStatement]. *)
Lemma call_of_reaches_parser statement collection operation argsString :
  call_of statement collection operation argsString ->
  reaches_parser statement = true.
Proof.
  intros [_ Hcall]. unfold reaches_parser. cbv zeta in *.
  generalize dependent (TrimSpace statement). intros t Hcall.
  destruct (TrimSuffix_prefix t ";") as [b Hb].
  set (s := TrimSuffix t ";") in *.
  unfold extractCall in Hcall.
  destruct (HasPrefix s "db.") eqn:Hdb; [|done]. simpl in Hcall.
  assert (Ht : HasPrefix t "db." = true).
  { rewrite Hb. by apply prefix_app. }
  assert (Hparen : Contains t "(" = true).
  { rewrite Hb. apply Contains_app_l.
    destruct ((Index s "." =? -1)%Z || negb (Index s "." =? 2)%Z); [done|].
    destruct (Index (sliceFrom s (Index s "." + 1)) "." =? -1)%Z; [done|].
    set (operationPart := sliceFrom s _) in *.
    destruct (Index operationPart "(" =? -1)%Z eqn:Hp; [done|].
    apply Z.eqb_neq, Index_Contains in Hp.
    by apply Contains_substring in Hp. }
  rewrite Ht, Hparen. clear -Ht.
  destruct t as [|c1 t]; [done|].
  unfold HasPrefix in *. cbn [String.prefix String.eqb orb] in *.
  destruct (ascii_dec "d" c1) as [<-|]; [|done].
  by destruct (ascii_dec "/" "d").
Qed.

(** The loop body only ever appends to the operations it is given. *)
Lemma parseJavaScriptOperations_step_frame operations statement n :
  parseJavaScriptOperations_step operations statement n =
  let '(ops, log, n') := parseJavaScriptOperations_step [] statement n in
  (operations ++ ops, log, n').
Proof.
  unfold parseJavaScriptOperations_step.
  destruct ((TrimSpace statement =? "") || HasPrefix (TrimSpace statement) "//").
  { unfold ret. by rewrite app_nil_r. }
  destruct (HasPrefix (TrimSpace statement) "db." && Contains (TrimSpace statement) "(").
  2:{ unfold ret. by rewrite app_nil_r. }
  unfold bind.
  destruct (parseMongoStatement (TrimSpace statement) n) as [[[op err] log] n'].
  destruct op, err; simpl; by rewrite ?app_nil_r.
Qed.

Lemma parseJavaScriptOperations_loop_contributions statements :
  forall operations n,
    parseJavaScriptOperations_loop statements operations n =
    let '(ops, log, n') := contributions statements n in
    (operations ++ ops, log, n').
Proof.
  induction statements as [|statement rest IH]; intros operations n; simpl.
  - unfold ret. by rewrite app_nil_r.
  - unfold bind. rewrite parseJavaScriptOperations_step_frame.
    destruct (parseJavaScriptOperations_step [] statement n) as [[ops log] n1].
    rewrite IH. destruct (contributions rest n1) as [[ops' log'] n2].
    by rewrite app_assoc.
Qed.

Lemma contributions_app (pre post : list string) (n : nat) :
  contributions (pre ++ post) n =
  let '(ops, log, n1) := contributions pre n in
  let '(ops', log', n2) := contributions post n1 in
  (ops ++ ops', log ++ log', n2).
Proof.
  revert n. induction pre as [|statement pre IH]; intros n; simpl.
  - by destruct (contributions post n) as [[ops' log'] n2].
  - destruct (parseJavaScriptOperations_step [] statement n) as [[ops log] n1].
    rewrite IH. destruct (contributions pre n1) as [[ops1 log1] n2].
    destruct (contributions post n2) as [[ops2 log2] n3].
    by rewrite !app_assoc.
Qed.

Lemma parseJavaScriptOperations_contributions jsContent n :
  parseJavaScriptOperations jsContent n =
  let '(ops, log, n') := contributions (splitIntoStatements jsContent) n in
  ((ops, None), log, n').
Proof.
  unfold parseJavaScriptOperations, bind.
  rewrite parseJavaScriptOperations_loop_contributions.
  destruct (contributions (splitIntoStatements jsContent) n) as [[ops log] n'].
  unfold ret. simpl. by rewrite app_nil_r.
Qed.

(** A statement for which [parseMongoStatement] returns an error adds no
    operation and one warning after the lines the builder wrote itself. *)
Lemma step_error_skipped statement n op err log n' :
  reaches_parser statement = true ->
  parseMongoStatement (TrimSpace statement) n = ((op, Some err), log, n') ->
  parseJavaScriptOperations_step [] statement n =
  ([], log ++ [Warning_statement (TrimSpace statement) err], n').
Proof.
  unfold reaches_parser, parseJavaScriptOperations_step. intros Hreach Hparse.
  apply andb_true_iff in Hreach as [Hskip Hgate].
  apply negb_true_iff in Hskip. rewrite Hskip, Hgate.
  unfold bind. rewrite Hparse. by destruct op.
Qed.

(** A call of the general form whose method the [switch] does not list. *)
Lemma parseMongoStatement_unsupported statement collection operation argsString n :
  call_of statement collection operation argsString ->
  operation ∉ supportedOperations ->
  parseMongoStatement statement n =
  ((None, None), [Warning_unsupported operation collection], n).
Proof.
  intros [Hcc Hcall] Hnot. unfold parseMongoStatement.
  rewrite Hcc, Hcall.
  assert (Hne : forall m, m ∈ supportedOperations -> (operation =? m) = false).
  { intros m Hm. apply String.eqb_neq. intros ->. by apply Hnot. }
  unfold supportedOperations in Hne.
  rewrite !Hne by (repeat (first [apply list_elem_of_here | apply list_elem_of_further])).
  done.
Qed.

End ParserFacts.

(** ** [TrimSpace] is idempotent *)

Lemma dropWhile_head (p : ascii -> bool) (s : string) :
  match dropWhile p s with
  | "" => True
  | String c _ => p c = false
  end.
Proof.
  induction s as [|c s IH]; simpl; [done|].
  destruct (p c) eqn:E; [done|]. exact E.
Qed.

Lemma dropWhileEnd_idem (p : ascii -> bool) (s : string) :
  dropWhileEnd p (dropWhileEnd p s) = dropWhileEnd p s.
Proof.
  induction s as [|c s IH]; simpl; [done|].
  destruct (p c && (dropWhileEnd p s =? "")) eqn:E; [done|].
  simpl. by rewrite IH, E.
Qed.

Lemma TrimFunc_idem (p : ascii -> bool) (s : string) :
  TrimFunc (TrimFunc s p) p = TrimFunc s p.
Proof.
  unfold TrimFunc. pose proof (dropWhile_head p s) as H.
  destruct (dropWhile p s) as [|c t]; [done|].
  simpl. rewrite H. simpl. rewrite H. simpl.
  by rewrite H, dropWhileEnd_idem.
Qed.

Lemma TrimSpace_idem (s : string) : TrimSpace (TrimSpace s) = TrimSpace s.
Proof. apply TrimFunc_idem. Qed.

Section Skipping.

Context `{RT : GoRuntime}.

Lemma call_of_TrimSpace statement collection operation argsString :
  call_of statement collection operation argsString ->
  call_of (TrimSpace statement) collection operation argsString.
Proof. unfold call_of. by rewrite TrimSpace_idem. Qed.

Lemma step_unsupported statement collection operation argsString n :
  call_of statement collection operation argsString ->
  operation ∉ supportedOperations ->
  parseJavaScriptOperations_step [] statement n =
  ([], [Warning_unsupported operation collection], n).
Proof.
  intros Hcall Hnot.
  pose proof (call_of_reaches_parser _ _ _ _ Hcall) as Hreach.
  unfold reaches_parser in Hreach. unfold parseJavaScriptOperations_step.
  apply andb_true_iff in Hreach as [Hskip Hgate].
  apply negb_true_iff in Hskip. rewrite Hskip, Hgate.
  unfold bind.
  by rewrite (parseMongoStatement_unsupported _ _ _ _ n
                (call_of_TrimSpace _ _ _ _ Hcall) Hnot).
Qed.

(** The builders of the [switch] write no log line and run no map loop
    when they return an error. *)
Lemma step_builder_error statement collection operation argsString n err :
  call_of statement collection operation argsString ->
  parseMongoStatement (TrimSpace statement) n = ((None, Some err), [], n) ->
  parseJavaScriptOperations_step [] statement n =
  ([], [Warning_statement (TrimSpace statement) err], n).
Proof.
  intros Hcall Hparse.
  by rewrite (step_error_skipped statement n None err [] n
                (call_of_reaches_parser _ _ _ _ Hcall) Hparse).
Qed.

Lemma parseMongoStatement_dispatch statement collection operation argsString :
  call_of statement collection operation argsString ->
  parseMongoStatement (TrimSpace statement) =
  if operation =? "createIndex" then parseCreateIndex collection argsString
  else if (operation =? "insertOne") || (operation =? "insertMany") then
    ret (parseInsert collection operation argsString)
  else if (operation =? "updateOne") || (operation =? "updateMany") then
    ret (parseUpdate collection operation argsString)
  else if (operation =? "deleteOne") || (operation =? "deleteMany") then
    ret (parseDelete collection operation argsString)
  else
    (run logPrintf (Warning_unsupported operation collection);
     ret (None, None)).
Proof.
  intros Hcall. apply call_of_TrimSpace in Hcall. destruct Hcall as [Hcc Hcall].
  unfold parseMongoStatement. by rewrite Hcc, Hcall.
Qed.

Lemma literal_fails_builder_error statement collection operation argsString err n :
  call_of statement collection operation argsString ->
  literal_fails operation argsString err ->
  exists msg,
    parseMongoStatement (TrimSpace statement) n =
    ((None, Some (Errorf_w msg err)), [], n).
Proof.
  intros Hcall Hfail.
  rewrite (parseMongoStatement_dispatch _ _ _ _ Hcall).
  unfold literal_fails in Hfail.
  destruct (operation =? "createIndex") eqn:Eci.
  { apply String.eqb_eq in Eci. subst operation. simpl in Hfail.
    unfold parseCreateIndex.
    destruct (splitArguments argsString) as [|arg0 more]; [done|].
    destruct (parseJSONLikeString (TrimSpace arg0)) as [m e]. simpl in Hfail. subst e.
    by eexists. }
  destruct ((operation =? "insertOne") || (operation =? "insertMany")) eqn:Eins.
  { simpl in Hfail. unfold parseInsert, ret.
    destruct (parseJSONLikeString argsString) as [m e]. simpl in Hfail. subst e.
    by eexists. }
  destruct ((operation =? "updateOne") || (operation =? "updateMany")) eqn:Eupd.
  { assert (Hdel : (operation =? "deleteOne") = false
                     /\ (operation =? "deleteMany") = false).
    { apply orb_true_iff in Eupd as [E|E]; apply String.eqb_eq in E; by subst. }
    destruct Hdel as [Hd1 Hd2]. rewrite Hd1, Hd2 in Hfail.
    simpl in Hfail. unfold parseUpdate, ret.
    destruct (splitArguments argsString) as [|a0 [|a1 more]]; try done.
    simpl.
    destruct (parseJSONLikeString a0) as [m0 e0], (parseJSONLikeString a1) as [m1 e1].
    simpl in Hfail. destruct Hfail as [->|[-> ->]]; by eexists. }
  simpl in Hfail.
  destruct ((operation =? "deleteOne") || (operation =? "deleteMany")) eqn:Edel; [|done].
  unfold parseDelete, ret.
  destruct (parseJSONLikeString argsString) as [m e]. simpl in Hfail. subst e.
  by eexists.
Qed.

End Skipping.

(** C6 (as amended). A statement that starts with [db.] and holds a
    parenthesis reaches the call extractor.  When its method is outside the
    fixed set, or the call extractor or a builder returns an error, it adds
    no operation and is logged; when an operation is returned, that
    operation is added.  A statement that does not start with [db.] or holds
    no parenthesis adds nothing and is not logged.  The operations of a
    script are what its statements contribute one by one, in order, so every
    other statement is still processed; and the top-level parse never
    returns an error. *)
Theorem malformed_statement_is_skipped `{RT : GoRuntime} :
  (forall jsContent n,
     snd (result_of (parseJavaScriptOperations jsContent n)) = None
     /\ fst (result_of (parseJavaScriptOperations jsContent n)) =
        result_of (contributions (splitIntoStatements jsContent) n))
  /\ (forall pre statement post n,
        contributions (pre ++ statement :: post) n =
        (let '(ops, log, n1) := contributions pre n in
         let '(ops1, log1, n2) := parseJavaScriptOperations_step [] statement n1 in
         let '(ops2, log2, n3) := contributions post n2 in
         (ops ++ ops1 ++ ops2, log ++ log1 ++ log2, n3)))
  /\ (forall statement collection operation argsString n,
        call_of statement collection operation argsString ->
        operation ∉ supportedOperations ->
        parseJavaScriptOperations_step [] statement n =
        ([], [Warning_unsupported operation collection], n))
  /\ (forall statement n op err log n',
        reaches_parser statement = true ->
        parseMongoStatement (TrimSpace statement) n = ((op, Some err), log, n') ->
        parseJavaScriptOperations_step [] statement n =
        ([], log ++ [Warning_statement (TrimSpace statement) err], n'))
  /\ (forall statement n op log n',
        reaches_parser statement = true ->
        parseMongoStatement (TrimSpace statement) n = ((Some op, None), log, n') ->
        parseJavaScriptOperations_step [] statement n = ([op], log, n'))
  /\ (forall statement n,
        reaches_parser statement = false ->
        parseJavaScriptOperations_step [] statement n = ([], [], n)).
Proof.
  split; [|split; [|split; [|split; [|split]]]].
  - intros jsContent n. rewrite parseJavaScriptOperations_contributions.
    by destruct (contributions (splitIntoStatements jsContent) n) as [[ops log] n'].
  - intros pre statement post n. rewrite contributions_app.
    destruct (contributions pre n) as [[ops log] n1]. simpl.
    destruct (parseJavaScriptOperations_step [] statement n1) as [[ops1 log1] n2].
    by destruct (contributions post n2) as [[ops2 log2] n3].
  - apply @step_unsupported.
  - apply @step_error_skipped.
  - intros statement n op log n' Hreach Hparse.
    unfold reaches_parser in Hreach. unfold parseJavaScriptOperations_step.
    apply andb_true_iff in Hreach as [Hskip Hgate].
    apply negb_true_iff in Hskip. rewrite Hskip, Hgate.
    unfold bind, ret. rewrite Hparse. by rewrite app_nil_r.
  - intros statement n. unfold reaches_parser, parseJavaScriptOperations_step.
    destruct ((TrimSpace statement =? "") || HasPrefix (TrimSpace statement) "//");
      [done|].
    simpl. by intros ->.
Qed.

Lemma malformed_statement_is_skipped_witness :
  (call_of "db.users.find({});" "users" "find" "{}"
   /\ ("find" ∉ supportedOperations)
   /\ parseJavaScriptOperations_step (RT:=refRuntime) [] "db.users.find({});" 0 =
      ([], [Warning_unsupported "find" "users"], 0%nat))
  /\ (reaches_parser "db.users.insertOne();" = true
      /\ parseJavaScriptOperations_step (RT:=refRuntime) [] "db.users.insertOne();" 0 =
         ([], [Warning_statement "db.users.insertOne();"
                 (Errorf_w "failed to parse insert document" (Errorf "empty input"))],
          0%nat))
  /\ (reaches_parser "db.users.deleteOne({a:1});" = true
      /\ parseJavaScriptOperations_step (RT:=refRuntime) [] "db.users.deleteOne({a:1});" 0 =
         ([{| op_Type := "delete"; op_Collection := "users"; op_Operation := "deleteOne";
              op_Arguments := [Some (<["a" := VFloat64 (ofInt 1)]> ∅)];
              op_IndexSpec := None; op_IndexOptions := None; op_Validator := None |}],
          [], 0%nat))
  /\ (reaches_parser "db.users.find;" = false
      /\ parseJavaScriptOperations_step (RT:=refRuntime) [] "db.users.find;" 0 =
         ([], [], 0%nat)).
Proof.
  assert (Hcall : call_of "db.users.find({});" "users" "find" "{}") by (by split).
  assert (Hnot : "find" ∉ supportedOperations).
  { unfold supportedOperations. rewrite !not_elem_of_cons. repeat split; try done.
    apply not_elem_of_nil. }
  destruct (malformed_statement_is_skipped (RT:=refRuntime))
    as (_ & _ & Hunsupported & Herror & Hgood & Hunseen).
  split; [|split; [|split]].
  - split; [exact Hcall|split; [exact Hnot|]].
    exact (Hunsupported _ _ _ _ 0%nat Hcall Hnot).
  - split; [reflexivity|].
    apply (Herror "db.users.insertOne();" 0%nat None _ [] 0%nat); reflexivity.
  - split; [reflexivity|].
    apply (Hgood "db.users.deleteOne({a:1});" 0%nat _ [] 0%nat); [reflexivity|].
    vm_compute. reflexivity.
  - split; [reflexivity|]. apply Hunseen. reflexivity.
Defined.

(** C6 as stated fails: the call extractor returns an error for
    [db.users.find;], which holds no parenthesis, and for a call that does
    not start with [db.]; but such a statement never reaches the call
    extractor, and it is skipped without a line in the log.  A script of two
    good statements around it keeps both. *)
Lemma unlogged_statement_counterexample :
  parseMongoStatement (RT:=refRuntime) "db.users.find;" 0 =
    ((None, Some (Errorf "no opening parenthesis found")), [], 0%nat)
  /\ parseJavaScriptOperations (RT:=refRuntime) "db.users.find;" 0 =
     (([], None), [], 0%nat)
  /\ parseMongoStatement (RT:=refRuntime) "users.find({});" 0 =
     ((None, Some (Errorf "invalid MongoDB operation format")), [], 0%nat)
  /\ parseJavaScriptOperations (RT:=refRuntime) "users.find({});" 0 =
     (([], None), [], 0%nat)
  /\ (let script :=
        "db.createCollection('a');" +:+ chr LF +:+ "db.users.find;" +:+ chr LF
        +:+ "db.createCollection('b');" in
      let '((operations, err), log, _) :=
        parseJavaScriptOperations (RT:=refRuntime) script 0 in
      map op_Collection operations = ["a"; "b"] /\ err = None /\ log = []).
Proof. vm_compute. by repeat split. Qed.

Lemma prefix_split (p s : string) :
  String.prefix p s = true -> exists r, s = p +:+ r.
Proof.
  revert s. induction p as [|c p IH]; intros s H; [by exists s|].
  destruct s as [|d s]; [done|]. cbn [String.prefix] in H.
  destruct (ascii_dec c d) as [->|]; [|done].
  destruct (IH s H) as [r ->]. by exists r.
Qed.

Section Options.

Context `{RT : GoRuntime}.

(** A [createIndex] whose options literal is not JSON after normalisation
    keeps its operation, without options. *)
Lemma step_createIndex_options_failure statement collection argsString
    indexSpecStr optionsStr more indexSpecMap err n :
  call_of statement collection "createIndex" argsString ->
  splitArguments argsString = indexSpecStr :: optionsStr :: more ->
  parseJSONLikeString (TrimSpace indexSpecStr) = (indexSpecMap, None) ->
  snd (parseJSONLikeString (TrimSpace optionsStr)) = Some err ->
  parseJavaScriptOperations_step [] statement n =
  ([{| op_Type := "createIndex"; op_Collection := collection;
       op_Operation := "createIndex"; op_Arguments := [];
       op_IndexSpec :=
         Some (fold_left indexSpec_step
                 (match indexSpecMap with Some m => mapRange n m | None => [] end) []);
       op_IndexOptions := None; op_Validator := None |}],
   [Warning_indexOptions err], S n).
Proof.
  intros Hcall Hsplit Hspec Hopt.
  pose proof (call_of_reaches_parser _ _ _ _ Hcall) as Hreach.
  unfold reaches_parser in Hreach. unfold parseJavaScriptOperations_step.
  apply andb_true_iff in Hreach as [Hskip Hgate].
  apply negb_true_iff in Hskip. rewrite Hskip, Hgate.
  unfold bind at 1. rewrite (parseMongoStatement_dispatch _ _ _ _ Hcall).
  cbn [String.eqb Ascii.eqb Bool.eqb]. unfold parseCreateIndex.
  rewrite Hsplit, Hspec.
  destruct (parseJSONLikeString (TrimSpace optionsStr)) as [o e]. simpl in Hopt. subst e.
  reflexivity.
Qed.

(** A [db.createCollection] whose options literal is not JSON after
    normalisation keeps its operation, without validator. *)
Lemma step_createCollection_options_failure statement nameStr optionsStr more err n :
  let s := TrimSuffix (TrimSpace statement) ";" in
  HasPrefix s "db.createCollection(" = true ->
  LastIndex s ")" <> (-1)%Z ->
  splitArguments (slice s (Index s "(" + 1) (LastIndex s ")")) =
    nameStr :: optionsStr :: more ->
  snd (parseJSONLikeString optionsStr) = Some err ->
  parseJavaScriptOperations_step [] statement n =
  ([{| op_Type := "createCollection"; op_Collection := Trim nameStr (String DQ "'");
       op_Operation := "createCollection"; op_Arguments := [];
       op_IndexSpec := None; op_IndexOptions := None; op_Validator := None |}],
   [Warning_collOptions err], n).
Proof.
  intros s Hprefix Hlast Hsplit Hopt.
  destruct (prefix_split _ _ Hprefix) as [r Hr].
  destruct (TrimSuffix_prefix (TrimSpace statement) ";") as [b Hb]. fold s in Hb.
  assert (Hparen : Contains s "(" = true).
  { rewrite Hr. by apply Contains_app_l. }
  assert (Hidx : Index s "(" <> (-1)%Z) by (by apply Contains_Index).
  unfold parseJavaScriptOperations_step.
  assert (Hgate : (TrimSpace statement =? "") || HasPrefix (TrimSpace statement) "//" = false
                  /\ HasPrefix (TrimSpace statement) "db." && Contains (TrimSpace statement) "("
                     = true).
  { rewrite Hb. rewrite (Contains_app_l _ _ _ Hparen), andb_true_r.
    rewrite Hr, !append_cons. by split. }
  destruct Hgate as [Hskip Hgate]. rewrite Hskip, Hgate.
  unfold bind at 1. unfold parseMongoStatement. rewrite TrimSpace_idem. fold s.
  rewrite Hprefix. unfold parseDbCreateCollection.
  apply Z.eqb_neq in Hidx, Hlast. rewrite Hidx, Hlast. cbn [orb].
  rewrite Hsplit.
  destruct (parseJSONLikeString optionsStr) as [o e]. simpl in Hopt. subst e.
  reflexivity.
Qed.

End Options.

(** C2 (as amended). When the literal that a builder parses is still not JSON
    after normalisation, the builder returns an error that wraps the parse
    error, the statement adds no operation, one warning is logged and the
    loop goes on with the next statement; when the options literal of
    [createIndex] or [db.createCollection] is not JSON, a warning is logged
    and the operation is kept without options; in every case the top-level
    parse returns no error. *)
Theorem literal_failure_skips_statement `{RT : GoRuntime} :
  (forall (statement collection operation argsString : string) (err : error)
          (rest : list string) (n : nat),
     call_of statement collection operation argsString ->
     literal_fails operation argsString err ->
     exists msg,
       parseJavaScriptOperations_step [] statement n =
         ([], [Warning_statement (TrimSpace statement) (Errorf_w msg err)], n)
       /\ contributions (statement :: rest) n =
          (let '(ops, log, n') := contributions rest n in
           (ops, Warning_statement (TrimSpace statement) (Errorf_w msg err) :: log, n')))
  /\ (forall statement collection argsString indexSpecStr optionsStr more
             indexSpecMap err n,
        call_of statement collection "createIndex" argsString ->
        splitArguments argsString = indexSpecStr :: optionsStr :: more ->
        parseJSONLikeString (TrimSpace indexSpecStr) = (indexSpecMap, None) ->
        snd (parseJSONLikeString (TrimSpace optionsStr)) = Some err ->
        exists op,
          parseJavaScriptOperations_step [] statement n =
            ([op], [Warning_indexOptions err], S n)
          /\ op_IndexOptions op = None)
  /\ (forall statement nameStr optionsStr more err n,
        HasPrefix (TrimSuffix (TrimSpace statement) ";") "db.createCollection(" = true ->
        LastIndex (TrimSuffix (TrimSpace statement) ";") ")" <> (-1)%Z ->
        splitArguments
          (slice (TrimSuffix (TrimSpace statement) ";")
             (Index (TrimSuffix (TrimSpace statement) ";") "(" + 1)
             (LastIndex (TrimSuffix (TrimSpace statement) ";") ")")) =
          nameStr :: optionsStr :: more ->
        snd (parseJSONLikeString optionsStr) = Some err ->
        exists op,
          parseJavaScriptOperations_step [] statement n =
            ([op], [Warning_collOptions err], n)
          /\ op_Validator op = None)
  /\ (forall jsContent k,
        snd (result_of (parseJavaScriptOperations jsContent k)) = None).
Proof.
  split; [|split; [|split]].
  - intros statement collection operation argsString err rest n Hcall Hfail.
    destruct (literal_fails_builder_error _ _ _ _ _ n Hcall Hfail) as [msg Hmsg].
    exists msg.
    pose proof (step_builder_error _ _ _ _ _ _ Hcall Hmsg) as Hstep.
    split; [exact Hstep|].
    simpl. rewrite Hstep. by destruct (contributions rest n) as [[ops log] n'].
  - intros statement collection argsString indexSpecStr optionsStr more
           indexSpecMap err n Hcall Hsplit Hspec Hopt.
    eexists. split;
      [exact (step_createIndex_options_failure _ _ _ _ _ _ _ _ n Hcall Hsplit Hspec Hopt)|].
    reflexivity.
  - intros statement nameStr optionsStr more err n Hprefix Hlast Hsplit Hopt.
    eexists. split;
      [exact (step_createCollection_options_failure _ _ _ _ _ n Hprefix Hlast Hsplit Hopt)|].
    reflexivity.
  - intros jsContent k. rewrite parseJavaScriptOperations_contributions.
    by destruct (contributions (splitIntoStatements jsContent) k) as [[ops log] n'].
Qed.

Lemma literal_failure_skips_statement_witness :
  call_of "db.users.insertOne({a:});" "users" "insertOne" "{a:}"
  /\ literal_fails (RT:=refRuntime) "insertOne" "{a:}" SyntaxError
  /\ (exists msg,
        parseJavaScriptOperations_step (RT:=refRuntime) [] "db.users.insertOne({a:});" 0 =
        ([], [Warning_statement "db.users.insertOne({a:});" (Errorf_w msg SyntaxError)],
         0%nat))
  /\ (exists op,
        parseJavaScriptOperations_step (RT:=refRuntime) []
          "db.users.createIndex({a:1}, {unique:});" 0 =
        ([op], [Warning_indexOptions SyntaxError], 1%nat))
  /\ (exists op,
        parseJavaScriptOperations_step (RT:=refRuntime) []
          "db.createCollection('x', {validator:});" 0 =
        ([op], [Warning_collOptions SyntaxError], 0%nat)).
Proof.
  assert (Hcall : call_of "db.users.insertOne({a:});" "users" "insertOne" "{a:}")
    by (by split).
  assert (Hfail : literal_fails (RT:=refRuntime) "insertOne" "{a:}" SyntaxError)
    by reflexivity.
  destruct (literal_failure_skips_statement (RT:=refRuntime)) as (H1 & H2 & H3 & _).
  split; [exact Hcall|split; [exact Hfail|split; [|split]]].
  - destruct (H1 "db.users.insertOne({a:});" "users" "insertOne" "{a:}" SyntaxError
                [] 0%nat Hcall Hfail) as [msg [H _]].
    exists msg. exact H.
  - destruct (H2 "db.users.createIndex({a:1}, {unique:});" "users" "{a:1}, {unique:}"
                "{a:1}" "{unique:}" [] (Some {[ "a" := VFloat64 (ofInt 1) ]})
                SyntaxError 0%nat) as [op [H _]].
    + by split.
    + vm_compute; reflexivity.
    + vm_compute; reflexivity.
    + vm_compute; reflexivity.
    + exists op. exact H.
  - destruct (H3 "db.createCollection('x', {validator:});" "'x'" "{validator:}" []
                SyntaxError 0%nat) as [op [H _]].
    + vm_compute; reflexivity.
    + vm_compute; discriminate.
    + vm_compute; reflexivity.
    + vm_compute; reflexivity.
    + exists op. exact H.
Defined.

(** C2 as stated fails: the first statement of this script has a literal
    that is not JSON after normalisation, and the parse of the script returns
    no error and the operation of the second statement. *)
Lemma literal_failure_does_not_abort :
  let script := "db.users.insertOne({a:});" +:+ chr LF +:+ "db.users.insertOne({b:1});" in
  snd (parseJSONLikeString (RT:=refRuntime) "{a:}") = Some SyntaxError
  /\ parseJavaScriptOperations (RT:=refRuntime) script 0 =
     (([{| op_Type := "insert"; op_Collection := "users"; op_Operation := "insertOne";
           op_Arguments := [Some {[ "b" := VFloat64 (ofInt 1) ]}];
           op_IndexSpec := None; op_IndexOptions := None; op_Validator := None |}],
       None),
      [Warning_statement "db.users.insertOne({a:});"
         (Errorf_w "failed to parse insert document" SyntaxError)],
      0%nat).
Proof. split; vm_compute; reflexivity. Qed.

(** ** Updates *)

(** C8. With fewer than two top-level arguments [parseUpdate] returns the
    arity error and no operation, and the statement adds nothing to the
    operations of the script; with two or more, the first is parsed as the
    filter and the second as the update document; an operation is returned
    only with both. *)
Theorem parseUpdate_arity `{RT : GoRuntime} (collection operation argsString : string) :
  ((length (splitArguments argsString) < 2)%nat ->
     parseUpdate collection operation argsString =
       (None, Some (Errorf "update operation requires at least 2 arguments"))
     /\ forall statement n,
          call_of statement collection operation argsString ->
          operation = "updateOne" \/ operation = "updateMany" ->
          parseJavaScriptOperations_step [] statement n =
          ([], [Warning_statement (TrimSpace statement)
                  (Errorf "update operation requires at least 2 arguments")], n))
  /\ (forall filterStr updateStr more filter update,
        splitArguments argsString = filterStr :: updateStr :: more ->
        parseJSONLikeString filterStr = (filter, None) ->
        parseJSONLikeString updateStr = (update, None) ->
        parseUpdate collection operation argsString =
          (Some {| op_Type := "update"; op_Collection := collection;
                   op_Operation := operation; op_Arguments := [filter; update];
                   op_IndexSpec := None; op_IndexOptions := None;
                   op_Validator := None |}, None))
  /\ match parseUpdate collection operation argsString with
     | (Some op, None) => length (op_Arguments op) = 2%nat
     | (None, Some _) => True
     | _ => False
     end.
Proof.
  split; [|split].
  - intros Hlen.
    assert (Hupd : parseUpdate collection operation argsString =
              (None, Some (Errorf "update operation requires at least 2 arguments"))).
    { unfold parseUpdate. apply Nat.ltb_lt in Hlen. by rewrite Hlen. }
    split; [exact Hupd|].
    intros statement n Hcall Hop.
    apply (step_builder_error _ _ _ _ _ _ Hcall).
    rewrite (parseMongoStatement_dispatch _ _ _ _ Hcall), Hupd.
    by destruct Hop as [-> | ->].
  - intros filterStr updateStr more filter update Hsplit Hf Hu.
    unfold parseUpdate. rewrite Hsplit. simpl. by rewrite Hf, Hu.
  - unfold parseUpdate.
    destruct (length (splitArguments argsString) <? 2)%nat; [done|].
    destruct (parseJSONLikeString (nth 0 (splitArguments argsString) "")) as [f [e|]];
      [done|].
    by destruct (parseJSONLikeString (nth 1 (splitArguments argsString) "")) as [u [e|]].
Qed.

Lemma parseUpdate_arity_witness :
  (length (splitArguments "{a:1}") < 2)%nat
  /\ call_of "db.users.updateOne({a:1})" "users" "updateOne" "{a:1}"
  /\ parseJavaScriptOperations_step (RT:=refRuntime) [] "db.users.updateOne({a:1})" 0 =
     ([], [Warning_statement "db.users.updateOne({a:1})"
             (Errorf "update operation requires at least 2 arguments")], 0%nat)
  /\ parseUpdate (RT:=refRuntime) "users" "updateOne" "{a:1}, {$set:{b:2}}" =
     (Some {| op_Type := "update"; op_Collection := "users";
              op_Operation := "updateOne";
              op_Arguments := [Some {[ "a" := VFloat64 (ofInt 1) ]};
                               Some {[ "$set" := VMap {[ "b" := VFloat64 (ofInt 2) ]} ]}];
              op_IndexSpec := None; op_IndexOptions := None;
              op_Validator := None |}, None).
Proof.
  assert (Hlen : (length (splitArguments "{a:1}") < 2)%nat) by (vm_compute; lia).
  assert (Hcall : call_of "db.users.updateOne({a:1})" "users" "updateOne" "{a:1}")
    by (by split).
  split; [exact Hlen|split; [exact Hcall|split]].
  - destruct (parseUpdate_arity (RT:=refRuntime) "users" "updateOne" "{a:1}")
      as [H _].
    destruct (H Hlen) as [_ Hstep].
    exact (Hstep "db.users.updateOne({a:1})" 0%nat Hcall (or_introl eq_refl)).
  - destruct (parseUpdate_arity (RT:=refRuntime) "users" "updateOne" "{a:1}, {$set:{b:2}}")
      as (_ & H & _).
    apply (H "{a:1}" "{$set:{b:2}}" []); vm_compute; reflexivity.
Defined.

(** ** The fuel of the JSON reader

    Every call of the reader that succeeds consumes at least one byte; an
    object or an array spends one unit of fuel on itself and one on the list
    of its members.  So twice the number of bytes consumed is enough fuel,
    and more fuel never changes a result. *)

Lemma substring_length (s : string) : forall n m,
  (String.length (String.substring n m s) <= String.length s - n)%nat.
Proof.
  induction s as [|c s IH]; intros n m.
  - by destruct n, m.
  - destruct n as [|n]; simpl.
    + destruct m as [|m]; simpl; [lia|]. specialize (IH 0%nat m). lia.
    + apply IH.
Qed.

Lemma eat_length (c : ascii) (s r : string) :
  eat c s = Some r -> String.length s = S (String.length r).
Proof.
  destruct s as [|d s]; [done|]. simpl. destruct (d =? c)%char; [|done].
  by intros [= ->].
Qed.

Lemma skipSpace_length (s : string) :
  (String.length (skipSpace s) <= String.length s)%nat.
Proof. apply dropWhile_length. Qed.

Lemma readString_length (n : nat) : forall s us rest,
  (String.length s <= n)%nat ->
  readString s = Some (us, rest) -> (S (String.length rest) <= String.length s)%nat.
Proof.
  induction n as [|n IH]; intros s us rest Hn H.
  - destruct s; [done|simpl in Hn; lia].
  - destruct s as [|c r]; [done|]. simpl in Hn. cbn [readString] in H.
    destruct (c =? DQ)%char.
    { injection H as <- <-. simpl. lia. }
    destruct (c =? "\")%char.
    { destruct r as [|e r']; [done|].
      destruct (e =? "u")%char.
      - destruct r' as [|h1 [|h2 [|h3 [|h4 r'']]]]; try done.
        destruct (hex4 h1 h2 h3 h4); [|done].
        destruct (readString r'') as [[us' rest']|] eqn:E; [|done].
        injection H as <- <-. apply IH in E; simpl in *; lia.
      - destruct (unescape e); [|done].
        destruct (readString r') as [[us' rest']|] eqn:E; [|done].
        injection H as <- <-. apply IH in E; simpl in *; lia. }
    destruct (nat_of_ascii c <? 32)%nat; [done|].
    destruct (readString r) as [[us' rest']|] eqn:E; [|done].
    injection H as <- <-. apply IH in E; simpl in *; lia.
Qed.

Lemma readString_shorter s us rest :
  readString s = Some (us, rest) -> (S (String.length rest) <= String.length s)%nat.
Proof. by apply (readString_length (String.length s)). Qed.

Lemma takeWhile_dropWhile_length (p : ascii -> bool) (s : string) :
  (String.length (takeWhile p s) + String.length (dropWhile p s) = String.length s)%nat.
Proof. induction s as [|c s IH]; simpl; [done|]. destruct (p c); simpl; lia. Qed.

Lemma readNumber_shorter s literal rest :
  readNumber s = Some (literal, rest) -> (S (String.length rest) <= String.length s)%nat.
Proof.
  unfold readNumber.
  assert (Hs1 : forall sign s1,
            match eat "-" s with Some r => ("-", r) | None => ("", s) end = (sign, s1) ->
            (String.length s1 <= String.length s)%nat).
  { intros sign s1. destruct (eat "-" s) as [r|] eqn:E; intros [= <- <-]; [|lia].
    apply eat_length in E. lia. }
  destruct (match eat "-" s with Some r => ("-", r) | None => ("", s) end)
    as [sign s1] eqn:Esign.
  specialize (Hs1 _ _ eq_refl).
  assert (Hs2 : forall intPart s2,
            match eat "0" s1 with
            | Some r => ("0", r)
            | None => (takeWhile isDigit s1, dropWhile isDigit s1)
            end = (intPart, s2) ->
            (intPart =? "") = false ->
            (S (String.length s2) <= String.length s1)%nat).
  { intros intPart s2. destruct (eat "0" s1) as [r|] eqn:E; intros [= <- <-] Hne.
    - apply eat_length in E. lia.
    - pose proof (takeWhile_dropWhile_length isDigit s1).
      destruct (takeWhile isDigit s1); [done|simpl in *; lia]. }
  destruct (match eat "0" s1 with
            | Some r => ("0", r)
            | None => (takeWhile isDigit s1, dropWhile isDigit s1)
            end) as [intPart s2] eqn:Eint.
  specialize (Hs2 _ _ eq_refl).
  destruct (intPart =? "") eqn:Hne; [done|]. specialize (Hs2 eq_refl).
  assert (Hs3 : forall frac s3,
            match eat "." s2 with
            | Some r => (Some (takeWhile isDigit r), dropWhile isDigit r)
            | None => (None, s2)
            end = (frac, s3) ->
            (String.length s3 <= String.length s2)%nat).
  { intros frac s3. destruct (eat "." s2) as [r|] eqn:E; intros [= <- <-]; [|lia].
    apply eat_length in E. pose proof (dropWhile_length isDigit r). lia. }
  destruct (match eat "." s2 with
            | Some r => (Some (takeWhile isDigit r), dropWhile isDigit r)
            | None => (None, s2)
            end) as [frac s3] eqn:Efrac.
  specialize (Hs3 _ _ eq_refl).
  assert (Hgo : match s3 with
    | "" => Some (sign +:+ intPart +:+ match frac with
                                   | Some f => "." +:+ f
                                   | None => ""
                                   end, s3)
    | String c r =>
        if (c =? "e")%char || (c =? "E")%char
        then
         let
         '(esign, r1) :=
          match eat "-" r with
          | Some r' => ("-", r')
          | None => match eat "+" r with
                    | Some r' => ("+", r')
                    | None => ("", r)
                    end
          end in
          if takeWhile isDigit r1 =? ""
          then None
          else
           Some
             (sign +:+
              intPart +:+
              match frac with
              | Some f => "." +:+ f
              | None => ""
              end +:+ chr c +:+ esign +:+ takeWhile isDigit r1,
              dropWhile isDigit r1)
        else
         Some (sign +:+ intPart +:+ match frac with
                                  | Some f => "." +:+ f
                                  | None => ""
                                  end, s3)
    end = Some (literal, rest) -> (String.length rest <= String.length s3)%nat).
  { destruct s3 as [|c r]; [by intros [= <- <-]|].
    destruct ((c =? "e")%char || (c =? "E")%char); [|by intros [= <- <-]].
    destruct (eat "-" r) as [r'|] eqn:E1.
    { apply eat_length in E1. destruct (takeWhile isDigit r' =? ""); [done|].
      intros [= <- <-]. pose proof (dropWhile_length isDigit r'). simpl. lia. }
    destruct (eat "+" r) as [r'|] eqn:E2.
    { apply eat_length in E2. destruct (takeWhile isDigit r' =? ""); [done|].
      intros [= <- <-]. pose proof (dropWhile_length isDigit r'). simpl. lia. }
    destruct (takeWhile isDigit r =? ""); [done|].
    intros [= <- <-]. pose proof (dropWhile_length isDigit r). simpl. lia. }
  destruct frac as [[|f0 f]|]; [done| |]; intros H; apply Hgo in H; lia.
Qed.

Lemma readElements_S (f : nat) (d : Z) (s : string) :
  readElements (S f) d s =
  match readValue f d s with
  | Some (v, rest) =>
      match eat "," (skipSpace rest) with
      | Some r =>
          match readElements f d r with
          | Some (vs, rest') => Some (v :: vs, rest')
          | None => None
          end
      | None =>
          match eat "]" (skipSpace rest) with
          | Some r => Some ([v], r)
          | None => None
          end
      end
  | None => None
  end.
Proof. reflexivity. Qed.

Lemma readMembers_S (f : nat) (d : Z) (s : string) :
  readMembers (S f) d s =
  match eat DQ (skipSpace s) with
  | Some r =>
      match readString r with
      | Some (us, afterKey) =>
          match eat ":" (skipSpace afterKey) with
          | Some afterColon =>
              match readValue f d afterColon with
              | Some (v, rest) =>
                  match eat "," (skipSpace rest) with
                  | Some r' =>
                      match readMembers f d r' with
                      | Some (ms, rest') => Some ((decodeUnits us, v) :: ms, rest')
                      | None => None
                      end
                  | None =>
                      match eat "}" (skipSpace rest) with
                      | Some r' => Some ([(decodeUnits us, v)], r')
                      | None => None
                      end
                  end
              | None => None
              end
          | None => None
          end
      | None => None
      end
  | None => None
  end.
Proof. reflexivity. Qed.

Lemma read_fuel_S (f : nat) :
  (forall d s r, readValue f d s = Some r -> readValue (S f) d s = Some r)
  /\ (forall d s r, readElements f d s = Some r -> readElements (S f) d s = Some r)
  /\ (forall d s r, readMembers f d s = Some r -> readMembers (S f) d s = Some r).
Proof.
  induction f as [|f (IHv & IHe & IHm)]; [by repeat split|].
  split; [|split]; intros d s r H.
  - cbn [readValue] in H |- *.
    destruct (skipSpace s) as [|c r0]; [done|].
    destruct (c =? "{")%char.
    { destruct (maxNestingDepth <? d + 1)%Z; [done|].
      destruct (eat "}" (skipSpace r0)); [done|].
      destruct (readMembers f (d + 1) r0) as [[ms rest]|] eqn:E; [|done].
      by rewrite (IHm _ _ _ E). }
    destruct (c =? "[")%char; [|done].
    destruct (maxNestingDepth <? d + 1)%Z; [done|].
    destruct (eat "]" (skipSpace r0)); [done|].
    destruct (readElements f (d + 1) r0) as [[vs rest]|] eqn:E; [|done].
    by rewrite (IHe _ _ _ E).
  - rewrite readElements_S in H |- *.
    destruct (readValue f d s) as [[v rest]|] eqn:E; [|done].
    rewrite (IHv _ _ _ E).
    destruct (eat "," (skipSpace rest)); [|done].
    destruct (readElements f d s0) as [[vs rest']|] eqn:E'; [|done].
    by rewrite (IHe _ _ _ E').
  - rewrite readMembers_S in H |- *.
    destruct (eat DQ (skipSpace s)); [|done].
    destruct (readString s0) as [[us afterKey]|]; [|done].
    destruct (eat ":" (skipSpace afterKey)); [|done].
    destruct (readValue f d s1) as [[v rest]|] eqn:E; [|done].
    rewrite (IHv _ _ _ E).
    destruct (eat "," (skipSpace rest)); [|done].
    destruct (readMembers f d s2) as [[ms rest']|] eqn:E'; [|done].
    by rewrite (IHm _ _ _ E').
Qed.

Lemma read_fuel_le (f f' : nat) :
  (f <= f')%nat ->
  (forall d s r, readValue f d s = Some r -> readValue f' d s = Some r)
  /\ (forall d s r, readElements f d s = Some r -> readElements f' d s = Some r)
  /\ (forall d s r, readMembers f d s = Some r -> readMembers f' d s = Some r).
Proof.
  induction 1 as [|f' _ (IHv & IHe & IHm)]; [done|].
  destruct (read_fuel_S f') as (Sv & Se & Sm).
  repeat split; intros d s r H; [apply Sv, IHv|apply Se, IHe|apply Sm, IHm]; exact H.
Qed.

Lemma read_fuel_enough (f : nat) :
  (forall d s v rest,
     readValue f d s = Some (v, rest) ->
     (S (String.length rest) <= String.length s)%nat
     /\ readValue (2 * (String.length s - String.length rest)) d s = Some (v, rest))
  /\ (forall d s vs rest,
        readElements f d s = Some (vs, rest) ->
        (S (String.length rest) <= String.length s)%nat
        /\ readElements (2 * (String.length s - String.length rest)) d s = Some (vs, rest))
  /\ (forall d s ms rest,
        readMembers f d s = Some (ms, rest) ->
        (S (String.length rest) <= String.length s)%nat
        /\ readMembers (2 * (String.length s - String.length rest)) d s = Some (ms, rest)).
Proof.
  induction f as [|f (IHv & IHe & IHm)]; [by repeat split|].
  split; [|split].
  - intros d s v rest H. cbn [readValue] in H.
    pose proof (skipSpace_length s) as Hsk.
    destruct (skipSpace s) as [|c r0] eqn:Esk; [done|]. simpl in Hsk.
    assert (Hscalar : (S (String.length rest) <= String.length (String c r0))%nat ->
              (forall k, readValue (S k) d s = readValue (S f) d s) ->
              readValue (S f) d s = Some (v, rest) ->
              (S (String.length rest) <= String.length s)%nat
              /\ readValue (2 * (String.length s - String.length rest)) d s = Some (v, rest)).
    { intros Hlen Hany Hval. simpl in Hlen. split; [lia|].
      destruct (2 * (String.length s - String.length rest))%nat as [|k] eqn:Ek; [lia|].
      by rewrite Hany. }
    assert (Hval : readValue (S f) d s = Some (v, rest)).
    { cbn [readValue]. by rewrite Esk. }
    destruct (c =? "{")%char eqn:Eobj.
    { destruct (maxNestingDepth <? d + 1)%Z eqn:Edepth; [done|].
      pose proof (skipSpace_length r0) as Hsk0.
      destruct (eat "}" (skipSpace r0)) as [r'|] eqn:Eeat.
      { injection H as <- <-. apply Hscalar; [|
          by intros k; cbn [readValue]; rewrite Esk, Eobj, Edepth, Eeat
          |exact Hval].
        apply eat_length in Eeat. simpl. lia. }
      destruct (readMembers f (d + 1) r0) as [[ms rest']|] eqn:E; [|done].
      injection H as <- <-.
      destruct (IHm _ _ _ _ E) as [Hlen Hfuel]. split; [lia|].
      destruct (2 * (String.length s - String.length rest'))%nat as [|k] eqn:Ek; [lia|].
      cbn [readValue]. rewrite Esk, Eobj, Edepth, Eeat.
      destruct (read_fuel_le (2 * (String.length r0 - String.length rest')) k) as (_ & _ & Mm);
        [lia|].
      by rewrite (Mm _ _ _ Hfuel). }
    destruct (c =? "[")%char eqn:Earr.
    { destruct (maxNestingDepth <? d + 1)%Z eqn:Edepth; [done|].
      pose proof (skipSpace_length r0) as Hsk0.
      destruct (eat "]" (skipSpace r0)) as [r'|] eqn:Eeat.
      { injection H as <- <-. apply Hscalar; [|
          by intros k; cbn [readValue]; rewrite Esk, Eobj, Earr, Edepth, Eeat
          |exact Hval].
        apply eat_length in Eeat. simpl. lia. }
      destruct (readElements f (d + 1) r0) as [[vs rest']|] eqn:E; [|done].
      injection H as <- <-.
      destruct (IHe _ _ _ _ E) as [Hlen Hfuel]. split; [lia|].
      destruct (2 * (String.length s - String.length rest'))%nat as [|k] eqn:Ek; [lia|].
      cbn [readValue]. rewrite Esk, Eobj, Earr, Edepth, Eeat.
      destruct (read_fuel_le (2 * (String.length r0 - String.length rest')) k) as (_ & Me & _);
        [lia|].
      by rewrite (Me _ _ _ Hfuel). }
    apply Hscalar; [|by intros k; cbn [readValue]; rewrite Esk, Eobj, Earr|exact Hval].
    destruct (c =? DQ)%char.
    { destruct (readString r0) as [[us rest']|] eqn:E; [|done].
      injection H as <- <-. apply readString_shorter in E. simpl. lia. }
    assert (Hslice : forall k, (0 < k)%Z ->
              (S (String.length (sliceFrom (String c r0) k)) <= String.length (String c r0))%nat).
    { intros k Hk. unfold sliceFrom.
      pose proof (substring_length (String c r0) (Z.to_nat k)
                    (String.length (String c r0) - Z.to_nat k)). simpl in *. lia. }
    destruct (String.prefix "true" (String c r0)); [injection H as <- <-; by apply Hslice|].
    destruct (String.prefix "false" (String c r0)); [injection H as <- <-; by apply Hslice|].
    destruct (String.prefix "null" (String c r0)); [injection H as <- <-; by apply Hslice|].
    destruct (readNumber (String c r0)) as [[literal rest']|] eqn:E; [|done].
    injection H as <- <-. by apply readNumber_shorter in E.
  - intros d s vs rest H. cbn [readElements] in H.
    destruct (readValue f d s) as [[v rest1]|] eqn:E; [|done].
    destruct (IHv _ _ _ _ E) as [Hlen1 Hfuel1].
    pose proof (skipSpace_length rest1) as Hsk.
    destruct (eat "," (skipSpace rest1)) as [r|] eqn:Ecomma.
    + destruct (readElements f d r) as [[vs' rest']|] eqn:E'; [|done].
      injection H as <- <-.
      destruct (IHe _ _ _ _ E') as [Hlen2 Hfuel2].
      apply eat_length in Ecomma as Hc. split; [lia|].
      destruct (2 * (String.length s - String.length rest'))%nat as [|k] eqn:Ek; [lia|].
      cbn [readElements].
      destruct (read_fuel_le (2 * (String.length s - String.length rest1)) k) as (Mv & _ & _);
        [lia|].
      destruct (read_fuel_le (2 * (String.length r - String.length rest')) k) as (_ & Me & _);
        [lia|].
      by rewrite (Mv _ _ _ Hfuel1), Ecomma, (Me _ _ _ Hfuel2).
    + destruct (eat "]" (skipSpace rest1)) as [r|] eqn:Eclose; [|done].
      injection H as <- <-. apply eat_length in Eclose as Hc. split; [lia|].
      destruct (2 * (String.length s - String.length r))%nat as [|k] eqn:Ek; [lia|].
      cbn [readElements].
      destruct (read_fuel_le (2 * (String.length s - String.length rest1)) k) as (Mv & _ & _);
        [lia|].
      by rewrite (Mv _ _ _ Hfuel1), Ecomma, Eclose.
  - intros d s ms rest H. cbn [readMembers] in H.
    pose proof (skipSpace_length s) as Hsk.
    destruct (eat DQ (skipSpace s)) as [r0|] eqn:Equote; [|done].
    apply eat_length in Equote as Hq.
    destruct (readString r0) as [[us afterKey]|] eqn:Ekey; [|done].
    apply readString_shorter in Ekey as Hkey.
    pose proof (skipSpace_length afterKey) as Hsk1.
    destruct (eat ":" (skipSpace afterKey)) as [afterColon|] eqn:Ecolon; [|done].
    apply eat_length in Ecolon as Hcolon.
    destruct (readValue f d afterColon) as [[v rest1]|] eqn:E; [|done].
    destruct (IHv _ _ _ _ E) as [Hlen1 Hfuel1].
    pose proof (skipSpace_length rest1) as Hsk2.
    destruct (eat "," (skipSpace rest1)) as [r|] eqn:Ecomma.
    + destruct (readMembers f d r) as [[ms' rest']|] eqn:E'; [|done].
      injection H as <- <-.
      destruct (IHm _ _ _ _ E') as [Hlen2 Hfuel2].
      apply eat_length in Ecomma as Hc. split; [lia|].
      destruct (2 * (String.length s - String.length rest'))%nat as [|k] eqn:Ek; [lia|].
      cbn [readMembers]. rewrite Equote, Ekey, Ecolon.
      destruct (read_fuel_le (2 * (String.length afterColon - String.length rest1)) k)
        as (Mv & _ & _); [lia|].
      destruct (read_fuel_le (2 * (String.length r - String.length rest')) k)
        as (_ & _ & Mm); [lia|].
      by rewrite (Mv _ _ _ Hfuel1), Ecomma, (Mm _ _ _ Hfuel2).
    + destruct (eat "}" (skipSpace rest1)) as [r|] eqn:Eclose; [|done].
      injection H as <- <-. apply eat_length in Eclose as Hc. split; [lia|].
      destruct (2 * (String.length s - String.length r))%nat as [|k] eqn:Ek; [lia|].
      cbn [readMembers]. rewrite Equote, Ekey, Ecolon.
      destruct (read_fuel_le (2 * (String.length afterColon - String.length rest1)) k)
        as (Mv & _ & _); [lia|].
      by rewrite (Mv _ _ _ Hfuel1), Ecomma, Eclose.
Qed.

(** The fuel of [parse] is enough: a text that some fuel reads as one JSON
    value is read by [parse], with the same value. *)
Lemma readValue_fuel (fuel : nat) (data : string) (v : json) (rest : string) :
  readValue fuel 0 data = Some (v, rest) ->
  readValue (2 * String.length data + 2) 0 data = Some (v, rest).
Proof.
  intros H. destruct (read_fuel_enough fuel) as (Hv & _ & _).
  destruct (Hv _ _ _ _ H) as [Hlen Hfuel].
  destruct (read_fuel_le (2 * (String.length data - String.length rest))
              (2 * String.length data + 2)) as (Mv & _ & _); [lia|].
  by apply Mv.
Qed.

(** ** Inserts *)

Lemma parse_empty : parse "" = None.
Proof. reflexivity. Qed.

(** C3 (defect of the code). [parseInsert] stores its whole argument text
    into one [bson.M]: an array literal is no JSON object, so an [insertMany]
    with an array of documents returns an error and the statement is skipped.
    What holds: one document argument becomes the one document of the
    operation, an operation always has exactly one document, and an absent
    argument is an error. *)
Theorem insertMany_array_is_rejected `{RT : GoRuntime} :
  (forall collection operation argsString elements,
     parse (normalizeJavaScriptObject (TrimSpace argsString)) = Some (JArray elements) ->
     parseInsert collection operation argsString =
       (None, Some (Errorf_w "failed to parse insert document" UnmarshalTypeError)))
  /\ (forall collection operation,
        parseInsert collection operation "" =
          (None, Some (Errorf_w "failed to parse insert document" (Errorf "empty input"))))
  /\ (forall collection operation argsString op err,
        parseInsert collection operation argsString = (Some op, err) ->
        err = None /\ op_Operation op = operation /\ length (op_Arguments op) = 1%nat)
  /\ parseJavaScriptOperations (RT:=refRuntime) "db.users.insertMany([{a:1},{b:2}]);" 0 =
     (([], None),
      [Warning_statement "db.users.insertMany([{a:1},{b:2}]);"
         (Errorf_w "failed to parse insert document" UnmarshalTypeError)],
      0%nat)
  /\ parseJavaScriptOperations (RT:=refRuntime)
       "db.users.insertOne({name:'Ann', age:30});" 0 =
     (([{| op_Type := "insert"; op_Collection := "users"; op_Operation := "insertOne";
           op_Arguments := [Some {[ "name" := VString "Ann";
                                    "age" := VFloat64 (ofInt 30) ]}];
           op_IndexSpec := None; op_IndexOptions := None; op_Validator := None |}],
       None), [], 0%nat).
Proof.
  split; [|split; [|split; [|split]]].
  - intros collection operation argsString elements Hparse.
    unfold parseInsert, parseJSONLikeString.
    destruct (TrimSpace argsString =? "") eqn:Hempty.
    { apply String.eqb_eq in Hempty. rewrite Hempty in Hparse. discriminate. }
    unfold Unmarshal_map. by rewrite Hparse.
  - done.
  - intros collection operation argsString op err. unfold parseInsert.
    destruct (parseJSONLikeString argsString) as [document [e|]]; [done|].
    by intros [= <- <-].
  - vm_compute. reflexivity.
  - vm_compute. reflexivity.
Qed.

Lemma insertMany_array_is_rejected_witness :
  parse (normalizeJavaScriptObject (TrimSpace "[{a:1},{b:2}]")) =
    Some (JArray [JObject [("a", JNumber "1")]; JObject [("b", JNumber "2")]])
  /\ parseInsert (RT:=refRuntime) "users" "insertMany" "[{a:1},{b:2}]" =
     (None, Some (Errorf_w "failed to parse insert document" UnmarshalTypeError)).
Proof.
  split; [reflexivity|].
  destruct (insertMany_array_is_rejected (RT:=refRuntime)) as [H _].
  apply (H "users" "insertMany" "[{a:1},{b:2}]"
           [JObject [("a", JNumber "1")]; JObject [("b", JNumber "2")]]).
  reflexivity.
Defined.

(** ** Index specifications *)

Lemma toValue_two_numbers `{RT : GoRuntime} (k1 l1 k2 l2 : string) :
  k1 <> k2 ->
  toValue (JObject [(k1, JNumber l1); (k2, JNumber l2)]) =
  toValue (JObject [(k2, JNumber l2); (k1, JNumber l1)]).
Proof.
  intros Hne. cbn [toValue].
  destruct (ParseFloat l1), (ParseFloat l2); try done.
  by rewrite insert_insert_ne.
Qed.

(** C1 (defect of the code). [parseCreateIndex] decodes the literal into a Go
    map and builds the index specification by ranging over that map, so the
    order of the entries is the order of the map loop, not that of the text:
    on a runtime that walks maps by key, [{b:1, a:-1}] yields [a] before [b];
    on one that walks them the other way, [{a:-1, b:1}] yields [b] before
    [a]; on every runtime the two literals yield the same operation; and in
    general the fields come in the order in which the runtime walks the
    decoded map. *)
Theorem createIndex_order_follows_map_loop :
  result_of (parseCreateIndex (RT:=refRuntime) "users" "{b:1, a:-1}" 0) =
    (Some {| op_Type := "createIndex"; op_Collection := "users";
             op_Operation := "createIndex"; op_Arguments := [];
             op_IndexSpec := Some [("a", VInt (-1)); ("b", VInt 1)];
             op_IndexOptions := None; op_Validator := None |}, None)
  /\ result_of (parseCreateIndex (RT:=reverseRuntime) "users" "{a:-1, b:1}" 0) =
     (Some {| op_Type := "createIndex"; op_Collection := "users";
              op_Operation := "createIndex"; op_Arguments := [];
              op_IndexSpec := Some [("b", VInt 1); ("a", VInt (-1))];
              op_IndexOptions := None; op_Validator := None |}, None)
  /\ (forall (RT : GoRuntime) (collection : string) (n : nat),
        parseCreateIndex collection "{b:1, a:-1}" n =
        parseCreateIndex collection "{a:-1, b:1}" n)
  /\ (forall (RT : GoRuntime) collection argsString indexSpecStr more m n,
        splitArguments argsString = indexSpecStr :: more ->
        parseJSONLikeString (TrimSpace indexSpecStr) = (Some m, None) ->
        exists op,
          fst (result_of (parseCreateIndex collection argsString n)) = Some op
          /\ op_IndexSpec op = Some (fold_left indexSpec_step (mapRange n m) [])
          /\ map fst (fold_left indexSpec_step (mapRange n m) []) =
             map fst (mapRange n m)).
Proof.
  split; [by vm_compute|split; [by vm_compute|split]].
  2:{ intros RT collection argsString indexSpecStr more m n Hsplit Hspec.
      unfold parseCreateIndex. rewrite Hsplit, Hspec.
      assert (Hkeys : map fst (fold_left indexSpec_step (mapRange n m) []) =
                      map fst (mapRange n m)).
      { change (map fst (mapRange n m)) with (map fst (@nil (string * value)) ++ map fst (mapRange n m)).
        generalize (@nil (string * value)).
        induction (mapRange n m) as [|[k v] entries IH]; intros acc; simpl;
          [by rewrite app_nil_r|].
        rewrite IH. unfold indexSpec_step.
        destruct (convertToNumber v) as [num [e|]]; rewrite map_app; simpl;
          by rewrite <- app_assoc. }
      destruct more as [|optionsStr more'].
      - eexists. by repeat split.
      - unfold bind, rangeMap.
        destruct (parseJSONLikeString (TrimSpace optionsStr)) as [o [e|]];
          eexists; by repeat split. }
  intros RT collection n.
  assert (E1 : parseJSONLikeString (TrimSpace "{b:1, a:-1}") =
               match toValue (JObject [("b", JNumber "1"); ("a", JNumber "-1")]) with
               | Some (VMap m) => (Some m, None)
               | _ => (None, Some UnmarshalTypeError)
               end) by reflexivity.
  assert (E2 : parseJSONLikeString (TrimSpace "{a:-1, b:1}") =
               match toValue (JObject [("a", JNumber "-1"); ("b", JNumber "1")]) with
               | Some (VMap m) => (Some m, None)
               | _ => (None, Some UnmarshalTypeError)
               end) by reflexivity.
  unfold parseCreateIndex.
  change (splitArguments "{b:1, a:-1}") with ["{b:1, a:-1}"].
  change (splitArguments "{a:-1, b:1}") with ["{a:-1, b:1}"].
  cbv iota. rewrite E1, E2.
  by rewrite (toValue_two_numbers "b" "1" "a" "-1").
Qed.

(** C9 (as amended). An index value that is a string without a dot becomes
    an [int] when [strconv.Atoi] reads it; a string with a dot becomes a
    [float64] when [strconv.ParseFloat] reads it, also when the value is
    whole; a [float64] becomes an [int] when it equals its own integer part;
    every other value, among them a numeric string such as [1e3], is kept as
    it is. *)
Theorem index_value_coercion `{RT : GoRuntime} :
  (forall (indexSpec : bsonD) (key : string) (value : value),
     indexSpec_step indexSpec (key, value) =
     indexSpec ++
     [(key,
       match value with
       | VString s =>
           if Contains s "." then
             match ParseFloat s with Some f => VFloat64 f | None => value end
           else
             match Atoi s with Some i => VInt i | None => value end
       | VFloat64 f =>
           if GoFloat.eqb f (ofInt (toInt f)) then VInt (toInt f) else value
       | _ => value
       end)])
  /\ indexSpec_step (RT:=refRuntime) [] ("k", VString "1") = [("k", VInt 1)]
  /\ indexSpec_step (RT:=refRuntime) [] ("k", VString "-1") = [("k", VInt (-1))]
  /\ indexSpec_step (RT:=refRuntime) [] ("k", VFloat64 (ofInt 1)) = [("k", VInt 1)]
  /\ indexSpec_step (RT:=refRuntime) [] ("k", VString "text") = [("k", VString "text")]
  /\ indexSpec_step (RT:=refRuntime) [] ("k", VString "2dsphere") =
     [("k", VString "2dsphere")].
Proof.
  split; [|by repeat split].
  intros indexSpec key value. unfold indexSpec_step, convertToNumber.
  destruct value as [|b|f|i|i|i|s|l|m]; try done.
  - by destruct (GoFloat.eqb f (ofInt (toInt f))).
  - destruct (Contains s "."); [by destruct (ParseFloat s)|by destruct (Atoi s)].
Qed.

(** C9 as stated fails: ["1.0"] is a numeric string with a whole value and
    is coerced to a float, not to an integer; ["1e3"] is a numeric string and
    is not coerced at all. *)
Lemma numeric_string_coercion_counterexample :
  parseDecimalFloat "1.0" = Some (ofInt 1)
  /\ indexSpec_step (RT:=refRuntime) [] ("k", VString "1.0") = [("k", VFloat64 (ofInt 1))]
  /\ parseDecimalFloat "1e3" = Some (ofInt 1000)
  /\ indexSpec_step (RT:=refRuntime) [] ("k", VString "1e3") = [("k", VString "1e3")].
Proof. by repeat split. Qed.

(** C5 as stated fails: the three texts are strict JSON without single
    quotes, and the normaliser changes them.  In the first, the scanner takes
    the escaped quote for the end of the string and drops the comma after it;
    in the second, the blank after the bare word [true] is lost; in the
    third, the two bytes of the letter e with an acute accent are written
    back as [string(char)], two bytes each. *)
Lemma normalizeJavaScriptObject_strict_json_counterexample :
  parse (jtext "{'a':'\',}'}") = Some (JObject [("a", JString (String DQ ",}"))])
  /\ no_single_quote (chars (jtext "{'a':'\',}'}")) = true
  /\ normalizeJavaScriptObject (jtext "{'a':'\',}'}") = jtext "{'a':'\'}'}"
  /\ normalizeJavaScriptObject (jtext "{'a':'\',}'}") <> jtext "{'a':'\',}'}"
  /\ parse (jtext "{'a':true }") = Some (JObject [("a", JBool true)])
  /\ normalizeJavaScriptObject (jtext "{'a':true }") = jtext "{'a':true}"
  /\ normalizeJavaScriptObject (jtext "{'a':true }") <> jtext "{'a':true }"
  /\ parse (jtext "{'a':'" +:+ encodeRune 233 +:+ jtext "'}") =
     Some (JObject [("a", JString (encodeRune 233))])
  /\ normalizeJavaScriptObject (jtext "{'a':'" +:+ encodeRune 233 +:+ jtext "'}") =
     jtext "{'a':'" +:+ encodeRune 195 +:+ encodeRune 169 +:+ jtext "'}".
Proof. by repeat split. Qed.

(** ** The fuel of [addQuotesToKeys] *)

(** Any fuel of at least the length of the input gives the same result:
    the loop never stops for lack of fuel. *)
Lemma addQuotesToKeys_loop_fuel (fuel1 : nat) :
  forall (fuel2 : nat) (input : string) (inQuotes : bool) (result : string),
    (String.length input <= fuel1)%nat -> (String.length input <= fuel2)%nat ->
    addQuotesToKeys_loop fuel1 input inQuotes result =
    addQuotesToKeys_loop fuel2 input inQuotes result.
Proof.
  induction fuel1 as [|fuel1 IH]; intros fuel2 input inQ result H1 H2.
  - destruct input; [by destruct fuel2|simpl in H1; lia].
  - destruct input as [|c rest]; [by destruct fuel2|].
    destruct fuel2 as [|fuel2]; [simpl in H2; lia|].
    simpl in H1, H2. cbn [addQuotesToKeys_loop].
    assert (Hrest : forall inQ' r,
              addQuotesToKeys_loop fuel1 rest inQ' r = addQuotesToKeys_loop fuel2 rest inQ' r).
    { intros. apply IH; lia. }
    destruct (c =? DQ)%char; [apply Hrest|].
    destruct inQ; [apply Hrest|].
    destruct (isAlphaStart c) eqn:Halpha; [|apply Hrest].
    assert (Hlen : (String.length (dropWhile isBlank (dropWhile isKeyChar (String c rest)))
                    <= String.length rest)%nat).
    { etransitivity; [apply dropWhile_length|].
      simpl. rewrite (isAlphaStart_isKeyChar c Halpha). apply dropWhile_length. }
    destruct (dropWhile isBlank (dropWhile isKeyChar (String c rest))) as [|d after];
      [by destruct fuel1, fuel2|].
    destruct d as [[] [] [] [] [] [] [] []]; apply IH; lia.
Qed.

(** ** Metadata *)

Lemma is_marker_is_comment (line : string) : is_marker line = true -> is_comment line = true.
Proof.
  unfold is_marker, is_comment, HasPrefix.
  destruct (TrimSpace line) as [|c1 [|c2 t]]; try done; cbn [String.prefix].
  destruct (ascii_dec "/" c1); [|done]. destruct (ascii_dec "/" c2); [|done].
  by destruct t.
Qed.

Lemma ParseMetadata_loop_no_marker (lines : list string) (metadataLines : list string) :
  forallb (fun l => negb (is_marker l)) lines = true ->
  ParseMetadata_loop lines false metadataLines = metadataLines.
Proof.
  induction lines as [|line lines IH]; simpl; [done|].
  intros H. apply andb_true_iff in H as [Hm Hrest].
  apply negb_true_iff in Hm. unfold is_marker in Hm. rewrite Hm. by apply IH.
Qed.

Lemma ParseMetadata_loop_skip (pre lines : list string) (metadataLines : list string) :
  forallb (fun l => negb (is_marker l)) pre = true ->
  ParseMetadata_loop (pre ++ lines) false metadataLines =
  ParseMetadata_loop lines false metadataLines.
Proof.
  induction pre as [|line pre IH]; simpl; [done|].
  intros H. apply andb_true_iff in H as [Hm Hrest].
  apply negb_true_iff in Hm. unfold is_marker in Hm. rewrite Hm. by apply IH.
Qed.

(** C10. [ParseMetadata] returns a metadata value or nil and nothing else: it
    is nil when no line is a marker, when the line after the first marker is
    no comment, and when the collected text is not JSON, which is logged; it
    runs no map loop, running it before [parseJavaScriptOperations] does not
    change what the latter returns, and the statement segmenter passes over
    every comment line, those of a metadata block among them. *)
Theorem ParseMetadata_never_fails `{RT : GoRuntime} (content : string) (n : nat) :
  let lines := Split content LF in
  let metadataLines := ParseMetadata_loop lines false [] in
  (exists metadata log, ParseMetadata content n = (metadata, log, n))
  /\ (forallb (fun l => negb (is_marker l)) lines = true ->
      ParseMetadata content n = (None, [], n))
  /\ (forall pre marker rest,
        lines = pre ++ marker :: rest ->
        forallb (fun l => negb (is_marker l)) pre = true ->
        is_marker marker = true ->
        match rest with [] => True | next :: _ => is_comment next = false end ->
        ParseMetadata content n = (None, [], n))
  /\ (metadataLines <> [] -> parse (Join metadataLines) = None ->
      ParseMetadata content n = (None, [Warning_metadata SyntaxError], n))
  /\ result_of (bind (ParseMetadata content)
                  (fun _ => parseJavaScriptOperations content) n) =
     result_of (parseJavaScriptOperations content n)
  /\ (forall st line, is_comment line = true -> splitIntoStatements_step st line = st).
Proof.
  intros lines metadataLines.
  assert (Htotal : exists metadata log, ParseMetadata content n = (metadata, log, n)).
  { unfold ParseMetadata. fold lines. fold metadataLines.
    destruct (length metadataLines =? 0)%nat; [by eexists _, _|].
    destruct (Unmarshal_metadata (Join metadataLines)) as [md [e|]]; by eexists _, _. }
  assert (Hempty : metadataLines = [] -> ParseMetadata content n = (None, [], n)).
  { intros H. unfold ParseMetadata. fold lines. fold metadataLines. by rewrite H. }
  split; [exact Htotal|split; [|split; [|split; [|split]]]].
  - intros Hno. apply Hempty. by apply ParseMetadata_loop_no_marker.
  - intros pre marker rest Hlines Hpre Hmarker Hnext. apply Hempty.
    unfold metadataLines. rewrite Hlines, ParseMetadata_loop_skip by done.
    unfold is_marker in Hmarker. cbn [ParseMetadata_loop]. rewrite Hmarker.
    destruct rest as [|next rest]; [done|]. cbn [ParseMetadata_loop].
    destruct (HasPrefix (TrimSpace next) "// METADATA:") eqn:Hm.
    { apply is_marker_is_comment in Hm. congruence. }
    unfold is_comment in Hnext. by rewrite Hnext.
  - intros Hne Hparse. unfold ParseMetadata. fold lines. fold metadataLines.
    destruct metadataLines as [|l ls] eqn:E; [done|]. cbn [length Nat.eqb].
    unfold Unmarshal_metadata. by rewrite Hparse.
  - destruct Htotal as (metadata & log & Hrun). unfold bind. rewrite Hrun.
    by destruct (parseJavaScriptOperations content n) as [[r l] n'].
  - intros st line Hc. unfold splitIntoStatements_step. unfold is_comment in Hc.
    by rewrite Hc, orb_true_r.
Qed.

Lemma ParseMetadata_never_fails_witness :
  let content := "// METADATA:" +:+ chr LF +:+ "db.createCollection('test');" in
  Split content LF = [] ++ "// METADATA:" :: ["db.createCollection('test');"]
  /\ is_marker "// METADATA:" = true
  /\ is_comment "db.createCollection('test');" = false
  /\ ParseMetadata (RT:=refRuntime) content 0 = (None, [], 0%nat)
  /\ ParseMetadata (RT:=refRuntime)
       ("// METADATA:" +:+ chr LF +:+ "// {description: 1}") 0 =
     (None, [Warning_metadata SyntaxError], 0%nat).
Proof.
  intros content.
  split; [reflexivity|split; [reflexivity|split; [reflexivity|split]]].
  - destruct (ParseMetadata_never_fails (RT:=refRuntime) content 0) as (_ & _ & H & _).
    by apply (H [] "// METADATA:" ["db.createCollection('test');"]).
  - destruct (ParseMetadata_never_fails (RT:=refRuntime)
                ("// METADATA:" +:+ chr LF +:+ "// {description: 1}") 0)
      as (_ & _ & _ & H & _).
    by apply H.
Defined.

(** The metadata block of the package's own test is read by the reference
    runtime. *)
Example ParseMetadata_valid :
  ParseMetadata (RT:=refRuntime)
    (jtext ("// METADATA:" +:+ chr LF +:+ "// {" +:+ chr LF
            +:+ "//   'description': 'Test script'," +:+ chr LF
            +:+ "//   'version': '1.0.0'," +:+ chr LF
            +:+ "//   'author': 'Test Author'" +:+ chr LF +:+ "// }" +:+ chr LF
            +:+ chr LF +:+ "db.createCollection('test');")) 0 =
  (Some {| md_Name := ""; md_Description := "Test script"; md_Version := "1.0.0";
           md_Author := "Test Author"; md_Dependencies := []; md_ExecutedAt := 0%Z;
           md_Status := ""; md_Error := "" |}, [], 0%nat).
Proof. vm_compute. reflexivity. Qed.

(** ** The arguments that [splitArguments] returns *)

Lemma splitBytes_step_trimmed (st : splitBytesState) (c : ascii) :
  Forall (fun a => TrimSpace a = a) (sb_args st) ->
  Forall (fun a => TrimSpace a = a) (sb_args (splitBytes_step st c)).
Proof.
  intros H. unfold splitBytes_step.
  destruct ((c =? DQ)%char || (c =? SQ)%char).
  { by destruct (negb (sb_inQuotes st)), (c =? sb_quoteChar st)%char. }
  destruct (c =? "{")%char; [done|]. destruct (c =? "}")%char; [done|].
  destruct (c =? ",")%char; [|done].
  destruct (negb (sb_inQuotes st) && (sb_braceLevel st =? 0)%Z); [|done].
  cbn [sb_args]. apply Forall_app. split; [done|].
  constructor; [apply TrimSpace_idem|constructor].
Qed.

Lemma splitBytes_loop_trimmed (s : string) :
  forall st,
    Forall (fun a => TrimSpace a = a) (sb_args st) ->
    Forall (fun a => TrimSpace a = a) (sb_args (splitBytes_loop s st)).
Proof.
  induction s as [|c s IH]; intros st H; [done|].
  cbn [splitBytes_loop]. by apply IH, splitBytes_step_trimmed.
Qed.

(** X1. Every argument that [splitArguments] returns is trimmed: it has no
    white space at either end. *)
Theorem splitArguments_arguments_trimmed (argsString : string) :
  Forall (fun a => TrimSpace a = a) (splitArguments argsString).
Proof.
  rewrite splitArguments_bytes. unfold splitBytes.
  set (st := splitBytes_loop (rangeText argsString) _).
  assert (H : Forall (fun a => TrimSpace a = a) (sb_args st)).
  { by apply splitBytes_loop_trimmed. }
  destruct (0 <? String.length (sb_current st))%nat; [|done].
  apply Forall_app. split; [done|]. constructor; [apply TrimSpace_idem|constructor].
Qed.

Lemma WriteByte_nonempty (b : string) (c : ascii) : WriteByte b c <> "".
Proof. unfold WriteByte. destruct b; by rewrite ?append_cons, ?append_nil_l. Qed.

Lemma splitBytes_step_some (st : splitBytesState) (c : ascii) :
  split_some (splitBytes_step st c).
Proof.
  unfold splitBytes_step, split_some.
  destruct ((c =? DQ)%char || (c =? SQ)%char).
  { destruct (negb (sb_inQuotes st)), (c =? sb_quoteChar st)%char;
      right; apply WriteByte_nonempty. }
  destruct (c =? "{")%char; [right; apply WriteByte_nonempty|].
  destruct (c =? "}")%char; [right; apply WriteByte_nonempty|].
  destruct (c =? ",")%char; [|right; apply WriteByte_nonempty].
  destruct (negb (sb_inQuotes st) && (sb_braceLevel st =? 0)%Z);
    [left|right; apply WriteByte_nonempty].
  cbn [sb_args]. by destruct (sb_args st).
Qed.

Lemma splitBytes_loop_some (s : string) :
  forall st, split_some st -> split_some (splitBytes_loop s st).
Proof.
  induction s as [|c s IH]; intros st H; [done|].
  cbn [splitBytes_loop]. apply IH, splitBytes_step_some.
Qed.

Lemma splitBytes_nonempty (argsString : string) :
  argsString <> "" -> splitBytes argsString <> [].
Proof.
  intros Hne. destruct argsString as [|c s]; [done|].
  unfold splitBytes. cbn [splitBytes_loop].
  set (st := splitBytes_loop s _).
  assert (H : split_some st) by apply splitBytes_loop_some, splitBytes_step_some.
  destruct (0 <? String.length (sb_current st))%nat eqn:E.
  { by destruct (sb_args st). }
  destruct H as [H|H]; [done|].
  destruct (sb_current st); [done|]. done.
Qed.

Lemma splitArguments_nonempty (argsString : string) :
  argsString <> "" -> splitArguments argsString <> [].
Proof.
  intros Hne. rewrite splitArguments_bytes.
  by apply splitBytes_nonempty, rangeText_nonempty.
Qed.

(** X2. [splitArguments] returns no argument for the empty text only: every
    other text, a blank one included, gives at least one argument. *)
Theorem splitArguments_empty_iff (argsString : string) :
  splitArguments argsString = [] <-> argsString = "".
Proof.
  split; [|by intros ->].
  intros H. destruct argsString as [|c s]; [done|].
  by apply splitArguments_nonempty in H.
Qed.

(** ** [addQuotesToKeys], token by token *)

Lemma addQuotesToKeys_loop_acc (fuel : nat) :
  forall (input : string) (inQuotes : bool) (result : string),
    addQuotesToKeys_loop fuel input inQuotes result =
    result +:+ addQuotesToKeys_loop fuel input inQuotes "".
Proof.
  induction fuel as [|fuel IH]; intros input inQ result.
  - simpl. by rewrite string_app_nil_r.
  - destruct input as [|c rest]; [simpl; by rewrite string_app_nil_r|].
    cbn [addQuotesToKeys_loop].
    assert (Hnext : forall s q x,
              addQuotesToKeys_loop fuel s q (result +:+ x) =
              result +:+ addQuotesToKeys_loop fuel s q ("" +:+ x)).
    { intros s q x. rewrite (IH s q (result +:+ x)), (IH s q ("" +:+ x)).
      by rewrite append_nil_l, string_app_assoc. }
    destruct (c =? DQ)%char; [apply Hnext|].
    destruct inQ; [apply Hnext|].
    destruct (isAlphaStart c); [|apply Hnext].
    destruct (dropWhile isBlank (dropWhile isKeyChar (String c rest))) as [|d after];
      [apply Hnext|].
    destruct d as [[] [] [] [] [] [] [] []]; apply Hnext.
Qed.

(** With enough fuel the loop appends to its result what it gives from an
    empty one. *)
Lemma addQuotesToKeys_loop_from (fuel : nat) (input : string) (inQuotes : bool)
    (result : string) :
  (String.length input <= fuel)%nat ->
  addQuotesToKeys_loop fuel input inQuotes result =
  result +:+ addQuotesToKeys_from inQuotes input.
Proof.
  intros H. unfold addQuotesToKeys_from.
  rewrite addQuotesToKeys_loop_acc.
  by rewrite (addQuotesToKeys_loop_fuel fuel (String.length input) input inQuotes "").
Qed.

Lemma colon_match {A : Type} (d : ascii) (r : string) (x y : A) :
  match String d r with
  | String ":" _ => x
  | _ => y
  end = if (d =? ":")%char then x else y.
Proof. by destruct d as [[] [] [] [] [] [] [] []]. Qed.

Lemma takeWhile_app (p : ascii -> bool) (w t : string) :
  forallb p (chars w) = true ->
  match t with String d _ => p d = false | "" => True end ->
  takeWhile p (w +:+ t) = w /\ dropWhile p (w +:+ t) = t.
Proof.
  intros Hw Ht. induction w as [|c w IH].
  - rewrite append_nil_l. destruct t as [|d t]; [done|]. simpl. by rewrite Ht.
  - simpl in Hw. apply andb_true_iff in Hw as [Hc Hw].
    rewrite append_cons. simpl. rewrite Hc.
    destruct (IH Hw) as [-> ->]. done.
Qed.

Lemma isAlphaStart_not_DQ (c : ascii) : isAlphaStart c = true -> (c =? DQ)%char = false.
Proof. by destruct c as [[] [] [] [] [] [] [] []]. Qed.

Lemma isBlank_not_isKeyChar (c : ascii) : isBlank c = true -> isKeyChar c = false.
Proof. by destruct c as [[] [] [] [] [] [] [] []]. Qed.

(** A word outside quoted literals, the blanks after it, and what the loop
    does with them. *)
Lemma addQuotesToKeys_word (w blanks rest : string) :
  is_word w = true -> all_blank blanks = true -> word_ends blanks rest = true ->
  addQuotesToKeys_from false (w +:+ blanks +:+ rest) =
  (if starts_with_colon rest then chr DQ +:+ w +:+ chr DQ else w)
  +:+ addQuotesToKeys_from false rest.
Proof.
  intros Hw Hb Hrest.
  destruct w as [|c k]; [done|]. simpl in Hw. apply andb_true_iff in Hw as [Hc Hk].
  assert (Hword : forallb isKeyChar (chars (String c k)) = true).
  { simpl. by rewrite (isAlphaStart_isKeyChar c Hc). }
  assert (Hhead : match blanks +:+ rest with
                  | String d _ => isKeyChar d = false
                  | "" => True
                  end).
  { destruct blanks as [|b bs].
    - rewrite append_nil_l. destruct rest as [|d r]; [done|]. simpl in Hrest.
      apply andb_true_iff in Hrest as [_ H]. rewrite orb_false_r in H.
      by apply negb_true_iff in H.
    - rewrite append_cons. unfold all_blank in Hb. simpl in Hb.
      apply andb_true_iff in Hb as [Hb _]. by apply isBlank_not_isKeyChar. }
  destruct (takeWhile_app isKeyChar (String c k) (blanks +:+ rest) Hword Hhead)
    as [Htake Hdrop].
  assert (Hskip : dropWhile isBlank (blanks +:+ rest) = rest).
  { apply (takeWhile_app isBlank blanks rest Hb).
    destruct rest as [|d r]; [done|]. cbn [word_ends] in Hrest.
    apply andb_true_iff in Hrest as [H _]. by apply negb_true_iff in H. }
  unfold addQuotesToKeys_from at 1.
  set (input := String c k +:+ blanks +:+ rest) in *.
  assert (Hlen : String.length input = S (String.length (k +:+ blanks +:+ rest))).
  { unfold input. by rewrite append_cons. }
  rewrite Hlen.
  assert (Hinput : input = String c (k +:+ blanks +:+ rest)).
  { unfold input. by rewrite append_cons. }
  rewrite Hinput at 1. cbn [addQuotesToKeys_loop].
  rewrite <- Hinput. rewrite (isAlphaStart_not_DQ c Hc), Hc, Htake, Hdrop, Hskip.
  assert (Hfuel : (String.length rest <= String.length (k +:+ blanks +:+ rest))%nat).
  { rewrite !length_append. lia. }
  destruct rest as [|d r].
  - rewrite addQuotesToKeys_loop_from by done. by rewrite append_nil_l.
  - rewrite (colon_match d r). cbn [starts_with_colon].
    destruct (d =? ":")%char; rewrite addQuotesToKeys_loop_from by done;
      by rewrite append_nil_l.
Qed.

Lemma addQuotesToKeys_from_other (c : ascii) (rest : string) :
  (c =? DQ)%char = false -> isAlphaStart c = false ->
  addQuotesToKeys_from false (String c rest) =
  stringOfByte c +:+ addQuotesToKeys_from false rest.
Proof.
  intros Hq Ha. unfold addQuotesToKeys_from at 1. cbn [String.length addQuotesToKeys_loop].
  rewrite Hq, Ha. rewrite addQuotesToKeys_loop_from by done. by rewrite append_nil_l.
Qed.

Lemma addQuotesToKeys_from_quote (q : bool) (rest : string) :
  addQuotesToKeys_from q (String DQ rest) =
  chr DQ +:+ addQuotesToKeys_from (negb q) rest.
Proof.
  unfold addQuotesToKeys_from at 1. cbn [String.length addQuotesToKeys_loop].
  rewrite Ascii.eqb_refl. rewrite addQuotesToKeys_loop_from by done. done.
Qed.

Lemma addQuotesToKeys_from_quoted (s rest : string) :
  forallb (fun c => negb (c =? DQ)%char) (chars s) = true ->
  addQuotesToKeys_from true (s +:+ String DQ rest) =
  bytesAsRunes s +:+ chr DQ +:+ addQuotesToKeys_from false rest.
Proof.
  intros Hs. induction s as [|c s IH].
  - rewrite append_nil_l. by rewrite addQuotesToKeys_from_quote.
  - simpl in Hs. apply andb_true_iff in Hs as [Hc Hs]. apply negb_true_iff in Hc.
    rewrite append_cons. unfold addQuotesToKeys_from at 1.
    cbn [String.length addQuotesToKeys_loop]. rewrite Hc.
    rewrite addQuotesToKeys_loop_from by done.
    fold (addQuotesToKeys_from true (s +:+ String DQ rest)). rewrite (IH Hs).
    cbn [bytesAsRunes]. by rewrite append_nil_l, !string_app_assoc.
Qed.

Lemma bytesAsRunes_ascii (s : string) :
  is_ascii (chars s) = true -> bytesAsRunes s = s.
Proof.
  induction s as [|c s IH]; [done|]. simpl. intros H.
  apply andb_true_iff in H as [Hc Hs]. rewrite (IH Hs).
  by rewrite (stringOfByte_ascii c Hc).
Qed.

(** X3. A bare key is quoted: a word outside quoted literals that is
    followed, after blanks and tabs, by a colon is written between double
    quotes; the blanks between the key and the colon are dropped. *)
Theorem addQuotesToKeys_quotes_bare_key (key blanks rest : string) :
  is_word key = true -> all_blank blanks = true ->
  addQuotesToKeys (key +:+ blanks +:+ String ":" rest) =
  chr DQ +:+ key +:+ chr DQ +:+ String ":" (addQuotesToKeys rest).
Proof.
  intros Hkey Hb.
  change (addQuotesToKeys (key +:+ blanks +:+ String ":" rest))
    with (addQuotesToKeys_from false (key +:+ blanks +:+ String ":" rest)).
  rewrite (addQuotesToKeys_word key blanks (String ":" rest) Hkey Hb eq_refl).
  cbn [starts_with_colon]. rewrite Ascii.eqb_refl.
  rewrite (addQuotesToKeys_from_other ":" rest eq_refl eq_refl).
  by rewrite !string_app_assoc.
Qed.

Lemma addQuotesToKeys_quotes_bare_key_witness :
  addQuotesToKeys ("name" +:+ " " +:+ String ":" " 1}") =
  chr DQ +:+ "name" +:+ chr DQ +:+ String ":" (addQuotesToKeys " 1}").
Proof. apply addQuotesToKeys_quotes_bare_key; reflexivity. Defined.

(** X4. A word that is no key is copied, and the blanks and tabs after it
    are dropped: the text goes on with the first character after them. *)
Theorem addQuotesToKeys_drops_blanks_after_word (w blanks rest : string) :
  is_word w = true -> all_blank blanks = true -> word_ends blanks rest = true ->
  starts_with_colon rest = false ->
  addQuotesToKeys (w +:+ blanks +:+ rest) = w +:+ addQuotesToKeys rest.
Proof.
  intros Hw Hb Hrest Hcolon.
  change (addQuotesToKeys (w +:+ blanks +:+ rest))
    with (addQuotesToKeys_from false (w +:+ blanks +:+ rest)).
  by rewrite (addQuotesToKeys_word w blanks rest Hw Hb Hrest), Hcolon.
Qed.

Lemma addQuotesToKeys_drops_blanks_after_word_witness :
  addQuotesToKeys ("new" +:+ " " +:+ "Date()}") = "new" +:+ addQuotesToKeys "Date()}".
Proof. apply addQuotesToKeys_drops_blanks_after_word; reflexivity. Defined.

(** X5. A double-quoted literal is copied byte by byte, each byte through
    [string(char)], up to its closing quote, whatever it holds: a literal of
    ASCII text is unchanged, keys and colons in it included. *)
Theorem addQuotesToKeys_copies_quoted_literal (s rest : string) :
  forallb (fun c => negb (c =? DQ)%char) (chars s) = true ->
  addQuotesToKeys (String DQ (s +:+ String DQ rest)) =
  String DQ (bytesAsRunes s +:+ String DQ (addQuotesToKeys rest))
  /\ (is_ascii (chars s) = true ->
      addQuotesToKeys (String DQ (s +:+ String DQ rest)) =
      String DQ (s +:+ String DQ (addQuotesToKeys rest))).
Proof.
  intros Hs.
  assert (H : addQuotesToKeys (String DQ (s +:+ String DQ rest)) =
              String DQ (bytesAsRunes s +:+ String DQ (addQuotesToKeys rest))).
  { change (addQuotesToKeys (String DQ (s +:+ String DQ rest)))
      with (addQuotesToKeys_from false (String DQ (s +:+ String DQ rest))).
    rewrite addQuotesToKeys_from_quote. cbn [negb].
    by rewrite (addQuotesToKeys_from_quoted s rest Hs). }
  split; [exact H|]. intros Ha. by rewrite H, (bytesAsRunes_ascii s Ha).
Qed.

Lemma addQuotesToKeys_copies_quoted_literal_witness :
  addQuotesToKeys (String DQ ("a: b" +:+ String DQ ":1")) =
  String DQ ("a: b" +:+ String DQ (addQuotesToKeys ":1")).
Proof.
  apply (addQuotesToKeys_copies_quoted_literal "a: b" ":1"); reflexivity.
Defined.

(** ** More facts about [strings] *)

Lemma prefix_nil (s : string) : String.prefix "" s = true.
Proof. by destruct s. Qed.

Lemma prefix_same (p x : string) : String.prefix p (p +:+ x) = true.
Proof.
  induction p as [|c p IH]; [rewrite append_nil_l; apply prefix_nil|].
  rewrite append_cons. cbn [String.prefix]. by destruct (ascii_dec c c).
Qed.

Lemma prefix_cancel (a p s : string) :
  String.prefix (a +:+ p) (a +:+ s) = String.prefix p s.
Proof.
  induction a as [|c a IH]; [by rewrite !append_nil_l|].
  rewrite !append_cons. cbn [String.prefix]. by destruct (ascii_dec c c).
Qed.

Lemma prefix_through (x : ascii) (c r : string) :
  forall p,
    lacks x p = true ->
    String.prefix p (c +:+ String x r) = true -> String.prefix p c = true.
Proof.
  induction c as [|d c IH]; intros p Hp H.
  - rewrite append_nil_l in H. destruct p as [|a p]; [done|].
    cbn [String.prefix] in H. destruct (ascii_dec a x) as [->|]; [|done].
    unfold lacks in Hp. simpl in Hp. by rewrite Ascii.eqb_refl in Hp.
  - destruct p as [|a p]; [done|]. rewrite append_cons in H.
    cbn [String.prefix] in *. destruct (ascii_dec a d); [|done].
    apply IH; [|done]. unfold lacks in *. simpl in Hp.
    by apply andb_true_iff in Hp as [_ Hp].
Qed.

Lemma Index_cons (c : ascii) (s x : string) :
  Index (String c s) x =
  if String.prefix x (String c s) then 0%Z
  else if (Index s x =? -1)%Z then (-1)%Z else (Index s x + 1)%Z.
Proof. reflexivity. Qed.

Lemma Index_app_lacks (x : ascii) (c r : string) :
  lacks x c = true ->
  Index (c +:+ String x r) (String x "") = Z.of_nat (String.length c).
Proof.
  intros Hc. induction c as [|d c IH].
  - rewrite append_nil_l, Index_cons. cbn [String.prefix].
    destruct (ascii_dec x x); [|done]. by rewrite prefix_nil.
  - unfold lacks in Hc. simpl in Hc. apply andb_true_iff in Hc as [Hd Hc].
    apply negb_true_iff, Ascii.eqb_neq in Hd.
    rewrite append_cons, Index_cons. cbn [String.prefix].
    destruct (ascii_dec x d) as [->|]; [done|].
    rewrite (IH Hc). cbn [String.length].
    destruct (Z.eqb_spec (Z.of_nat (String.length c)) (-1)); lia.
Qed.

Lemma LastIndex_app_last (x : ascii) (s : string) :
  LastIndex (s +:+ String x "") (String x "") = Z.of_nat (String.length s).
Proof.
  induction s as [|c s IH].
  - rewrite append_nil_l. cbn. by destruct (ascii_dec x x).
  - rewrite append_cons. cbn [LastIndex]. rewrite IH. cbn [String.length].
    destruct (Z.leb_spec 0 (Z.of_nat (String.length s))); lia.
Qed.

Lemma substring_all (s : string) : String.substring 0 (String.length s) s = s.
Proof. induction s as [|c s IH]; [done|]. simpl. by rewrite IH. Qed.

Lemma substring_app_l (a b : string) :
  String.substring 0 (String.length a) (a +:+ b) = a.
Proof.
  induction a as [|c a IH]; [rewrite append_nil_l; by destruct b|].
  rewrite append_cons. simpl. by rewrite IH.
Qed.

Lemma substring_app_r (a b : string) (n : nat) :
  String.substring (String.length a) n (a +:+ b) = String.substring 0 n b.
Proof.
  induction a as [|c a IH]; [by rewrite append_nil_l|].
  rewrite append_cons. simpl. apply IH.
Qed.

Lemma sliceFrom_app (a b : string) (lo : Z) :
  lo = Z.of_nat (String.length a) -> sliceFrom (a +:+ b) lo = b.
Proof.
  intros ->. unfold sliceFrom. rewrite Nat2Z.id, length_append, substring_app_r.
  replace (String.length a + String.length b - String.length a)%nat
    with (String.length b) by lia.
  apply substring_all.
Qed.

Lemma slice_app (a m b : string) (lo hi : Z) :
  lo = Z.of_nat (String.length a) ->
  hi = (lo + Z.of_nat (String.length m))%Z ->
  slice (a +:+ m +:+ b) lo hi = m.
Proof.
  intros -> ->. unfold slice. rewrite Nat2Z.id, substring_app_r.
  replace (Z.to_nat (Z.of_nat (String.length a) + Z.of_nat (String.length m)
                     - Z.of_nat (String.length a))) with (String.length m) by lia.
  apply substring_app_l.
Qed.

Lemma HasSuffix_cons (c : ascii) (s x : string) :
  HasSuffix (String c s) x = (String c s =? x) || HasSuffix s x.
Proof. reflexivity. Qed.

Lemma HasSuffix_app (a s x : string) :
  HasSuffix s x = true -> HasSuffix (a +:+ s) x = true.
Proof.
  intros H. induction a as [|c a IH]; [by rewrite append_nil_l|].
  rewrite append_cons, HasSuffix_cons, IH. apply orb_true_r.
Qed.

Lemma dropWhileEnd_app_last (p : ascii -> bool) (s : string) (c : ascii) :
  p c = false -> dropWhileEnd p (s +:+ String c "") = s +:+ String c "".
Proof.
  intros Hc. induction s as [|d s IH].
  - rewrite append_nil_l. simpl. by rewrite Hc.
  - rewrite append_cons. cbn [dropWhileEnd]. rewrite IH.
    destruct s; rewrite ?append_cons, ?append_nil_l; cbn [String.eqb];
      by rewrite andb_false_r.
Qed.

(** A text that begins and ends with characters that are no white space is
    its own [TrimSpace]. *)
Lemma TrimSpace_unchanged (c d : ascii) (s : string) :
  isSpace c = false -> isSpace d = false ->
  TrimSpace (String c (s +:+ String d "")) = String c (s +:+ String d "").
Proof.
  intros Hc Hd. unfold TrimSpace, TrimFunc. cbn [dropWhile]. rewrite Hc.
  rewrite <- append_cons. by apply dropWhileEnd_app_last.
Qed.

Lemma TrimSuffix_app_last (s : string) (c : ascii) :
  TrimSuffix (s +:+ String c "") (String c "") = s.
Proof.
  unfold TrimSuffix.
  rewrite (HasSuffix_app s (String c "") (String c "")).
  2:{ cbn. by rewrite Ascii.eqb_refl. }
  rewrite length_append. cbn [String.length].
  replace (String.length s + 1 - 1)%nat with (String.length s) by lia.
  apply substring_app_l.
Qed.

(** ** The call extractor of [parseMongoStatement] *)

Lemma closeIndex_loop_args (tail : string) (parenIndex : Z) (argsString : string) :
  forall (i depth : Z),
    parens_closed (chars argsString) depth = true -> (0 <= depth)%Z ->
    closeIndex_loop (argsString +:+ String ")" tail) i (depth + 1) parenIndex =
    (parenIndex + (i + Z.of_nat (String.length argsString)))%Z.
Proof.
  induction argsString as [|c s IH]; intros i depth H Hd.
  - rewrite append_nil_l. simpl in H. apply Z.eqb_eq in H. subst depth.
    cbn. f_equal. lia.
  - rewrite append_cons. cbn [closeIndex_loop]. simpl in H.
    destruct (c =? "(")%char.
    { rewrite (IH (i + 1)%Z (depth + 1)%Z H) by lia. cbn [String.length]. lia. }
    destruct (c =? ")")%char.
    { apply andb_true_iff in H as [Hpos H]. apply Z.ltb_lt in Hpos.
      replace (depth + 1 - 1)%Z with (depth - 1 + 1)%Z by lia.
      destruct (Z.eqb_spec (depth - 1 + 1) 0); [lia|].
      rewrite (IH (i + 1)%Z (depth - 1)%Z H) by lia. cbn [String.length]. lia. }
    rewrite (IH (i + 1)%Z depth H) by lia. cbn [String.length]. lia.
Qed.

(** The call extractor reads back the parts of a call. *)
Lemma extractCall_call_text (collection operation argsString tail : string) :
  lacks "." collection = true -> lacks "(" operation = true ->
  balanced_parens argsString = true ->
  extractCall (call_text collection operation argsString tail) =
  inl (collection, operation, argsString).
Proof.
  intros Hc Ho Ha. unfold call_text.
  set (afterArgs := ")" +:+ tail).
  set (operationPart := operation +:+ "(" +:+ argsString +:+ afterArgs).
  set (afterDb := collection +:+ "." +:+ operationPart).
  set (statement := "db." +:+ afterDb).
  assert (Hdb : HasPrefix statement "db." = true) by apply prefix_same.
  assert (HfirstDot : Index statement "." = 2%Z).
  { change statement with ("db" +:+ String "." afterDb).
    by rewrite (Index_app_lacks "." "db" afterDb). }
  assert (HafterDb : sliceFrom statement (2 + 1) = afterDb).
  { by apply sliceFrom_app. }
  assert (HsecondDot : Index afterDb "." = Z.of_nat (String.length collection)).
  { by apply Index_app_lacks. }
  assert (Hcollection :
            slice statement (2 + 1) (Z.of_nat (String.length collection) + (2 + 1)) =
            collection).
  { apply (slice_app "db." collection ("." +:+ operationPart)); cbn; lia. }
  assert (HoperationPart :
            sliceFrom statement (Z.of_nat (String.length collection) + (2 + 1) + 1) =
            operationPart).
  { unfold statement, afterDb.
    rewrite <- (string_app_assoc collection "." operationPart).
    rewrite <- (string_app_assoc "db." (collection +:+ ".") operationPart).
    apply sliceFrom_app. rewrite !length_append. cbn. lia. }
  assert (HparenIndex : Index operationPart "(" = Z.of_nat (String.length operation)).
  { by apply Index_app_lacks. }
  assert (Hoperation :
            slice operationPart 0 (Z.of_nat (String.length operation)) = operation).
  { apply (slice_app "" operation ("(" +:+ argsString +:+ afterArgs)); cbn; lia. }
  assert (Hparens :
            sliceFrom operationPart (Z.of_nat (String.length operation)) =
            String "(" (argsString +:+ afterArgs)).
  { by apply sliceFrom_app. }
  assert (HcloseIndex :
            closeIndex_loop (String "(" (argsString +:+ afterArgs)) 0 0
              (Z.of_nat (String.length operation)) =
            (Z.of_nat (String.length operation)
             + (1 + Z.of_nat (String.length argsString)))%Z).
  { cbn [closeIndex_loop]. cbn [Ascii.eqb Bool.eqb]. cbv iota.
    apply (closeIndex_loop_args tail _ argsString (0 + 1)%Z 0%Z Ha). lia. }
  assert (Hargs :
            slice operationPart (Z.of_nat (String.length operation) + 1)
              (Z.of_nat (String.length operation)
               + (1 + Z.of_nat (String.length argsString))) = argsString).
  { unfold operationPart.
    rewrite <- (string_app_assoc operation "(" (argsString +:+ afterArgs)).
    apply (slice_app (operation +:+ "(") argsString afterArgs).
    - rewrite length_append. cbn. lia.
    - lia. }
  unfold extractCall. rewrite Hdb. cbn [negb]. rewrite HfirstDot.
  cbn [Z.eqb Pos.eqb orb negb]. rewrite HafterDb, HsecondDot.
  destruct (Z.eqb_spec (Z.of_nat (String.length collection)) (-1)); [lia|].
  rewrite Hcollection, HoperationPart, HparenIndex.
  destruct (Z.eqb_spec (Z.of_nat (String.length operation)) (-1)); [lia|].
  rewrite Hoperation, Hparens, HcloseIndex.
  destruct (Z.eqb_spec (Z.of_nat (String.length operation)
                        + (1 + Z.of_nat (String.length argsString))) (-1)); [lia|].
  by rewrite Hargs.
Qed.

Lemma call_text_not_createCollection (collection operation argsString tail : string) :
  lacks "." collection = true ->
  HasPrefix collection "createCollection(" = false ->
  HasPrefix (call_text collection operation argsString tail) "db.createCollection(" = false.
Proof.
  intros Hc Hcc. unfold call_text, HasPrefix in *.
  change "db.createCollection(" with ("db." +:+ "createCollection(").
  rewrite prefix_cancel.
  destruct (String.prefix "createCollection(" (collection +:+ _)) eqn:E; [|done].
  apply prefix_through in E; [congruence|reflexivity].
Qed.

Lemma call_text_statement (collection operation argsString : string) :
  TrimSpace (call_text collection operation argsString ";") =
  call_text collection operation argsString ";"
  /\ TrimSuffix (call_text collection operation argsString ";") ";" =
     call_text collection operation argsString "".
Proof.
  unfold call_text.
  assert (E : forall tail,
            "db." +:+ collection +:+ "." +:+ operation +:+ "(" +:+ argsString +:+ ")" +:+ tail
            = String "d" (("b." +:+ collection +:+ "." +:+ operation +:+ "(" +:+ argsString +:+ ")")
                          +:+ tail)).
  { intros tail. rewrite !string_app_assoc. done. }
  split.
  - rewrite E. by apply TrimSpace_unchanged.
  - rewrite E, (E ""). rewrite <- append_cons, TrimSuffix_app_last.
    by rewrite string_app_nil_r.
Qed.

(** X6. The call extractor reads back the parts of a call: for a collection
    name without a dot, a method name without a parenthesis and an argument
    text whose parentheses are balanced, the statement
    [db.<collection>.<method>(<args>);] is taken apart into these three
    parts, and whatever follows the closing parenthesis is ignored. *)
Theorem extractCall_reads_back_call (collection operation argsString : string) :
  lacks "." collection = true ->
  HasPrefix collection "createCollection(" = false ->
  lacks "(" operation = true ->
  balanced_parens argsString = true ->
  call_of (call_text collection operation argsString ";")
    collection operation argsString
  /\ (forall tail,
        extractCall (call_text collection operation argsString tail) =
        inl (collection, operation, argsString)).
Proof.
  intros Hc Hcc Ho Ha. split; [|intros tail; by apply extractCall_call_text].
  unfold call_of. destruct (call_text_statement collection operation argsString) as [-> ->].
  split; [by apply call_text_not_createCollection|by apply extractCall_call_text].
Qed.

Lemma extractCall_reads_back_call_witness :
  call_of (call_text "users" "insertOne" "{a: f(1)}" ";") "users" "insertOne" "{a: f(1)}"
  /\ extractCall (call_text "users" "insertOne" "{a:1}" ".next({b:2})") =
     inl ("users", "insertOne", "{a:1}").
Proof.
  split.
  - apply (extractCall_reads_back_call "users" "insertOne" "{a: f(1)}"); reflexivity.
  - apply (extractCall_reads_back_call "users" "insertOne" "{a:1}"); reflexivity.
Defined.

(** ** Statements with an empty or blank argument text *)

Lemma isSpace_plain (c : ascii) :
  isSpace c = true ->
  (c =? DQ)%char = false /\ (c =? SQ)%char = false /\ (c =? "{")%char = false
  /\ (c =? "}")%char = false /\ (c =? ",")%char = false
  /\ (c =? "(")%char = false /\ (c =? ")")%char = false.
Proof. by destruct c as [[] [] [] [] [] [] [] []]. Qed.

Lemma TrimSpace_blank (s : string) :
  forallb isSpace (chars s) = true -> TrimSpace s = "".
Proof.
  intros H. unfold TrimSpace, TrimFunc.
  assert (E : dropWhile isSpace s = "").
  { induction s as [|c s IH]; [done|]. simpl in *.
    apply andb_true_iff in H as [Hc Hs]. rewrite Hc. by apply IH. }
  by rewrite E.
Qed.

Lemma balanced_parens_blank (s : string) :
  forallb isSpace (chars s) = true -> balanced_parens s = true.
Proof.
  unfold balanced_parens.
  assert (G : forall d, forallb isSpace (chars s) = true ->
                        parens_closed (chars s) d = (d =? 0)%Z).
  { induction s as [|c s IH]; intros d H; [done|]. simpl in *.
    apply andb_true_iff in H as [Hc Hs].
    destruct (isSpace_plain c Hc) as (_ & _ & _ & _ & _ & -> & ->). by apply IH. }
  intros H. by rewrite G.
Qed.

Lemma splitBytes_loop_blank (s : string) :
  forall st,
    forallb isSpace (chars s) = true ->
    splitBytes_loop s st =
    {| sb_args := sb_args st; sb_current := sb_current st +:+ s;
       sb_braceLevel := sb_braceLevel st; sb_inQuotes := sb_inQuotes st;
       sb_quoteChar := sb_quoteChar st |}.
Proof.
  induction s as [|c s IH]; intros st H.
  - simpl. rewrite string_app_nil_r. by destruct st.
  - simpl in H. apply andb_true_iff in H as [Hc Hs].
    destruct (isSpace_plain c Hc) as (E1 & E2 & E3 & E4 & E5 & _).
    cbn [splitBytes_loop]. rewrite (IH _ Hs). unfold splitBytes_step.
    rewrite E1, E2, E3, E4, E5. cbn [orb sb_args sb_current sb_braceLevel sb_inQuotes sb_quoteChar].
    unfold WriteByte, chr. by rewrite string_app_assoc.
Qed.

Lemma isSpace_ascii (c : ascii) : isSpace c = true -> (nat_of_ascii c <? 128)%nat = true.
Proof. destruct c as [[] [] [] [] [] [] [] []]; vm_compute; congruence. Qed.

Lemma splitArguments_blank (s : string) :
  s <> "" -> forallb isSpace (chars s) = true -> splitArguments s = [""].
Proof.
  intros Hne H.
  rewrite splitArguments_bytes, (is_ascii_rangeText s)
    by (by apply (is_ascii_forallb isSpace), H; apply isSpace_ascii).
  unfold splitBytes. rewrite (splitBytes_loop_blank s _ H).
  cbn [sb_args sb_current]. rewrite append_nil_l, (TrimSpace_blank s H).
  destruct s as [|c s]; [done|]. done.
Qed.

Lemma parseJSONLikeString_blank `{RT : GoRuntime} (input : string) :
  TrimSpace input = "" ->
  parseJSONLikeString input = (None, Some (Errorf "empty input")).
Proof. intros H. unfold parseJSONLikeString. by rewrite H. Qed.

Section CallText.

Context `{RT : GoRuntime}.

Lemma call_of_call_text (collection operation argsString : string) :
  lacks "." collection = true ->
  HasPrefix collection "createCollection(" = false ->
  lacks "(" operation = true ->
  balanced_parens argsString = true ->
  call_of (call_text collection operation argsString ";")
    collection operation argsString.
Proof.
  intros Hc Hcc Ho Ha.
  unfold call_of. destruct (call_text_statement collection operation argsString) as [-> ->].
  split; [by apply call_text_not_createCollection|by apply extractCall_call_text].
Qed.

Lemma parseMongoStatement_call_text (collection operation argsString : string) :
  lacks "." collection = true ->
  HasPrefix collection "createCollection(" = false ->
  lacks "(" operation = true ->
  balanced_parens argsString = true ->
  parseMongoStatement (call_text collection operation argsString ";") =
  if operation =? "createIndex" then parseCreateIndex collection argsString
  else if (operation =? "insertOne") || (operation =? "insertMany") then
    ret (parseInsert collection operation argsString)
  else if (operation =? "updateOne") || (operation =? "updateMany") then
    ret (parseUpdate collection operation argsString)
  else if (operation =? "deleteOne") || (operation =? "deleteMany") then
    ret (parseDelete collection operation argsString)
  else
    (run logPrintf (Warning_unsupported operation collection);
     ret (None, None)).
Proof.
  intros Hc Hcc Ho Ha.
  rewrite <- (parseMongoStatement_dispatch _ _ _ _
                (call_of_call_text collection operation argsString Hc Hcc Ho Ha)).
  by destruct (call_text_statement collection operation argsString) as [-> _].
Qed.

End CallText.

(** X7. [createIndex] with an empty argument list is no error: the
    statement [db.<collection>.createIndex();] gives an operation whose index
    specification is nil, and nothing is logged.  With blanks between the
    parentheses the statement is rejected: the index specification is the
    empty input. *)
Theorem createIndex_without_arguments `{RT : GoRuntime}
    (collection : string) (n : nat) :
  lacks "." collection = true ->
  HasPrefix collection "createCollection(" = false ->
  parseMongoStatement (call_text collection "createIndex" "" ";") n =
    ((Some {| op_Type := "createIndex"; op_Collection := collection;
              op_Operation := "createIndex"; op_Arguments := [];
              op_IndexSpec := None; op_IndexOptions := None;
              op_Validator := None |}, None), [], n)
  /\ (forall blanks,
        blanks <> "" -> forallb isSpace (chars blanks) = true ->
        parseMongoStatement (call_text collection "createIndex" blanks ";") n =
        ((None, Some (Errorf_w "failed to parse index specification"
                        (Errorf "empty input"))), [], n)).
Proof.
  intros Hc Hcc. split.
  - by rewrite (parseMongoStatement_call_text collection "createIndex" "" Hc Hcc eq_refl eq_refl).
  - intros blanks Hne Hb.
    rewrite (parseMongoStatement_call_text collection "createIndex" blanks Hc Hcc eq_refl
               (balanced_parens_blank blanks Hb)).
    cbn [String.eqb Ascii.eqb Bool.eqb]. cbv iota.
    unfold parseCreateIndex. rewrite (splitArguments_blank blanks Hne Hb).
    by rewrite (parseJSONLikeString_blank (TrimSpace "") eq_refl).
Qed.

Lemma createIndex_without_arguments_witness :
  parseMongoStatement (RT:=refRuntime) (call_text "users" "createIndex" "" ";") 0 =
    ((Some {| op_Type := "createIndex"; op_Collection := "users";
              op_Operation := "createIndex"; op_Arguments := [];
              op_IndexSpec := None; op_IndexOptions := None;
              op_Validator := None |}, None), [], 0%nat)
  /\ parseMongoStatement (RT:=refRuntime) (call_text "users" "createIndex" " " ";") 0 =
     ((None, Some (Errorf_w "failed to parse index specification"
                     (Errorf "empty input"))), [], 0%nat).
Proof.
  destruct (createIndex_without_arguments (RT:=refRuntime) "users" 0 eq_refl eq_refl)
    as [H1 H2].
  split; [exact H1|]. apply (H2 " "); [discriminate|reflexivity].
Defined.

(** X8. An insert or a delete without a document is an error of the
    builder: when the text between the parentheses is empty or blank,
    [parseMongoStatement] returns no operation and the error of the empty
    input, wrapped by the builder, and the statement is skipped with one
    warning. *)
Theorem missing_document_is_rejected `{RT : GoRuntime}
    (collection operation blanks : string) (n : nat) :
  lacks "." collection = true ->
  HasPrefix collection "createCollection(" = false ->
  forallb isSpace (chars blanks) = true ->
  let statement := call_text collection operation blanks ";" in
  (operation = "insertOne" \/ operation = "insertMany" ->
   parseMongoStatement statement n =
     ((None, Some (Errorf_w "failed to parse insert document" (Errorf "empty input"))),
      [], n)
   /\ parseJavaScriptOperations_step [] statement n =
      ([], [Warning_statement statement
              (Errorf_w "failed to parse insert document" (Errorf "empty input"))], n))
  /\ (operation = "deleteOne" \/ operation = "deleteMany" ->
      parseMongoStatement statement n =
        ((None, Some (Errorf_w "failed to parse delete filter" (Errorf "empty input"))),
         [], n)
      /\ parseJavaScriptOperations_step [] statement n =
         ([], [Warning_statement statement
                 (Errorf_w "failed to parse delete filter" (Errorf "empty input"))], n)).
Proof.
  intros Hc Hcc Hb statement.
  pose proof (balanced_parens_blank blanks Hb) as Hbal.
  pose proof (TrimSpace_blank blanks Hb) as Htrim.
  assert (Htrimmed : TrimSpace statement = statement).
  { unfold statement.
    by destruct (call_text_statement collection operation blanks) as [-> _]. }
  assert (Hstep : forall err,
            lacks "(" operation = true ->
            parseMongoStatement statement n = ((None, Some err), [], n) ->
            parseJavaScriptOperations_step [] statement n =
            ([], [Warning_statement statement err], n)).
  { intros err Ho Hparse.
    pose proof (call_of_call_text collection operation blanks Hc Hcc Ho Hbal) as Hcall.
    rewrite <- Htrimmed in Hparse.
    rewrite (step_builder_error statement collection operation blanks n err Hcall Hparse).
    by rewrite Htrimmed. }
  assert (Hins : forall o, o = "insertOne" \/ o = "insertMany" ->
            operation = o -> lacks "(" operation = true
            /\ parseMongoStatement statement n =
               ((None, Some (Errorf_w "failed to parse insert document"
                               (Errorf "empty input"))), [], n)).
  { intros o Ho ->. assert (Hl : lacks "(" o = true) by (by destruct Ho as [->| ->]).
    split; [exact Hl|]. unfold statement.
    rewrite (parseMongoStatement_call_text collection o blanks Hc Hcc Hl Hbal).
    unfold parseInsert, ret. rewrite (parseJSONLikeString_blank blanks Htrim).
    by destruct Ho as [->| ->]. }
  assert (Hdel : forall o, o = "deleteOne" \/ o = "deleteMany" ->
            operation = o -> lacks "(" operation = true
            /\ parseMongoStatement statement n =
               ((None, Some (Errorf_w "failed to parse delete filter"
                               (Errorf "empty input"))), [], n)).
  { intros o Ho ->. assert (Hl : lacks "(" o = true) by (by destruct Ho as [->| ->]).
    split; [exact Hl|]. unfold statement.
    rewrite (parseMongoStatement_call_text collection o blanks Hc Hcc Hl Hbal).
    unfold parseDelete, ret. rewrite (parseJSONLikeString_blank blanks Htrim).
    by destruct Ho as [->| ->]. }
  split; intros Ho.
  - destruct (Hins operation Ho eq_refl) as [Hl Hparse].
    split; [exact Hparse|by apply Hstep].
  - destruct (Hdel operation Ho eq_refl) as [Hl Hparse].
    split; [exact Hparse|by apply Hstep].
Qed.

Lemma missing_document_is_rejected_witness :
  parseMongoStatement (RT:=refRuntime) (call_text "users" "insertOne" "" ";") 0 =
    ((None, Some (Errorf_w "failed to parse insert document" (Errorf "empty input"))),
     [], 0%nat)
  /\ parseMongoStatement (RT:=refRuntime) (call_text "users" "deleteMany" "  " ";") 0 =
     ((None, Some (Errorf_w "failed to parse delete filter" (Errorf "empty input"))),
      [], 0%nat).
Proof.
  split.
  - destruct (missing_document_is_rejected (RT:=refRuntime) "users" "insertOne" "" 0
                eq_refl eq_refl eq_refl) as [H _].
    apply H. by left.
  - destruct (missing_document_is_rejected (RT:=refRuntime) "users" "deleteMany" "  " 0
                eq_refl eq_refl eq_refl) as [_ H].
    apply H. by right.
Defined.

(** ** [db.createCollection] *)

Lemma createCollection_text_statement (argsString : string) :
  TrimSuffix (TrimSpace (createCollection_text argsString ";")) ";" =
  createCollection_text argsString "".
Proof.
  unfold createCollection_text.
  assert (E : forall tail,
            "db.createCollection(" +:+ argsString +:+ ")" +:+ tail =
            String "d" (("b.createCollection(" +:+ argsString +:+ ")") +:+ tail)).
  { intros tail. by rewrite !string_app_assoc. }
  rewrite E, (TrimSpace_unchanged "d" ";") by done.
  rewrite (E ""), <- append_cons, TrimSuffix_app_last. by rewrite string_app_nil_r.
Qed.

(** The argument text that [parseDbCreateCollection] cuts out. *)
Lemma createCollection_text_args (argsString : string) :
  let statement := createCollection_text argsString "" in
  Index statement "(" = 19%Z
  /\ LastIndex statement ")" = (20 + Z.of_nat (String.length argsString))%Z
  /\ slice statement (19 + 1) (20 + Z.of_nat (String.length argsString)) = argsString.
Proof.
  unfold createCollection_text. split; [|split].
  - change ("db.createCollection(" +:+ argsString +:+ ")" +:+ "")
      with ("db.createCollection" +:+ String "(" (argsString +:+ ")" +:+ "")).
    by rewrite (Index_app_lacks "(" "db.createCollection").
  - rewrite string_app_nil_r.
    rewrite <- (string_app_assoc "db.createCollection(" argsString ")").
    rewrite (LastIndex_app_last ")"), length_append. cbn [String.length]. lia.
  - apply (slice_app "db.createCollection(" argsString (")" +:+ "")); cbn; lia.
Qed.

Lemma parseMongoStatement_createCollection `{RT : GoRuntime} (argsString : string) :
  parseMongoStatement (createCollection_text argsString ";") =
  parseDbCreateCollection (createCollection_text argsString "").
Proof.
  unfold parseMongoStatement. rewrite createCollection_text_statement.
  unfold createCollection_text at 1. unfold HasPrefix. by rewrite prefix_same.
Qed.

(** X9. [db.createCollection] asks for a collection name only when nothing at
    all stands between the parentheses: the error is returned for the empty
    argument text and for no other; every other text, a blank one included,
    gives a [createCollection] operation and no error, for the collection
    named by the first argument with the quotes at its ends removed. *)
Theorem createCollection_requires_name `{RT : GoRuntime}
    (argsString : string) (n : nat) :
  (result_of (parseMongoStatement (createCollection_text argsString ";") n) =
     (None, Some (Errorf "createCollection requires collection name"))
   <-> argsString = "")
  /\ (argsString <> "" ->
      exists op,
        result_of (parseMongoStatement (createCollection_text argsString ";") n) =
          (Some op, None)
        /\ op_Type op = "createCollection"
        /\ op_Operation op = "createCollection"
        /\ op_Collection op =
           Trim (hd "" (splitArguments argsString)) (String DQ "'")).
Proof.
  rewrite parseMongoStatement_createCollection.
  destruct (createCollection_text_args argsString) as (Hstart & Hend & Hslice).
  cbv zeta in Hstart, Hend, Hslice.
  assert (Hbody : argsString <> "" ->
            exists op,
              result_of (parseDbCreateCollection (createCollection_text argsString "") n) =
                (Some op, None)
              /\ op_Type op = "createCollection"
              /\ op_Operation op = "createCollection"
              /\ op_Collection op =
                 Trim (hd "" (splitArguments argsString)) (String DQ "'")).
  { intros Hne. unfold parseDbCreateCollection. rewrite Hstart, Hend.
    destruct (Z.eqb_spec (20 + Z.of_nat (String.length argsString)) (-1)); [lia|].
    cbn [Z.eqb orb]. rewrite Hslice.
    pose proof (splitArguments_nonempty argsString Hne) as Hargs.
    destruct (splitArguments argsString) as [|arg0 more]; [done|].
    destruct more as [|arg1 more]; [by eexists|].
    destruct (parseJSONLikeString arg1) as [options [err|]]; [by eexists|].
    destruct (match options with Some m => m !! "validator" | None => None end)
      as [[]|]; by eexists. }
  split; [split|exact Hbody].
  - intros H. destruct (string_dec argsString "") as [|Hne]; [done|].
    destruct (Hbody Hne) as (op & Hop & _). congruence.
  - intros ->. reflexivity.
Qed.

Lemma createCollection_requires_name_witness :
  exists op,
    result_of (parseMongoStatement (RT:=refRuntime) (createCollection_text " " ";") 0) =
      (Some op, None)
    /\ op_Type op = "createCollection"
    /\ op_Operation op = "createCollection"
    /\ op_Collection op = "".
Proof.
  destruct (createCollection_requires_name (RT:=refRuntime) " " 0) as [_ H].
  destruct (H ltac:(discriminate)) as (op & Hop & Htype & Hoperation & Hname).
  exists op. by repeat split.
Defined.

Lemma dropWhileEnd_app_true (p : ascii -> bool) (s : string) (c : ascii) :
  p c = true -> dropWhileEnd p (s +:+ String c "") = dropWhileEnd p s.
Proof.
  intros Hc. induction s as [|d s IH].
  - rewrite append_nil_l. simpl. by rewrite Hc.
  - rewrite append_cons. cbn [dropWhileEnd]. by rewrite IH.
Qed.

Lemma dropWhile_app_true (p : ascii -> bool) (s : string) (c : ascii) :
  p c = true ->
  dropWhile p (s +:+ String c "") =
  match dropWhile p s with
  | "" => ""
  | t => t +:+ String c ""
  end.
Proof.
  intros Hc. induction s as [|d s IH].
  - rewrite append_nil_l. simpl. by rewrite Hc.
  - rewrite append_cons. cbn [dropWhile]. destruct (p d); [exact IH|].
    by rewrite append_cons.
Qed.

(** Quotes around a text are trimmed with the quotes of the text itself. *)
Lemma TrimFunc_wrapped (p : ascii -> bool) (q : ascii) (s : string) :
  p q = true -> TrimFunc (String q (s +:+ String q "")) p = TrimFunc s p.
Proof.
  intros Hq. unfold TrimFunc. cbn [dropWhile]. rewrite Hq.
  rewrite (dropWhile_app_true p s q Hq).
  destruct (dropWhile p s) as [|d t]; [done|].
  by rewrite (dropWhileEnd_app_true p (String d t) q Hq).
Qed.

Lemma splitBytes_quoted (q : ascii) (s : string) :
  isQuote q = true -> lacks q s = true ->
  splitBytes (String q (s +:+ String q "")) = [String q (s +:+ String q "")].
Proof.
  intros Hq Hs. unfold splitBytes. cbn [splitBytes_loop].
  assert (Hopen : splitBytes_step
                    {| sb_args := []; sb_current := ""; sb_braceLevel := 0;
                       sb_inQuotes := false; sb_quoteChar := NUL |} q =
                  {| sb_args := []; sb_current := String q ""; sb_braceLevel := 0;
                     sb_inQuotes := true; sb_quoteChar := q |}).
  { unfold splitBytes_step. unfold isQuote in Hq. by rewrite Hq. }
  rewrite Hopen.
  assert (Hloop : forall st,
            sb_inQuotes st = true -> sb_quoteChar st = q ->
            splitBytes_loop (s +:+ String q "") st =
            {| sb_args := sb_args st;
               sb_current := sb_current st +:+ s +:+ String q "";
               sb_braceLevel := sb_braceLevel st; sb_inQuotes := false;
               sb_quoteChar := q |}).
  { clear Hopen. induction s as [|c s IH]; intros st Hin Hqc.
    - rewrite !append_nil_l. cbn [splitBytes_loop]. unfold splitBytes_step.
      unfold isQuote in Hq. rewrite Hq, Hin, Hqc, Ascii.eqb_refl. done.
    - unfold lacks in Hs. simpl in Hs. apply andb_true_iff in Hs as [Hc Hs].
      apply negb_true_iff in Hc. rewrite append_cons. cbn [splitBytes_loop].
      assert (Hstep : splitBytes_step st c =
                {| sb_args := sb_args st; sb_current := WriteByte (sb_current st) c;
                   sb_braceLevel := sb_braceLevel st; sb_inQuotes := true;
                   sb_quoteChar := q |}).
      { unfold splitBytes_step. rewrite Hin, Hqc, Hc. cbn [negb andb].
        destruct ((c =? DQ)%char || (c =? SQ)%char); [done|].
        destruct (c =? "{")%char; [done|]. destruct (c =? "}")%char; [done|].
        by destruct (c =? ",")%char. }
      rewrite Hstep, (IH Hs) by done.
      cbn [sb_args sb_current sb_braceLevel]. unfold WriteByte, chr.
      by rewrite !string_app_assoc. }
  rewrite Hloop by done. cbn [sb_args sb_current app].
  assert (Hspace : isSpace q = false).
  { unfold isQuote in Hq. by destruct q as [[] [] [] [] [] [] [] []]. }
  rewrite append_cons, append_nil_l, (TrimSpace_unchanged q q s Hspace Hspace).
  done.
Qed.

Lemma isQuote_ascii (q : ascii) : isQuote q = true -> (code q < 128)%Z.
Proof.
  unfold isQuote. intros H.
  apply orb_true_iff in H as [H|H]; apply Ascii.eqb_eq in H; by subst q.
Qed.

(** A quoted text of valid UTF-8 is one argument. *)
Lemma splitArguments_quoted (q : ascii) (s : string) :
  isQuote q = true -> lacks q s = true -> ValidString s = true ->
  splitArguments (String q (s +:+ String q "")) = [String q (s +:+ String q "")].
Proof.
  intros Hq Hs Hvalid. pose proof (isQuote_ascii q Hq) as Hascii.
  rewrite splitArguments_bytes, ValidString_rangeText; [by apply splitBytes_quoted|].
  rewrite ValidString_ascii by done. apply ValidString_app; [done|].
  by rewrite ValidString_ascii.
Qed.

(** X10. The name of a collection is read back: for a name of valid UTF-8
    written between double or between single quotes, without that quote
    inside and without a quote at either end,
    [db.createCollection(<quoted name>);] gives the operation that creates
    the collection of that name, with no validator, no error and no log
    line. *)
Theorem createCollection_reads_back_name `{RT : GoRuntime}
    (q : ascii) (name : string) (n : nat) :
  isQuote q = true -> lacks q name = true -> ValidString name = true ->
  Trim name (String DQ "'") = name ->
  parseMongoStatement
    (createCollection_text (String q (name +:+ String q "")) ";") n =
  ((Some {| op_Type := "createCollection"; op_Collection := name;
            op_Operation := "createCollection"; op_Arguments := [];
            op_IndexSpec := None; op_IndexOptions := None;
            op_Validator := None |}, None), [], n).
Proof.
  intros Hq Hname Hvalid Hends.
  rewrite parseMongoStatement_createCollection.
  destruct (createCollection_text_args (String q (name +:+ String q "")))
    as (Hstart & Hend & Hslice).
  cbv zeta in Hstart, Hend, Hslice.
  unfold parseDbCreateCollection. rewrite Hstart, Hend.
  destruct (Z.eqb_spec
              (20 + Z.of_nat (String.length (String q (name +:+ String q "")))) (-1));
    [lia|].
  cbn [Z.eqb orb]. rewrite Hslice, (splitArguments_quoted q name Hq Hname Hvalid).
  unfold Trim in *. rewrite TrimFunc_wrapped, Hends; [done|].
  unfold isQuote in Hq.
  apply orb_true_iff in Hq as [Hq|Hq]; apply Ascii.eqb_eq in Hq; by subst q.
Qed.

Lemma createCollection_reads_back_name_witness :
  parseMongoStatement (RT:=refRuntime)
    (createCollection_text (String SQ ("my,users" +:+ String SQ "")) ";") 0 =
  ((Some {| op_Type := "createCollection"; op_Collection := "my,users";
            op_Operation := "createCollection"; op_Arguments := [];
            op_IndexSpec := None; op_IndexOptions := None;
            op_Validator := None |}, None), [], 0%nat).
Proof.
  apply (createCollection_reads_back_name (RT:=refRuntime) SQ "my,users" 0);
    reflexivity.
Defined.

(** ** What [parseMongoStatement] returns *)

Section Shape.

Context `{RT : GoRuntime}.

Lemma parseDbCreateCollection_shape (statement : string) (n : nat) :
  (exists err, parseDbCreateCollection statement n = ((None, Some err), [], n))
  \/ (exists op log,
        parseDbCreateCollection statement n = ((Some op, None), log, n)
        /\ well_formed op = true).
Proof.
  unfold parseDbCreateCollection.
  destruct ((Index statement "(" =? -1)%Z || (LastIndex statement ")" =? -1)%Z);
    [left; by eexists|].
  destruct (splitArguments _) as [|arg0 [|arg1 more]];
    [left; by eexists|right; by eexists _, _|].
  right. destruct (parseJSONLikeString arg1) as [options [err|]]; [by eexists _, _|].
  destruct (match options with Some m => m !! "validator" | None => None end)
    as [[]|]; by eexists _, _.
Qed.

Lemma parseCreateIndex_shape (collection argsString : string) (n : nat) :
  (exists err, parseCreateIndex collection argsString n = ((None, Some err), [], n))
  \/ (exists op log n',
        parseCreateIndex collection argsString n = ((Some op, None), log, n')
        /\ well_formed op = true).
Proof.
  unfold parseCreateIndex.
  destruct (splitArguments argsString) as [|arg0 more]; [right; by eexists _, _, _|].
  destruct (parseJSONLikeString (TrimSpace arg0)) as [indexSpecMap [err|]];
    [left; by eexists|].
  right. destruct more as [|arg1 more]; [by eexists _, _, _|].
  unfold bind, rangeMap.
  destruct (parseJSONLikeString (TrimSpace arg1)) as [indexOptions [err|]];
    by eexists _, _, _.
Qed.

Lemma parseInsert_shape (collection operation argsString : string) :
  (operation =? "insertOne") || (operation =? "insertMany") = true ->
  (exists err, parseInsert collection operation argsString = (None, Some err))
  \/ (exists op,
        parseInsert collection operation argsString = (Some op, None)
        /\ well_formed op = true).
Proof.
  intros Ho. unfold parseInsert.
  destruct (parseJSONLikeString argsString) as [document [err|]]; [left; by eexists|].
  right. eexists. split; [done|]. unfold well_formed. cbn. by rewrite Ho.
Qed.

Lemma parseUpdate_shape (collection operation argsString : string) :
  (operation =? "updateOne") || (operation =? "updateMany") = true ->
  (exists err, parseUpdate collection operation argsString = (None, Some err))
  \/ (exists op,
        parseUpdate collection operation argsString = (Some op, None)
        /\ well_formed op = true).
Proof.
  intros Ho. unfold parseUpdate.
  destruct (length (splitArguments argsString) <? 2)%nat; [left; by eexists|].
  destruct (parseJSONLikeString (nth 0 _ "")) as [filter [err|]]; [left; by eexists|].
  destruct (parseJSONLikeString (nth 1 _ "")) as [update [err|]]; [left; by eexists|].
  right. eexists. split; [done|]. unfold well_formed. cbn. by rewrite Ho.
Qed.

Lemma parseDelete_shape (collection operation argsString : string) :
  (operation =? "deleteOne") || (operation =? "deleteMany") = true ->
  (exists err, parseDelete collection operation argsString = (None, Some err))
  \/ (exists op,
        parseDelete collection operation argsString = (Some op, None)
        /\ well_formed op = true).
Proof.
  intros Ho. unfold parseDelete.
  destruct (parseJSONLikeString argsString) as [filter [err|]]; [left; by eexists|].
  right. eexists. split; [done|]. unfold well_formed. cbn. by rewrite Ho.
Qed.

(** The three ways in which [parseMongoStatement] returns. *)
Lemma parseMongoStatement_shape (statement : string) (n : nat) :
  (exists err, parseMongoStatement statement n = ((None, Some err), [], n))
  \/ (exists operation collection,
        parseMongoStatement statement n =
        ((None, None), [Warning_unsupported operation collection], n))
  \/ (exists op log n',
        parseMongoStatement statement n = ((Some op, None), log, n')
        /\ well_formed op = true).
Proof.
  unfold parseMongoStatement.
  set (s := TrimSuffix (TrimSpace statement) ";").
  destruct (HasPrefix s "db.createCollection(").
  { destruct (parseDbCreateCollection_shape s n) as [[err H]|(op & log & H & Hwf)].
    - left. by exists err.
    - right. right. by exists op, log, n. }
  destruct (extractCall s) as [[[collection operation] argsString]|err];
    [|left; by exists err].
  destruct (operation =? "createIndex").
  { destruct (parseCreateIndex_shape collection argsString n)
      as [[err H]|(op & log & n' & H & Hwf)].
    - left. by exists err.
    - right. right. by exists op, log, n'. }
  destruct ((operation =? "insertOne") || (operation =? "insertMany")) eqn:Eins.
  { destruct (parseInsert_shape collection operation argsString Eins)
      as [[err H]|(op & H & Hwf)]; unfold ret; rewrite H.
    - left. by exists err.
    - right. right. by exists op, [], n. }
  destruct ((operation =? "updateOne") || (operation =? "updateMany")) eqn:Eupd.
  { destruct (parseUpdate_shape collection operation argsString Eupd)
      as [[err H]|(op & H & Hwf)]; unfold ret; rewrite H.
    - left. by exists err.
    - right. right. by exists op, [], n. }
  destruct ((operation =? "deleteOne") || (operation =? "deleteMany")) eqn:Edel.
  { destruct (parseDelete_shape collection operation argsString Edel)
      as [[err H]|(op & H & Hwf)]; unfold ret; rewrite H.
    - left. by exists err.
    - right. right. by exists op, [], n. }
  right. left. by exists operation, collection.
Qed.

Lemma step_well_formed (statement : string) (n : nat) :
  Forall (fun op => well_formed op = true)
    (result_of (parseJavaScriptOperations_step [] statement n)).
Proof.
  unfold parseJavaScriptOperations_step.
  destruct ((TrimSpace statement =? "") || HasPrefix (TrimSpace statement) "//");
    [by constructor|].
  destruct (HasPrefix (TrimSpace statement) "db." && Contains (TrimSpace statement) "(");
    [|by constructor].
  unfold bind.
  destruct (parseMongoStatement_shape (TrimSpace statement) n)
    as [[err ->]|[(o & c & ->)|(op & log & n' & -> & Hwf)]]; cbn.
  - constructor.
  - constructor.
  - by repeat constructor.
Qed.

Lemma contributions_well_formed (statements : list string) :
  forall n,
    Forall (fun op => well_formed op = true) (result_of (contributions statements n)).
Proof.
  induction statements as [|statement rest IH]; intros n; [by constructor|].
  cbn [contributions].
  pose proof (step_well_formed statement n) as Hstep.
  destruct (parseJavaScriptOperations_step [] statement n) as [[ops log] n1].
  pose proof (IH n1) as Hrest.
  destruct (contributions rest n1) as [[ops' log'] n2].
  unfold result_of in *. cbn in *. by apply Forall_app.
Qed.

Lemma parsed_operations_well_formed (jsContent : string) (n : nat) :
  Forall (fun op => well_formed op = true)
    (fst (result_of (parseJavaScriptOperations jsContent n))).
Proof.
  rewrite parseJavaScriptOperations_contributions.
  pose proof (contributions_well_formed (splitIntoStatements jsContent) n) as H.
  by destruct (contributions (splitIntoStatements jsContent) n) as [[ops log] n'].
Qed.

End Shape.

(** X11. [parseMongoStatement] returns in one of three ways and in no
    other: an error without an operation, with nothing logged and no map
    loop run; neither of them, for a method that is not supported, which is
    logged; or an operation without an error.  It never returns an operation
    together with an error. *)
Theorem parseMongoStatement_returns_operation_or_error `{RT : GoRuntime}
    (statement : string) (n : nat) :
  (exists err, parseMongoStatement statement n = ((None, Some err), [], n))
  \/ (exists operation collection,
        parseMongoStatement statement n =
        ((None, None), [Warning_unsupported operation collection], n))
  \/ (exists op log n', parseMongoStatement statement n = ((Some op, None), log, n')).
Proof.
  destruct (parseMongoStatement_shape statement n)
    as [H|[H|(op & log & n' & H & _)]]; [by left|by right; left|].
  right. right. by exists op, log, n'.
Qed.

(** X12. Every operation that the parser returns is filled as its kind
    asks: an insert and a delete carry exactly one document and an update
    exactly two, the method is one of those of the type, and only a
    [createIndex] carries an index specification or index options, only a
    [createCollection] a validator. *)
Theorem parsed_operations_are_well_formed `{RT : GoRuntime}
    (jsContent : string) (n : nat) :
  Forall (fun op => well_formed op = true)
    (fst (result_of (parseJavaScriptOperations jsContent n))).
Proof. apply parsed_operations_well_formed. Qed.

(** ** The executor *)

Section ExecutorFacts.

Context `{RT : GoRuntime} `{DRV : MongoDriver}.

Lemma well_formed_passes_checks (op : MongoOperation) :
  well_formed op = true -> passes_checks op = true.
Proof.
  unfold well_formed, passes_checks.
  destruct (op_Type op =? "createCollection"); [done|].
  destruct (op_Type op =? "createIndex"); [done|].
  intros H. apply andb_true_iff in H as [_ H].
  destruct (op_Type op =? "insert").
  { apply andb_true_iff in H as [-> H]. apply Nat.eqb_eq in H. by rewrite H. }
  destruct (op_Type op =? "update").
  { apply andb_true_iff in H as [-> H]. apply Nat.eqb_eq in H. by rewrite H. }
  destruct (op_Type op =? "delete"); [|done].
  apply andb_true_iff in H as [-> H]. apply Nat.eqb_eq in H. by rewrite H.
Qed.

(** An operation that passes the checks reaches the driver: the error, if
    there is one, is the driver's. *)
Lemma executeMongoOperation_passes (ctx : Ctx) (op : MongoOperation) (db : Database) :
  passes_checks op = true ->
  (exists out log db', executeMongoOperation ctx op db = ((out, None), log, db'))
  \/ (exists err db',
        executeMongoOperation ctx op db = ((OutNil, Some (OfDriver err)), [], db')).
Proof.
  unfold passes_checks, executeMongoOperation.
  destruct (op_Type op =? "createCollection").
  { intros _. unfold executeCreateCollection.
    destruct (CreateCollection _ _ _ _) as [[err|] db'].
    - destruct (IsDuplicateKeyError err || Contains (ErrorText err) "already exists");
        [left; by eexists _, _, _|right; by eexists _, _].
    - left. by eexists _, _, _. }
  destruct (op_Type op =? "createIndex").
  { intros _. unfold executeCreateIndex.
    destruct (CreateOne _ _ _ _ _) as [[result|err] db'].
    - left. by eexists _, _, _.
    - destruct (Contains (ErrorText err) "already exists");
        [left; by eexists _, _, _|right; by eexists _, _]. }
  destruct (op_Type op =? "insert").
  { intros H. apply andb_true_iff in H as [Hlen Hop]. apply negb_true_iff in Hlen.
    unfold executeInsert. rewrite Hlen.
    destruct (op_Operation op =? "insertOne").
    { destruct (InsertOne _ _ _ _) as [[id|err] db'];
        [left; by eexists _, _, _|right; by eexists _, _]. }
    simpl in Hop. rewrite Hop.
    destruct (InsertMany _ _ _ _) as [[ids|err] db'];
      [left; by eexists _, _, _|right; by eexists _, _]. }
  destruct (op_Type op =? "update").
  { intros H. apply andb_true_iff in H as [Hlen Hop]. apply negb_true_iff in Hlen.
    unfold executeUpdate. rewrite Hlen.
    destruct (op_Operation op =? "updateOne").
    { destruct (UpdateOne _ _ _ _ _) as [[count|err] db'];
        [left; by eexists _, _, _|right; by eexists _, _]. }
    simpl in Hop. rewrite Hop.
    destruct (UpdateMany _ _ _ _ _) as [[count|err] db'];
      [left; by eexists _, _, _|right; by eexists _, _]. }
  destruct (op_Type op =? "delete"); [|done].
  intros H. apply andb_true_iff in H as [Hlen Hop]. apply negb_true_iff in Hlen.
  unfold executeDelete. rewrite Hlen.
  destruct (op_Operation op =? "deleteOne").
  { destruct (DeleteOne _ _ _ _) as [[count|err] db'];
      [left; by eexists _, _, _|right; by eexists _, _]. }
  simpl in Hop. rewrite Hop.
  destruct (DeleteMany _ _ _ _) as [[count|err] db'];
    [left; by eexists _, _, _|right; by eexists _, _].
Qed.

(** An operation that fails a check never reaches the driver. *)
Lemma executeMongoOperation_fails_check (ctx : Ctx) (op : MongoOperation) (db : Database) :
  passes_checks op = false ->
  exists msg, executeMongoOperation ctx op db = ((OutNil, Some (ExecErrorf msg)), [], db).
Proof.
  unfold passes_checks, executeMongoOperation.
  destruct (op_Type op =? "createCollection"); [done|].
  destruct (op_Type op =? "createIndex"); [done|].
  destruct (op_Type op =? "insert").
  { unfold executeInsert. destruct (length (op_Arguments op) =? 0)%nat; [by eexists|].
    destruct (op_Operation op =? "insertOne"); [done|].
    destruct (op_Operation op =? "insertMany"); [done|]. by eexists. }
  destruct (op_Type op =? "update").
  { unfold executeUpdate. destruct (length (op_Arguments op) <? 2)%nat; [by eexists|].
    destruct (op_Operation op =? "updateOne"); [done|].
    destruct (op_Operation op =? "updateMany"); [done|]. by eexists. }
  destruct (op_Type op =? "delete"); [|by eexists].
  unfold executeDelete. destruct (length (op_Arguments op) =? 0)%nat; [by eexists|].
  destruct (op_Operation op =? "deleteOne"); [done|].
  destruct (op_Operation op =? "deleteMany"); [done|]. by eexists.
Qed.

(** The loop of [ExecuteScript] over operations that pass the checks. *)
Lemma executeOperations_passes (ctx : Ctx) (operations : list MongoOperation) :
  Forall (fun op => passes_checks op = true) operations ->
  forall results db,
    (exists outs log db',
       executeOperations ctx operations results db =
       ({| sr_Success := true; sr_Output := OutResults (results ++ outs);
           sr_Error := None |}, log, db')
       /\ length outs = length operations)
    \/ (exists op err log db',
          op ∈ operations
          /\ executeOperations ctx operations results db =
             ({| sr_Success := false; sr_Output := OutNil;
                 sr_Error :=
                   Some (ExecErrorf_w
                           ("failed to execute operation " +:+ op_Operation op
                            +:+ " on " +:+ op_Collection op) (OfDriver err)) |},
              log, db')).
Proof.
  induction 1 as [|op rest Hop Hrest IH]; intros results db.
  - left. exists [], [], db. by rewrite app_nil_r.
  - cbn [executeOperations].
    destruct (executeMongoOperation_passes ctx op db Hop)
      as [(out & log & db' & ->)|(err & db' & ->)].
    + destruct (IH (results ++ [out]) db')
        as [(outs & log' & db'' & -> & Hlen)|(op' & err & log' & db'' & Hin & ->)].
      * left. exists (out :: outs), (log ++ log'), db''.
        rewrite <- app_assoc. split; [done|]. simpl. by rewrite Hlen.
      * right. exists op', err, (log ++ log'), db''. split; [|done].
        by apply list_elem_of_further.
    + right. exists op, err, [], db'. split; [apply list_elem_of_here|done].
Qed.

Lemma splitIntoStatements_skipped (jsContent : string) :
  Forall (fun line => is_skipped line = true) (Split jsContent LF) ->
  splitIntoStatements jsContent = [].
Proof.
  intros H. unfold splitIntoStatements.
  assert (E : forall st,
            fold_left splitIntoStatements_step (Split jsContent LF) st = st).
  { induction H as [|line lines Hline _ IH]; intros st; [done|].
    cbn [fold_left]. unfold splitIntoStatements_step at 2.
    unfold is_skipped in Hline. rewrite Hline. apply IH. }
  by rewrite E.
Qed.

End ExecutorFacts.

(** X13. A script fails in the driver or not at all.  [ExecuteScript]
    either succeeds, with no error and, unless the script is blank, with one
    result for each operation parsed, or it fails with the error that the
    driver gave for one of the parsed operations, wrapped with the method and
    the collection of that operation.  The parse never makes it fail, and
    the checks of the executor (an unknown type or method, a missing
    document) never fire for an operation that the parser made. *)
Theorem ExecuteScript_fails_only_in_driver `{RT : GoRuntime} `{DRV : MongoDriver}
    (ctx : Ctx) (jsContent : string) (n : nat) (db : Database) :
  let operations := fst (result_of (parseJavaScriptOperations jsContent n)) in
  let result := fst (fst (fst (ExecuteScript ctx jsContent n db))) in
  (sr_Success result = true /\ sr_Error result = None
   /\ (sr_Output result = OutString "Script is empty, skipped"
       \/ exists results,
            sr_Output result = OutResults results
            /\ length results = length operations))
  \/ (sr_Success result = false /\ sr_Output result = OutNil
      /\ exists op err,
           op ∈ operations
           /\ sr_Error result =
              Some (ExecErrorf_w
                      ("failed to execute operation " +:+ op_Operation op
                       +:+ " on " +:+ op_Collection op) (OfDriver err))).
Proof.
  intros operations result. unfold result, ExecuteScript.
  destruct (String.length (TrimSpace jsContent) =? 0)%nat.
  { left. cbn. split; [done|split; [done|by left]]. }
  pose proof (parsed_operations_well_formed jsContent n) as Hwf.
  fold operations in Hwf. unfold operations in *.
  rewrite parseJavaScriptOperations_contributions in *.
  destruct (contributions (splitIntoStatements jsContent) n) as [[ops plog] n'].
  cbn in Hwf. cbn [result_of fst snd].
  assert (Hpass : Forall (fun op => passes_checks op = true) ops).
  { eapply Forall_impl; [exact Hwf|]. intros op. apply well_formed_passes_checks. }
  destruct (executeOperations_passes ctx ops Hpass [] db)
    as [(outs & log & db' & -> & Hlen)|(op & err & log & db' & Hin & ->)]; cbn.
  - left. split; [done|split; [done|]]. right. by exists outs.
  - right. split; [done|split; [done|]]. by exists op, err.
Qed.

(** X14. The checks of the executor come before every effect, and after
    them comes one call of the driver.  An operation of an unknown type, an
    insert or a delete without a document, an update with fewer than two, or
    one with a method that does not belong to its type, gives an error of
    the executor, writes no line and leaves the database as it was.  Every
    other operation reaches the driver with the one call that it stands for:
    the database afterwards is the one that the driver leaves; when the call
    succeeds its result is returned and nothing is logged; when it fails the
    error is returned as the driver gave it, except that a collection or an
    index that is there already counts as a success, with a line in the
    log. *)
Theorem executor_checks_come_first `{DRV : MongoDriver}
    (ctx : Ctx) (op : MongoOperation) (db : Database) :
  (passes_checks op = false ->
   exists msg,
     executeMongoOperation ctx op db = ((OutNil, Some (ExecErrorf msg)), [], db))
  /\ (passes_checks op = true ->
      executeMongoOperation ctx op db =
      match driverCall ctx op db with
      | (inl out, db') => ((out, None), [], db')
      | (inr err, db') =>
          match alreadyThere op err with
          | Some (text, line) => ((OutString text, None), [line], db')
          | None => ((OutNil, Some (OfDriver err)), [], db')
          end
      end).
Proof.
  split; [apply executeMongoOperation_fails_check|].
  unfold passes_checks, executeMongoOperation, driverCall, alreadyThere.
  destruct (op_Type op =? "createCollection").
  { intros _. unfold executeCreateCollection.
    destruct (CreateCollection _ _ _ _) as [[err|] db']; [|done].
    by destruct (IsDuplicateKeyError err || Contains (ErrorText err) "already exists"). }
  destruct (op_Type op =? "createIndex").
  { intros _. unfold executeCreateIndex, answered.
    destruct (CreateOne _ _ _ _ _) as [[result|err] db']; [done|].
    by destruct (Contains (ErrorText err) "already exists"). }
  destruct (op_Type op =? "insert").
  { intros H. apply andb_true_iff in H as [Hlen Hop]. apply negb_true_iff in Hlen.
    unfold executeInsert, answered. rewrite Hlen.
    destruct (op_Operation op =? "insertOne") eqn:E1.
    { by destruct (InsertOne _ _ _ _) as [[id|err] db']. }
    simpl in Hop. rewrite Hop.
    by destruct (InsertMany _ _ _ _) as [[ids|err] db']. }
  destruct (op_Type op =? "update").
  { intros H. apply andb_true_iff in H as [Hlen Hop]. apply negb_true_iff in Hlen.
    unfold executeUpdate, answered. rewrite Hlen.
    destruct (op_Operation op =? "updateOne") eqn:E1.
    { apply String.eqb_eq in E1. rewrite E1. cbn [String.eqb Ascii.eqb Bool.eqb].
      by destruct (UpdateOne _ _ _ _ _) as [[count|err] db']. }
    simpl in Hop. apply String.eqb_eq in Hop. rewrite Hop. cbn [String.eqb Ascii.eqb Bool.eqb].
    by destruct (UpdateMany _ _ _ _ _) as [[count|err] db']. }
  destruct (op_Type op =? "delete"); [|done].
  intros H. apply andb_true_iff in H as [Hlen Hop]. apply negb_true_iff in Hlen.
  unfold executeDelete, answered. rewrite Hlen.
  destruct (op_Operation op =? "deleteOne") eqn:E1.
  { apply String.eqb_eq in E1. rewrite E1. cbn [String.eqb Ascii.eqb Bool.eqb].
    by destruct (DeleteOne _ _ _ _) as [[count|err] db']. }
  simpl in Hop. apply String.eqb_eq in Hop. rewrite Hop. cbn [String.eqb Ascii.eqb Bool.eqb].
  by destruct (DeleteMany _ _ _ _) as [[count|err] db'].
Qed.

Lemma executor_checks_come_first_witness :
  let missing := {| op_Type := "insert"; op_Collection := "users";
                    op_Operation := "insertOne"; op_Arguments := [];
                    op_IndexSpec := None; op_IndexOptions := None;
                    op_Validator := None |} in
  let insert := {| op_Type := "insert"; op_Collection := "users";
                   op_Operation := "insertOne"; op_Arguments := [Some ∅];
                   op_IndexSpec := None; op_IndexOptions := None;
                   op_Validator := None |} in
  let create := {| op_Type := "createCollection"; op_Collection := "users";
                   op_Operation := "createCollection"; op_Arguments := [];
                   op_IndexSpec := None; op_IndexOptions := None;
                   op_Validator := None |} in
  (passes_checks missing = false
   /\ exists msg,
        executeMongoOperation (DRV:=memoryDriver) tt missing ["users"] =
        ((OutNil, Some (ExecErrorf msg)), [], ["users"]))
  /\ (passes_checks insert = true
      /\ executeMongoOperation (DRV:=memoryDriver) tt insert ["users"] =
         ((OutInsertedID 1%nat, None), [], ["users"])
      /\ executeMongoOperation (DRV:=memoryDriver) tt insert [] =
         ((OutNil, Some (OfDriver "ns not found")), [], []))
  /\ (passes_checks create = true
      /\ executeMongoOperation (DRV:=memoryDriver) tt create [] =
         ((OutString "Collection users created successfully", None), [], ["users"])
      /\ executeMongoOperation (DRV:=memoryDriver) tt create ["users"] =
         ((OutString "Collection already exists", None),
          [Log_collectionExists "users"], ["users"])).
Proof.
  intros missing insert create.
  split; [|split].
  - split; [reflexivity|].
    destruct (executor_checks_come_first (DRV:=memoryDriver) tt missing ["users"]) as [H _].
    apply H. reflexivity.
  - split; [reflexivity|]. split.
    + destruct (executor_checks_come_first (DRV:=memoryDriver) tt insert ["users"]) as [_ H].
      rewrite (H eq_refl). reflexivity.
    + destruct (executor_checks_come_first (DRV:=memoryDriver) tt insert []) as [_ H].
      rewrite (H eq_refl). reflexivity.
  - split; [reflexivity|]. split.
    + destruct (executor_checks_come_first (DRV:=memoryDriver) tt create []) as [_ H].
      rewrite (H eq_refl). reflexivity.
    + destruct (executor_checks_come_first (DRV:=memoryDriver) tt create ["users"]) as [_ H].
      rewrite (H eq_refl). reflexivity.
Defined.

(** X15. A script without statements does nothing: when every line is
    blank or a comment, [ExecuteScript] succeeds without a call of the driver
    and without a log line; its output is the message of the empty script
    when the whole text is blank, and an empty list of results otherwise. *)
Theorem ExecuteScript_without_statements `{RT : GoRuntime} `{DRV : MongoDriver}
    (ctx : Ctx) (jsContent : string) (n : nat) (db : Database) :
  Forall (fun line => is_skipped line = true) (Split jsContent LF) ->
  ExecuteScript ctx jsContent n db =
  ({| sr_Success := true;
      sr_Output := if TrimSpace jsContent =? ""
                   then OutString "Script is empty, skipped"
                   else OutResults [];
      sr_Error := None |}, [], n, db).
Proof.
  intros H. unfold ExecuteScript.
  destruct (TrimSpace jsContent) as [|c t] eqn:E; [done|].
  cbn [String.length Nat.eqb String.eqb].
  rewrite parseJavaScriptOperations_contributions.
  by rewrite (splitIntoStatements_skipped jsContent H).
Qed.

Lemma ExecuteScript_without_statements_witness :
  ExecuteScript (RT:=refRuntime) (DRV:=memoryDriver) tt
    ("// setup" +:+ chr LF +:+ "  " +:+ chr LF +:+ "// done") 0 ["users"] =
  ({| sr_Success := true; sr_Output := OutResults []; sr_Error := None |},
   [], 0%nat, ["users"]).
Proof.
  apply (ExecuteScript_without_statements (RT:=refRuntime) (DRV:=memoryDriver) tt
           ("// setup" +:+ chr LF +:+ "  " +:+ chr LF +:+ "// done") 0 ["users"]).
  repeat constructor.
Defined.

(** ** [splitIntoStatements] *)

Lemma append_nonempty_r (a b : string) : b <> "" -> a +:+ b <> "".
Proof. intros Hb. destruct a; [by rewrite append_nil_l|by rewrite append_cons]. Qed.

Lemma length_pos (s : string) : (0 <? String.length s)%nat = negb (s =? "").
Proof. by destruct s. Qed.

Lemma Forall_removelast {A : Type} (P : A -> Prop) (l : list A) :
  Forall P l -> Forall P (removelast l).
Proof.
  induction 1 as [|x l Hx Hl IH]; [constructor|].
  cbn [removelast]. destruct l; [constructor|]. by constructor.
Qed.

(** The text of the statement being read after one more kept line. *)
Lemma splitIntoStatements_step_kept (st : stmtState) (line : string) :
  is_skipped line = false ->
  exists current,
    current = (if (0 <? String.length (ss_current st))%nat
               then WriteRune (ss_current st) (code " ") else ss_current st)
              +:+ TrimSpace line
    /\ current <> ""
    /\ (ss_statements (splitIntoStatements_step st line) = ss_statements st
        /\ ss_current (splitIntoStatements_step st line) = current
        \/ ss_statements (splitIntoStatements_step st line) = ss_statements st ++ [current]
           /\ ss_current (splitIntoStatements_step st line) = ""
           /\ HasSuffix (TrimSpace line) ";" = true).
Proof.
  intros Hkept. unfold is_skipped in Hkept. unfold splitIntoStatements_step.
  rewrite Hkept. eexists. split; [reflexivity|].
  assert (Hne : TrimSpace line <> "").
  { apply orb_false_iff in Hkept as [H _]. by apply String.eqb_neq in H. }
  split; [by apply append_nonempty_r|].
  destruct (fold_left countLine_step _ _) as [[braceLevel inQuotes] quoteChar].
  destruct (HasSuffix (TrimSpace line) ";") eqn:Hsemi; cbn [andb]; [|left; by split].
  destruct ((braceLevel =? 0)%Z && negb inQuotes); [right|left]; by repeat split.
Qed.

Lemma splitIntoStatements_step_skipped (st : stmtState) (line : string) :
  is_skipped line = true -> splitIntoStatements_step st line = st.
Proof.
  intros H. unfold is_skipped in H. unfold splitIntoStatements_step. by rewrite H.
Qed.

Lemma splitIntoStatements_flushed (jsContent : string) :
  splitIntoStatements jsContent =
  flushed (fold_left splitIntoStatements_step (Split jsContent LF)
             {| ss_statements := []; ss_current := ""; ss_braceLevel := 0;
                ss_inQuotes := false; ss_quoteChar := NUL |}).
Proof. reflexivity. Qed.

Lemma splitIntoStatements_loop_ends (lines : list string) :
  forall st,
    Forall (fun s => s <> "" /\ HasSuffix s ";" = true) (ss_statements st) ->
    Forall (fun s => s <> "" /\ HasSuffix s ";" = true)
      (ss_statements (fold_left splitIntoStatements_step lines st)).
Proof.
  induction lines as [|line lines IH]; intros st H; [done|].
  cbn [fold_left]. apply IH.
  destruct (is_skipped line) eqn:Hskip.
  { by rewrite splitIntoStatements_step_skipped. }
  destruct (splitIntoStatements_step_kept st line Hskip)
    as (current & Hcur & Hne & [[-> _]|(-> & _ & Hsemi)]); [done|].
  apply Forall_app. split; [done|]. constructor; [|constructor].
  split; [done|]. rewrite Hcur. by apply HasSuffix_app.
Qed.

(** X16. Every statement that [splitIntoStatements] returns holds text, and
    every statement but the last ends with a semicolon: lines are gathered
    into one statement until a line ends with one. *)
Theorem splitIntoStatements_statements_end_with_semicolon (jsContent : string) :
  Forall (fun statement => statement <> "") (splitIntoStatements jsContent)
  /\ Forall (fun statement => HasSuffix statement ";" = true)
       (removelast (splitIntoStatements jsContent)).
Proof.
  rewrite splitIntoStatements_flushed.
  set (st := fold_left _ _ _).
  assert (H : Forall (fun s => s <> "" /\ HasSuffix s ";" = true) (ss_statements st)).
  { apply splitIntoStatements_loop_ends. constructor. }
  apply Forall_and in H as [Hne Hsemi]. unfold flushed.
  rewrite length_pos. destruct (ss_current st =? "") eqn:E; cbn [negb].
  - split; [done|by apply Forall_removelast].
  - apply String.eqb_neq in E. split.
    + apply Forall_app. split; [done|]. by repeat constructor.
    + by rewrite removelast_last.
Qed.

Lemma unwords_snoc (l : list string) (a : string) :
  unwords (l ++ [a]) =
  match l with
  | [] => a
  | _ :: _ => unwords l +:+ " " +:+ a
  end.
Proof.
  induction l as [|b l IH]; [done|].
  cbn [app unwords]. rewrite IH. destruct l as [|c l]; [done|].
  cbn [app]. by rewrite !string_app_assoc.
Qed.

Lemma unwords_snoc_app (l : list string) (a t : string) :
  unwords (l ++ [a +:+ t]) = unwords (l ++ [a]) +:+ t.
Proof.
  rewrite !unwords_snoc. destruct l; [done|]. by rewrite !string_app_assoc.
Qed.

Lemma splitIntoStatements_loop_text (lines : list string) :
  forall st kept,
    unwords (flushed st) = unwords kept ->
    (flushed st = [] <-> kept = []) ->
    let st' := fold_left splitIntoStatements_step lines st in
    let kept' :=
      kept ++ map TrimSpace (List.filter (fun line => negb (is_skipped line)) lines) in
    unwords (flushed st') = unwords kept' /\ (flushed st' = [] <-> kept' = []).
Proof.
  induction lines as [|line lines IH]; intros st kept Htext Hnil.
  { cbn. by rewrite app_nil_r. }
  cbn [fold_left List.filter].
  destruct (is_skipped line) eqn:Hskip; cbn [negb].
  { rewrite splitIntoStatements_step_skipped by done. by apply IH. }
  cbn [map]. cbv zeta.
  replace (kept ++ TrimSpace line :: map TrimSpace (List.filter _ lines))
    with ((kept ++ [TrimSpace line])
          ++ map TrimSpace (List.filter (fun line => negb (is_skipped line)) lines))
    by (by rewrite <- app_assoc).
  destruct (splitIntoStatements_step_kept st line Hskip) as (current & Hcur & Hne & Hstep).
  assert (Hflushed : flushed (splitIntoStatements_step st line) =
                     ss_statements st ++ [current]).
  { unfold flushed. destruct Hstep as [[-> ->]|(-> & -> & _)]; [|done].
    rewrite length_pos. apply String.eqb_neq in Hne. by rewrite Hne. }
  apply IH.
  - rewrite Hflushed, Hcur. unfold flushed in Htext, Hnil.
    rewrite length_pos in *. destruct (ss_current st =? "") eqn:E; cbn [negb] in *.
    + apply String.eqb_eq in E. rewrite E, append_nil_l, !unwords_snoc.
      destruct (ss_statements st) as [|s0 stmts], kept as [|k0 kept]; [done| | |].
      * destruct Hnil as [Hnil _]. by specialize (Hnil eq_refl).
      * destruct Hnil as [_ Hnil]. by specialize (Hnil eq_refl).
      * by rewrite Htext.
    + rewrite WriteRune_ascii by done. unfold WriteByte, chr.
      rewrite string_app_assoc, unwords_snoc_app, Htext.
      rewrite unwords_snoc. destruct kept as [|k0 kept]; [|done].
      destruct Hnil as [_ Hnil]. specialize (Hnil eq_refl).
      by destruct (ss_statements st).
  - rewrite Hflushed. split; intros H; [by destruct (ss_statements st)|by destruct kept].
Qed.

(** X17. [splitIntoStatements] keeps the text of the script: the statements,
    joined by single blanks, are the lines that are neither blank nor
    comments, trimmed and joined by single blanks.  No character of such a
    line is lost or moved; the lines are only grouped. *)
Theorem splitIntoStatements_keeps_text (jsContent : string) :
  unwords (splitIntoStatements jsContent) = unwords (keptLines jsContent).
Proof.
  rewrite splitIntoStatements_flushed. unfold keptLines.
  by apply (splitIntoStatements_loop_text (Split jsContent LF) _ []).
Qed.

Lemma countLine_step_same (st1 st2 : Z * bool * ascii) (c : ascii) :
  same_count st1 st2 -> same_count (countLine_step st1 c) (countLine_step st2 c).
Proof.
  destruct st1 as [[b1 i1] q1], st2 as [[b2 i2] q2].
  unfold same_count. cbn [fst snd]. intros (-> & -> & Hq).
  unfold countLine_step.
  destruct ((c =? DQ)%char || (c =? SQ)%char).
  { destruct i2; cbn [negb]; [|by repeat split].
    rewrite (Hq eq_refl). by destruct (c =? q2)%char. }
  destruct (c =? "{")%char; [by destruct i2|].
  destruct (c =? "}")%char; by destruct i2.
Qed.

Lemma countLine_same (l : list ascii) :
  forall st1 st2,
    same_count st1 st2 ->
    same_count (fold_left countLine_step l st1) (fold_left countLine_step l st2).
Proof.
  induction l as [|c l IH]; intros st1 st2 H; [done|].
  cbn [fold_left]. by apply IH, countLine_step_same.
Qed.

Lemma line_complete_count (line : string) (quoteChar : ascii) :
  line_complete line = true ->
  HasSuffix line ";" = true
  /\ exists quoteChar',
       fold_left countLine_step (chars line) (0%Z, false, quoteChar) =
       (0%Z, false, quoteChar').
Proof.
  unfold line_complete. intros H. apply andb_true_iff in H as [Hsemi H].
  split; [done|].
  assert (Hsame : same_count (0%Z, false, NUL) (0%Z, false, quoteChar)) by done.
  apply (countLine_same (chars line)) in Hsame.
  destruct (fold_left countLine_step (chars line) (0%Z, false, NUL)) as [[b i] q].
  destruct (fold_left countLine_step (chars line) (0%Z, false, quoteChar))
    as [[b' i'] q'].
  unfold same_count in Hsame. cbn [fst snd] in Hsame. destruct Hsame as (<- & <- & _).
  apply andb_true_iff in H as [Hb Hi]. apply Z.eqb_eq in Hb. apply negb_true_iff in Hi.
  subst. by exists q'.
Qed.

Lemma splitIntoStatements_loop_complete (lines : list string) :
  forall st,
    ss_current st = "" -> ss_braceLevel st = 0%Z -> ss_inQuotes st = false ->
    Forall (fun line => line_complete line = true)
      (map TrimSpace (List.filter (fun line => negb (is_skipped line)) lines)) ->
    flushed (fold_left splitIntoStatements_step lines st) =
    ss_statements st
    ++ map TrimSpace (List.filter (fun line => negb (is_skipped line)) lines).
Proof.
  induction lines as [|line lines IH]; intros st Hcur Hlevel Hquote Hall.
  { cbn. unfold flushed. by rewrite Hcur, app_nil_r. }
  cbn [fold_left List.filter] in *.
  destruct (is_skipped line) eqn:Hskip; cbn [negb] in *.
  { rewrite splitIntoStatements_step_skipped by done. by apply IH. }
  cbn [map] in *. apply Forall_cons in Hall as [Hline Hall].
  destruct (line_complete_count (TrimSpace line) (ss_quoteChar st) Hline)
    as [Hsemi [quoteChar' Hcount]].
  assert (Hstep : splitIntoStatements_step st line =
            {| ss_statements := ss_statements st ++ [TrimSpace line];
               ss_current := ""; ss_braceLevel := 0; ss_inQuotes := false;
               ss_quoteChar := quoteChar' |}).
  { unfold splitIntoStatements_step. unfold is_skipped in Hskip.
    rewrite Hskip, Hcur, Hlevel, Hquote, Hcount, Hsemi. done. }
  rewrite Hstep, IH by done. cbn [ss_statements]. by rewrite <- app_assoc.
Qed.

(** X18. A script written one statement to a line is split at its lines:
    when every line that is neither blank nor a comment ends with a
    semicolon and closes the braces and quotes that it opens, the statements
    are exactly these lines, trimmed, in order. *)
Theorem splitIntoStatements_one_statement_per_line (jsContent : string) :
  Forall (fun line => line_complete line = true) (keptLines jsContent) ->
  splitIntoStatements jsContent = keptLines jsContent.
Proof.
  intros H. rewrite splitIntoStatements_flushed.
  by rewrite splitIntoStatements_loop_complete.
Qed.

Lemma splitIntoStatements_one_statement_per_line_witness :
  splitIntoStatements
    ("db.a.insertOne({x:'}'});" +:+ chr LF +:+ "  // next" +:+ chr LF
     +:+ " db.b.deleteOne({});  ") =
  ["db.a.insertOne({x:'}'});"; "db.b.deleteOne({});"].
Proof.
  apply (splitIntoStatements_one_statement_per_line
           ("db.a.insertOne({x:'}'});" +:+ chr LF +:+ "  // next" +:+ chr LF
            +:+ " db.b.deleteOne({});  ")).
  repeat constructor.
Defined.

(** ** The block that [ParseMetadata] reads *)

Lemma ParseMetadata_loop_block (block rest : list string) :
  forall metadataLines,
    Forall (fun line => is_comment line = true) block ->
    match rest with
    | [] => True
    | next :: _ => is_comment next = false
    end ->
    ParseMetadata_loop (block ++ rest) true metadataLines =
    metadataLines ++ metadataText block.
Proof.
  induction block as [|line block IH]; intros metadataLines Hblock Hrest.
  - cbn [app]. unfold metadataText. cbn. rewrite app_nil_r.
    destruct rest as [|next rest]; [done|]. cbn [ParseMetadata_loop].
    destruct (HasPrefix (TrimSpace next) "// METADATA:") eqn:Hm.
    { apply is_marker_is_comment in Hm. congruence. }
    unfold is_comment in Hrest. by rewrite Hrest.
  - apply Forall_cons in Hblock as [Hline Hblock].
    cbn [app ParseMetadata_loop]. unfold metadataText. cbn [List.filter].
    unfold is_marker at 1. unfold is_comment in Hline.
    destruct (HasPrefix (TrimSpace line) "// METADATA:"); cbn [negb].
    { by apply IH. }
    rewrite Hline. cbn [map List.filter]. fold (metadataLine line).
    destruct (metadataLine line =? ""); cbn [negb].
    + by apply IH.
    + rewrite IH by done. unfold metadataText. by rewrite <- app_assoc.
Qed.

(** X19. [ParseMetadata] reads one block and nothing else: the comment
    lines that follow the first marker line, up to the first line that is no
    comment (a blank line ends the block).  The marker line itself, every
    line before it and every line after the block contribute nothing; of the
    lines of the block, the text after the comment sign is taken, trimmed,
    and the empty ones are left out.  The metadata is decoded from the texts
    joined without a separator. *)
Theorem ParseMetadata_reads_one_block `{RT : GoRuntime}
    (content : string) (before block rest : list string) (marker : string) (n : nat) :
  Split content LF = before ++ marker :: block ++ rest ->
  forallb (fun line => negb (is_marker line)) before = true ->
  is_marker marker = true ->
  Forall (fun line => is_comment line = true) block ->
  match rest with
  | [] => True
  | next :: _ => is_comment next = false
  end ->
  ParseMetadata_loop (Split content LF) false [] = metadataText block
  /\ ParseMetadata content n =
     match metadataText block with
     | [] => (None, [], n)
     | _ :: _ =>
         match Unmarshal_metadata (Join (metadataText block)) with
         | (_, Some err) => (None, [Warning_metadata err], n)
         | (metadata, None) => (metadata, [], n)
         end
     end.
Proof.
  intros Hlines Hbefore Hmarker Hblock Hrest.
  assert (Hloop : ParseMetadata_loop (Split content LF) false [] = metadataText block).
  { rewrite Hlines, ParseMetadata_loop_skip by done.
    cbn [ParseMetadata_loop]. unfold is_marker in Hmarker. rewrite Hmarker.
    by rewrite (ParseMetadata_loop_block block rest []). }
  split; [exact Hloop|].
  unfold ParseMetadata. cbv zeta. rewrite Hloop.
  destruct (metadataText block) as [|text texts]; [done|].
  cbn [length Nat.eqb].
  by destruct (Unmarshal_metadata (Join (text :: texts))) as [metadata [err|]].
Qed.

Lemma ParseMetadata_reads_one_block_witness :
  ParseMetadata (RT:=refRuntime)
    (jtext ("x = 1" +:+ chr LF +:+ "// METADATA: {'name': 'no'}" +:+ chr LF
            +:+ "// {'name':" +:+ chr LF +:+ "//" +:+ chr LF +:+ "//   'setup'}"
            +:+ chr LF +:+ chr LF +:+ "// {'name': 'late'}")) 0 =
  (Some {| md_Name := "setup"; md_Description := ""; md_Version := "";
           md_Author := ""; md_Dependencies := []; md_ExecutedAt := 0%Z;
           md_Status := ""; md_Error := "" |}, [], 0%nat).
Proof.
  pose proof (ParseMetadata_reads_one_block (RT:=refRuntime)
    (jtext ("x = 1" +:+ chr LF +:+ "// METADATA: {'name': 'no'}" +:+ chr LF
            +:+ "// {'name':" +:+ chr LF +:+ "//" +:+ chr LF +:+ "//   'setup'}"
            +:+ chr LF +:+ chr LF +:+ "// {'name': 'late'}"))
    ["x = 1"] [jtext "// {'name':"; "//"; jtext "//   'setup'}"]
    [""; jtext "// {'name': 'late'}"] (jtext "// METADATA: {'name': 'no'}") 0
    eq_refl eq_refl eq_refl) as H.
  destruct H as [_ H]; [by repeat constructor|reflexivity|].
  rewrite H. vm_compute. reflexivity.
Defined.

(** ** An index specification of one field, from the text to the operation *)

Lemma lacks_app (x : ascii) (a b : string) :
  lacks x (a +:+ b) = lacks x a && lacks x b.
Proof. unfold lacks. by rewrite chars_app, forallb_app. Qed.

Lemma lacks_one (x c : ascii) : lacks x (String c "") = negb (x =? c)%char.
Proof.
  unfold lacks. cbn [chars list_ascii_of_string forallb].
  by rewrite andb_true_r, Ascii.eqb_sym.
Qed.

Lemma forallb_lacks (p : ascii -> bool) (x : ascii) (s : string) :
  p x = false -> forallb p (chars s) = true -> lacks x s = true.
Proof.
  intros Hx. unfold lacks. induction s as [|c s IH]; [done|]. simpl.
  intros H. apply andb_true_iff in H as [Hc Hs]. rewrite (IH Hs), andb_true_r.
  apply negb_true_iff, Ascii.eqb_neq. intros ->. congruence.
Qed.

Lemma is_word_keyChars (w : string) :
  is_word w = true -> forallb isKeyChar (chars w) = true.
Proof.
  destruct w as [|c k]; [done|]. simpl. intros H.
  apply andb_true_iff in H as [Hc Hk]. by rewrite (isAlphaStart_isKeyChar c Hc).
Qed.

Lemma single_field_lacks (x : ascii) (b1 key b2 b3 direction b4 : string) :
  isKeyChar x = false -> isBlank x = false ->
  (x =? "{")%char = false -> (x =? "}")%char = false -> (x =? ":")%char = false ->
  lacks x direction = true ->
  is_word key = true -> all_blank b1 = true -> all_blank b2 = true ->
  all_blank b3 = true -> all_blank b4 = true ->
  lacks x (single_field b1 key b2 b3 direction b4) = true.
Proof.
  intros Hk Hb Ho Hc Hcolon Hd Hkey H1 H2 H3 H4. unfold single_field.
  rewrite !lacks_app, Hd.
  rewrite (forallb_lacks isBlank x b1 Hb H1), (forallb_lacks isBlank x b2 Hb H2),
    (forallb_lacks isBlank x b3 Hb H3), (forallb_lacks isBlank x b4 Hb H4),
    (forallb_lacks isKeyChar x key Hk (is_word_keyChars key Hkey)).
  by rewrite !lacks_one, Ho, Hc, Hcolon.
Qed.

Lemma lacks_no_trailing_comma (s : string) :
  lacks "," s = true -> no_trailing_comma (chars s) = true.
Proof.
  intros H. unfold no_trailing_comma. apply forallb_forall. intros i _.
  unfold trailing_comma_at. destruct (chars s !! i) as [c|] eqn:E; [|done].
  unfold lacks in H. rewrite forallb_forall in H.
  assert (Hc : negb (c =? ",")%char = true).
  { apply H. apply list_elem_of_In. by apply list_elem_of_lookup_2 in E. }
  apply negb_true_iff in Hc. by rewrite Hc.
Qed.

Lemma blanks_from (b rest : string) :
  all_blank b = true ->
  addQuotesToKeys_from false (b +:+ rest) = b +:+ addQuotesToKeys_from false rest.
Proof.
  intros H. induction b as [|c b IH]; [by rewrite !append_nil_l|].
  unfold all_blank in H. simpl in H. apply andb_true_iff in H as [Hc Hb].
  rewrite !append_cons.
  assert (Hplain : (c =? DQ)%char = false /\ isAlphaStart c = false
                   /\ stringOfByte c = chr c).
  { clear -Hc. destruct c as [[] [] [] [] [] [] [] []]; try done; by vm_compute. }
  destruct Hplain as (Hq & Ha & Hs).
  rewrite (addQuotesToKeys_from_other c _ Hq Ha), Hs, (IH Hb). done.
Qed.

Lemma addQuotesToKeys_single_field (b1 key b2 b3 direction b4 : string) :
  is_word key = true -> all_blank b1 = true -> all_blank b2 = true ->
  all_blank b3 = true -> all_blank b4 = true ->
  direction = "1" \/ direction = "-1" ->
  addQuotesToKeys (single_field b1 key b2 b3 direction b4) =
  "{" +:+ b1 +:+ String DQ (key +:+ String DQ (":" +:+ b3 +:+ direction +:+ b4 +:+ "}")).
Proof.
  intros Hkey H1 H2 H3 H4 Hd. unfold single_field.
  change (addQuotesToKeys ?s) with (addQuotesToKeys_from false s).
  rewrite append_cons, append_nil_l.
  rewrite (addQuotesToKeys_from_other "{" _ eq_refl eq_refl).
  rewrite (blanks_from b1 _ H1).
  change (":" +:+ b3 +:+ direction +:+ b4 +:+ "}")
    with (String ":" (b3 +:+ direction +:+ b4 +:+ "}")).
  rewrite (addQuotesToKeys_word key b2 (String ":" (b3 +:+ direction +:+ b4 +:+ "}"))
             Hkey H2 eq_refl).
  cbn [starts_with_colon Ascii.eqb Bool.eqb]. cbv iota.
  rewrite (addQuotesToKeys_from_other ":" _ eq_refl eq_refl).
  rewrite (blanks_from b3 _ H3).
  assert (Htail : addQuotesToKeys_from false (direction +:+ b4 +:+ "}") =
                  direction +:+ b4 +:+ "}").
  { assert (Hclose : addQuotesToKeys_from false (b4 +:+ "}") = b4 +:+ "}").
    { by rewrite (blanks_from b4 "}" H4). }
    destruct Hd as [-> | ->]; rewrite !append_cons, append_nil_l.
    - by rewrite (addQuotesToKeys_from_other "1" _ eq_refl eq_refl), Hclose.
    - rewrite (addQuotesToKeys_from_other "-" _ eq_refl eq_refl).
      by rewrite (addQuotesToKeys_from_other "1" _ eq_refl eq_refl), Hclose. }
  rewrite Htail. change (stringOfByte "{") with "{". change (stringOfByte ":") with ":".
  unfold chr. by rewrite !append_cons, !append_nil_l, !string_app_assoc, !append_cons, !append_nil_l.
Qed.

Lemma readValue_S (f : nat) (d : Z) (s : string) :
  readValue (S f) d s =
  match skipSpace s with
  | "" => None
  | String c r =>
      if (c =? "{")%char then
        if (maxNestingDepth <? d + 1)%Z then None
        else
          match eat "}" (skipSpace r) with
          | Some r' => Some (JObject [], r')
          | None =>
              match readMembers f (d + 1)%Z r with
              | Some (ms, rest) => Some (JObject ms, rest)
              | None => None
              end
          end
      else if (c =? "[")%char then
        if (maxNestingDepth <? d + 1)%Z then None
        else
          match eat "]" (skipSpace r) with
          | Some r' => Some (JArray [], r')
          | None =>
              match readElements f (d + 1)%Z r with
              | Some (vs, rest) => Some (JArray vs, rest)
              | None => None
              end
          end
      else if (c =? DQ)%char then
        match readString r with
        | Some (us, rest) => Some (JString (decodeUnits us), rest)
        | None => None
        end
      else if String.prefix "true" (String c r) then
        Some (JBool true, sliceFrom (String c r) 4)
      else if String.prefix "false" (String c r) then
        Some (JBool false, sliceFrom (String c r) 5)
      else if String.prefix "null" (String c r) then
        Some (JNull, sliceFrom (String c r) 4)
      else
        match readNumber (String c r) with
        | Some (literal, rest) => Some (JNumber literal, rest)
        | None => None
        end
  end.
Proof. reflexivity. Qed.

Lemma isKeyChar_in_string (c : ascii) :
  isKeyChar c = true ->
  (c =? DQ)%char = false /\ (c =? "\")%char = false /\ (nat_of_ascii c <? 32)%nat = false.
Proof. by destruct c as [[] [] [] [] [] [] [] []]. Qed.

Lemma readString_word (w rest : string) :
  forallb isKeyChar (chars w) = true ->
  readString (w +:+ String DQ rest) = Some (map UChar (chars w), rest).
Proof.
  induction w as [|c w IH]; intros H.
  - rewrite append_nil_l. cbn [readString]. by rewrite Ascii.eqb_refl.
  - simpl in H. apply andb_true_iff in H as [Hc Hw].
    destruct (isKeyChar_in_string c Hc) as (E1 & E2 & E3).
    rewrite append_cons. cbn [readString]. rewrite E1, E2, E3, (IH Hw). done.
Qed.

Lemma decodeUnits_chars (s : string) : decodeUnits (map UChar (chars s)) = s.
Proof. induction s as [|c s IH]; [done|]. cbn. f_equal. exact IH. Qed.

Lemma isBlank_isJSONSpace (c : ascii) : isBlank c = true -> isJSONSpace c = true.
Proof. by destruct c as [[] [] [] [] [] [] [] []]. Qed.

Lemma skipSpace_blanks (b rest : string) :
  all_blank b = true ->
  match rest with String d _ => isJSONSpace d = false | "" => True end ->
  skipSpace (b +:+ rest) = rest.
Proof.
  intros Hb Hrest. unfold skipSpace.
  apply (takeWhile_app isJSONSpace b rest); [|done].
  unfold all_blank in Hb. apply forallb_forall. intros c Hc.
  rewrite forallb_forall in Hb. by apply isBlank_isJSONSpace, Hb.
Qed.

Lemma readNumber_direction (direction t : string) :
  direction = "1" \/ direction = "-1" ->
  match t with String c _ => isBlank c || (c =? "}")%char | "" => false end = true ->
  readNumber (direction +:+ t) = Some (direction, t).
Proof.
  intros Hd Ht. destruct t as [|c t]; [done|].
  assert (Hc : c = " "%char \/ c = TAB \/ c = "}"%char).
  { clear -Ht. destruct c as [[] [] [] [] [] [] [] []]; try done; auto. }
  destruct Hd as [-> | ->], Hc as [-> |[-> | ->]]; by vm_compute.
Qed.

Lemma after_blanks_closing (b4 : string) :
  all_blank b4 = true ->
  match b4 +:+ "}" with String c _ => isBlank c || (c =? "}")%char | "" => false end = true.
Proof.
  intros H. destruct b4 as [|c b4]; [done|]. rewrite append_cons.
  unfold all_blank in H. simpl in H. apply andb_true_iff in H as [-> _]. done.
Qed.

Lemma readValue_direction (f : nat) (d : Z) (b direction t : string) :
  all_blank b = true -> direction = "1" \/ direction = "-1" ->
  match t with String c _ => isBlank c || (c =? "}")%char | "" => false end = true ->
  readValue (S f) d (b +:+ direction +:+ t) = Some (JNumber direction, t).
Proof.
  intros Hb Hd Ht.
  assert (Hskip : skipSpace (b +:+ direction +:+ t) = direction +:+ t).
  { apply (skipSpace_blanks b (direction +:+ t) Hb). by destruct Hd as [-> | ->]. }
  rewrite readValue_S, Hskip.
  pose proof (readNumber_direction direction t Hd Ht) as Hn.
  destruct t as [|c t]; [done|].
  assert (Hc : c = " "%char \/ c = TAB \/ c = "}"%char).
  { clear -Ht. destruct c as [[] [] [] [] [] [] [] []]; try done; auto. }
  destruct Hd as [-> | ->], Hc as [-> |[-> | ->]]; by vm_compute.
Qed.

(** The normalised text of the literal is the JSON object of one member. *)
Lemma parse_single_field (b1 key b3 direction b4 : string) :
  is_word key = true -> all_blank b1 = true -> all_blank b3 = true ->
  all_blank b4 = true -> direction = "1" \/ direction = "-1" ->
  parse ("{" +:+ b1 +:+ String DQ (key +:+ String DQ (":" +:+ b3 +:+ direction +:+ b4 +:+ "}")))
  = Some (JObject [(key, JNumber direction)]).
Proof.
  intros Hkey H1 H3 H4 Hd.
  set (text := "{" +:+ b1 +:+ String DQ _).
  assert (Hread : readValue 3 0 text = Some (JObject [(key, JNumber direction)], "")).
  { unfold text.
    change ("{" +:+ b1 +:+ String DQ (key +:+ String DQ (":" +:+ b3 +:+ direction +:+ b4 +:+ "}")))
      with (String "{" (b1 +:+ String DQ (key +:+ String DQ
              (String ":" (b3 +:+ direction +:+ b4 +:+ "}"))))).
    rewrite readValue_S.
    change (skipSpace (String "{" ?r)) with (String "{" r).
    cbn [Ascii.eqb Bool.eqb]. cbv iota.
    change (maxNestingDepth <? 0 + 1)%Z with false. cbv iota.
    rewrite (skipSpace_blanks b1 (String DQ _) H1 eq_refl).
    cbn [eat]. change (DQ =? "}")%char with false. cbv iota.
    rewrite readMembers_S, (skipSpace_blanks b1 (String DQ _) H1 eq_refl).
    cbn [eat]. change (DQ =? DQ)%char with true. cbv iota.
    rewrite (readString_word key _ (is_word_keyChars key Hkey)).
    change (skipSpace (String ":" ?r)) with (String ":" r).
    cbn [eat Ascii.eqb Bool.eqb]. cbv iota.
    pose proof (after_blanks_closing b4 H4) as Hclose.
    rewrite (readValue_direction 0 (0 + 1) b3 direction (b4 +:+ "}") H3 Hd Hclose).
    rewrite (skipSpace_blanks b4 "}" H4 eq_refl).
    cbn [eat Ascii.eqb Bool.eqb]. cbv iota.
    by rewrite decodeUnits_chars. }
  unfold parse. by rewrite (readValue_fuel 3 text _ "" Hread).
Qed.

Lemma Contains_char (x : ascii) (s : string) :
  Contains s (String x "") = negb (lacks x s).
Proof.
  induction s as [|c s IH]; [done|].
  change (Contains (String c s) (String x ""))
    with (String.prefix (String x "") (String c s) || Contains s (String x "")).
  rewrite IH. unfold lacks. cbn [chars list_ascii_of_string forallb String.prefix].
  destruct (ascii_dec x c) as [->|Hne].
  - by rewrite prefix_nil, Ascii.eqb_refl.
  - apply not_eq_sym, Ascii.eqb_neq in Hne. by rewrite Hne.
Qed.

Lemma splitBytes_loop_no_comma (s : string) :
  forall st,
    lacks "," s = true ->
    sb_args (splitBytes_loop s st) = sb_args st
    /\ sb_current (splitBytes_loop s st) = sb_current st +:+ s.
Proof.
  induction s as [|c s IH]; intros st H.
  - simpl. by rewrite string_app_nil_r.
  - unfold lacks in H. simpl in H. apply andb_true_iff in H as [Hc Hs].
    apply negb_true_iff in Hc. cbn [splitBytes_loop].
    destruct (IH (splitBytes_step st c) Hs) as [-> ->].
    assert (Hstep : sb_args (splitBytes_step st c) = sb_args st
                    /\ sb_current (splitBytes_step st c) = WriteByte (sb_current st) c).
    { unfold splitBytes_step. rewrite Hc.
      destruct ((c =? DQ)%char || (c =? SQ)%char).
      { by destruct (negb (sb_inQuotes st)), (c =? sb_quoteChar st)%char. }
      destruct (c =? "{")%char; [done|]. by destruct (c =? "}")%char. }
    destruct Hstep as [-> ->]. unfold WriteByte, chr. by rewrite string_app_assoc.
Qed.

(** A text without a comma, read as it is, is one argument. *)
Lemma splitArguments_no_comma (s : string) :
  rangeText s = s -> s <> "" -> lacks "," s = true -> splitArguments s = [TrimSpace s].
Proof.
  intros Hs Hne H. rewrite splitArguments_bytes, Hs. unfold splitBytes.
  destruct (splitBytes_loop_no_comma s
              {| sb_args := []; sb_current := ""; sb_braceLevel := 0;
                 sb_inQuotes := false; sb_quoteChar := NUL |} H) as [-> ->].
  cbn [sb_args sb_current]. rewrite append_nil_l.
  by destruct s.
Qed.

Lemma lacks_balanced_parens (s : string) :
  lacks "(" s = true -> lacks ")" s = true -> balanced_parens s = true.
Proof.
  unfold balanced_parens, lacks.
  assert (G : forall d,
            forallb (fun c => negb (c =? "(")%char) (chars s) = true ->
            forallb (fun c => negb (c =? ")")%char) (chars s) = true ->
            parens_closed (chars s) d = (d =? 0)%Z).
  { induction s as [|c s IH]; intros d Ho Hc; [done|]. simpl in *.
    apply andb_true_iff in Ho as [Ho1 Ho]. apply andb_true_iff in Hc as [Hc1 Hc].
    apply negb_true_iff in Ho1, Hc1. rewrite Ho1, Hc1. by apply IH. }
  intros Ho Hc. by rewrite G.
Qed.

Lemma mapRange_singleton `{RT : GoRuntime} (n : nat) (k : string) (v : value) :
  mapRange n (<[k := v]> ∅) = [(k, v)].
Proof.
  pose proof (mapRange_perm n (<[k := v]> ∅)) as H.
  rewrite insert_empty, map_to_list_singleton in H.
  by apply Permutation_singleton_r in H.
Qed.

Lemma is_ascii_app (s t : string) :
  is_ascii (chars s) = true -> is_ascii (chars t) = true ->
  is_ascii (chars (s +:+ t)) = true.
Proof. intros Hs Ht. unfold is_ascii in *. by rewrite chars_app, forallb_app, Hs, Ht. Qed.

Lemma isKeyChar_ascii (c : ascii) : isKeyChar c = true -> (nat_of_ascii c <? 128)%nat = true.
Proof. destruct c as [[] [] [] [] [] [] [] []]; vm_compute; congruence. Qed.

Lemma isBlank_ascii (c : ascii) : isBlank c = true -> (nat_of_ascii c <? 128)%nat = true.
Proof. destruct c as [[] [] [] [] [] [] [] []]; vm_compute; congruence. Qed.

(** The literal of one field is ASCII, so a [range] loop reads it as it is. *)
Lemma single_field_ascii (b1 key b2 b3 direction b4 : string) :
  is_word key = true -> all_blank b1 = true -> all_blank b2 = true ->
  all_blank b3 = true -> all_blank b4 = true ->
  direction = "1" \/ direction = "-1" ->
  is_ascii (chars (single_field b1 key b2 b3 direction b4)) = true.
Proof.
  intros Hkey H1 H2 H3 H4 Hd.
  assert (Hb : forall b, all_blank b = true -> is_ascii (chars b) = true).
  { intros b H. by apply (is_ascii_forallb isBlank), H; apply isBlank_ascii. }
  assert (Hk : is_ascii (chars key) = true).
  { apply (is_ascii_forallb isKeyChar); [apply isKeyChar_ascii|].
    by apply is_word_keyChars. }
  assert (Hdir : is_ascii (chars direction) = true) by (by destruct Hd as [-> | ->]).
  unfold single_field. repeat (apply is_ascii_app; [by auto|]). done.
Qed.

Lemma single_field_trimmed (b1 key b2 b3 direction b4 : string) :
  TrimSpace (single_field b1 key b2 b3 direction b4) =
  single_field b1 key b2 b3 direction b4.
Proof.
  assert (E : single_field b1 key b2 b3 direction b4 =
              String "{" ((b1 +:+ key +:+ b2 +:+ ":" +:+ b3 +:+ direction +:+ b4)
                          +:+ String "}" "")).
  { unfold single_field. by rewrite !string_app_assoc. }
  rewrite E. by apply TrimSpace_unchanged.
Qed.

Section SingleField.

Context `{RT : GoRuntime}.

Lemma parseJSONLikeString_single_field (b1 key b2 b3 direction b4 : string) (f : float64) :
  is_word key = true -> all_blank b1 = true -> all_blank b2 = true ->
  all_blank b3 = true -> all_blank b4 = true ->
  direction = "1" \/ direction = "-1" ->
  ParseFloat direction = Some f ->
  parseJSONLikeString (single_field b1 key b2 b3 direction b4) =
  (Some (<[key := VFloat64 f]> ∅), None).
Proof.
  intros Hkey H1 H2 H3 H4 Hd Hf.
  assert (Hlacks : forall x,
            isKeyChar x = false -> isBlank x = false ->
            (x =? "{")%char = false -> (x =? "}")%char = false ->
            (x =? ":")%char = false -> (x =? "1")%char = false ->
            (x =? "-")%char = false ->
            lacks x (single_field b1 key b2 b3 direction b4) = true).
  { intros x Hk Hb Ho Hc Hcolon Hone Hminus. apply single_field_lacks; try done.
    destruct Hd as [-> | ->]; unfold lacks; cbn [chars list_ascii_of_string forallb];
      by rewrite 1?(Ascii.eqb_sym "-" x), ?Hminus, (Ascii.eqb_sym "1" x), Hone. }
  unfold parseJSONLikeString. rewrite single_field_trimmed.
  assert (Hne : (single_field b1 key b2 b3 direction b4 =? "") = false) by done.
  rewrite Hne. unfold normalizeJavaScriptObject.
  rewrite (ReplaceAll_absent _ SQ DQ) by (by apply Hlacks).
  rewrite removeTrailingCommas_absent;
    [|by apply is_ascii_rangeText, single_field_ascii
     |by apply lacks_no_trailing_comma, Hlacks].
  assert (Hbrace : Contains (single_field b1 key b2 b3 direction b4) "{" = true).
  { by rewrite Contains_char. }
  assert (Hcolon : Contains (single_field b1 key b2 b3 direction b4) ":" = true).
  { rewrite Contains_char. unfold single_field. rewrite !lacks_app, !lacks_one.
    cbn [Ascii.eqb Bool.eqb negb andb]. by rewrite !andb_false_r. }
  rewrite Hbrace, Hcolon. cbn [andb].
  rewrite (addQuotesToKeys_single_field b1 key b2 b3 direction b4) by done.
  unfold Unmarshal_map. rewrite (parse_single_field b1 key b3 direction b4) by done.
  cbn [toValue]. by rewrite Hf.
Qed.

End SingleField.

(** X20. An index on one field, from the text to the operation.  For a
    bare key and the direction [1] or [-1], with blanks and tabs wherever the
    literal may have them, the statement
    [db.<collection>.createIndex({ <key> : <direction> });] gives the
    operation whose index specification is the one pair of the key and the
    direction as an [int]; nothing is logged, and one map loop is run.  The
    runtime is asked only to read the texts [1] and [-1] as the floats they
    are. *)
Theorem createIndex_single_field `{RT : GoRuntime}
    (collection b1 key b2 b3 b4 : string) (direction : Z) (n : nat) :
  ParseFloat "1" = Some (ofInt 1) -> ParseFloat "-1" = Some (ofInt (-1)) ->
  lacks "." collection = true ->
  HasPrefix collection "createCollection(" = false ->
  is_word key = true -> all_blank b1 = true -> all_blank b2 = true ->
  all_blank b3 = true -> all_blank b4 = true ->
  direction = 1%Z \/ direction = (-1)%Z ->
  parseMongoStatement
    (call_text collection "createIndex"
       (single_field b1 key b2 b3 (direction_text direction) b4) ";") n =
  ((Some {| op_Type := "createIndex"; op_Collection := collection;
            op_Operation := "createIndex"; op_Arguments := [];
            op_IndexSpec := Some [(key, VInt direction)];
            op_IndexOptions := None; op_Validator := None |}, None), [], S n).
Proof.
  intros Hone Hminus Hc Hcc Hkey H1 H2 H3 H4 Hd.
  set (text := direction_text direction).
  assert (Htext : text = "1" \/ text = "-1").
  { unfold text, direction_text. destruct Hd as [-> | ->]; auto. }
  assert (Hfloat : ParseFloat text = Some (ofInt direction)).
  { unfold text, direction_text. by destruct Hd as [-> | ->]. }
  assert (Hnumber : convertToNumber (VFloat64 (ofInt direction)) = (VInt direction, None)).
  { destruct Hd as [-> | ->]; by vm_compute. }
  set (argsString := single_field b1 key b2 b3 text b4).
  assert (Hlacks : forall x,
            isKeyChar x = false -> isBlank x = false ->
            (x =? "{")%char = false -> (x =? "}")%char = false ->
            (x =? ":")%char = false -> (x =? "1")%char = false ->
            (x =? "-")%char = false ->
            lacks x argsString = true).
  { intros x Hk Hb Ho Hcl Hcolon Hx1 Hxm. apply single_field_lacks; try done.
    destruct Htext as [-> | ->]; unfold lacks; cbn [chars list_ascii_of_string forallb];
      by rewrite 1?(Ascii.eqb_sym "-" x), ?Hxm, (Ascii.eqb_sym "1" x), Hx1. }
  assert (Hbal : balanced_parens argsString = true).
  { by apply lacks_balanced_parens; apply Hlacks. }
  rewrite (parseMongoStatement_call_text collection "createIndex" argsString Hc Hcc
             eq_refl Hbal).
  cbn [String.eqb Ascii.eqb Bool.eqb]. cbv iota.
  unfold parseCreateIndex.
  rewrite (splitArguments_no_comma argsString);
    [|by apply is_ascii_rangeText, single_field_ascii|done|by apply Hlacks].
  unfold argsString. rewrite !single_field_trimmed.
  rewrite (parseJSONLikeString_single_field b1 key b2 b3 text b4 (ofInt direction))
    by done.
  unfold bind, rangeMap, ret. rewrite mapRange_singleton.
  cbn [fold_left]. unfold indexSpec_step. by rewrite Hnumber.
Qed.

Lemma createIndex_single_field_witness :
  parseMongoStatement (RT:=refRuntime)
    (call_text "users" "createIndex" (single_field " " "email" "" " " "-1" " ") ";") 0 =
  ((Some {| op_Type := "createIndex"; op_Collection := "users";
            op_Operation := "createIndex"; op_Arguments := [];
            op_IndexSpec := Some [("email", VInt (-1))];
            op_IndexOptions := None; op_Validator := None |}, None), [], 1%nat).
Proof.
  apply (createIndex_single_field (RT:=refRuntime) "users" " " "email" "" " " " " (-1) 0);
    try reflexivity.
  by right.
Defined.

(** ** A call without a semicolon *)

Lemma Split_cons (c sep : ascii) (s : string) :
  Split (String c s) sep =
  if (c =? sep)%char then "" :: Split s sep
  else match Split s sep with
       | l :: ls => String c l :: ls
       | [] => [chr c]
       end.
Proof. reflexivity. Qed.

Lemma Split_lacks (sep : ascii) (s : string) : lacks sep s = true -> Split s sep = [s].
Proof.
  induction s as [|c s IH]; [done|]. unfold lacks. simpl. intros H.
  apply andb_true_iff in H as [Hc Hs]. apply negb_true_iff in Hc.
  by rewrite Hc, (IH Hs).
Qed.

Lemma Split_app (sep : ascii) (a b : string) :
  lacks sep a = true -> Split (a +:+ String sep b) sep = a :: Split b sep.
Proof.
  induction a as [|c a IH]; intros H.
  - rewrite append_nil_l, Split_cons. by rewrite Ascii.eqb_refl.
  - unfold lacks in H. simpl in H. apply andb_true_iff in H as [Hc Ha].
    apply negb_true_iff in Hc. rewrite append_cons, Split_cons, Hc. by rewrite (IH Ha).
Qed.

Lemma HasSuffix_app_last_other (s : string) (c d : ascii) :
  c <> d -> HasSuffix (s +:+ String c "") (String d "") = false.
Proof.
  intros Hne. induction s as [|e s IH].
  - rewrite append_nil_l. cbn. apply Ascii.eqb_neq in Hne. by rewrite Hne.
  - rewrite append_cons, HasSuffix_cons, IH, orb_false_r.
    destruct s; rewrite ?append_cons, ?append_nil_l; cbn [String.eqb];
      by destruct (e =? d)%char.
Qed.

Lemma substring_app_through (a b : string) (n : nat) :
  (String.length a <= n)%nat ->
  String.substring 0 n (a +:+ b) = a +:+ String.substring 0 (n - String.length a) b.
Proof.
  revert n. induction a as [|c a IH]; intros n Hn.
  - rewrite !append_nil_l. by rewrite Nat.sub_0_r.
  - destruct n as [|n]; [simpl in Hn; lia|].
    rewrite !append_cons. cbn [String.substring String.length Nat.sub].
    rewrite IH by (simpl in Hn; lia). done.
Qed.

Lemma TrimSuffix_app (a b suffix : string) :
  (String.length suffix <= String.length b)%nat ->
  exists b', TrimSuffix (a +:+ b) suffix = a +:+ b'.
Proof.
  intros H. unfold TrimSuffix. destruct (HasSuffix (a +:+ b) suffix); [|by exists b].
  rewrite substring_app_through by (rewrite length_append; lia). by eexists.
Qed.

Lemma dropWhileEnd_app_kept (p : ascii -> bool) (a t : string) :
  t <> "" -> dropWhileEnd p t = t -> dropWhileEnd p (a +:+ t) = a +:+ t.
Proof.
  intros Hne Ht. induction a as [|c a IH]; [by rewrite !append_nil_l|].
  rewrite append_cons. cbn [dropWhileEnd]. rewrite IH.
  destruct (a +:+ t) eqn:E; [|by rewrite andb_false_r].
  destruct a; [by rewrite append_nil_l in E|by rewrite append_cons in E].
Qed.

Lemma TrimSpace_nonempty_end (s : string) :
  dropWhileEnd isSpace (TrimSpace s) = TrimSpace s.
Proof. unfold TrimSpace, TrimFunc. apply dropWhileEnd_idem. Qed.

Lemma flushed_step_kept (st : stmtState) (line : string) :
  is_skipped line = false ->
  flushed (splitIntoStatements_step st line) =
  ss_statements st
  ++ [(if (0 <? String.length (ss_current st))%nat
       then WriteRune (ss_current st) (code " ") else ss_current st) +:+ TrimSpace line].
Proof.
  intros Hskip.
  destruct (splitIntoStatements_step_kept st line Hskip) as (current & Hcur & Hne & Hstep).
  rewrite <- Hcur. unfold flushed. destruct Hstep as [[-> ->]|(-> & -> & _)]; [|done].
  rewrite length_pos. apply String.eqb_neq in Hne. by rewrite Hne.
Qed.

Section Unterminated.

Context `{RT : GoRuntime}.

Variables collection operation argsString : string.

Hypothesis Hcollection : lacks "." collection = true.
Hypothesis Hcreate : HasPrefix collection "createCollection(" = false.
Hypothesis Hoperation : lacks "(" operation = true.
Hypothesis Hargs : balanced_parens argsString = true.

Lemma call_text_app (tail extra : string) :
  call_text collection operation argsString tail +:+ extra =
  call_text collection operation argsString (tail +:+ extra).
Proof. unfold call_text. by rewrite !string_app_assoc. Qed.

Lemma call_text_head (tail : string) :
  exists body,
    call_text collection operation argsString tail = String "d" body
    /\ call_text collection operation argsString "" =
       String "d" ("b." +:+ collection +:+ "." +:+ operation +:+ "(" +:+ argsString)
       +:+ String ")" "".
Proof.
  eexists. split; [reflexivity|]. unfold call_text.
  by repeat first [rewrite append_cons | rewrite append_nil_l | rewrite string_app_assoc].
Qed.

(** A statement that begins with the call is read as the call. *)
Lemma call_of_prefix (statement tail : string) :
  TrimSuffix (TrimSpace statement) ";" = call_text collection operation argsString tail ->
  call_of statement collection operation argsString.
Proof.
  intros H. unfold call_of. rewrite H.
  split; [by apply call_text_not_createCollection|by apply extractCall_call_text].
Qed.

Lemma call_of_unterminated :
  call_of (call_text collection operation argsString "") collection operation argsString.
Proof.
  apply (call_of_prefix _ "").
  destruct (call_text_head "") as (body & _ & E).
  assert (Htrim : TrimSpace (call_text collection operation argsString "") =
                  call_text collection operation argsString "").
  { rewrite E, append_cons. by apply TrimSpace_unchanged. }
  rewrite Htrim. unfold TrimSuffix.
  assert (Hsemi : HasSuffix (call_text collection operation argsString "") ";" = false).
  { rewrite E. by apply HasSuffix_app_last_other. }
  by rewrite Hsemi.
Qed.

Lemma call_of_swallowed (line : string) :
  is_skipped line = false ->
  call_of (call_text collection operation argsString "" +:+ " " +:+ TrimSpace line)
    collection operation argsString.
Proof.
  intros Hskip.
  assert (Hne : TrimSpace line <> "").
  { unfold is_skipped in Hskip. apply orb_false_iff in Hskip as [H _].
    by apply String.eqb_neq in H. }
  set (statement := call_text collection operation argsString "" +:+ " " +:+ TrimSpace line).
  assert (Htrim : TrimSpace statement = statement).
  { unfold statement. destruct (call_text_head "") as (body & -> & _).
    rewrite append_cons. unfold TrimSpace at 1, TrimFunc. cbn [dropWhile].
    change (isSpace "d") with false. cbv iota. rewrite <- append_cons.
    rewrite <- string_app_assoc. apply dropWhileEnd_app_kept; [done|].
    apply TrimSpace_nonempty_end. }
  destruct (TrimSuffix_app (call_text collection operation argsString "")
              (" " +:+ TrimSpace line) ";") as [tail Htail].
  { rewrite append_cons. cbn. lia. }
  apply (call_of_prefix _ ("" +:+ tail)). rewrite Htrim. fold statement in Htail.
  by rewrite Htail, call_text_app.
Qed.

Lemma step_call_operations (statement : string) (n : nat) :
  call_of statement collection operation argsString ->
  fst (fst (parseJavaScriptOperations_step [] statement n)) =
  match fst (fst (parseMongoStatement
                    (call_text collection operation argsString ";") n)) with
  | (Some op, None) => [op]
  | _ => []
  end.
Proof.
  intros Hcall.
  pose proof (call_of_reaches_parser _ _ _ _ Hcall) as Hreach.
  unfold reaches_parser in Hreach. apply andb_true_iff in Hreach as [Hskip Hgate].
  apply negb_true_iff in Hskip.
  unfold parseJavaScriptOperations_step. rewrite Hskip, Hgate. unfold bind.
  rewrite (parseMongoStatement_dispatch _ _ _ _ Hcall).
  rewrite (parseMongoStatement_call_text collection operation argsString
             Hcollection Hcreate Hoperation Hargs).
  match goal with |- context [?m n] => destruct (m n) as [[[[op|] [err|]] log] n'] end;
    done.
Qed.

End Unterminated.

Lemma single_statement_operations `{RT : GoRuntime} (jsContent statement : string) (n : nat) :
  splitIntoStatements jsContent = [statement] ->
  fst (result_of (parseJavaScriptOperations jsContent n)) =
  fst (fst (parseJavaScriptOperations_step [] statement n)).
Proof.
  intros H. rewrite parseJavaScriptOperations_contributions, H. cbn [contributions].
  destruct (parseJavaScriptOperations_step [] statement n) as [[ops log] n'].
  unfold result_of. cbn. by rewrite app_nil_r.
Qed.

Lemma call_text_lacks (x : ascii) (collection operation argsString tail : string) :
  lacks x "db.()" = true ->
  lacks x collection = true -> lacks x operation = true ->
  lacks x argsString = true -> lacks x tail = true ->
  lacks x (call_text collection operation argsString tail) = true.
Proof.
  intros Hx Hc Ho Ha Ht. unfold call_text. rewrite !lacks_app, Hc, Ho, Ha, Ht.
  rewrite !lacks_one. unfold lacks in Hx. cbn [chars list_ascii_of_string forallb] in *.
  rewrite !(Ascii.eqb_sym x).
  repeat (apply andb_true_iff in Hx as [? Hx]). by repeat (apply andb_true_iff; split).
Qed.

(** X21. A call without a semicolon swallows the next line.  When the
    line after a call that does not end with a semicolon is no comment, the
    two lines are one statement, the call extractor stops at the closing
    parenthesis of the first call, and the rest is ignored: the script gives
    the operations of the first call alone, whatever the second line holds,
    another call included. *)
Theorem unterminated_call_swallows_next_line `{RT : GoRuntime}
    (collection operation argsString line : string) (n : nat) :
  lacks "." collection = true ->
  HasPrefix collection "createCollection(" = false ->
  lacks "(" operation = true ->
  balanced_parens argsString = true ->
  lacks LF collection = true -> lacks LF operation = true ->
  lacks LF argsString = true -> lacks LF line = true ->
  fst (result_of (parseJavaScriptOperations
                    (call_text collection operation argsString "" +:+ String LF line) n)) =
  fst (result_of (parseJavaScriptOperations
                    (call_text collection operation argsString ";") n)).
Proof.
  intros Hc Hcc Ho Ha Lc Lo La Ll.
  set (firstLine := call_text collection operation argsString "").
  set (whole := call_text collection operation argsString ";").
  pose proof (call_of_unterminated collection operation argsString Hc Hcc Ho Ha) as Hfirst.
  pose proof (call_of_call_text collection operation argsString Hc Hcc Ho Ha) as Hwhole.
  fold firstLine in Hfirst. fold whole in Hwhole.
  assert (Hkept : forall statement,
            call_of statement collection operation argsString ->
            is_skipped statement = false).
  { intros statement H. apply call_of_reaches_parser in H.
    unfold reaches_parser in H. apply andb_true_iff in H as [H _].
    by apply negb_true_iff in H. }
  assert (Htrim : TrimSpace firstLine = firstLine).
  { unfold firstLine. destruct (call_text_head collection operation argsString "")
      as (body & _ & ->).
    rewrite append_cons. by apply TrimSpace_unchanged. }
  (* the statement of the second script *)
  assert (H2 : splitIntoStatements whole = [whole]).
  { rewrite splitIntoStatements_flushed, (Split_lacks LF whole).
    2:{ by apply call_text_lacks. }
    cbn [fold_left]. rewrite flushed_step_kept by (by apply Hkept).
    cbn [ss_statements ss_current String.length Nat.ltb Nat.leb app].
    rewrite append_nil_l. unfold whole.
    by destruct (call_text_statement collection operation argsString) as [-> _]. }
  (* the statement of the firstLine script *)
  assert (H1 : exists statement,
            splitIntoStatements (firstLine +:+ String LF line) = [statement]
            /\ call_of statement collection operation argsString).
  { rewrite splitIntoStatements_flushed, (Split_app LF firstLine line).
    2:{ by apply call_text_lacks. }
    rewrite (Split_lacks LF line Ll). cbn [fold_left].
    set (init := {| ss_statements := []; ss_current := ""; ss_braceLevel := 0;
                    ss_inQuotes := false; ss_quoteChar := NUL |}).
    destruct (splitIntoStatements_step_kept init firstLine (Hkept firstLine Hfirst))
      as (current & Hcur & Hne & Hstep).
    cbn [init ss_current ss_statements String.length Nat.ltb Nat.leb] in Hcur.
    rewrite append_nil_l, Htrim in Hcur. subst current.
    destruct Hstep as [[Hstmts Hcurrent]|(_ & _ & Hsemi)].
    2:{ rewrite Htrim in Hsemi. exfalso. revert Hsemi. unfold firstLine.
        destruct (call_text_head collection operation argsString "") as (body & _ & ->).
        by rewrite HasSuffix_app_last_other. }
    destruct (is_skipped line) eqn:Hskip.
    - rewrite (splitIntoStatements_step_skipped _ line Hskip).
      exists firstLine. split; [|done]. unfold flushed. rewrite Hstmts, Hcurrent.
      rewrite length_pos. apply String.eqb_neq in Hne. by rewrite Hne.
    - exists (firstLine +:+ " " +:+ TrimSpace line). split.
      + rewrite flushed_step_kept, Hstmts, Hcurrent by done.
        rewrite length_pos. apply String.eqb_neq in Hne. rewrite Hne. cbn [negb app].
        rewrite WriteRune_ascii by done. unfold WriteByte, chr. by rewrite string_app_assoc.
      + by apply call_of_swallowed. }
  destruct H1 as (statement & H1 & Hcall).
  rewrite (single_statement_operations _ statement n H1).
  rewrite (single_statement_operations whole whole n H2).
  rewrite (step_call_operations collection operation argsString Hc Hcc Ho Ha statement n Hcall).
  by rewrite (step_call_operations collection operation argsString Hc Hcc Ho Ha whole n Hwhole).
Qed.

Lemma unterminated_call_swallows_next_line_witness :
  fst (result_of (parseJavaScriptOperations (RT:=refRuntime)
                    (call_text "a" "insertOne" "{x:1}" ""
                     +:+ String LF "db.b.insertOne({y:2});") 0)) =
  fst (result_of (parseJavaScriptOperations (RT:=refRuntime)
                    (call_text "a" "insertOne" "{x:1}" ";") 0)).
Proof.
  apply (unterminated_call_swallows_next_line (RT:=refRuntime)
           "a" "insertOne" "{x:1}" "db.b.insertOne({y:2});" 0); reflexivity.
Defined.

(** ** The slices of the call extractor are in range *)

Lemma prefix_length (p s : string) :
  String.prefix p s = true -> (String.length p <= String.length s)%nat.
Proof.
  intros H. destruct (prefix_split p s H) as [r ->]. rewrite length_append. lia.
Qed.

Lemma Index_range (s x : string) :
  Index s x <> (-1)%Z ->
  (0 <= Index s x)%Z /\ (Index s x + Z.of_nat (String.length x) <= Z.of_nat (String.length s))%Z.
Proof.
  induction s as [|c s IH].
  - destruct x; simpl; [lia|done].
  - rewrite Index_cons. destruct (String.prefix x (String c s)) eqn:Hp.
    + intros _. apply prefix_length in Hp. lia.
    + destruct (Z.eqb_spec (Index s x) (-1)); [done|]. intros _.
      destruct (IH n) as [H0 H1]. cbn [String.length]. lia.
Qed.

Lemma substring_length_exact (s : string) :
  forall n m,
    (n + m <= String.length s)%nat -> String.length (String.substring n m s) = m.
Proof.
  induction s as [|c s IH]; intros n m H.
  - simpl in H. assert (n = 0%nat /\ m = 0%nat) as [-> ->] by lia. done.
  - destruct n as [|n]; cbn [String.length String.substring] in *.
    + destruct m as [|m]; [done|]. cbn [String.length]. rewrite IH; lia.
    + apply IH. lia.
Qed.

Lemma sliceFrom_length (s : string) (lo : Z) :
  (0 <= lo <= Z.of_nat (String.length s))%Z ->
  Z.of_nat (String.length (sliceFrom s lo)) = (Z.of_nat (String.length s) - lo)%Z.
Proof.
  intros H. unfold sliceFrom. rewrite substring_length_exact; lia.
Qed.

Lemma sliceFrom_cons (c : ascii) (s : string) (lo : Z) :
  (0 <= lo)%Z -> sliceFrom (String c s) (lo + 1) = sliceFrom s lo.
Proof.
  intros H. unfold sliceFrom.
  replace (Z.to_nat (lo + 1)) with (S (Z.to_nat lo)) by lia. done.
Qed.

(** The text from the index that [Index] finds begins with what it sought. *)
Lemma Index_head (s : string) (x : ascii) :
  Index s (String x "") <> (-1)%Z ->
  exists t, sliceFrom s (Index s (String x "")) = String x t.
Proof.
  induction s as [|c s IH]; [done|].
  rewrite Index_cons. cbn [String.prefix].
  destruct (ascii_dec x c) as [->|Hne].
  - rewrite prefix_nil. intros _. exists s. unfold sliceFrom.
    change (Z.to_nat 0) with 0%nat. rewrite Nat.sub_0_r. apply substring_all.
  - destruct (Z.eqb_spec (Index s (String x "")) (-1)); [done|]. intros _.
    destruct (IH n) as [t Ht]. exists t.
    rewrite sliceFrom_cons; [done|]. pose proof (Index_lower_bound s (String x "")). lia.
Qed.

Lemma closeIndex_loop_range (s : string) :
  forall (i openCount parenIndex : Z),
    closeIndex_loop s i openCount parenIndex = (-1)%Z
    \/ (parenIndex + i <= closeIndex_loop s i openCount parenIndex
        < parenIndex + i + Z.of_nat (String.length s))%Z.
Proof.
  induction s as [|c s IH]; intros i k p; [by left|].
  cbn [closeIndex_loop String.length].
  destruct (c =? "(")%char.
  { destruct (IH (i + 1)%Z (k + 1)%Z p) as [->|H]; [by left|right; lia]. }
  destruct (c =? ")")%char.
  { destruct (k - 1 =? 0)%Z; [right; lia|].
    destruct (IH (i + 1)%Z (k - 1)%Z p) as [->|H]; [by left|right; lia]. }
  destruct (IH (i + 1)%Z k p) as [->|H]; [by left|right; lia].
Qed.

Lemma sliceChecked_in_range (s : string) (lo hi : Z) :
  (0 <= lo <= hi)%Z -> (hi <= Z.of_nat (String.length s))%Z ->
  sliceChecked s lo hi = Some (slice s lo hi).
Proof.
  intros H1 H2. unfold sliceChecked.
  destruct (Z.leb_spec 0 lo), (Z.leb_spec lo hi),
    (Z.leb_spec hi (Z.of_nat (String.length s))); try lia. done.
Qed.

Lemma sliceFromChecked_in_range (s : string) (lo : Z) :
  (0 <= lo <= Z.of_nat (String.length s))%Z ->
  sliceFromChecked s lo = Some (sliceFrom s lo).
Proof.
  intros H. unfold sliceFromChecked.
  destruct (Z.leb_spec 0 lo), (Z.leb_spec lo (Z.of_nat (String.length s))); try lia. done.
Qed.

(** X22. The call extractor of [parseMongoStatement] never slices out of
    range: for every statement, each of its slice expressions is evaluated
    with bounds that Go accepts, so it returns what the extractor without
    checks returns and never panics.  The same holds for the one slice of
    [parseDbCreateCollection] on the statements that reach it. *)
Theorem parseMongoStatement_slices_in_range (statement : string) :
  extractCallChecked statement = Some (extractCall statement)
  /\ (HasPrefix statement "db.createCollection(" = true ->
      LastIndex statement ")" <> (-1)%Z ->
      sliceChecked statement (Index statement "(" + 1) (LastIndex statement ")") =
      Some (slice statement (Index statement "(" + 1) (LastIndex statement ")"))).
Proof.
  split.
  - unfold extractCallChecked, extractCall.
    destruct (HasPrefix statement "db.") eqn:Hdb; cbn [negb]; [|done].
    destruct ((Index statement "." =? -1)%Z || negb (Index statement "." =? 2)%Z)
      eqn:Hfirst; [done|].
    apply orb_false_iff in Hfirst as [_ Hfirst].
    apply negb_false_iff, Z.eqb_eq in Hfirst.
    cbv zeta. rewrite Hfirst.
    pose proof (prefix_length "db." statement Hdb) as Hlen. cbn [String.length] in Hlen.
    rewrite sliceFromChecked_in_range by lia.
    pose proof (sliceFrom_length statement (2 + 1)) as Hafter.
    set (afterFirstDot := sliceFrom statement (2 + 1)) in *.
    destruct (Z.eqb_spec (Index afterFirstDot ".") (-1)) as [|Hsecond]; [done|].
    destruct (Index_range afterFirstDot "." Hsecond) as [Hs0 Hs1].
    cbn [String.length] in Hs1.
    rewrite sliceChecked_in_range, sliceFromChecked_in_range by lia.
    pose proof (sliceFrom_length statement (Index afterFirstDot "." + (2 + 1) + 1))
      as HopLen.
    set (operationPart := sliceFrom statement (Index afterFirstDot "." + (2 + 1) + 1)) in *.
    destruct (Z.eqb_spec (Index operationPart "(") (-1)) as [|Hparen]; [done|].
    destruct (Index_range operationPart "(" Hparen) as [Hp0 Hp1].
    cbn [String.length] in Hp1.
    rewrite sliceChecked_in_range, sliceFromChecked_in_range by lia.
    destruct (Index_head operationPart "(" Hparen) as [t Ht].
    pose proof (sliceFrom_length operationPart (Index operationPart "(")) as HfromLen.
    rewrite Ht in *. cbn [closeIndex_loop String.length] in *.
    change ("(" =? "(")%char with true. cbv iota.
    destruct (closeIndex_loop_range t (0 + 1) (0 + 1) (Index operationPart "("))
      as [->|Hclose]; [done|].
    destruct (Z.eqb_spec (closeIndex_loop t (0 + 1) (0 + 1) (Index operationPart "(")) (-1));
      [done|].
    by rewrite sliceChecked_in_range by lia.
  - intros Hprefix Hend. unfold HasPrefix in Hprefix.
    destruct (prefix_split _ _ Hprefix) as [r ->].
    assert (Hstart : Index ("db.createCollection(" +:+ r) "(" = 19%Z).
    { change ("db.createCollection(" +:+ r) with ("db.createCollection" +:+ String "(" r).
      by rewrite (Index_app_lacks "(" "db.createCollection"). }
    rewrite Hstart.
    assert (Hlast : forall s,
              LastIndex s ")" = (-1)%Z
              \/ (0 <= LastIndex s ")" < Z.of_nat (String.length s))%Z).
    { induction s as [|c s IH]; [by left|].
      cbn [LastIndex String.length].
      destruct (Z.leb_spec 0 (LastIndex s ")")); [right; destruct IH; lia|].
      destruct (String.prefix ")" (String c s)); [right; lia|by left]. }
    assert (Hshift : forall a s,
              lacks ")" a = true ->
              LastIndex (a +:+ s) ")" =
              if (LastIndex s ")" =? -1)%Z then (-1)%Z
              else (Z.of_nat (String.length a) + LastIndex s ")")%Z).
    { intros a s Ha. induction a as [|c a IH].
      - rewrite append_nil_l. cbn [String.length].
        destruct (Z.eqb_spec (LastIndex s ")") (-1)); [done|lia].
      - unfold lacks in Ha. simpl in Ha. apply andb_true_iff in Ha as [Hc Ha].
        apply negb_true_iff, Ascii.eqb_neq in Hc.
        rewrite append_cons. cbn [LastIndex String.length]. rewrite (IH Ha).
        destruct (Hlast s) as [E|E].
        + rewrite E. cbn [Z.eqb Z.leb Z.compare]. cbn [String.prefix].
          by destruct (ascii_dec ")" c) as [<-|].
        + destruct (Z.eqb_spec (LastIndex s ")") (-1)); [lia|].
          destruct (Z.leb_spec 0 (Z.of_nat (String.length a) + LastIndex s ")")); lia. }
    rewrite (Hshift "db.createCollection(" r eq_refl) in *.
    destruct (Z.eqb_spec (LastIndex r ")") (-1)); [done|].
    destruct (Hlast r) as [|Hr]; [done|].
    apply sliceChecked_in_range; rewrite ?length_append; cbn [String.length]; lia.
Qed.

Lemma parseMongoStatement_slices_in_range_witness :
  sliceChecked "db.createCollection()" (Index "db.createCollection()" "(" + 1)
    (LastIndex "db.createCollection()" ")") = Some "".
Proof.
  destruct (parseMongoStatement_slices_in_range "db.createCollection()") as [_ H].
  apply H; [reflexivity|vm_compute; discriminate].
Defined.

(** ** No single quote is left by the normaliser *)

Lemma ReplaceAll_lacks (s : string) (old new : ascii) :
  old <> new -> lacks old (ReplaceAll s old new) = true.
Proof.
  intros Hne. unfold lacks. induction s as [|c s IH]; [done|].
  cbn [ReplaceAll chars list_ascii_of_string forallb]. fold (chars (ReplaceAll s old new)).
  rewrite IH, andb_true_r. destruct (Ascii.eqb_spec c old) as [->|Hc].
  - apply negb_true_iff, Ascii.eqb_neq. congruence.
  - by apply negb_true_iff, Ascii.eqb_neq.
Qed.

Lemma WriteByte_lacks (x c : ascii) (b : string) :
  lacks x b = true -> (c =? x)%char = false -> lacks x (WriteByte b c) = true.
Proof.
  intros Hb Hc. unfold WriteByte, chr. by rewrite lacks_app, Hb, lacks_one, Ascii.eqb_sym, Hc.
Qed.

(** An ASCII character that a text lacks is not in the text as read. *)
Lemma lacks_rangeText (x : ascii) (s : string) :
  (code x < 128)%Z -> lacks x s = true -> lacks x (rangeText s) = true.
Proof.
  intros Hx.
  induction s as [|c t Hc IH|c t r rest Hc Hr Hrange Hsuf IH] using rangeString_ind.
  - done.
  - rewrite rangeText_ascii by done. unfold lacks in *.
    cbn [chars list_ascii_of_string forallb]. intros H.
    apply andb_true_iff in H as [-> H]. by apply IH.
  - intros H. rewrite (rangeText_cons _ _ _ Hrange).
    destruct (WriteRune_high "" r) as (d & e & He & Hhigh); [lia|].
    rewrite append_nil_l in He. rewrite He, lacks_app. apply andb_true_intro. split.
    + apply (forallb_lacks high); [|done]. apply not_true_iff_false. intros Hhx.
      unfold high in Hhx. lia.
    + apply IH. destruct Hsuf as (p & ->). unfold lacks in H.
      cbn [chars list_ascii_of_string forallb] in H. apply andb_true_iff in H as [_ H].
      change (lacks x (p +:+ rest) = true) in H. rewrite lacks_app in H.
      by apply andb_true_iff in H as [_ H].
Qed.

Lemma removeBytes_loop_lacks (x : ascii) (input : string) :
  forall inQuotes quoteChar result,
    lacks x input = true -> lacks x result = true ->
    lacks x (removeBytes_loop input inQuotes quoteChar result) = true.
Proof.
  induction input as [|c rest IH]; intros inQ qc result Hin Hres; [done|].
  unfold lacks in Hin. simpl in Hin. apply andb_true_iff in Hin as [Hc Hrest].
  apply negb_true_iff in Hc. fold (lacks x rest) in Hrest.
  pose proof (WriteByte_lacks x c result Hres Hc) as Hw.
  cbn [removeBytes_loop].
  destruct ((c =? DQ)%char || (c =? SQ)%char).
  { destruct (negb inQ); [by apply IH|]. destruct (c =? qc)%char; by apply IH. }
  destruct (c =? ",")%char; [|by apply IH].
  destruct inQ; [by apply IH|].
  destruct (dropWhile isLookaheadSpace rest) as [|next after]; [by apply IH|].
  destruct ((next =? "}")%char || (next =? "]")%char); by apply IH.
Qed.

Lemma dropWhile_lacks (x : ascii) (p : ascii -> bool) (s : string) :
  lacks x s = true -> lacks x (dropWhile p s) = true.
Proof.
  induction s as [|c s IH]; [done|]. intros H. cbn [dropWhile].
  destruct (p c); [|done]. apply IH. unfold lacks in *. simpl in H.
  by apply andb_true_iff in H as [_ H].
Qed.

Lemma takeWhile_keyChars (s : string) :
  forallb isKeyChar (chars (takeWhile isKeyChar s)) = true.
Proof.
  induction s as [|c s IH]; [done|]. cbn [takeWhile].
  destruct (isKeyChar c) eqn:E; [|done]. simpl. by rewrite E.
Qed.

Lemma stringOfByte_lacks_SQ (c : ascii) :
  (c =? SQ)%char = false -> lacks SQ (stringOfByte c) = true.
Proof. destruct c as [[] [] [] [] [] [] [] []]; by vm_compute. Qed.

Lemma addQuotesToKeys_loop_lacks (fuel : nat) :
  forall input inQuotes result,
    lacks SQ input = true -> lacks SQ result = true ->
    lacks SQ (addQuotesToKeys_loop fuel input inQuotes result) = true.
Proof.
  induction fuel as [|fuel IH]; intros input inQ result Hin Hres; [done|].
  destruct input as [|c rest]; [done|].
  pose proof Hin as Hall.
  unfold lacks in Hin. simpl in Hin. apply andb_true_iff in Hin as [Hc Hrest].
  apply negb_true_iff in Hc. fold (lacks SQ rest) in Hrest.
  assert (Hcopy : lacks SQ (result +:+ stringOfByte c) = true).
  { by rewrite lacks_app, Hres, stringOfByte_lacks_SQ. }
  cbn [addQuotesToKeys_loop].
  destruct (c =? DQ)%char; [by apply IH|].
  destruct inQ; [by apply IH|].
  destruct (isAlphaStart c); [|by apply IH].
  assert (Hkey : lacks SQ (takeWhile isKeyChar (String c rest)) = true).
  { apply (forallb_lacks isKeyChar); [done|apply takeWhile_keyChars]. }
  assert (Hafter : lacks SQ (dropWhile isBlank (dropWhile isKeyChar (String c rest))) = true).
  { by do 2 apply dropWhile_lacks. }
  destruct (dropWhile isBlank (dropWhile isKeyChar (String c rest))) as [|d after].
  { apply IH; [done|]. by rewrite lacks_app, Hres, Hkey. }
  rewrite (colon_match d after).
  destruct (d =? ":")%char; apply IH; try done.
  - rewrite !lacks_app, Hres, Hkey. done.
  - by rewrite lacks_app, Hres, Hkey.
Qed.

(** X23. The normaliser leaves no single quote: whatever the input, the
    text that [normalizeJavaScriptObject] returns holds none.  Every single
    quote becomes a double quote before anything else is looked at, an
    apostrophe inside a double-quoted literal included, and no later pass
    brings one back. *)
Theorem normalizeJavaScriptObject_leaves_no_single_quote (input : string) :
  lacks SQ (normalizeJavaScriptObject input) = true.
Proof.
  unfold normalizeJavaScriptObject.
  assert (H1 : lacks SQ (ReplaceAll input SQ DQ) = true) by (by apply ReplaceAll_lacks).
  assert (H2 : lacks SQ (removeTrailingCommas (ReplaceAll input SQ DQ)) = true).
  { rewrite removeTrailingCommas_bytes.
    by apply removeBytes_loop_lacks; [apply lacks_rangeText|]. }
  destruct (Contains _ "{" && Contains _ ":"); [|done].
  by apply addQuotesToKeys_loop_lacks.
Qed.

(** ** A document of one field *)

Lemma single_field_balanced (b1 key b2 b3 b4 : string) (number : Z) :
  is_word key = true -> all_blank b1 = true -> all_blank b2 = true ->
  all_blank b3 = true -> all_blank b4 = true ->
  number = 1%Z \/ number = (-1)%Z ->
  balanced_parens (single_field b1 key b2 b3 (direction_text number) b4) = true.
Proof.
  intros Hkey H1 H2 H3 H4 Hn.
  assert (Hd : forall x, (x =? "1")%char = false -> (x =? "-")%char = false ->
                         lacks x (direction_text number) = true).
  { intros x Hx1 Hxm.
    destruct Hn as [-> | ->];
      [change (direction_text 1) with "1"|change (direction_text (-1)) with "-1"];
      unfold lacks; cbn [chars list_ascii_of_string forallb];
      by rewrite 1?(Ascii.eqb_sym "-" x), ?Hxm, (Ascii.eqb_sym "1" x), Hx1. }
  apply lacks_balanced_parens; apply single_field_lacks; try done; by apply Hd.
Qed.

(** X24. A document of one field, from the text to the operation.  For a
    bare key and the number [1] or [-1], an insert gives the operation with
    the one document, and a delete the operation with the one filter, that
    maps the key to the number as a [float64]: unlike the values of an index
    specification, the numbers of a document are not turned into [int]s. *)
Theorem one_field_document_is_parsed `{RT : GoRuntime}
    (collection operation b1 key b2 b3 b4 : string) (number : Z) (n : nat) :
  ParseFloat "1" = Some (ofInt 1) -> ParseFloat "-1" = Some (ofInt (-1)) ->
  lacks "." collection = true ->
  HasPrefix collection "createCollection(" = false ->
  is_word key = true -> all_blank b1 = true -> all_blank b2 = true ->
  all_blank b3 = true -> all_blank b4 = true ->
  number = 1%Z \/ number = (-1)%Z ->
  let document : bsonM := Some (<[key := VFloat64 (ofInt number)]> ∅) in
  let statement :=
    call_text collection operation
      (single_field b1 key b2 b3 (direction_text number) b4) ";" in
  (operation = "insertOne" \/ operation = "insertMany" ->
   parseMongoStatement statement n =
   ((Some {| op_Type := "insert"; op_Collection := collection;
             op_Operation := operation; op_Arguments := [document];
             op_IndexSpec := None; op_IndexOptions := None;
             op_Validator := None |}, None), [], n))
  /\ (operation = "deleteOne" \/ operation = "deleteMany" ->
      parseMongoStatement statement n =
      ((Some {| op_Type := "delete"; op_Collection := collection;
                op_Operation := operation; op_Arguments := [document];
                op_IndexSpec := None; op_IndexOptions := None;
                op_Validator := None |}, None), [], n)).
Proof.
  intros Hone Hminus Hc Hcc Hkey H1 H2 H3 H4 Hn document statement.
  pose proof (single_field_balanced b1 key b2 b3 b4 number Hkey H1 H2 H3 H4 Hn) as Hbal.
  assert (Htext : direction_text number = "1" \/ direction_text number = "-1").
  { unfold direction_text. destruct Hn as [-> | ->]; auto. }
  assert (Hfloat : ParseFloat (direction_text number) = Some (ofInt number)).
  { unfold direction_text. by destruct Hn as [-> | ->]. }
  pose proof (parseJSONLikeString_single_field b1 key b2 b3 (direction_text number) b4
                (ofInt number) Hkey H1 H2 H3 H4 Htext Hfloat) as Hparse.
  split; intros Ho; unfold statement.
  - assert (Hl : lacks "(" operation = true) by (by destruct Ho as [-> | ->]).
    rewrite (parseMongoStatement_call_text collection operation _ Hc Hcc Hl Hbal).
    unfold parseInsert, ret. rewrite Hparse. by destruct Ho as [-> | ->].
  - assert (Hl : lacks "(" operation = true) by (by destruct Ho as [-> | ->]).
    rewrite (parseMongoStatement_call_text collection operation _ Hc Hcc Hl Hbal).
    unfold parseDelete, ret. rewrite Hparse. by destruct Ho as [-> | ->].
Qed.

Lemma one_field_document_is_parsed_witness :
  parseMongoStatement (RT:=refRuntime)
    (call_text "users" "insertOne" (single_field "" "age" "" " " "1" "") ";") 0 =
  ((Some {| op_Type := "insert"; op_Collection := "users";
            op_Operation := "insertOne";
            op_Arguments := [Some (<["age" := VFloat64 (ofInt 1)]> ∅)];
            op_IndexSpec := None; op_IndexOptions := None;
            op_Validator := None |}, None), [], 0%nat).
Proof.
  destruct (one_field_document_is_parsed (RT:=refRuntime)
              "users" "insertOne" "" "age" "" " " "" 1 0
              eq_refl eq_refl eq_refl eq_refl eq_refl eq_refl eq_refl eq_refl eq_refl
              (or_introl eq_refl)) as [H _].
  apply H. by left.
Defined.
